(* ===== verification/_CoqProject ===== *)
-Q . S2P
Prelude.v
Bytes.v
Identifiers.v
Json.v
Extern.v
Samples.v
Net.v
S3Store.v
Auth.v
Authz.v
EntityChain.v
PublishDecision.v
Moderation.v
PublishGate.v
ModerationApi.v
ModerationTasks.v
CatalogMetadata.v
CreatorCatalog.v
CatalogV2.v
Validation.v
Config.v
Secrets.v
Tls.v
Routes.v
Ingest.v
CatalogsApi.v
CatalogsV2Api.v
CatalogPublish.v
CatalogConcurrency.v
S3Reader.v
S3Serve.v
Staging.v
Node.v
Connections.v
Startup.v
Restart.v
TestClient.v
PushTasks.v
EndToEnd.v
ClientNode.v
HttpServer.v
ModeratedNode.v
CatalogRoundTrip.v
