(* ===== verification/Prelude.v ===== *)
(** * tdf-iroh-s3: a verification development

    The repository is a peer that accepts TDF archives pushed over iroh,
    validates them, stores them in S3 and serves them from there; creators
    publish signed catalogs over HTTP, operators moderate, and a platform
    decision service says who may publish and who may read.

    ** The program and the files that model it

    A push enters through the blobs protocol ([node.rs]); the publish gate
    ([moderation.rs]) says whether its endpoint has a session; the ingest
    ([ingest.rs]) validates it ([validation/]) and uploads it
    ([store/s3.rs]). Fetches are answered from S3 ([s3_serve.rs]). Sessions,
    suspensions and blocks are made over HTTP ([moderation.rs]), where tokens
    are verified ([auth.rs]) and the decision service asked ([authz.rs],
    [publish_decision.rs], [entity_chain.rs]). Catalogs are published and read
    ([catalogs_v2_api.rs], [catalogs_api.rs], [tags_api.rs]) as signed pointers
    ([catalog_v2.rs]) to documents ([catalog_metadata.rs],
    [creator_catalog.rs]).

    - [Prelude.v]: results, the state-and-error monad [comp], machine integers
      at their width, inversion of runs ([inv_run]), invariants ([stable]) and
      Hoare triples ([triple]) of effectful operations, the hint database
      [tdf].
    - [Bytes.v], [Identifiers.v]: strings as bytes, and the identifier,
      timestamp and subject checks of several modules.
    - [Json.v], [Extern.v], [Net.v]: documents and derived [Deserialize]; the
      crates the program calls; URLs and addresses.
    - [Samples.v]: small instances of those interfaces for the witnesses.
    - [S3Store.v]: [store/s3.rs]. A bucket is a map of objects with a log of
      the requests made; a service may refuse a request, lose the answer to a
      write, or answer a conditional write with a conflict.
    - [Auth.v]: [auth.rs], the state being the verifier's key cache.
    - [Authz.v], [EntityChain.v], [PublishDecision.v]: the two decision
      clients and what they are asked. [DecisionProvider] is the interface
      their callers use; [EvidencedProvider] what a permit means.
    - [Moderation.v], [PublishGate.v], [ModerationApi.v]: [moderation.rs] in
      three parts. [ModerationStore] and [LawfulStore] are the interface to
      the store, which the bucket implements ([bucket_lawful]).
    - [ModerationTasks.v]: the operators' handlers split where they wait, any
      number of them in flight on nodes that share the bucket ([desk_step]).
    - [CatalogMetadata.v], [CreatorCatalog.v], [CatalogV2.v]: the modules of
      those names.
    - [Validation.v], [Ingest.v]: [validation/] and [ingest.rs].
    - [CatalogsApi.v], [CatalogsV2Api.v]: [tags_api.rs] with
      [catalogs_api.rs], and [catalogs_v2_api.rs]. [TagStore] is their store.
    - [CatalogPublish.v]: what a publish does in terms of the objects alone.
    - [CatalogConcurrency.v]: any number of publishes at once, the others
      being an environment that acts between two requests to the store.
    - [S3Reader.v], [S3Serve.v]: [s3_serve.rs], the range reader apart.
    - [Staging.v]: [staging.rs].
    - [Node.v], [Connections.v]: the requests and the push task of [node.rs];
      its table of connections beside the gate's.
    - [Config.v]: [config.rs], the sections of the file, their defaults and how
      they are read.
    - [Secrets.v]: [secret_key.rs], [ssm.rs] and the test client's key file.
      The parameter store is a map other processes change between requests.
    - [Tls.v]: [tls.rs]. The disk is a function of the moment, and every look
      at it takes one.
    - [Routes.v]: the routers of the HTTP modules, their merge and dispatch,
      and [node_api.rs].
    - [Startup.v]: [main.rs] with [TdfIrohNode::spawn_with_gate], from the
      configuration to the bound listeners, and the exit.
    - [Restart.v]: a publish session from its opening through a restart to a
      push: the composition of five of the files above.
    - [TestClient.v]: [test_cli/] and [bin/test_cli.rs].
    - [PushTasks.v]: the spawned push tasks of [node.rs] as small steps, any
      number of them at once, beside the gate, the collector, the removals of
      scratch files and the other writers of the bucket ([elsewhere]).
    - [EndToEnd.v]: a push through [PushTasks.v] and a later fetch through
      [S3Serve.v]; [BaoTree] says what the two uses of bao-tree share.
    - [ClientNode.v]: the test client against the node, and the helpers of
      the client that only make a transfer stall, end early or be observed.
    - [HttpServer.v]: the router with the handlers behind it, on the state
      they share ([Server]): a request from its path through axum's extractors
      and its handler to the answer ([serve_http]), and which objects of the
      bucket it may write ([written_by]).
    - [ModeratedNode.v]: the moderation view over time. The refresh task of
      [spawn_refresh] in the steps its listings make, between HTTP requests,
      operator actions in flight, pushes and other writers ([world_step]).
    - [CatalogRoundTrip.v]: a catalog from its publish, through the requests
      that come between ([meanwhile]), to its readers.

    ** How code becomes definitions

    A pure function is a Rocq function of the same name; a method that may
    fail or changes state is a [comp S E A], the [?] operator being the
    monadic bind, so the early returns are those of the code. An HTTP handler
    is one [comp] whose error is the refusal it answers. A [HashMap] is a
    [gmap], a [HashSet] a [gset]; integers are [Z] with their wrap-around
    written out ([i64_sub], [u64_saturating_sub]). Clocks and the answers of
    the network are arguments, so every theorem holds for any of them.
    Timeouts are errors. A spawned task is a definition of its own, and the
    steps of a component a step relation where they interleave ([gate_step],
    [server_step], [stage_step], [publish_step], [PushTasks.step]). A step of
    a push task ends where the code awaits.

    ** What the theorems show

    - Pushes: exactly which are accepted ([authorize_push_exact]), what an
      accepted one does to the node and the bucket ([push_task_effects]), when
      it counts as ingested ([ingest_attempts_exact]), what an archive must be to
      pass, and that with the optional checks off exactly that passes
      ([validate_archive_sound]), and that reading one is bounded. Pushes that
      run at once keep the bucket true to its names
      ([concurrent_pushes_sound]), hold a bounded number of permits
      ([push_resources_bounded]) and end ([pushes_end]); one alone does what
      [push_task] does ([alone_is_push_task]).
    - From push to fetch: what was ingested is answered to a permitted fetch
      ([pushed_is_fetched]), and a client that fetches it writes the bytes
      another pushed ([push_fetch_roundtrip]).
    - Fetches: what is sent is the encoding of the stored object
      ([send_refines_memory], [range_reads_exact]), only for content that is
      stored and not withheld ([fetches_guarded], [check_exact]), and a missing
      outboard is repaired ([outboard_repaired]).
    - Moderation: an action writes exactly the record asked for, after an audit
      event that says so ([moderation_actions_audited]); the audit log is
      complete and only added to, also when actions interleave
      ([records_audited]), though crossing actions on one record can leave the
      view and the bucket apart until the next refresh ([crossed_actions]); the
      view refines the store ([refresh_refines_store]); a block that was answered holds until it is
      lifted ([blocked_until_lifted]), but for a refresh that had already
      listed the blocks, which forgets it until the next
      ([refresh_forgets_block]).
    - HTTP: whatever the request, it writes only what it is entitled to
      ([http_writes_authorized]).
    - Tokens and decisions: exactly which tokens are accepted
      ([verify_with_accepts]) and who may publish ([publisher_exact]); a permit
      needs the platform's answer for that subject
      ([publish_permit_needs_pdp], [authzen_decide_positional]); every member
      of what is disclosed to it ([authzen_request_discloses]) and where it
      goes ([decision_requests_stay_on_origin]).
    - Catalogs: exactly which bundles are accepted ([bundle_exact]) and which
      catalogs are published, with what is stored then ([publish_exact]);
      pointers never dangle and sequence numbers grow under concurrent
      publishes ([concurrent_publishes_sound]);
      reads are decided, on the attribute of the catalog's index record
      ([catalog_reads_decided]); what was published is what
      its readers get ([catalog_put_get]).
    - Start and restart: a failed start never listened for HTTP, and opened the
      iroh endpoint only behind the gate of the configuration; one that succeeds
      passed every check ([startup_checked]); a gated node comes up with the
      suspensions and blocks of the bucket, in a state the gate's invariants
      are about ([startup_gate_loaded]); it keeps its identity
      ([node_identity_durable]) and so, in every decision mode, its publish
      sessions ([sessions_survive_restart], from one start to the next); HTTPS comes up and follows the files
      ([https_catches_up], [served_pair_loaded]).
    - Configuration: what the file leaves out is the default
      ([omitted_settings_default]), and protection is never off by omission
      ([unprotected_only_if_set]).
    - The client: its session request is one the node accepts
      ([client_session_accepted]), its wait ends ([wait_for_ingest_exact]),
      and a refused push is reported ([client_refused]).
    - Bounds: misses, lookups, servable and corrupt hashes, key-set fetches,
      central-directory reads, catalog entries.

    ** Bounds, fuel and assumptions

    [list_loop] takes the number of objects plus one as fuel, and
    [read_exact_loop] the bytes wanted; both are proved enough
    ([list_moderation_records_exact], [range_reads_exact]). [skip_to] takes the
    four rounds that cover [SKIP_LIMIT]. The watchdog of [Staging.v] is shown
    to end for enough looks, [load_when_ready] for one round more than the
    moment from which a pair stays, and [wait_for_ingest] for two polls more
    than its timeout has steps. A push task takes at most 31 steps: ten looks
    at the staged blob and three uploads with their waits, and the steps before
    and after ([pushes_end]). Everything else is structural.

    Crates are parameters, one class each ([Extern.v] and beside their
    users). What theorems assume of them is named: [SerdeRoundTrip] (serde_json
    reads what it wrote), [SealLaws] (hex and keyed hashes have their sizes and
    read back), [HexLaws] (hex is read back and has only hex digits),
    [SigningLaws] (Ed25519 signatures verify), [BaoServeLaws] (bao-tree ends at
    a failed read or write), [BaoTree] (the outboard bao-tree computes is the
    one it reads, and a root binds one content), [root_is_blake3] (that root is
    the blob's hash), [BlobsClientLaws] (iroh-blobs verifies what it receives),
    [AxumLaws] (what axum answers by itself is a client error), [clock_ok] (the
    clock tells the time in an [i64]),
    injectivity of the hex of scratch names, for certificates that a rewrite
    changes a file's modification time, and for the bucket distinct entity tags
    for distinct bodies and listing pages that are not empty. Each has an
    instance in a witness.

    ** Simplifications

    The members of a JSON object keep the order they are written in, also
    where serde_json's map sorts them; nothing the program reads depends on it.
    The moderation view is the one a request finds when it starts. The lookups
    of one catalog upload, which only read, run one after the other. A file is
    a fixed content with offsets at which reading fails. In [Node.v] a push
    task runs to its end before the next event; [PushTasks.v] interleaves them,
    and [CatalogConcurrency.v] the publishes of catalogs. In [HttpServer.v] and
    the files above it a request runs to its end before the next, except that
    in [ModerationTasks.v] and [ModeratedNode.v] an operator's action also runs
    in turns; there each listing of a refresh is one step, and so is the
    replacement of the view. [records_audited] takes it that the clocks are
    past the events already stored and that no two actions on one record read
    the same nanosecond; that their events then have different names is proved.
    The theorems about pushes take it that this node alone stores blobs and
    publisher records under its prefix ([PushTasks.elsewhere]); any other write
    to the bucket may come between. [SerdeRoundTrip] is stated without
    serde_json's own limits (128 levels, 64-bit integers, UTF-8 text), which
    what the program prints was read or built within. axum answers HEAD where it
    answers GET, without the body; requests are GET, PUT, POST or DELETE here.
    Adding a session's lifetime to an [Instant] panics when the configured
    lifetime exceeds what the platform's clock holds; a lifetime is assumed
    below that.

    ** Not modelled

    The code of iroh, iroh-blobs, axum, rustls and the AWS clients, which are
    parameters; command-line parsing; constructors of HTTP clients with their
    timeouts. Logging is left out throughout. *)

From Stdlib Require Export ZArith Ascii.
From stdpp Require Export base numbers pretty gmap strings list prelude.

#[export] Set Warnings "-clear-no-such-hyp".

Create HintDb tdf discriminated.
Create Rewrite HintDb tdf.

(** ** Errors as values

    Rust's [Result<A, E>], with the error first so that [result E] is a
    monad; [x ← m; k] is the [?] operator. *)

Inductive result (E A : Type) : Type :=
| Ok (a : A)
| Err (e : E).
Arguments Ok {E A} a.
Arguments Err {E A} e.

#[export] Instance result_ret {E} : MRet (result E) := fun A a => Ok a.

#[export] Instance result_bind {E} : MBind (result E) := fun A B f m =>
  match m with Ok a => f a | Err e => Err e end.

#[export] Instance result_fmap {E} : FMap (result E) := fun A B f m =>
  match m with Ok a => Ok (f a) | Err e => Err e end.

#[export] Instance result_eq_dec {E A} `{!EqDecision E, !EqDecision A} :
  EqDecision (result E A).
Proof. solve_decision. Defined.

(** [o.ok_or(e)] *)
Definition ok_or {E A} (o : option A) (e : E) : result E A :=
  match o with Some a => Ok a | None => Err e end.

(** [r.map_err(f)] *)
Definition map_err {E F A} (f : E -> F) (r : result E A) : result F A :=
  match r with Ok a => Ok a | Err e => Err (f e) end.

(** [r.ok()] *)
Definition ok {E A} (r : result E A) : option A :=
  match r with Ok a => Some a | Err _ => None end.

Definition is_ok {E A} (r : result E A) : bool :=
  match r with Ok _ => true | Err _ => false end.

(** [if !b { return Err(e) }] *)
Definition ensure {E} (b : bool) (e : E) : result E unit :=
  if b then Ok tt else Err e.

(** [iter.map(f).collect::<Result<Vec<_>, _>>()]: the first error wins. *)
Fixpoint try_map {E A B} (f : A -> result E B) (l : list A) : result E (list B) :=
  match l with
  | [] => Ok []
  | x :: l => y ← f x; ys ← try_map f l; Ok (y :: ys)
  end.

(** ** State with errors

    An effectful operation: it runs against a state and returns a result and
    the state it leaves, also when it fails (an [Err] keeps the effects made
    before it). *)

Definition comp (S E A : Type) : Type := S -> result E A * S.

#[export] Instance comp_ret {S E} : MRet (comp S E) := fun A a s => (Ok a, s).

#[export] Instance comp_bind {S E} : MBind (comp S E) := fun A B f m s =>
  match m s with
  | (Ok a, s') => f a s'
  | (Err e, s') => (Err e, s')
  end.

(** A pure result inside an effectful operation. *)
Definition lift {S E A} (r : result E A) : comp S E A := fun s => (r, s).

Definition get {S E} : comp S E S := fun s => (Ok s, s).

Definition modify {S E} (f : S -> S) : comp S E unit := fun s => (Ok tt, f s).

Definition throw {S E A} (e : E) : comp S E A := fun s => (Err e, s).

(** [m.map_err(f)] *)
Definition comp_map_err {S E F A} (f : E -> F) (m : comp S E A) : comp S F A :=
  fun s => let '(r, s') := m s in (map_err f r, s').

(** An operation whose result, error included, the caller inspects. *)
Definition attempt {S E F A} (m : comp S E A) : comp S F (result E A) :=
  fun s => let '(r, s') := m s in (Ok r, s').

(** An operation on a part of the state. *)
Definition zoom {S T E A} (proj : S -> T) (put : T -> S -> S) (m : comp T E A) :
  comp S E A :=
  fun s => let '(r, t) := m (proj s) in (r, put t s).

(** ** Machine integers *)

Definition i64_min : Z := - 2 ^ 63.
Definition i64_max : Z := 2 ^ 63 - 1.
Definition u64_max : Z := 2 ^ 64 - 1.

(** Two's-complement wrap-around of a 64-bit signed result (release
    builds; the crate sets no [overflow-checks]). *)
Definition i64_wrap (z : Z) : Z := (z + 2 ^ 63) mod 2 ^ 64 - 2 ^ 63.
Definition i64_add (a b : Z) : Z := i64_wrap (a + b).
Definition i64_sub (a b : Z) : Z := i64_wrap (a - b).
Definition i64_abs (a : Z) : Z := i64_wrap (Z.abs a).

(** [u64] arithmetic that saturates or wraps. *)
Definition u64_wrap (z : Z) : Z := z mod 2 ^ 64.
Definition u64_saturating_add (a b : Z) : Z := Z.min (a + b) u64_max.
Definition u64_saturating_sub (a b : Z) : Z := Z.max (a - b) 0.

Definition in_i64 (z : Z) : bool := (i64_min <=? z)%Z && (z <=? i64_max)%Z.
Definition in_u64 (z : Z) : bool := (0 <=? z)%Z && (z <=? u64_max)%Z.

(** [i64::try_from(i128)] *)
Definition i64_try_from (z : Z) : option Z := if in_i64 z then Some z else None.

(** Durations and instants count nanoseconds. *)
Definition secs (n : Z) : Z := n * 1000000000.

(** Linear arithmetic with division and remainder by constants. *)
Ltac dlia := Z.to_euclidean_division_equations; lia.

Lemma i64_wrap_id z : (i64_min <= z <= i64_max)%Z -> i64_wrap z = z.
Proof.
  unfold i64_wrap, i64_min, i64_max. intros H.
  rewrite Z.mod_small by lia. lia.
Qed.

Lemma i64_wrap_range z : (i64_min <= i64_wrap z <= i64_max)%Z.
Proof.
  unfold i64_wrap, i64_min, i64_max.
  pose proof (Z.mod_pos_bound (z + 2 ^ 63) (2 ^ 64) ltac:(lia)). lia.
Qed.

Lemma i64_add_id a b : (i64_min <= a + b <= i64_max)%Z -> i64_add a b = (a + b)%Z.
Proof. apply i64_wrap_id. Qed.

Lemma i64_sub_id a b : (i64_min <= a - b <= i64_max)%Z -> i64_sub a b = (a - b)%Z.
Proof. apply i64_wrap_id. Qed.

(** ** Inverting runs

    [inv_run] turns a hypothesis that a monadic expression returned [Ok] into
    the runs of its parts. *)

Lemma result_bind_ok {E A B} (m : result E A) (f : A -> result E B) b :
  m ≫= f = Ok b <-> exists a, m = Ok a /\ f a = Ok b.
Proof. destruct m as [a|e]; cbn; naive_solver. Qed.

Lemma result_fmap_ok {E A B} (m : result E A) (f : A -> B) b :
  f <$> m = Ok b <-> exists a, m = Ok a /\ f a = b.
Proof. destruct m as [a|e]; cbn; naive_solver. Qed.

Lemma comp_bind_ok {S E A B} (m : comp S E A) (f : A -> comp S E B) s b s' :
  (m ≫= f) s = (Ok b, s') <->
  exists a s1, m s = (Ok a, s1) /\ f a s1 = (Ok b, s').
Proof.
  unfold mbind, comp_bind. destruct (m s) as [[a|e] s1]; naive_solver.
Qed.

(** The state a sequence leaves, whatever it returns. *)
Lemma comp_bind_state {S E A B} (m : comp S E A) (f : A -> comp S E B) s r s' :
  (m ≫= f) s = (r, s') <->
  (exists a s1, m s = (Ok a, s1) /\ f a s1 = (r, s')) \/
  (exists e, m s = (Err e, s') /\ r = Err e).
Proof.
  unfold mbind, comp_bind. destruct (m s) as [[a|e] s1]; naive_solver.
Qed.

Lemma lift_ok {S E A} (r : result E A) (s : S) a s' :
  lift r s = (Ok a, s') <-> r = Ok a /\ s' = s.
Proof. unfold lift. naive_solver. Qed.

Lemma comp_ret_ok {S E A} (a b : A) (s s' : S) :
  mret (M := comp S E) a s = (Ok b, s') <-> b = a /\ s' = s.
Proof. unfold mret, comp_ret. naive_solver. Qed.

Lemma throw_ok {S E A} (e : E) (s : S) (a : A) s' : throw e s = (Ok a, s') <-> False.
Proof. unfold throw. naive_solver. Qed.

Lemma ok_or_ok {E A} (o : option A) (e : E) a : ok_or o e = Ok a <-> o = Some a.
Proof. destruct o; cbn; naive_solver. Qed.

Lemma ensure_ok {E} (b : bool) (e : E) u : ensure b e = Ok u <-> b = true.
Proof. destruct b, u; cbn; naive_solver. Qed.

Lemma map_err_ok {E F A} (f : E -> F) (r : result E A) a : map_err f r = Ok a <-> r = Ok a.
Proof. destruct r; cbn; naive_solver. Qed.

Lemma comp_map_err_ok {S E F A} (f : E -> F) (m : comp S E A) s a s' :
  comp_map_err f m s = (Ok a, s') <-> m s = (Ok a, s').
Proof. unfold comp_map_err. destruct (m s) as [[b|e] s1]; cbn; naive_solver. Qed.

Ltac inv_run_in H :=
  match type of H with
  | (mbind _ _) _ = (Ok _, _) => apply comp_bind_ok in H as (? & ? & ? & H)
  | mbind _ _ = Ok _ => apply result_bind_ok in H as (? & ? & H)
  | fmap _ _ = Ok _ => apply result_fmap_ok in H as (? & ? & H)
  | lift _ _ = (Ok _, _) => apply lift_ok in H as [? ?]
  | mret _ _ = (Ok _, _) => apply comp_ret_ok in H as [? ?]
  | throw _ _ = (Ok _, _) => by apply throw_ok in H
  | ok_or _ _ = Ok _ => apply ok_or_ok in H
  | ensure _ _ = Ok _ => apply ensure_ok in H
  | map_err _ _ = Ok _ => apply map_err_ok in H
  | comp_map_err _ _ _ = (Ok _, _) => apply comp_map_err_ok in H
  end.

Ltac inv_run :=
  repeat (match goal with
          | H : _ = Ok _ |- _ => progress inv_run_in H
          | H : _ = (Ok _, _) |- _ => progress inv_run_in H
          | p : _ * _ |- _ => destruct p
          end; subst; cbn beta in * ).

(** [case_if H]: split on the first condition of [H]. *)
Ltac split_if H :=
  match type of H with
  | context [if ?b then _ else _] => destruct b eqn:?
  | context [match ?o with _ => _ end] => destruct o eqn:?
  end.

(** ** Invariants of effectful operations

    [stable I m Q]: whatever [m] returns, it keeps [I], and a result it
    returns satisfies [Q]. *)

Definition stable {S E A} (I : S -> Prop) (m : comp S E A) (Q : A -> Prop) : Prop :=
  forall s r s', m s = (r, s') -> I s -> I s' /\ (forall a, r = Ok a -> Q a).

Section Stable.
Context {S E : Type} (I : S -> Prop).

Lemma stable_bind {A B} (m : comp S E A) (f : A -> comp S E B) Q R :
  stable I m Q -> (forall a, Q a -> stable I (f a) R) -> stable I (m ≫= f) R.
Proof.
  intros Hm Hf s r s' H Hs.
  apply comp_bind_state in H as [(a & s1 & H1 & H2)|(e & H1 & ->)].
  - destruct (Hm _ _ _ H1 Hs) as [Hs1 Ha]. exact (Hf a (Ha a eq_refl) _ _ _ H2 Hs1).
  - destruct (Hm _ _ _ H1 Hs) as [Hs1 _]. by split.
Qed.

Lemma stable_ret {A} (a : A) (Q : A -> Prop) : Q a -> stable (E := E) I (mret a) Q.
Proof. intros Ha s r s' [= <- <-] Hs. split; [done|]. by intros ? [= <-]. Qed.

Lemma stable_throw {A} (e : E) (Q : A -> Prop) : stable I (throw e) Q.
Proof. intros s r s' [= <- <-] Hs. by split. Qed.

Lemma stable_lift {A} (x : result E A) (Q : A -> Prop) :
  (forall a, x = Ok a -> Q a) -> stable I (lift x) Q.
Proof. intros Ha s r s' [= <- <-] Hs. by split. Qed.

Lemma stable_get : stable (E := E) I get I.
Proof. intros s r s' [= <- <-] Hs. split; [done|]. by intros ? [= <-]. Qed.

Lemma stable_modify (f : S -> S) :
  (forall s, I s -> I (f s)) -> stable (E := E) I (modify f) (fun _ => True).
Proof. intros Hf s r s' [= <- <-] Hs. by split; [apply Hf|]. Qed.

Lemma stable_map_err {F A} (f : F -> E) (m : comp S F A) (Q : A -> Prop) :
  stable I m Q -> stable I (comp_map_err f m) Q.
Proof.
  intros Hm s r s' H Hs. unfold comp_map_err in H. destruct (m s) as [r0 s0] eqn:Em.
  injection H as <- <-. destruct (Hm _ _ _ Em Hs) as [? HQ]. split; [done|].
  destruct r0; [|done]. intros a' [= <-]. by apply HQ.
Qed.

Lemma stable_zoom {T A} (proj : T -> S) put (m : comp S E A) (Q : A -> Prop) :
  (forall s t, proj (put s t) = s) -> stable I m Q -> stable (fun t => I (proj t)) (zoom proj put m) Q.
Proof.
  intros Hp Hm t r t' H Ht. unfold zoom in H. destruct (m (proj t)) as [r0 s0] eqn:Em.
  injection H as <- <-. rewrite Hp. by eapply Hm.
Qed.

Lemma stable_weaken {A} (m : comp S E A) (Q R : A -> Prop) :
  stable I m Q -> (forall a, Q a -> R a) -> stable I m R.
Proof. intros Hm HQR s r s' H Hs. destruct (Hm _ _ _ H Hs). split; auto. Qed.
End Stable.

#[export] Hint Resolve stable_ret stable_throw : tdf.

(** A composition of operations that keep an invariant; [leaf] solves the
    operations themselves. *)
Ltac stable_steps leaf :=
  repeat first
    [ by apply stable_ret | apply stable_throw | by apply stable_lift | by apply stable_modify
    | eapply stable_weaken; [apply stable_get|done]
    | leaf
    | eapply (stable_bind _ _ _ (fun _ => True)); [|intros ? _]
    | case_match ].

(** That the run [H] keeps [I]. *)
Ltac run_keeps H I := match type of H with ?k _ = _ => assert (stable I k (fun _ => True)) as Hk end.

(** Cases on a run that evaluation shows to succeed. *)
Ltac succeeds run a s E :=
  let H := fresh in
  assert (is_ok (fst run) = true) as H by (vm_compute; reflexivity);
  destruct run as [[a|?] s] eqn:E; [clear H|discriminate H].

(** ** Hoare triples

    [triple I m Q X]: from a state in [I], [m] returns a result and a state
    in [Q], or fails in a state in [X]. *)

Definition triple {S E A} (I : S -> Prop) (m : comp S E A) (Q : A -> S -> Prop) (X : S -> Prop) : Prop :=
  forall s r s', m s = (r, s') -> I s -> match r with Ok a => Q a s' | Err _ => X s' end.

Section Triples.
Context {S E : Type}.

Lemma triple_bind {A B} I (m : comp S E A) (f : A -> comp S E B) Q R X :
  triple I m Q X -> (forall a, triple (Q a) (f a) R X) -> triple I (m ≫= f) R X.
Proof.
  intros Hm Hf s r s' H Hs.
  apply comp_bind_state in H as [(a & s1 & H1 & H2)|(e & H1 & ->)].
  - exact (Hf a _ _ _ H2 (Hm _ _ _ H1 Hs)).
  - exact (Hm _ _ _ H1 Hs).
Qed.

Lemma triple_ret {A} (I : S -> Prop) (a : A) (Q : A -> S -> Prop) X :
  (forall s, I s -> Q a s) -> triple (E := E) I (mret a) Q X.
Proof. intros Ha s r s' [= <- <-] Hs. auto. Qed.

Lemma triple_throw {A} (I : S -> Prop) (e : E) (Q : A -> S -> Prop) X :
  (forall s, I s -> X s) -> triple I (throw e) Q X.
Proof. intros Ha s r s' [= <- <-] Hs. auto. Qed.

Lemma triple_lift {A} (I : S -> Prop) (x : result E A) (Q : A -> S -> Prop) X :
  (forall a s, x = Ok a -> I s -> Q a s) -> (forall s, I s -> X s) -> triple I (lift x) Q X.
Proof. intros Ha Hx s r s' [= <- <-] Hs. destruct x; auto. Qed.

Lemma triple_map_err {F A} I (f : E -> F) (m : comp S E A) Q X :
  triple I m Q X -> triple I (comp_map_err f m) Q X.
Proof.
  intros Hm s r s' H Hs. unfold comp_map_err in H. destruct (m s) as [r0 s0] eqn:Em.
  injection H as <- <-. specialize (Hm _ _ _ Em Hs). by destruct r0.
Qed.

Lemma triple_zoom {T A} (proj : T -> S) put I (m : comp S E A) Q X :
  (forall s t, proj (put s t) = s) ->
  triple I m Q X -> triple (fun t => I (proj t)) (zoom proj put m) (fun a t => Q a (proj t)) (fun t => X (proj t)).
Proof.
  intros Hp Hm t r t' H Ht. unfold zoom in H. destruct (m (proj t)) as [r0 s0] eqn:Em.
  injection H as <- <-. specialize (Hm _ _ _ Em Ht). rewrite Hp. by destruct r0.
Qed.

Lemma triple_weaken {A} (I I' : S -> Prop) (m : comp S E A) Q Q' (X X' : S -> Prop) :
  triple I' m Q' X' -> (forall s, I s -> I' s) -> (forall a s, Q' a s -> Q a s) -> (forall s, X' s -> X s) ->
  triple I m Q X.
Proof.
  intros Hm HI HQ HX s r s' H Hs. specialize (Hm _ _ _ H (HI _ Hs)). destruct r; auto.
Qed.

Lemma stable_triple {A} (I : S -> Prop) (m : comp S E A) Q :
  stable I m Q <-> triple I m (fun a s => I s /\ Q a) I.
Proof.
  split.
  - intros Hm s r s' H Hs. destruct (Hm _ _ _ H Hs) as [? HQ]. destruct r; auto.
  - intros Hm s r s' H Hs. specialize (Hm _ _ _ H Hs). destruct r as [a|e].
    + destruct Hm. split; [done|]. by intros ? [= <-].
    + split; [done|]. by intros ? ?.
Qed.
End Triples.

Lemma try_map_ok {E A B} (f : A -> result E B) l r :
  try_map f l = Ok r <-> Forall2 (fun x y => f x = Ok y) l r.
Proof.
  revert r; induction l as [|x l IH]; intros r; cbn.
  - split; [intros [= <-]; constructor|inversion 1; done].
  - rewrite result_bind_ok. split.
    + intros (y & Hy & H). apply result_bind_ok in H as (ys & Hys & [= <-]).
      constructor; [done|by apply IH].
    + inversion 1; subst. eexists. split; [done|]. apply result_bind_ok.
      eexists. split; [by apply IH|done].
Qed.

Lemma existsb_elem {A} `{!EqDecision A} (x : A) l :
  existsb (fun y => bool_decide (y = x)) l = true <-> x ∈ l.
Proof.
  rewrite existsb_exists. setoid_rewrite bool_decide_eq_true.
  setoid_rewrite <- list_elem_of_In. naive_solver.
Qed.

#[export] Hint Rewrite andb_true_iff orb_true_iff negb_true_iff : tdf.
