(* ===== verification/Bytes.v ===== *)
(** * Rust strings and byte strings

    A Rust [str] or [&[u8]] is the Rocq [string] of its bytes (a [str] is its
    UTF-8 encoding), so [s.as_bytes()] is the identity and [s.len()] is
    [String.length]. This file holds the [core::str] and [slice] operations
    the program uses. *)

From S2P Require Import Prelude.

Abbreviation bytes := string.

Definition u8 (c : ascii) : N := N_of_ascii c.

(** A double quote, which a literal cannot hold. *)
Definition dquote : string := String "034" "".

(** [s.len()] as a [usize]. *)
Definition len (s : string) : Z := Z.of_nat (String.length s).

Definition is_empty (s : string) : bool :=
  match s with EmptyString => true | _ => false end.

(** [s.strip_prefix(p)] *)
Fixpoint strip_prefix (p s : string) : option string :=
  match p, s with
  | EmptyString, _ => Some s
  | String a p, String b s => if decide (a = b) then strip_prefix p s else None
  | String _ _, EmptyString => None
  end.

(** [s.starts_with(p)] *)
Definition starts_with (p s : string) : bool := bool_decide (is_Some (strip_prefix p s)).

(** [haystack.contains(needle)] *)
Fixpoint contains (needle s : string) : bool :=
  starts_with needle s
  || match s with String _ s => contains needle s | EmptyString => false end.

Fixpoint string_rev_app (s acc : string) : string :=
  match s with EmptyString => acc | String c s => string_rev_app s (String c acc) end.
Definition string_rev (s : string) : string := string_rev_app s "".

(** [s.strip_suffix(p)] *)
Definition strip_suffix (p s : string) : option string :=
  string_rev <$> strip_prefix (string_rev p) (string_rev s).

(** [s.bytes().all(p)] *)
Fixpoint all_bytes (p : ascii -> bool) (s : string) : bool :=
  match s with EmptyString => true | String c s => p c && all_bytes p s end.

(** [s.bytes().enumerate().all(p)], counting from [i]. *)
Fixpoint all_bytes_from (p : nat -> ascii -> bool) (i : nat) (s : string) : bool :=
  match s with EmptyString => true | String c s => p i c && all_bytes_from p (S i) s end.

Definition all_bytes_enum (p : nat -> ascii -> bool) (s : string) : bool :=
  all_bytes_from p 0 s.

(** [s.chars().count()]: the bytes that are not UTF-8 continuations. *)
Fixpoint chars_count (s : string) : Z :=
  match s with
  | EmptyString => 0
  | String c s =>
      (if (128 <=? u8 c)%N && (u8 c <? 192)%N then 0 else 1) + chars_count s
  end.

Definition byte_range (lo hi : N) (c : ascii) : bool := (lo <=? u8 c)%N && (u8 c <=? hi)%N.

(** [u8::is_ascii_digit] and the like. *)
Definition is_ascii_digit (c : ascii) : bool := byte_range 48 57 c.
Definition is_ascii_lower (c : ascii) : bool := byte_range 97 122 c.
Definition is_ascii_upper (c : ascii) : bool := byte_range 65 90 c.
Definition is_ascii_alphanumeric (c : ascii) : bool :=
  is_ascii_digit c || is_ascii_lower c || is_ascii_upper c.
Definition is_ascii_hexdigit (c : ascii) : bool :=
  is_ascii_digit c || byte_range 97 102 c || byte_range 65 70 c.

(** [b'0'..=b'9' | b'a'..=b'f'] *)
Definition is_lower_hex (c : ascii) : bool := is_ascii_digit c || byte_range 97 102 c.

Definition ascii_to_lower (c : ascii) : ascii :=
  if is_ascii_upper c then ascii_of_N (u8 c + 32) else c.

(** [s.to_ascii_lowercase()] *)
Fixpoint to_ascii_lowercase (s : string) : string :=
  match s with EmptyString => "" | String c s => String (ascii_to_lower c) (to_ascii_lowercase s) end.

(** [a.eq_ignore_ascii_case(b)] *)
Definition eq_ignore_ascii_case (a b : string) : bool :=
  bool_decide (to_ascii_lowercase a = to_ascii_lowercase b).

(** [s.split(c)]: always at least one piece. *)
Fixpoint split_char (sep : ascii) (s : string) : list string :=
  match s with
  | EmptyString => [""]
  | String c s =>
      if decide (c = sep) then "" :: split_char sep s
      else match split_char sep s with
           | [] => [String c ""]
           | w :: ws => String c w :: ws
           end
  end.

(** *** [str::trim]: the Unicode [White_Space] code points, in UTF-8. *)

Definition ws1 (a : ascii) : bool := byte_range 9 13 a || (u8 a =? 32)%N.
Definition ws2 (a b : ascii) : bool := (u8 a =? 194)%N && ((u8 b =? 133)%N || (u8 b =? 160)%N).
Definition ws3 (a b c : ascii) : bool :=
  ((u8 a =? 225)%N && (u8 b =? 154)%N && (u8 c =? 128)%N)
  || ((u8 a =? 226)%N && (u8 b =? 128)%N
      && (byte_range 128 138 c || (u8 c =? 168)%N || (u8 c =? 169)%N || (u8 c =? 175)%N))
  || ((u8 a =? 226)%N && (u8 b =? 129)%N && (u8 c =? 159)%N)
  || ((u8 a =? 227)%N && (u8 b =? 128)%N && (u8 c =? 128)%N).

(** [s.trim_start()] *)
Fixpoint trim_start (s : string) : string :=
  match s with
  | EmptyString => ""
  | String a r =>
      if ws1 a then trim_start r
      else match r with
           | EmptyString => s
           | String b r2 =>
               if ws2 a b then trim_start r2
               else match r2 with
                    | EmptyString => s
                    | String c r3 => if ws3 a b c then trim_start r3 else s
                    end
           end
  end.

(** [trim_end] on the reversed bytes. *)
Fixpoint trim_end_rev (s : string) : string :=
  match s with
  | EmptyString => ""
  | String a r =>
      if ws1 a then trim_end_rev r
      else match r with
           | EmptyString => s
           | String b r2 =>
               if ws2 b a then trim_end_rev r2
               else match r2 with
                    | EmptyString => s
                    | String c r3 => if ws3 c b a then trim_end_rev r3 else s
                    end
           end
  end.

(** [s.trim_end()] and [s.trim()] *)
Definition trim_end (s : string) : string := string_rev (trim_end_rev (string_rev s)).
Definition trim (s : string) : string := trim_end (trim_start s).

(** [s.trim_end_matches(c)] for a single byte. *)
Fixpoint drop_leading (c : ascii) (s : string) : string :=
  match s with
  | String a r => if decide (a = c) then drop_leading c r else s
  | EmptyString => ""
  end.
Definition trim_end_matches (c : ascii) (s : string) : string :=
  string_rev (drop_leading c (string_rev s)).

(** ** UTF-8 ([std::str::from_utf8]) *)

Definition cont (c : ascii) : bool := byte_range 128 191 c.

Fixpoint utf8_valid (s : string) : bool :=
  match s with
  | "" => true
  | String a s1 =>
      if (u8 a <? 128)%N then utf8_valid s1
      else
        match s1 with
        | "" => false
        | String b s2 =>
            if byte_range 194 223 a then cont b && utf8_valid s2
            else
              match s2 with
              | "" => false
              | String c s3 =>
                  if (u8 a =? 224)%N then byte_range 160 191 b && cont c && utf8_valid s3
                  else if byte_range 225 236 a || byte_range 238 239 a then cont b && cont c && utf8_valid s3
                  else if (u8 a =? 237)%N then byte_range 128 159 b && cont c && utf8_valid s3
                  else
                    match s3 with
                    | "" => false
                    | String d s4 =>
                        if (u8 a =? 240)%N then byte_range 144 191 b && cont c && cont d && utf8_valid s4
                        else if byte_range 241 243 a then cont b && cont c && cont d && utf8_valid s4
                        else if (u8 a =? 244)%N then byte_range 128 143 b && cont c && cont d && utf8_valid s4
                        else false
                    end
              end
        end
  end.
