(* ===== verification/Identifiers.v ===== *)
(** * Identifiers

    The identifier checks the components share: [creator_catalog.rs]'s
    [valid_identifier], [is_lower_hex_hash] and [is_utc_timestamp],
    [moderation.rs]'s [valid_subject], [valid_hash] and [canonical_subject],
    [catalog_metadata.rs]'s [is_lower_uuid], and [auth.rs]'s
    [subject_id_bind]. *)

From S2P Require Import Prelude Bytes.

(** ** Subjects, content ids and hashes *)

(** [b.is_ascii_alphanumeric() || matches!(b, b':' | b'.' | b'_' | b'@' | b'-')] *)
Definition identifier_byte (b : ascii) : bool :=
  is_ascii_alphanumeric b
  || bool_decide (b ∈ [":"; "."; "_"; "@"; "-"]%char).

Definition valid_identifier (s : string) (max : Z) : bool :=
  (1 <=? len s)%Z && (len s <=? max)%Z
  && negb (bool_decide (s = "."))
  && negb (contains ".." s)
  && all_bytes identifier_byte s.

Definition valid_subject (s : string) : bool :=
  (1 <=? len s)%Z && (len s <=? 248)%Z
  && negb (bool_decide (s = "."))
  && negb (contains ".." s)
  && all_bytes identifier_byte s.

Definition valid_hash (h : string) : bool :=
  (len h =? 64)%Z && all_bytes is_ascii_hexdigit h.

Definition is_lower_hex_hash (s : string) : bool :=
  (len s =? 64)%Z && all_bytes is_lower_hex s.

Definition is_lower_uuid (s : string) : bool :=
  (len s =? 36)%Z
  && all_bytes_enum (fun i b =>
       if bool_decide (i ∈ [8; 13; 18; 23]) then bool_decide (b = "-"%char)
       else is_lower_hex b) s.

(** [s.strip_prefix("arkavo:").unwrap_or(s)] *)
Definition subject_id_bind (s : string) : string :=
  default s (strip_prefix "arkavo:" s).

Definition canonical_subject (sub : string) : string := subject_id_bind sub.

(** ** Timestamps *)

(** The closure [shape]: the byte class at each offset. *)
Definition timestamp_shape (i : nat) (c : ascii) : bool :=
  match i with
  | 4 | 7 => bool_decide (c = "-"%char)
  | 10 => bool_decide (c = "T"%char)
  | 13 | 16 => bool_decide (c = ":"%char)
  | 19 => bool_decide (c = "Z"%char)
  | _ => is_ascii_digit c
  end.

(** [b[range].iter().fold(0u32, |n, &c| n * 10 + u32::from(c - b'0'))] *)
Fixpoint fold_digits (n : Z) (s : string) : Z :=
  match s with
  | EmptyString => n
  | String c s => fold_digits (n * 10 + (Z.of_N (u8 c) - 48)) s
  end.

Definition num (b : string) (from to : nat) : Z :=
  fold_digits 0 (String.substring from (to - from) b).

Definition is_utc_timestamp (s : string) : bool :=
  if negb (len s =? 20)%Z then false
  else if negb (all_bytes_enum timestamp_shape s) then false
  else
    let year := num s 0 4 in
    let month := num s 5 7 in
    let day := num s 8 10 in
    let hour := num s 11 13 in
    let minute := num s 14 16 in
    let second := num s 17 19 in
    let leap := ((year mod 4 =? 0) && negb (year mod 100 =? 0) || (year mod 400 =? 0))%Z in
    let days_in_month :=
      match month with
      | 1 | 3 | 5 | 7 | 8 | 10 | 12 => Some 31
      | 4 | 6 | 9 | 11 => Some 30
      | 2 => if leap then Some 29 else Some 28
      | _ => None
      end%Z in
    match days_in_month with
    | None => false
    | Some n =>
        ((1 <=? day) && (day <=? n) && (hour <=? 23) && (minute <=? 59) && (second <=? 59))%Z
    end.

(** ** Lemmas on strings *)

Lemma strip_prefix_Some p s r : strip_prefix p s = Some r <-> s = p +:+ r.
Proof.
  revert s; induction p as [|a p IH]; intros s.
  - split; [by intros [= ->]|by intros ->].
  - destruct s as [|b s]; [split; discriminate|].
    cbn. destruct (decide (a = b)) as [->|Hne].
    + rewrite IH. split; [by intros ->|]. by intros [= ->].
    + split; [done|]. intros [= ? _]. congruence.
Qed.

Lemma strip_prefix_app p r : strip_prefix p (p +:+ r) = Some r.
Proof. by apply strip_prefix_Some. Qed.

Lemma starts_with_true p s : starts_with p s = true <-> exists r, s = p +:+ r.
Proof.
  unfold starts_with. rewrite bool_decide_eq_true. unfold is_Some.
  by setoid_rewrite strip_prefix_Some.
Qed.

Lemma string_app_cons c (a b : string) : String c a +:+ b = String c (a +:+ b).
Proof. done. Qed.

Lemma string_app_nil_l (a : string) : "" +:+ a = a.
Proof. done. Qed.

Lemma all_bytes_app p a b : all_bytes p (a +:+ b) = all_bytes p a && all_bytes p b.
Proof. induction a as [|c a IH]; [done|]. rewrite string_app_cons. cbn. by rewrite IH, andb_assoc. Qed.

Lemma all_bytes_mono (p q : ascii -> bool) s :
  (forall c, p c = true -> q c = true) -> all_bytes p s = true -> all_bytes q s = true.
Proof.
  intros Hpq. induction s as [|c s IH]; [done|]. cbn.
  rewrite !andb_true_iff. naive_solver.
Qed.

Lemma app_length_string (a b : string) :
  String.length (a +:+ b) = (String.length a + String.length b)%nat.
Proof. induction a as [|c a IH]; [done|]. rewrite string_app_cons. cbn. by rewrite IH. Qed.

Lemma string_app_assoc (a b c : string) : (a +:+ b) +:+ c = a +:+ (b +:+ c).
Proof. induction a as [|x a IH]; [done|]. rewrite !string_app_cons. by f_equal. Qed.

Lemma string_app_nil_r (a : string) : a +:+ "" = a.
Proof. induction a as [|x a IH]; [done|]. rewrite string_app_cons. by f_equal. Qed.

#[export] Instance string_app_inj (p : string) : Inj (=) (=) (String.append p).
Proof.
  intros a b. induction p as [|c p IH]; [done|]. rewrite !string_app_cons.
  injection 1. auto.
Qed.

(** Every accepted identifier is made of identifier bytes: none of them is
    the [/] that separates storage key components. *)
Lemma identifier_byte_not_slash c : identifier_byte c = true -> c <> "/"%char.
Proof. by intros H ->. Qed.

Lemma valid_subject_is_identifier s : valid_subject s = valid_identifier s 248.
Proof. done. Qed.

Lemma lower_hex_hexdigit c : is_lower_hex c = true -> is_ascii_hexdigit c = true.
Proof. unfold is_lower_hex, is_ascii_hexdigit. destruct (is_ascii_digit c), (byte_range 97 102 c); done. Qed.

Lemma lower_hex_lower_id c : is_lower_hex c = true -> ascii_to_lower c = c.
Proof. destruct c as [[] [] [] [] [] [] [] []]; vm_compute; done. Qed.

Lemma is_lower_hex_hash_valid s : is_lower_hex_hash s = true -> valid_hash s = true.
Proof.
  unfold is_lower_hex_hash, valid_hash. rewrite !andb_true_iff. intros [-> H].
  eauto using all_bytes_mono, lower_hex_hexdigit.
Qed.

Lemma to_ascii_lowercase_id s : all_bytes is_lower_hex s = true -> to_ascii_lowercase s = s.
Proof.
  induction s as [|c s IH]; [done|]. cbn. rewrite andb_true_iff. intros [Hc Hs].
  by rewrite (lower_hex_lower_id _ Hc), (IH Hs).
Qed.

Lemma ascii_to_lower_idemp c : ascii_to_lower (ascii_to_lower c) = ascii_to_lower c.
Proof. destruct c as [[] [] [] [] [] [] [] []]; reflexivity. Qed.

Lemma to_ascii_lowercase_idemp s :
  to_ascii_lowercase (to_ascii_lowercase s) = to_ascii_lowercase s.
Proof. induction s as [|c s IH]; [done|]. cbn. by rewrite ascii_to_lower_idemp, IH. Qed.

Lemma hexdigit_lower c : is_ascii_hexdigit c = true -> is_lower_hex (ascii_to_lower c) = true.
Proof. destruct c as [[] [] [] [] [] [] [] []]; vm_compute; done. Qed.

Lemma len_to_ascii_lowercase s : len (to_ascii_lowercase s) = len s.
Proof. unfold len. f_equal. induction s as [|c s IH]; [done|]. cbn. by rewrite IH. Qed.

(** Lower-casing a valid hash gives the form the catalog routes take. *)
Lemma valid_hash_lowercase h :
  valid_hash h = true -> is_lower_hex_hash (to_ascii_lowercase h) = true.
Proof.
  unfold valid_hash, is_lower_hex_hash. rewrite len_to_ascii_lowercase, !andb_true_iff.
  intros [-> H]. split; [done|].
  induction h as [|c h IH]; [done|]. cbn in *.
  rewrite andb_true_iff in *. naive_solver eauto using hexdigit_lower.
Qed.

(** A subject in canonical form: it does not carry the account prefix. *)
Definition canonical (s : string) : Prop := strip_prefix "arkavo:" s = None.

#[export] Instance canonical_dec s : Decision (canonical s).
Proof. unfold canonical. apply _. Defined.

Lemma canonical_subject_id s : canonical s -> canonical_subject s = s.
Proof. unfold canonical, canonical_subject, subject_id_bind. by intros ->. Qed.

Lemma canonical_subject_prefixed s : canonical_subject ("arkavo:" +:+ s) = s.
Proof. done. Qed.

#[export] Hint Resolve lower_hex_hexdigit hexdigit_lower is_lower_hex_hash_valid
  valid_hash_lowercase canonical_subject_id : tdf.

(** ** The calendar a timestamp is checked against *)
Module Calendar.

(** Gregorian leap years and month lengths. *)
Definition leap_year (y : Z) : Prop :=
  ((4 | y) /\ ~ (100 | y) \/ (400 | y))%Z.

Definition month_days (leap : bool) (m : Z) : option Z :=
  [31; if leap then 29 else 28; 31; 30; 31; 30; 31; 31; 30; 31; 30; 31]%Z
    !! Z.to_nat (m - 1).

(** A civil date and time to the second, without leap seconds. *)
Record time := Time { year : Z; month : Z; day : Z; hour : Z; minute : Z; second : Z }.

Definition valid (t : time) : Prop :=
  (0 <= year t <= 9999 /\ 1 <= month t <= 12 /\ 0 <= hour t <= 23
   /\ 0 <= minute t <= 59 /\ 0 <= second t <= 59)%Z
  /\ exists b n, (b = true <-> leap_year (year t))
       /\ month_days b (month t) = Some n /\ (1 <= day t <= n)%Z.

Definition digit (n : Z) : ascii := ascii_of_N (Z.to_N (48 + n)).
Definition two (n : Z) (rest : string) : string :=
  String (digit (n / 10)) (String (digit (n mod 10)) rest).

(** [YYYY-MM-DDTHH:MM:SSZ] *)
Definition format (t : time) : string :=
  two (year t / 100) (two (year t mod 100) (String "-" (two (month t) (String "-"
    (two (day t) (String "T" (two (hour t) (String ":" (two (minute t) (String ":"
      (two (second t) "Z")))))))))))%char.

Lemma u8_digit n : (0 <= n <= 9)%Z -> Z.of_N (u8 (digit n)) = (48 + n)%Z.
Proof.
  intros H. unfold u8, digit. rewrite N_ascii_embedding; lia.
Qed.

Lemma is_digit_digit n : (0 <= n <= 9)%Z -> is_ascii_digit (digit n) = true.
Proof.
  intros H. pose proof (u8_digit n H). unfold is_ascii_digit, byte_range.
  rewrite andb_true_iff, !N.leb_le. lia.
Qed.

Lemma digit_of_digit c :
  is_ascii_digit c = true -> (0 <= Z.of_N (u8 c) - 48 <= 9)%Z /\ c = digit (Z.of_N (u8 c) - 48).
Proof.
  unfold is_ascii_digit, byte_range. rewrite andb_true_iff, !N.leb_le. intros H.
  split; [lia|]. unfold digit.
  replace (Z.to_N (48 + (Z.of_N (u8 c) - 48))) with (u8 c) by lia.
  symmetry. apply ascii_N_embedding.
Qed.

Lemma leap_year_test y :
  ((y mod 4 =? 0) && negb (y mod 100 =? 0) || (y mod 400 =? 0))%Z = true <-> leap_year y.
Proof.
  unfold leap_year. rewrite orb_true_iff, andb_true_iff, negb_true_iff, Z.eqb_neq, !Z.eqb_eq.
  by rewrite (Z.mod_divide y 4), (Z.mod_divide y 100), (Z.mod_divide y 400) by lia.
Qed.

(** The digits of a field read back as the field. *)
Lemma two_ext a b r : (0 <= a <= 9)%Z -> (0 <= b <= 9)%Z ->
  two ((0 * 10 + a) * 10 + b) r = String (digit a) (String (digit b) r).
Proof.
  intros. unfold two.
  replace (((0 * 10 + a) * 10 + b) / 10)%Z with a by dlia.
  by replace (((0 * 10 + a) * 10 + b) mod 10)%Z with b by dlia.
Qed.

Lemma month_days_test (leap : bool) (m : Z) :
  match m with
  | 1 | 3 | 5 | 7 | 8 | 10 | 12 => Some 31
  | 4 | 6 | 9 | 11 => Some 30
  | 2 => if leap then Some 29 else Some 28
  | _ => None
  end%Z = if ((1 <=? m) && (m <=? 12))%Z then month_days leap m else None.
Proof.
  destruct (Z.leb_spec 1 m), (Z.leb_spec m 12); cbn [andb].
  - assert (exists k : nat, (k < 12)%nat /\ m = Z.of_nat (S k)) as (k & Hk & ->).
    { exists (Z.to_nat (m - 1)). lia. }
    do 12 (destruct k as [|k]; [by destruct leap|]). lia.
  - destruct m as [|p|p]; try lia. do 4 (destruct p as [p|p|]; try lia; try done).
  - destruct m as [|p|p]; try lia; done.
  - lia.
Qed.

Lemma month_days_le b m n : month_days b m = Some n -> (n <= 31)%Z.
Proof.
  unfold month_days. destruct (Z.to_nat (m - 1)) as [|k] eqn:Ek; [naive_solver lia|].
  do 11 (destruct k as [|k]; [destruct b; naive_solver lia|]). done.
Qed.

Lemma timestamp_sound s :
  is_utc_timestamp s = true -> exists t, valid t /\ s = format t.
Proof.
  unfold is_utc_timestamp.
  destruct (Z.eqb_spec (len s) 20) as [Hlen|]; [|done]. cbn [negb].
  destruct (all_bytes_enum timestamp_shape s) eqn:Hsh; [|done]. cbn [negb].
  rewrite month_days_test. intros Hok.
  exists (Time (num s 0 4) (num s 5 7) (num s 8 10) (num s 11 13) (num s 14 16) (num s 17 19)).
  do 20 (destruct s as [|?c s]; [discriminate Hlen|]).
  destruct s; [|unfold len in Hlen; cbn in Hlen; lia].
  cbn in Hsh. rewrite !andb_true_iff, !bool_decide_eq_true in Hsh. destruct_and!. subst.
  unfold num in *. cbn in Hok |- *. clear Hlen.
  repeat match goal with H : is_ascii_digit ?c = true |- _ =>
    let d := fresh "d" in apply digit_of_digit in H as [? ?];
    set (d := (Z.of_N (u8 c) - 48)%Z) in *; clearbody d; subst c end.
  case_match eqn:Hn; [|done]. destruct (_ && _)%Z eqn:Hm in Hn; [|done].
  rewrite !andb_true_iff, !Z.leb_le in Hok, Hm. split.
  - split; cbn; [lia|]. eexists _, _. split; [apply leap_year_test|]. split; [done|lia].
  - unfold format. cbn [year month day hour minute second].
    match goal with |- context [two (?y / 100) _] => match y with
      ((((0 * 10 + ?a) * 10 + ?b) * 10 + ?c) * 10 + ?d)%Z =>
        replace (y / 100)%Z with ((0 * 10 + a) * 10 + b)%Z by dlia;
        replace (y mod 100)%Z with ((0 * 10 + c) * 10 + d)%Z by dlia end end.
    by rewrite !two_ext by lia.
Qed.

Lemma timestamp_complete t : valid t -> is_utc_timestamp (format t) = true.
Proof.
  intros [Hr (b & n & Hb & Hn & Hd)]. pose proof (month_days_le _ _ _ Hn).
  destruct t as [y mo d h mi se]. cbn [year month day hour minute second] in *.
  assert (b = ((y mod 4 =? 0) && negb (y mod 100 =? 0) || (y mod 400 =? 0))%Z) as ->.
  { apply Bool.eq_iff_eq_true. by rewrite Hb, leap_year_test. }
  unfold is_utc_timestamp, format, two, num. cbn [year month day hour minute second].
  rewrite month_days_test.
  match goal with |- context [negb (len ?s =? 20)%Z] => change (len s =? 20)%Z with true end.
  cbn. rewrite !is_digit_digit by dlia. rewrite !bool_decide_true by done. cbn.
  rewrite !u8_digit by dlia.
  repeat match goal with |- context [((0 * 10 + (48 + ?n / 10 - 48)) * 10 + (48 + ?n mod 10 - 48))%Z] =>
    replace ((0 * 10 + (48 + n / 10 - 48)) * 10 + (48 + n mod 10 - 48))%Z with n by dlia end.
  match goal with |- context [if ((1 <=? mo) && _)%Z then month_days (_ (_ (?e mod 4 =? 0)%Z _) _) _ else _] =>
    replace e with y by dlia end.
  replace ((1 <=? mo) && (mo <=? 12))%Z with true by lia. rewrite Hn.
  rewrite !andb_true_iff, !Z.leb_le. lia.
Qed.

End Calendar.

(** [is_utc_timestamp] accepts exactly the strings that write a real
    UTC time as [YYYY-MM-DDTHH:MM:SSZ]: a day that the month of that year has
    (leap years by the Gregorian rule), hours below 24, minutes and seconds
    below 60 (no leap second). *)
Theorem is_utc_timestamp_spec s :
  is_utc_timestamp s = true <-> exists t, Calendar.valid t /\ s = Calendar.format t.
Proof.
  split; [apply Calendar.timestamp_sound|]. intros (t & Ht & ->). by apply Calendar.timestamp_complete.
Qed.
