(* ===== verification/Json.v ===== *)
(** * JSON documents and values

    A JSON text, once read by [serde_json] (a parameter, [Serde]), is a
    document: a tree whose objects list their members in the order written,
    repeated keys included. A [serde_json::Value] is the document after
    [to_value], where the last of two equal keys wins. The derived
    [Deserialize] implementations of the program's structs are written with
    [struct_fields] and the field readers below: [deny_unknown_fields],
    [default], the refusal of a repeated field, and the positional form serde
    also accepts for a struct. *)

From Stdlib Require Import SpecFloat.
From S2P Require Import Prelude Bytes Identifiers.

(** Object members are kept in insertion order; nothing in the program
    depends on the order of an object's keys. *)
#[local] Set Warnings "-register-all".

Inductive json : Type :=
| JNull
| JBool (b : bool)
| JInt (n : Z)
| JFloat (f : spec_float)
| JString (s : string)
| JArray (l : list json)
| JObject (l : list (string * json)).

#[export] Instance json_inhabited : Inhabited json := populate JNull.

(** Induction through arrays and objects. *)
Section JsonInd.
Context (P : json -> Prop).
Context (Hnull : P JNull) (Hbool : forall b, P (JBool b)) (Hint : forall n, P (JInt n))
  (Hfloat : forall f, P (JFloat f)) (Hstring : forall s, P (JString s))
  (Harray : forall l, Forall P l -> P (JArray l))
  (Hobject : forall l, Forall (fun kv => P kv.2) l -> P (JObject l)).

Fixpoint json_rect_nested (j : json) : P j :=
  match j with
  | JNull => Hnull
  | JBool b => Hbool b
  | JInt n => Hint n
  | JFloat f => Hfloat f
  | JString s => Hstring s
  | JArray l =>
      Harray l ((fix go l : Forall P l :=
        match l with
        | [] => Forall_nil_2 _
        | x :: l => Forall_cons_2 _ _ _ (json_rect_nested x) (go l)
        end) l)
  | JObject l =>
      Hobject l ((fix go l : Forall (fun kv => P kv.2) l :=
        match l with
        | [] => Forall_nil_2 _
        | x :: l => Forall_cons_2 _ _ _ (json_rect_nested x.2) (go l)
        end) l)
  end.
End JsonInd.

(** ** [serde_json::Map] *)

Fixpoint assoc_get {A} (k : string) (l : list (string * A)) : option A :=
  match l with
  | [] => None
  | (k', v) :: l => if decide (k = k') then Some v else assoc_get k l
  end.

(** [map.insert(k, v)]: replaces the value of a key already there. *)
Fixpoint assoc_insert {A} (k : string) (v : A) (l : list (string * A)) : list (string * A) :=
  match l with
  | [] => [(k, v)]
  | (k', v') :: l => if decide (k = k') then (k', v) :: l else (k', v') :: assoc_insert k v l
  end.

(** [v.get(k)]: [None] unless [v] is an object holding [k]. *)
Definition json_get (k : string) (j : json) : option json :=
  match j with JObject l => assoc_get k l | _ => None end.

Definition as_str (j : json) : option string :=
  match j with JString s => Some s | _ => None end.
Definition as_bool (j : json) : option bool :=
  match j with JBool b => Some b | _ => None end.
Definition as_array (j : json) : option (list json) :=
  match j with JArray l => Some l | _ => None end.
Definition as_object (j : json) : option (list (string * json)) :=
  match j with JObject l => Some l | _ => None end.

(** [v.get(k).and_then(Value::as_str)] *)
Definition get_str (k : string) (j : json) : option string := json_get k j ≫= as_str.

(** ** A document as a [Value]: the last of two equal keys wins *)

Fixpoint to_value (j : json) : json :=
  match j with
  | JArray l => JArray (to_value <$> l)
  | JObject l => JObject (foldl (fun m kv => assoc_insert kv.1 kv.2 m) []
                            ((fun kv => (kv.1, to_value kv.2)) <$> l))
  | _ => j
  end.

(** ** [creator_catalog::NoDuplicateKeys]

    The visitor walks every value; [visit_map] keeps the keys seen so far. *)

Definition visit_map (rec : json -> bool) : list string -> list (string * json) -> bool :=
  fix go seen l :=
    match l with
    | [] => true
    | (key, v) :: l =>
        if bool_decide (key ∈ seen) then false
        else if rec v then go (key :: seen) l else false
    end.

Definition visit_seq (rec : json -> bool) : list json -> bool :=
  fix go l := match l with [] => true | v :: l => if rec v then go l else false end.

Fixpoint no_duplicate_keys (j : json) : bool :=
  match j with
  | JArray l => visit_seq no_duplicate_keys l
  | JObject l => visit_map no_duplicate_keys [] l
  | _ => true
  end.

(** ** Derived [Deserialize] *)

Inductive serde_error : Type :=
| Syntax (what : string)
| InvalidType (field : string)
| InvalidLength
| MissingField (field : string)
| UnknownField (field : string)
| DuplicateField (field : string)
| Custom (what : string).

(** [serde_json]: reading a text into a document, and an error's message. *)
Class Serde := {
  serde_parse : bytes -> result serde_error json;
  serde_print : json -> bytes;
  serde_display : serde_error -> string
}.

(** No floating-point number: what the node's own records are made of. *)
Fixpoint floatless (j : json) : bool :=
  match j with
  | JFloat _ => false
  | JArray l => forallb floatless l
  | JObject l => forallb (fun kv => floatless kv.2) l
  | _ => true
  end.

(** serde_json reads back what it wrote (floats apart, whose digits it may
    round). *)
Class SerdeRoundTrip {SJ : Serde} := {
  parse_print j : floatless j = true -> serde_parse (serde_print j) = Ok j
}.
Arguments SerdeRoundTrip SJ : clear implicits.

(** The members of a struct: from an object, each known field at most once
    and an unknown one refused when [deny]; or from an array, by position. A
    position that is missing is then an error of its [field], or the default of
    its [field_or], as a derived [visit_seq] has it: every field read with
    [field_or] has [#[serde(default)]], the [Option]s too. *)
Fixpoint object_fields (fields : list string) (deny : bool)
    (acc : list (string * json)) (l : list (string * json)) :
    result serde_error (list (string * json)) :=
  match l with
  | [] => Ok acc
  | (k, v) :: l =>
      if bool_decide (k ∈ fields) then
        match assoc_get k acc with
        | Some _ => Err (DuplicateField k)
        | None => object_fields fields deny (acc ++ [(k, v)]) l
        end
      else if deny then Err (UnknownField k)
      else object_fields fields deny acc l
  end.

Definition struct_fields (fields : list string) (deny : bool) (j : json) :
    result serde_error (list (string * json)) :=
  match j with
  | JObject l => object_fields fields deny [] l
  | JArray l =>
      if bool_decide (length l <= length fields) then Ok (zip fields l)
      else Err InvalidLength
  | _ => Err (InvalidType "struct")
  end.

(** A required field, read with [f]. *)
Definition field {A} (f : string -> json -> result serde_error A) (k : string)
    (l : list (string * json)) : result serde_error A :=
  match assoc_get k l with Some v => f k v | None => Err (MissingField k) end.

(** A [#[serde(default)]] field. *)
Definition field_or {A} (d : A) (f : string -> json -> result serde_error A) (k : string)
    (l : list (string * json)) : result serde_error A :=
  match assoc_get k l with Some v => f k v | None => Ok d end.

Definition de_string (k : string) (j : json) : result serde_error string :=
  match j with JString s => Ok s | _ => Err (InvalidType k) end.
Definition de_bool (k : string) (j : json) : result serde_error bool :=
  match j with JBool b => Ok b | _ => Err (InvalidType k) end.
Definition de_i64 (k : string) (j : json) : result serde_error Z :=
  match j with JInt n => if in_i64 n then Ok n else Err (InvalidType k) | _ => Err (InvalidType k) end.
Definition de_u64 (k : string) (j : json) : result serde_error Z :=
  match j with JInt n => if in_u64 n then Ok n else Err (InvalidType k) | _ => Err (InvalidType k) end.
Definition de_value (k : string) (j : json) : result serde_error json := Ok (to_value j).

(** [Option<T>]: [null] is [None]. *)
Definition de_option {A} (f : string -> json -> result serde_error A) (k : string) (j : json) :
    result serde_error (option A) :=
  match j with JNull => Ok None | _ => Some <$> f k j end.

(** [Vec<T>] *)
Definition de_vec {A} (f : string -> json -> result serde_error A) (k : string) (j : json) :
    result serde_error (list A) :=
  match j with JArray l => try_map (f k) l | _ => Err (InvalidType k) end.

(** ** Lemmas *)

(** No object of the document repeats a key. *)
Inductive unique_keys : json -> Prop :=
| unique_null : unique_keys JNull
| unique_bool b : unique_keys (JBool b)
| unique_int n : unique_keys (JInt n)
| unique_float f : unique_keys (JFloat f)
| unique_string s : unique_keys (JString s)
| unique_array l : Forall unique_keys l -> unique_keys (JArray l)
| unique_object l :
    NoDup l.*1 -> Forall (fun kv => unique_keys kv.2) l -> unique_keys (JObject l).
#[export] Hint Constructors unique_keys : tdf.

Lemma visit_seq_Forall rec l :
  visit_seq rec l = true <-> Forall (fun v => rec v = true) l.
Proof.
  induction l as [|v l IH]; cbn; [by split; constructor|].
  rewrite Forall_cons, <- IH. destruct (rec v); naive_solver.
Qed.

Lemma visit_map_spec rec seen l :
  visit_map rec seen l = true <->
  NoDup l.*1 /\ (forall k, k ∈ l.*1 -> k ∉ seen) /\ Forall (fun kv => rec kv.2 = true) l.
Proof.
  revert seen; induction l as [|[k v] l IH]; intros seen; cbn.
  { split; [|done]. intros _. split_and!; [constructor|set_solver|constructor]. }
  rewrite NoDup_cons, Forall_cons. cbn. case_bool_decide as Hk.
  { split; [done|]. intros (_ & Hs & _). exfalso. apply (Hs k); [left|done]. }
  destruct (rec v); [|naive_solver].
  rewrite IH. split.
  - intros (Hnd & Hs & Hl). split_and!; [set_solver|done|set_solver|done|done].
  - intros ((Hk' & Hnd) & Hs & (_ & Hl)). split_and!; [done|set_solver|done].
Qed.

Lemma assoc_insert_fresh {A} k (v : A) l :
  k ∉ l.*1 -> assoc_insert k v l = l ++ [(k, v)].
Proof.
  induction l as [|[k' v'] l IH]; cbn; [done|]. rewrite not_elem_of_cons. intros [Hne Hl].
  rewrite decide_False by done. by rewrite IH.
Qed.

(** Building a map from members with distinct keys keeps them as listed. *)
Lemma foldl_assoc_insert {A} (l m : list (string * A)) :
  NoDup (m.*1 ++ l.*1) -> foldl (fun m kv => assoc_insert kv.1 kv.2 m) m l = m ++ l.
Proof.
  revert m; induction l as [|[k v] l IH]; intros m; cbn; [by intros _; rewrite app_nil_r|].
  intros Hnd. rewrite assoc_insert_fresh.
  - rewrite IH; [by rewrite <- app_assoc|]. by rewrite fmap_app, <- app_assoc.
  - apply NoDup_app in Hnd as (_ & Hd & _). intros Hk. apply (Hd _ Hk). left.
Qed.

Lemma fmap_id_Forall {A} (f : A -> A) l : Forall (fun x => f x = x) l -> f <$> l = l.
Proof. induction 1 as [|x l Hx Hl IH]; cbn; congruence. Qed.

Lemma to_value_unique j : unique_keys j -> to_value j = j.
Proof.
  induction j using json_rect_nested; intros Hu; cbn; try done.
  - inversion Hu as [| | | | |? Hl|]; subst. f_equal. apply fmap_id_Forall.
    rewrite Forall_forall in *. naive_solver.
  - inversion Hu as [| | | | | |? Hnd Hl]; subst. f_equal.
    rewrite fmap_id_Forall.
    + by rewrite foldl_assoc_insert.
    + rewrite Forall_forall in *. intros [k v] Hin. cbn. f_equal.
      apply (H (k, v)); [done|]. by apply (Hl (k, v)).
Qed.

Lemma no_duplicate_keys_unique j : no_duplicate_keys j = true <-> unique_keys j.
Proof.
  induction j using json_rect_nested; cbn;
    try (split; [constructor|done]); try (by split; intros; auto with tdf).
  - rewrite visit_seq_Forall. split.
    + intros Hl. constructor. rewrite Forall_forall in *. naive_solver.
    + inversion 1; subst. rewrite Forall_forall in *. naive_solver.
  - rewrite visit_map_spec. split.
    + intros (? & _ & Hl). constructor; [done|]. rewrite Forall_forall in *. naive_solver.
    + inversion 1; subst. split; [done|]. split; [set_solver|].
      rewrite Forall_forall in *. naive_solver.
Qed.

Lemma assoc_get_insert_eq {A} k (v : A) l : assoc_get k (assoc_insert k v l) = Some v.
Proof.
  induction l as [|[k' v'] l IH]; cbn; [by rewrite decide_True|].
  destruct (decide (k = k')); cbn; [by rewrite decide_True|by rewrite decide_False].
Qed.

Lemma assoc_get_insert_ne {A} k k' (v : A) l :
  k <> k' -> assoc_get k' (assoc_insert k v l) = assoc_get k' l.
Proof.
  intros Hne. induction l as [|[k2 v2] l IH]; cbn; [by rewrite decide_False|].
  destruct (decide (k = k2)) as [->|]; cbn; [by rewrite !decide_False by done|].
  by rewrite IH.
Qed.

Lemma assoc_get_elem {A} k (v : A) l : assoc_get k l = Some v -> (k, v) ∈ l.
Proof.
  induction l as [|[k' v'] l IH]; cbn; [done|].
  destruct (decide (k = k')) as [->|]; [intros [= ->]; left|right; auto].
Qed.

Lemma assoc_get_None {A} k (l : list (string * A)) : assoc_get k l = None <-> k ∉ l.*1.
Proof.
  induction l as [|[k' v'] l IH]; cbn; [set_solver|].
  rewrite not_elem_of_cons. destruct (decide (k = k')); naive_solver.
Qed.

Lemma assoc_insert_keys {A} k (v : A) l k' :
  k' ∈ (assoc_insert k v l).*1 <-> k' = k \/ k' ∈ l.*1.
Proof.
  induction l as [|[k2 v2] l IH]; cbn; [set_solver|].
  destruct (decide (k = k2)) as [->|]; cbn; rewrite !elem_of_cons; naive_solver.
Qed.

#[export] Hint Rewrite @assoc_get_insert_eq : tdf.
#[export] Hint Rewrite @assoc_get_insert_ne using done : tdf.

(** ** Reading back a struct that was written field by field *)

Lemma object_fields_exact fields deny acc l :
  NoDup (acc ++ l).*1 -> Forall (.∈ fields) l.*1 -> object_fields fields deny acc l = Ok (acc ++ l).
Proof.
  revert acc; induction l as [|[k v] l IH]; intros acc Hnd Hf; cbn.
  { by rewrite app_nil_r. }
  cbn in Hf. apply Forall_cons in Hf as [Hk Hf]. rewrite (bool_decide_true _ Hk).
  assert (assoc_get k acc = None) as ->.
  { apply assoc_get_None. intros Hin. rewrite fmap_app, NoDup_app in Hnd.
    destruct Hnd as (_ & Hdis & _). apply (Hdis k Hin). left. }
  rewrite IH; rewrite <- ?app_assoc; done.
Qed.

Definition exact_fields (fields : list string) (l : list string) : bool :=
  bool_decide (NoDup l) && bool_decide (Forall (.∈ fields) l).

Lemma struct_fields_exact fields deny l :
  exact_fields fields l.*1 = true -> struct_fields fields deny (JObject l) = Ok l.
Proof.
  unfold exact_fields. rewrite andb_true_iff, !bool_decide_eq_true. intros [Hnd Hf].
  by apply (object_fields_exact fields deny []).
Qed.

Lemma field_here {A} (f : string -> json -> result serde_error A) k v l : field f k ((k, v) :: l) = f k v.
Proof. unfold field. cbn. by rewrite decide_True. Qed.
Lemma field_later {A} (f : string -> json -> result serde_error A) k k' v l :
  k <> k' -> field f k ((k', v) :: l) = field f k l.
Proof. intros H. unfold field. cbn. by rewrite decide_False. Qed.
Lemma field_or_here {A} d (f : string -> json -> result serde_error A) k v l :
  field_or d f k ((k, v) :: l) = f k v.
Proof. unfold field_or. cbn. by rewrite decide_True. Qed.
Lemma field_or_later {A} d (f : string -> json -> result serde_error A) k k' v l :
  k <> k' -> field_or d f k ((k', v) :: l) = field_or d f k l.
Proof. intros H. unfold field_or. cbn. by rewrite decide_False. Qed.

(** Evaluate a derived [Deserialize] on an object with literal keys. *)
Ltac read_struct :=
  rewrite struct_fields_exact by (vm_compute; reflexivity); cbn [mbind result_bind];
  repeat first [ rewrite field_here | rewrite field_or_here
               | rewrite field_later by discriminate | rewrite field_or_later by discriminate ];
  cbn [mbind result_bind].

(** The duplicate-key check accepts exactly the documents in which no
    object, at any depth, repeats a key; and for those, reading the document
    into a value loses nothing. *)
Theorem no_duplicate_keys_spec j :
  (no_duplicate_keys j = true <-> unique_keys j) /\ (no_duplicate_keys j = true -> to_value j = j).
Proof.
  split; [apply no_duplicate_keys_unique|]. intros H. by apply to_value_unique, no_duplicate_keys_unique.
Qed.
