(* ===== verification/Extern.v ===== *)
(** * The crates the program calls

    Third-party code is a parameter: one class per crate holds the functions
    the program uses and the data types it matches on. The classes carry no
    assumption; where a theorem needs documented behaviour of a crate, it
    states it as a hypothesis. *)

From Stdlib Require Import SpecFloat.
From S2P Require Import Prelude Bytes.

(** ** base64, hex *)
Class Base64 := {
  b64url_decode : string -> option bytes;
  b64url_encode : bytes -> string;
  b64std_decode : string -> option bytes;
  b64std_encode : bytes -> string
}.

Class Hex := {
  hex_decode : string -> option bytes;
  hex_encode : bytes -> string
}.

(** ** blake3, sha2 *)
Class Blake3 := {
  blake3_hash : bytes -> bytes;
  blake3_keyed_hash : bytes -> bytes -> bytes;
  blake3_derive_key : string -> bytes -> bytes
}.

Class Sha2 := { sha256 : bytes -> bytes }.

(** ** ciborium: [Value] and its reader *)
#[local] Set Warnings "-register-all".

Inductive cbor : Type :=
| CInteger (n : Z)
| CBytes (b : bytes)
| CFloat (f : spec_float)
| CText (s : string)
| CBool (b : bool)
| CNull
| CTag (t : Z) (v : cbor)
| CArray (l : list cbor)
| CMap (l : list (cbor * cbor)).

Class Ciborium := {
  cbor_parse : bytes -> option cbor;
  (** [format!("{other:?}")] of a value. *)
  cbor_debug : cbor -> string
}.

(** ** coset: COSE messages and keys *)
Inductive cose_algorithm := ES256 | OtherAlgorithm (id : Z).
Inductive cose_content_type := ContentText (s : string) | ContentAssigned (id : Z).
Inductive cose_label := LabelInt (n : Z) | LabelText (s : string).
Inductive cose_kty := KtyEC2 | KtyOther.

Record CoseSign1 := {
  cs_alg : option cose_algorithm;
  cs_crit : list cose_label;
  cs_content_type : option cose_content_type;
  cs_key_id : bytes;
  cs_payload : option bytes;
  cs_signature : bytes
}.

Record CoseKey := {
  ck_kty : cose_kty;
  ck_key_id : bytes;
  ck_params : list (cose_label * cbor)
}.

Class Coset := {
  sign1_from_slice : bytes -> option CoseSign1;
  sign1_from_tagged_slice : bytes -> option CoseSign1;
  (** The [Sig_structure] bytes [verify_signature] hands to its callback,
      for an empty external AAD. *)
  sign1_tbs : CoseSign1 -> bytes;
  key_from_cbor : cbor -> option CoseKey
}.

(** ** p256 *)
Class P256 := {
  vkey : Type;
  psig : Type;
  vkey_from_sec1 : bytes -> result string vkey;
  sig_from_slice : bytes -> option psig;
  sig_from_der : bytes -> option psig;
  p256_verify : vkey -> bytes -> psig -> bool
}.

(** ** reqwest: the answer to one GET or POST *)
Inductive http_answer :=
| NoAnswer (why : string)
| Answer (status : Z) (body : result string bytes).

(** [status.is_success()] *)
Definition is_success (status : Z) : bool := (200 <=? status)%Z && (status <=? 299)%Z.
