(* ===== verification/Samples.v ===== *)
(** * Concrete instances of the external interfaces

    Small executable stand-ins for the crates behind [Extern.v], used by the
    witnesses: codecs that are the identity, parsers that look their input up
    in a table, signatures that name their key. They show that what the
    theorems assume of those crates can hold; no property is about them. *)

From stdpp Require Import countable.
From S2P Require Import Prelude Bytes Json Extern.

(** The identity codec. *)
Definition plain_base64 : Base64 :=
  {| b64url_decode := Some; b64url_encode := id; b64std_decode := Some; b64std_encode := id |}.

(** Hexadecimal digits, two per byte. *)
Definition hex_digit (n : N) : ascii := ascii_of_N (if (n <? 10)%N then 48 + n else 87 + n).
Definition hex_value (c : ascii) : option N :=
  let n := u8 c in
  if is_ascii_digit c then Some (n - 48)%N
  else if byte_range 97 102 c then Some (n - 87)%N
  else if byte_range 65 70 c then Some (n - 55)%N
  else None.

Fixpoint encode_hex (s : bytes) : string :=
  match s with
  | "" => ""
  | String c s => String (hex_digit (u8 c / 16)) (String (hex_digit (u8 c mod 16)) (encode_hex s))
  end.

Fixpoint decode_hex (s : string) : option bytes :=
  match s with
  | "" => Some ""
  | String a (String b s) =>
      x ← hex_value a; y ← hex_value b; r ← decode_hex s;
      Some (String (ascii_of_N (x * 16 + y)) r)
  | _ => None
  end.

Lemma decode_encode_hex s : decode_hex (encode_hex s) = Some s.
Proof.
  induction s as [|c s IH]; [done|]. cbn [encode_hex decode_hex]. rewrite IH.
  destruct c as [[] [] [] [] [] [] [] []]; reflexivity.
Qed.

Lemma len_encode_hex s : len (encode_hex s) = (2 * len s)%Z.
Proof. unfold len. induction s as [|c s IH]; [done|]. cbn [encode_hex String.length]. lia. Qed.

Definition plain_hex : Hex := {| hex_decode := decode_hex; hex_encode := encode_hex |}.

(** A CBOR reader that knows the documents of a table. *)
Definition table_ciborium (table : list (string * cbor)) : Ciborium :=
  {| cbor_parse := fun b => assoc_get b table; cbor_debug := fun _ => "?" |}.

(** A COSE reader that knows the messages of a table; the key of an entry is
    an EC2 key with the text as its identifier. *)
Definition table_coset (table : list (string * CoseSign1)) : Coset :=
  {| sign1_from_slice := fun b => assoc_get b table;
     sign1_from_tagged_slice := fun b => assoc_get b table;
     sign1_tbs := fun s => default "" (cs_payload s);
     key_from_cbor := fun v =>
       match v with
       | CText k => Some {| ck_kty := KtyEC2; ck_key_id := k; ck_params := [] |}
       | _ => None
       end |}.

(** Signatures that are the key's name followed by the message. *)
Definition named_p256 : P256 :=
  {| vkey := string; psig := string;
     vkey_from_sec1 := Ok;
     sig_from_slice := Some; sig_from_der := Some;
     p256_verify := fun k msg s => bool_decide (s = k +:+ msg) |}.

(** Digests of a fixed shape: 32 bytes, or the 64 hex digits of one. *)
Fixpoint repeat_char (n : nat) (c : ascii) : string :=
  match n with O => "" | S n => String c (repeat_char n c) end.

Definition toy_blake3 : Blake3 :=
  {| blake3_hash := fun b => repeat_char 32 "h";
     blake3_keyed_hash := fun k m => repeat_char 32 "t";
     blake3_derive_key := fun context material => context +:+ material |}.

Definition toy_sha2 : Sha2 := {| sha256 := fun b => "sha256:" +:+ b |}.

(** A JSON reader that knows the documents of a table, and a printer that
    prints the same text for every document. *)
Definition table_serde (table : list (string * json)) : Serde :=
  {| serde_parse := fun b =>
       match assoc_get b table with Some j => Ok j | None => Err (Syntax b) end;
     serde_print := fun _ => "json"; serde_display := fun _ => "error" |}.

(** A reader and printer that keep every document: a tree of leaves, written
    as a string of binary digits. *)
Definition leaf : Type := option bool + Z + string.

Fixpoint to_tree (j : json) : gen_tree leaf :=
  match j with
  | JNull | JFloat _ => GenLeaf (inl (inl None))
  | JBool b => GenLeaf (inl (inl (Some b)))
  | JInt n => GenLeaf (inl (inr n))
  | JString s => GenLeaf (inr s)
  | JArray l => GenNode 0 (to_tree <$> l)
  | JObject l => GenNode 1 ((fun kv => GenNode 2 [GenLeaf (inr kv.1); to_tree kv.2]) <$> l)
  end.

Fixpoint of_tree (t : gen_tree leaf) : json :=
  match t with
  | GenLeaf (inl (inl None)) => JNull
  | GenLeaf (inl (inl (Some b))) => JBool b
  | GenLeaf (inl (inr n)) => JInt n
  | GenLeaf (inr s) => JString s
  | GenNode 0 l => JArray (of_tree <$> l)
  | GenNode 1 l =>
      JObject ((fun t =>
        match t with
        | GenNode _ [GenLeaf (inr k); v] => (k, of_tree v)
        | _ => ("", JNull)
        end) <$> l)
  | GenNode _ _ => JNull
  end.

Lemma of_to_tree j : floatless j = true -> of_tree (to_tree j) = j.
Proof.
  induction j as [| | | | |l IH|l IH] using json_rect_nested; cbn; try done.
  - intros Hf. f_equal. induction IH as [|x l Hx _ IHl]; [done|]. cbn in *.
    apply andb_true_iff in Hf as [? ?]. by rewrite Hx, IHl.
  - intros Hf. f_equal. induction IH as [|[k x] l Hx _ IHl]; [done|]. cbn in *.
    apply andb_true_iff in Hf as [? ?]. by rewrite Hx, IHl.
Qed.

Fixpoint print_bits (p : positive) : string :=
  match p with
  | xH => ""
  | xO p => String "0" (print_bits p)
  | xI p => String "1" (print_bits p)
  end.

Fixpoint parse_bits (s : string) : positive :=
  match s with
  | "" => xH
  | String c s => if bool_decide (c = "0"%char) then xO (parse_bits s) else xI (parse_bits s)
  end.

Lemma parse_print_bits p : parse_bits (print_bits p) = p.
Proof. induction p; cbn; by rewrite ?IHp. Qed.

Definition bit_serde : Serde :=
  {| serde_parse := fun b =>
       match decode (parse_bits b) with
       | Some t => Ok (of_tree t)
       | None => Err (Syntax b)
       end;
     serde_print := fun j => print_bits (encode (to_tree j));
     serde_display := fun _ => "error" |}.

Lemma bit_serde_round_trip : SerdeRoundTrip bit_serde.
Proof.
  split. intros j Hj. cbn [serde_parse serde_print bit_serde].
  rewrite parse_print_bits, decode_encode. by rewrite of_to_tree.
Qed.

(** The same, with names for some documents. No printed text is a name. *)
Definition named_serde (table : list (string * json)) : Serde :=
  {| serde_parse := fun b =>
       match assoc_get b table with Some j => Ok j | None => serde_parse (Serde := bit_serde) b end;
     serde_print := serde_print (Serde := bit_serde); serde_display := fun _ => "error" |}.

Definition is_name (k : string) : bool :=
  match k with String c _ => negb (bool_decide (c = "0"%char)) && negb (bool_decide (c = "1"%char)) | "" => false end.

Lemma print_bits_not_name p : is_name (print_bits p) = false.
Proof. by destruct p. Qed.

Lemma named_serde_round_trip table :
  forallb (fun kv => is_name kv.1) table = true -> SerdeRoundTrip (named_serde table).
Proof.
  intros Ht. split. intros j Hj. cbn [serde_parse serde_print named_serde].
  destruct (assoc_get _ table) as [x|] eqn:E; [|by apply (parse_print (SerdeRoundTrip := bit_serde_round_trip))].
  apply assoc_get_elem in E. rewrite forallb_forall in Ht. specialize (Ht _ (proj1 (list_elem_of_In _ _) E)).
  cbn [fst] in Ht. cbn [serde_print bit_serde] in Ht. by rewrite print_bits_not_name in Ht.
Qed.
