(* ===== verification/Net.v ===== *)
(** * URLs and addresses

    [reqwest::Url] (the url crate) is a parameter: parsing, and the parts the
    code reads. The textual IP addresses of [std::net] are the standard
    library's parser: dotted decimal, and colon-separated groups of hex
    digits with at most one [::] and an optional dotted tail. *)

From S2P Require Import Prelude Bytes.

Record Url := {
  scheme : string;
  host_str : option string;
  port_or_known_default : option Z
}.

Class UrlCrate := { url_parse : string -> option Url }.

(** ** [std::net::IpAddr] *)

Definition digit_value (radix : Z) (c : ascii) : option Z :=
  let n := Z.of_N (u8 c) in
  let v := if is_ascii_digit c then Some (n - 48)%Z
           else if byte_range 97 102 c then Some (n - 87)%Z
           else if byte_range 65 70 c then Some (n - 55)%Z
           else None in
  match v with Some v => if (v <? radix)%Z then Some v else None | None => None end.

(** At most [max] digits, at least one; the rest of the input. *)
Fixpoint read_digits (radix : Z) (max : nat) (n : Z) (s : string) : Z * nat * string :=
  match max, s with
  | S max, String c s' =>
      match digit_value radix c with
      | Some v => let '(n, k, r) := read_digits radix max (n * radix + v) s' in (n, S k, r)
      | None => (n, 0%nat, s)
      end
  | _, _ => (n, 0%nat, s)
  end%Z.

Definition read_char (c : ascii) (s : string) : option string := strip_prefix (String c "") s.

(** One octet: up to three digits (a fourth is refused), no leading zero, at
    most 255. *)
Definition read_octet (s : string) : option (Z * string) :=
  let '(n, k, r) := read_digits 10 3 0 s in
  if (k =? 0)%nat then None
  else if (1 <? k)%nat && starts_with "0" s then None
  else if match r with String c _ => is_ascii_digit c | _ => false end then None
  else if (255 <? n)%Z then None
  else Some (n, r).

Definition read_ipv4 (s : string) : option (list Z * string) :=
  '(a, s) ← read_octet s; s ← read_char "." s;
  '(b, s) ← read_octet s; s ← read_char "." s;
  '(c, s) ← read_octet s; s ← read_char "." s;
  '(d, s) ← read_octet s;
  Some ([a; b; c; d], s).

(** A group of up to four hex digits. *)
Definition read_group (s : string) : option (Z * string) :=
  let '(n, k, r) := read_digits 16 4 0 s in
  if (k =? 0)%nat then None
  else if match r with String c _ => bool_decide (is_Some (digit_value 16 c)) | _ => false end
  then None
  else Some (n, r).

Definition after_sep (i : nat) (s : string) : option string :=
  if (i =? 0)%nat then Some s else read_char ":" s.

(** Groups [i ..] of at most [limit]: the groups, whether a dotted tail ended
    them, and the rest. [k] is the number of groups still allowed. *)
Fixpoint read_groups (k i : nat) (s : string) : list Z * bool * string :=
  match k with
  | O => ([], false, s)
  | S k' =>
      let dotted := if (1 <? k)%nat then after_sep i s ≫= read_ipv4 else None in
      match dotted with
      | Some ([a; b; c; d], r) => ([a * 256 + b; c * 256 + d], true, r)
      | _ =>
          match after_sep i s ≫= read_group with
          | Some (g, r) =>
              let '(gs, v4, r) := read_groups k' (S i) r in (g :: gs, v4, r)
          | None => ([], false, s)
          end
      end
  end%Z.

Definition read_ipv6 (s : string) : option (list Z * string) :=
  let '(head, v4, r) := read_groups 8 0 s in
  if (length head =? 8)%nat then Some (head, r)
  else if v4 then None
  else
    match strip_prefix "::" r with
    | None => None
    | Some r =>
        let '(tail, _, r) := read_groups (8 - (length head + 1)) 0 r in
        Some (head ++ replicate (8 - length head - length tail) 0%Z ++ tail, r)
    end.

Inductive IpAddr := V4 (octets : list Z) | V6 (groups : list Z).

Definition ip_parse (s : string) : option IpAddr :=
  match read_ipv4 s with
  | Some (o, "") => Some (V4 o)
  | Some _ => None
  | None => match read_ipv6 s with Some (g, "") => Some (V6 g) | _ => None end
  end.

Definition is_loopback (ip : IpAddr) : bool :=
  match ip with
  | V4 o => bool_decide (head o = Some 127%Z)
  | V6 g => bool_decide (g = [0; 0; 0; 0; 0; 0; 0; 1]%Z)
  end.

Example loopback_forms :
  (is_loopback <$> ip_parse "127.0.0.1", is_loopback <$> ip_parse "::1",
   is_loopback <$> ip_parse "0:0:0:0:0:0:0:1", is_loopback <$> ip_parse "::0.0.0.1",
   is_loopback <$> ip_parse "10.0.0.1", is_loopback <$> ip_parse "fe80::1",
   ip_parse "127.0.0.01", ip_parse "127.0.0.256", ip_parse "1::2::3", ip_parse "localhost")
  = (Some true, Some true, Some true, Some true, Some false, Some false,
     None, None, None, None).
Proof. vm_compute. reflexivity. Qed.

(** ** [std::net::SocketAddr]

    [a.b.c.d:port], or [[ipv6%scope]:port] with an optional scope. *)
Record SocketAddr := { sa_ip : IpAddr; sa_scope : Z; sa_port : Z }.

(** Any number of decimal digits, leading zeros included, below [bound]. *)
Definition read_decimal (bound : Z) (s : string) : option (Z * string) :=
  let '(n, k, r) := read_digits 10 (String.length s) 0 s in
  if (k =? 0)%nat then None else if (n <? bound)%Z then Some (n, r) else None.

Definition read_port (s : string) : option (Z * string) :=
  read_char ":" s ≫= read_decimal 65536.

Definition read_scope_id (s : string) : option (Z * string) :=
  read_char "%" s ≫= read_decimal (2 ^ 32).

Definition read_socket_addr_v4 (s : string) : option (SocketAddr * string) :=
  '(o, s) ← read_ipv4 s; '(port, s) ← read_port s;
  Some ({| sa_ip := V4 o; sa_scope := 0; sa_port := port |}, s).

Definition read_socket_addr_v6 (s : string) : option (SocketAddr * string) :=
  s ← read_char "[" s; '(g, s) ← read_ipv6 s;
  let '(scope, s) := default (0%Z, s) (read_scope_id s) in
  s ← read_char "]" s; '(port, s) ← read_port s;
  Some ({| sa_ip := V6 g; sa_scope := scope; sa_port := port |}, s).

Definition socket_addr_parse (s : string) : option SocketAddr :=
  match (match read_socket_addr_v4 s with Some r => Some r | None => read_socket_addr_v6 s end) with
  | Some (a, "") => Some a
  | _ => None
  end.

Example socket_addr_forms :
  (sa_port <$> socket_addr_parse "203.0.113.7:11204", sa_ip <$> socket_addr_parse "[::1]:08090",
   sa_scope <$> socket_addr_parse "[fe80::1%3]:1", socket_addr_parse "203.0.113.7",
   socket_addr_parse "203.0.113.7:65536", socket_addr_parse "::1:80")
  = (Some 11204%Z, Some (V6 [0; 0; 0; 0; 0; 0; 0; 1]%Z), Some 3%Z, None, None, None).
Proof. vm_compute. reflexivity. Qed.

(** [h.trim_start_matches('[').trim_end_matches(']')] *)
Definition unbracket (h : string) : string :=
  trim_end_matches "]" (drop_leading "[" h).
