(* ===== verification/S3Store.v ===== *)
(** * The object store (src/store/s3.rs)

    A bucket is a map from keys to objects; every operation of [S3Client] is
    an operation on it. S3 itself is a parameter: a service may refuse a
    request, apply a write whose answer is lost, or answer a conditional
    write with a conflict, each depending on every request made before. The
    requests are kept in the state, newest first. *)

From S2P Require Import Prelude Bytes Identifiers.

Record object := {
  obj_body : bytes;
  obj_owner : option string;
  obj_etag : string
}.

Inductive condition := Always | IfMatch (etag : string) | IfNoneMatchAny.

Inductive s3_op :=
| OpPut (key : string) (body : bytes) (owner : option string) (cond : condition)
| OpGet (key : string)
| OpGetFrom (key : string) (start : Z)
| OpHead (key : string)
| OpDelete (key : string)
| OpList (prefix : string) (after : nat).

Record Bucket := { objects : gmap string object; s3_log : list s3_op }.

Inductive fault :=
| Healthy
| Refused      (* an error answer, nothing done *)
| Ambiguous    (* a write done, its answer lost *)
| InProgress   (* 409: a concurrent conditional write; nothing done *)
| Resent.      (* a conditional write done, its answer lost, and the SDK's
                  second attempt answered 412 *)

Class S3Service := {
  s3_fault : list s3_op -> s3_op -> fault;
  etag_of : bytes -> string;
  (** Keys in one page of a listing, at least one. *)
  page_size : nat
}.

Definition log_op (o : s3_op) (b : Bucket) : Bucket :=
  {| objects := objects b; s3_log := o :: s3_log b |}.
Definition set_objects (m : gmap string object) (b : Bucket) : Bucket :=
  {| objects := m; s3_log := s3_log b |}.

(** ** Requests *)

Section Requests.
Context {S3 : S3Service}.

Inductive s3_error := NoSuchKey | PreconditionFailed | Failed.

Definition begin_op (o : s3_op) : comp Bucket s3_error fault := fun b =>
  (Ok (s3_fault (s3_log b) o), log_op o b).

Definition holds (c : condition) (o : option object) : bool :=
  match c, o with
  | Always, _ => true
  | IfMatch e, Some o => bool_decide (obj_etag o = e)
  | IfMatch _, None => false
  | IfNoneMatchAny, None => true
  | IfNoneMatchAny, Some _ => false
  end.

(** The effect of a PUT the service carries out. *)
Definition apply_put (key : string) (body : bytes) (owner : option string) (b : Bucket) : Bucket :=
  set_objects (<[key := {| obj_body := body; obj_owner := owner; obj_etag := etag_of body |}]>
                 (objects b)) b.

Definition put_object (key : string) (body : bytes) (owner : option string) (cond : condition) :
    comp Bucket s3_error unit :=
  f ← begin_op (OpPut key body owner cond);
  b ← get;
  match f with
  | Refused => throw Failed
  | InProgress => match cond with Always => throw Failed | _ => throw PreconditionFailed end
  | Healthy | Ambiguous | Resent =>
      if holds cond (objects b !! key) then
        _ ← modify (apply_put key body owner);
        match f, cond with
        | Ambiguous, _ => throw Failed
        | Resent, (IfMatch _ | IfNoneMatchAny) => throw PreconditionFailed
        | Resent, Always => mret tt
        | _, _ => mret tt
        end
      else match f with Ambiguous => throw Failed | _ => throw PreconditionFailed end
  end.

Definition read_object (o : s3_op) (key : string) : comp Bucket s3_error object :=
  f ← begin_op o;
  b ← get;
  match f with
  | Healthy | Resent => lift (ok_or (objects b !! key) NoSuchKey)
  | _ => throw Failed
  end.

Definition get_object (key : string) : comp Bucket s3_error object := read_object (OpGet key) key.
Definition head_object (key : string) : comp Bucket s3_error object := read_object (OpHead key) key.

Definition delete_object (key : string) : comp Bucket s3_error unit :=
  f ← begin_op (OpDelete key);
  match f with
  | Healthy | Resent => modify (fun b => set_objects (delete key (objects b)) b)
  | Ambiguous => _ ← modify (fun b => set_objects (delete key (objects b)) b); throw Failed
  | _ => throw Failed
  end.

(** The keys under a prefix. *)
Definition keys_under (p : string) (b : Bucket) : list string :=
  filter (fun k => starts_with p k = true) (map_to_list (objects b)).*1.

(** One page: the keys after position [after], and the next position when
    more are left. *)
Definition list_objects_v2 (p : string) (after : nat) :
    comp Bucket s3_error (list string * option nat) :=
  f ← begin_op (OpList p after);
  b ← get;
  match f with
  | Healthy | Resent =>
      let ks := drop after (keys_under p b) in
      mret (take page_size ks,
            if (page_size <? length ks)%nat then Some (after + page_size)%nat else None)
  | _ => throw Failed
  end.

(** A missing object is [None]; every other error is the operation's. *)
Definition or_absent {A} (what : string) (m : comp Bucket s3_error A) : comp Bucket string (option A) :=
  fun b =>
    match m b with
    | (Ok a, b') => (Ok (Some a), b')
    | (Err NoSuchKey, b') => (Ok None, b')
    | (Err _, b') => (Err what, b')
    end.

Definition context {A} (what : string) (m : comp Bucket s3_error A) : comp Bucket string A :=
  comp_map_err (fun _ => what) m.
End Requests.

(** ** [S3Client] *)

Section Client.
Context {S3 : S3Service} (prefix : string).

Definition blob_key (hash_hex : string) : string := prefix +:+ "blobs/" +:+ hash_hex.
Definition outboard_key (hash_hex : string) : string := prefix +:+ "outboards/" +:+ hash_hex.
Definition manifest_key (hash_hex : string) : string := prefix +:+ "manifests/" +:+ hash_hex.
Definition catalog_document_key (hash_hex : string) : string :=
  prefix +:+ "catalog-documents/" +:+ hash_hex.
Definition catalog_outboard_key (hash_hex : string) : string :=
  prefix +:+ "catalog-outboards/" +:+ hash_hex.
Definition catalog_index_key (hash_hex : string) : string :=
  prefix +:+ "catalog-indexes/" +:+ hash_hex.
Definition catalog_pointer_key (sub : string) : string :=
  prefix +:+ "catalog-pointers/" +:+ sub.

Definition put_blob (hash_hex : string) (data : bytes) : comp Bucket string unit :=
  context "Failed to PUT blob to S3" (put_object (blob_key hash_hex) data None Always).

(** [file] is what the path holds, [None] when it cannot be opened; exactly
    [size] bytes of it are sent. *)
Definition put_blob_file (hash_hex : string) (file : option bytes) (size : Z) :
    comp Bucket string unit :=
  content ← lift (ok_or file "Failed to open file for upload");
  _ ← lift (ensure (size <=? i64_max)%Z "blob too large for S3");
  if (len content <? size)%Z then throw "Failed to PUT blob to S3"
  else
    context "Failed to PUT blob to S3"
      (put_object (blob_key hash_hex) (String.substring 0 (Z.to_nat size) content) None Always).

Definition put_outboard (hash_hex : string) (data : bytes) : comp Bucket string unit :=
  context "Failed to PUT outboard to S3" (put_object (outboard_key hash_hex) data None Always).

Definition put_manifest (hash_hex : string) (data : bytes) : comp Bucket string unit :=
  context "Failed to PUT manifest to S3" (put_object (manifest_key hash_hex) data None Always).

Definition get_manifest (hash_hex : string) : comp Bucket string (option bytes) :=
  o ← or_absent "Failed to GET manifest from S3" (get_object (manifest_key hash_hex));
  mret (obj_body <$> o).

Definition get_blob (hash_hex : string) : comp Bucket string bytes :=
  o ← context "Failed to GET blob from S3" (get_object (blob_key hash_hex));
  mret (obj_body o).

Definition get_outboard (hash_hex : string) : comp Bucket string bytes :=
  o ← context "Failed to GET outboard from S3" (get_object (outboard_key hash_hex));
  mret (obj_body o).

(** The bytes from [start] on; a start past the end is S3's 416. *)
Definition get_object_from (key : string) (start : Z) : comp Bucket string (option bytes) :=
  o ← or_absent ("Failed to GET " +:+ key +:+ " from S3") (read_object (OpGetFrom key start) key);
  match o with
  | None => mret None
  | Some o =>
      if (0 <? start)%Z && (len (obj_body o) <=? start)%Z
      then throw ("Failed to GET " +:+ key +:+ " from S3")
      else mret (Some (String.substring (Z.to_nat start)
                         (String.length (obj_body o) - Z.to_nat start) (obj_body o)))
  end.

Definition object_size (key what : string) : comp Bucket string (option Z) :=
  o ← or_absent ("Failed to HEAD " +:+ what +:+ " in S3") (head_object key);
  mret ((fun o => len (obj_body o)) <$> o).

Definition blob_size (hash_hex : string) : comp Bucket string (option Z) :=
  object_size (blob_key hash_hex) "blob".
Definition outboard_size (hash_hex : string) : comp Bucket string (option Z) :=
  object_size (outboard_key hash_hex) "outboard".
Definition catalog_outboard_size (hash_hex : string) : comp Bucket string (option Z) :=
  object_size (catalog_outboard_key hash_hex) "catalog outboard".

Definition put_catalog_document (hash_hex : string) (body : bytes) (owner : string) :
    comp Bucket string unit :=
  context "Failed to PUT catalog document to S3"
    (put_object (catalog_document_key hash_hex) body (Some owner) Always).

Definition get_catalog_document (hash_hex : string) :
    comp Bucket string (option (bytes * option string)) :=
  o ← or_absent "Failed to GET catalog document from S3" (get_object (catalog_document_key hash_hex));
  mret ((fun o => (obj_body o, obj_owner o)) <$> o).

Definition head_catalog_document (hash_hex : string) : comp Bucket string (option (option string)) :=
  o ← or_absent "Failed to HEAD catalog document in S3" (head_object (catalog_document_key hash_hex));
  mret (obj_owner <$> o).

Definition catalog_document_size (hash_hex : string) :
    comp Bucket string (option (Z * option string)) :=
  o ← or_absent "Failed to HEAD catalog document in S3" (head_object (catalog_document_key hash_hex));
  mret ((fun o => (len (obj_body o), obj_owner o)) <$> o).

Definition put_catalog_outboard (hash_hex : string) (data : bytes) : comp Bucket string unit :=
  context "Failed to PUT catalog outboard to S3"
    (put_object (catalog_outboard_key hash_hex) data None Always).

Definition get_catalog_pointer (sub : string) : comp Bucket string (option (bytes * string)) :=
  o ← or_absent "Failed to GET catalog pointer from S3" (get_object (catalog_pointer_key sub));
  mret ((fun o => (obj_body o, obj_etag o)) <$> o).

Definition put_catalog_index (hash_hex : string) (body : bytes) : comp Bucket string unit :=
  context "Failed to PUT catalog index to S3"
    (put_object (catalog_index_key hash_hex) body None Always).

Definition get_catalog_index (hash_hex : string) : comp Bucket string (option bytes) :=
  o ← or_absent "Failed to GET catalog index from S3" (get_object (catalog_index_key hash_hex));
  mret (obj_body <$> o).

(** [false] when another write got there first. *)
Definition put_catalog_pointer (sub : string) (body : bytes) (expected : option string) :
    comp Bucket string bool := fun b =>
  match put_object (catalog_pointer_key sub) body None
          (match expected with Some etag => IfMatch etag | None => IfNoneMatchAny end) b with
  | (Ok _, b') => (Ok true, b')
  | (Err PreconditionFailed, b') => (Ok false, b')
  | (Err _, b') => (Err "Failed to PUT catalog pointer to S3", b')
  end.

Definition delete_blob (hash_hex : string) : comp Bucket string unit :=
  _ ← context "Failed to DELETE blob from S3" (delete_object (blob_key hash_hex));
  context "Failed to DELETE outboard from S3" (delete_object (outboard_key hash_hex)).

(** ** Moderation records *)

Definition moderation_prefix (kind : string) : string :=
  prefix +:+ "moderation/" +:+ kind +:+ "/".

Definition put_moderation_record (kind key : string) (body : bytes) : comp Bucket string unit :=
  context "Failed to PUT moderation record to S3"
    (put_object (moderation_prefix kind +:+ key) body None Always).

Definition get_moderation_record (kind key : string) : comp Bucket string (option bytes) :=
  o ← or_absent "Failed to GET moderation record from S3" (get_object (moderation_prefix kind +:+ key));
  mret (obj_body <$> o).

(** The GETs of one page, in order. *)
Fixpoint get_all_records (ks : list string) : comp Bucket string (list bytes) :=
  match ks with
  | [] => mret []
  | k :: ks =>
      o ← context "Failed to GET moderation record from S3" (get_object k);
      l ← get_all_records ks;
      mret (obj_body o :: l)
  end.

(** The loop over pages; each page advances, so the number of keys, plus
    one, is enough fuel. *)
Fixpoint list_loop (fuel : nat) (p : string) (after : nat) : comp Bucket string (list bytes) :=
  match fuel with
  | O => throw "out of fuel"
  | S fuel =>
      '(ks, next) ← context "Failed to LIST moderation records in S3" (list_objects_v2 p after);
      out ← get_all_records ks;
      match next with
      | Some after =>
          rest ← list_loop fuel p after;
          mret (out ++ rest)
      | None => mret out
      end
  end.

Definition list_moderation_records (kind : string) : comp Bucket string (list bytes) := fun b =>
  list_loop (S (size (objects b))) (moderation_prefix kind) 0 b.

End Client.

(** ** Facts: what a request does to the objects *)

Section RequestFacts.
Context {S3 : S3Service}.

Definition written (body : bytes) (owner : option string) : object :=
  {| obj_body := body; obj_owner := owner; obj_etag := etag_of body |}.

(** A PUT leaves the objects as they are, or its condition held and the
    object is written; a success always wrote it. *)
Lemma put_object_effect key body owner cond b r b' :
  put_object key body owner cond b = (r, b') ->
  (objects b' = objects b /\ r <> Ok tt)
  \/ (holds cond (objects b !! key) = true
      /\ objects b' = <[key := written body owner]> (objects b)).
Proof.
  unfold put_object, begin_op, get, modify, throw, mret, comp_ret, mbind, comp_bind.
  cbn [log_op objects]. intros H.
  destruct (s3_fault (s3_log b) (OpPut key body owner cond)); simplify_eq/=; auto;
    try (destruct cond; simplify_eq/=; by left);
    destruct (holds cond (objects b !! key)) eqn:Hh; simplify_eq/=; auto;
    try (right; split; [done|]; by destruct cond; simplify_eq).
Qed.

Lemma put_object_ok key body owner cond b b' :
  put_object key body owner cond b = (Ok tt, b') ->
  holds cond (objects b !! key) = true
  /\ objects b' = <[key := written body owner]> (objects b).
Proof. intros [[_ ?]|?]%put_object_effect; done. Qed.

(** A refused condition, without a lost answer, wrote nothing: the plain
    PUTs fail only as a whole. *)
Lemma put_always_effect key body owner b r b' :
  put_object key body owner Always b = (r, b') ->
  (objects b' = objects b /\ r <> Ok tt) \/ objects b' = <[key := written body owner]> (objects b).
Proof. intros [?|[_ ?]]%put_object_effect; auto. Qed.

Lemma read_object_objects o key b r b' :
  read_object o key b = (r, b') ->
  objects b' = objects b /\ (forall x, r = Ok x -> objects b !! key = Some x).
Proof.
  unfold read_object, begin_op, get, throw, lift, mbind, comp_bind. cbn [log_op objects].
  destruct (s3_fault _ _); intros; simplify_eq/=; split; auto; try done;
    intros x Hx; destruct (objects b !! key); simplify_eq/=; done.
Qed.

Lemma or_absent_spec {A} what (m : comp Bucket s3_error A) b r b' :
  or_absent what m b = (r, b') ->
  exists r0, m b = (r0, b') /\
    match r with
    | Ok (Some a) => r0 = Ok a
    | Ok None => r0 = Err NoSuchKey
    | Err e => e = what /\ is_ok r0 = false
    end.
Proof.
  unfold or_absent. destruct (m b) as [[a|[]] b1]; intros; simplify_eq/=; by eexists.
Qed.

Lemma context_spec {A} what (m : comp Bucket s3_error A) b r b' :
  context what m b = (r, b') ->
  exists r0, m b = (r0, b') /\
    match r with Ok a => r0 = Ok a | Err e => e = what /\ is_ok r0 = false end.
Proof.
  unfold context, comp_map_err. destruct (m b) as [[a|e] b1]; intros; simplify_eq/=; by eexists.
Qed.

Lemma put_context_effect what key body owner b r b' :
  context what (put_object key body owner Always) b = (r, b') ->
  (objects b' = objects b /\ r <> Ok tt) \/ objects b' = <[key := written body owner]> (objects b).
Proof.
  intros (r0 & H & Hr)%context_spec. apply put_always_effect in H as [[Ho Hn]|Ho]; [left|by right].
  split; [done|]. intros ->. by subst.
Qed.

Lemma put_blob_file_effect prefix hex file size b r b' :
  put_blob_file prefix hex file size b = (r, b') ->
  (objects b' = objects b /\ r <> Ok tt)
  \/ exists content, file = Some content /\ (size <= len content)%Z
     /\ objects b' = <[blob_key prefix hex := written (String.substring 0 (Z.to_nat size) content) None]> (objects b).
Proof.
  unfold put_blob_file. intros H. apply comp_bind_state in H as [(content & b1 & Hf & H)|(e & Hf & ->)].
  2: { unfold lift in Hf. injection Hf as _ <-. by left. }
  apply lift_ok in Hf as [->%ok_or_ok ->].
  apply comp_bind_state in H as [(u & b1 & Hf & H)|(e & Hf & ->)].
  2: { unfold lift in Hf. injection Hf as _ <-. by left. }
  apply lift_ok in Hf as [_ ->]. destruct (Z.ltb_spec (len content) size).
  { unfold throw in H. injection H as <- <-. by left. }
  apply put_context_effect in H as [?|?]; [by left|right]. by exists content.
Qed.

(** A NoSuchKey answer is only given when there is no such object. *)
Lemma read_object_absent o key b b' :
  read_object o key b = (Err NoSuchKey, b') -> objects b !! key = None.
Proof.
  unfold read_object, begin_op, get, throw, lift, mbind, comp_bind. cbn [log_op objects].
  destruct (s3_fault _ _); intros; simplify_eq/=; by destruct (objects b !! key).
Qed.

(** ** Listing *)

Lemma get_all_records_ok ks b l b' :
  get_all_records ks b = (Ok l, b') ->
  objects b' = objects b
  /\ Forall2 (fun k x => obj_body <$> objects b !! k = Some x) ks l.
Proof.
  revert b l; induction ks as [|k ks IH]; intros b l H; cbn in H; inv_run; [done|].
  apply context_spec in H0 as (r0 & H0 & ->). apply read_object_objects in H0 as [Ho Hx].
  apply IH in H1 as [Ho1 Hl]. split; [congruence|]. constructor.
  - by rewrite (Hx _ eq_refl).
  - by rewrite <- Ho.
Qed.

Lemma get_all_records_err ks b e b' :
  get_all_records ks b = (Err e, b') -> e = "Failed to GET moderation record from S3".
Proof.
  revert b; induction ks as [|k ks IH]; intros b H; cbn in H; [done|].
  apply comp_bind_state in H as [(o & b1 & _ & H)|(e1 & H & [= ->])].
  - apply comp_bind_state in H as [(o1 & b2 & _ & H)|(e2 & H & [= ->])]; [inv_run; done|].
    by eapply IH.
  - by apply context_spec in H as (r0 & _ & -> & _).
Qed.

Lemma list_objects_v2_ok p after b ks next b' :
  list_objects_v2 p after b = (Ok (ks, next), b') ->
  objects b' = objects b /\ ks = take page_size (drop after (keys_under p b))
  /\ next = if (page_size <? length (drop after (keys_under p b)))%nat
            then Some (after + page_size)%nat else None.
Proof.
  unfold list_objects_v2, begin_op, get, throw, mret, comp_ret, mbind, comp_bind.
  destruct (s3_fault _ _); intros; simplify_eq/=; done.
Qed.

Lemma list_loop_ok fuel p after b l b' :
  list_loop fuel p after b = (Ok l, b') ->
  objects b' = objects b
  /\ Forall2 (fun k x => obj_body <$> objects b !! k = Some x) (drop after (keys_under p b)) l.
Proof.
  revert after b l; induction fuel as [|fuel IH]; intros after b l H; cbn in H; [done|].
  inv_run. apply context_spec in H0 as (r0 & H0 & ->).
  apply list_objects_v2_ok in H0 as (Hob & -> & ->). apply get_all_records_ok in H1 as [Ho Hl]. rewrite Hob in Ho, Hl.
  destruct (Nat.ltb_spec page_size (length (drop after (keys_under p b)))) as [Hlt|Hge]; inv_run.
  - apply IH in H0 as [Ho1 Hl1]. split; [congruence|].
    rewrite <- (take_drop page_size (drop after (keys_under p b))).
    apply Forall2_app; [done|]. rewrite drop_drop.
    unfold keys_under in *. rewrite Ho in Hl1. exact Hl1.
  - split; [done|]. by rewrite take_ge in Hl by lia.
Qed.

(** The pages end before the fuel does. *)
Lemma list_loop_fuel fuel p after b e b' :
  (0 < page_size)%nat -> (length (drop after (keys_under p b)) < fuel)%nat ->
  list_loop fuel p after b = (Err e, b') -> e <> "out of fuel".
Proof.
  intros Hpage. revert after b; induction fuel as [|fuel IH]; intros after b Hf H; cbn in H; [lia|].
  apply comp_bind_state in H as [([ks next] & b1 & H0 & H)|(e1 & H0 & [= ->])].
  2: { apply context_spec in H0 as (r0 & _ & -> & _). done. }
  apply context_spec in H0 as (r0 & H0 & ->).
  apply list_objects_v2_ok in H0 as (Hob & -> & ->). apply comp_bind_state in H as [(out & b2 & H1 & H)|(e1 & H1 & [= ->])].
  - apply get_all_records_ok in H1 as [Ho _]. rewrite Hob in Ho.
    destruct (Nat.ltb_spec page_size (length (drop after (keys_under p b)))) as [Hlt|Hge];
      [|inv_run; done].
    apply comp_bind_state in H as [(rest & b3 & H2 & H)|(e1 & H2 & [= ->])]; [inv_run; done|].
    apply IH in H2; [done|]. unfold keys_under in *. rewrite Ho.
    rewrite <- drop_drop, length_drop. lia.
  - apply get_all_records_err in H1 as ->. done.
Qed.

Lemma keys_under_elem p b k :
  k ∈ keys_under p b <-> starts_with p k = true /\ is_Some (objects b !! k).
Proof.
  unfold keys_under. rewrite list_elem_of_filter, list_elem_of_fmap. split.
  - intros [Hs ([k' o] & -> & Hin%elem_of_map_to_list)]. by eauto.
  - intros [Hs [o Ho]]. split; [done|]. exists (k, o). by rewrite elem_of_map_to_list.
Qed.

Lemma keys_under_length p b : (length (keys_under p b) <= size (objects b))%nat.
Proof.
  unfold keys_under. etransitivity; [apply length_filter|].
  by rewrite length_fmap, length_map_to_list.
Qed.
(** Without faults a listing succeeds. *)
Section HealthyListing.
Context (Hhealthy : forall log o, s3_fault log o = Healthy).

Lemma get_all_records_healthy ks b :
  Forall (fun k => is_Some (objects b !! k)) ks ->
  exists l b', get_all_records ks b = (Ok l, b') /\ objects b' = objects b.
Proof.
  revert b; induction ks as [|k ks IH]; intros b Hks; cbn; [by eexists _, _|].
  apply Forall_cons in Hks as [[o Ho] Hks].
  unfold context, get_object, read_object, comp_map_err, begin_op, get, mbind, comp_bind. rewrite Hhealthy. cbn. rewrite Ho. cbn.
  destruct (IH (log_op (OpGet k) b)) as (l & b' & E & Hob); [done|].
  unfold mbind in E. rewrite E. by eexists _, _.
Qed.

Lemma list_loop_healthy fuel p after b :
  (0 < page_size)%nat -> (length (drop after (keys_under p b)) < fuel)%nat ->
  exists l b', list_loop fuel p after b = (Ok l, b').
Proof.
  intros Hpage. revert after b; induction fuel as [|fuel IH]; intros after b Hf; [lia|].
  destruct (list_loop (S fuel) p after b) as [[l|e] b'] eqn:H; [by eexists _, _|exfalso]. cbn in H.
  apply comp_bind_state in H as [([ks next] & b1 & H0 & H)|(e1 & H0 & _)].
  2: { unfold context, list_objects_v2, comp_map_err, begin_op, get, mbind, comp_bind in H0. by rewrite Hhealthy in H0. }
  apply context_spec in H0 as (r0 & H0 & ->). apply list_objects_v2_ok in H0 as (Hob & -> & ->).
  destruct (get_all_records_healthy (take page_size (drop after (keys_under p b))) b1) as (l & b2 & E & Ho).
  { apply Forall_forall. intros k Hk. rewrite Hob. apply (keys_under_elem p b k).
    eapply elem_of_sublist; [exact Hk|]. etransitivity; [apply sublist_take|apply sublist_drop]. }
  unfold mbind at 1, comp_bind at 1 in H. rewrite E in H. rewrite Hob in Ho.
  destruct (Nat.ltb_spec page_size (length (drop after (keys_under p b)))); [|by inv_run].
  destruct (IH (after + page_size)%nat b2) as (l2 & b3 & E2).
  { unfold keys_under in *. rewrite Ho, <- drop_drop, length_drop. lia. }
  unfold mbind, comp_bind in H. by rewrite E2 in H.
Qed.
End HealthyListing.

(** Reads keep the objects, also when they fail. *)
Definition has_objects (m : gmap string object) (b : Bucket) : Prop := objects b = m.

Lemma stable_context {A} m what (x : comp Bucket s3_error A) Q :
  stable (has_objects m) x Q -> stable (has_objects m) (context what x) Q.
Proof.
  intros Hx b r b' (r0 & H & Hr)%context_spec Hb. destruct (Hx _ _ _ H Hb) as [? HQ].
  split; [done|]. intros a ->. subst. auto.
Qed.

Lemma stable_or_absent {A} m what (x : comp Bucket s3_error A) Q :
  stable (has_objects m) x Q ->
  stable (has_objects m) (or_absent what x) (fun o => forall a, o = Some a -> Q a).
Proof.
  intros Hx b r b' (r0 & H & Hr)%or_absent_spec Hb. destruct (Hx _ _ _ H Hb) as [? HQ].
  split; [done|]. intros o -> a ->. subst. auto.
Qed.

Lemma stable_read_object m o key :
  stable (has_objects m) (read_object o key) (fun x => m !! key = Some x).
Proof.
  unfold has_objects. intros b r b' [Ho Hx]%read_object_objects <-. by split.
Qed.

Lemma stable_list_objects_v2 m p after :
  stable (has_objects m) (list_objects_v2 p after) (fun _ => True).
Proof.
  intros b r b' H Hb. split; [|done].
  unfold list_objects_v2, begin_op, get, throw, mret, comp_ret, mbind, comp_bind in H.
  destruct (s3_fault _ _); simplify_eq/=; done.
Qed.

Lemma stable_get_all_records m ks : stable (has_objects m) (get_all_records ks) (fun _ => True).
Proof.
  induction ks as [|k ks IH]; cbn; auto with tdf.
  eapply stable_bind; [apply stable_context, stable_read_object|]. intros o _.
  eapply stable_bind; [apply IH|]. auto with tdf.
Qed.

Lemma stable_list_loop m fuel p after : stable (has_objects m) (list_loop fuel p after) (fun _ => True).
Proof.
  revert after; induction fuel as [|fuel IH]; intros after; cbn; auto with tdf.
  eapply stable_bind; [apply stable_context, stable_list_objects_v2|]. intros [ks next] _.
  eapply stable_bind; [apply stable_get_all_records|]. intros out _.
  destruct next as [after'|]; auto with tdf. eapply stable_bind; [apply IH|]. auto with tdf.
Qed.

End RequestFacts.

(** ** Key families *)

Inductive family :=
| Blobs | Outboards | Manifests | CatalogDocuments | CatalogOutboards | CatalogIndexes
| CatalogPointers | Records (kind : string).

Section Keys.
Context {S3 : S3Service} (prefix : string).

Definition family_key (f : family) (id : string) : string :=
  match f with
  | Blobs => blob_key prefix id
  | Outboards => outboard_key prefix id
  | Manifests => manifest_key prefix id
  | CatalogDocuments => catalog_document_key prefix id
  | CatalogOutboards => catalog_outboard_key prefix id
  | CatalogIndexes => catalog_index_key prefix id
  | CatalogPointers => catalog_pointer_key prefix id
  | Records kind => moderation_prefix prefix kind +:+ id
  end.

Definition no_slash (s : string) : Prop := all_bytes (fun c => negb (bool_decide (c = "/"%char))) s = true.

Definition family_ok (f : family) : Prop :=
  match f with Records kind => no_slash kind | _ => True end.

(** Two slash-free names followed by a slash are the same name. *)
Lemma no_slash_app_inj k1 k2 x y :
  no_slash k1 -> no_slash k2 ->
  k1 +:+ "/" +:+ x = k2 +:+ "/" +:+ y -> k1 = k2 /\ x = y.
Proof.
  unfold no_slash. revert k2; induction k1 as [|a k1 IH]; intros [|b k2] H1 H2 E;
    rewrite ?string_app_cons, ?string_app_nil_l in E.
  - injection E as E. done.
  - injection E as <- E. cbn in H2. done.
  - injection E as -> E. cbn in H1. done.
  - injection E as -> E. cbn in H1, H2. apply andb_true_iff in H1 as [_ H1], H2 as [_ H2].
    destruct (IH k2 H1 H2 E) as [-> ->]. done.
Qed.

(** The directory of a family, without its slash. *)
Definition directory (f : family) : string :=
  match f with
  | Blobs => "blobs" | Outboards => "outboards" | Manifests => "manifests"
  | CatalogDocuments => "catalog-documents" | CatalogOutboards => "catalog-outboards"
  | CatalogIndexes => "catalog-indexes" | CatalogPointers => "catalog-pointers"
  | Records _ => "moderation"
  end.

Definition tail (f : family) (id : string) : string :=
  match f with Records kind => kind +:+ "/" +:+ id | _ => id end.

Lemma family_key_split f id : family_key f id = prefix +:+ directory f +:+ "/" +:+ tail f id.
Proof.
  destruct f; cbn; rewrite ?(string_app_assoc _ _ id); try reflexivity.
  unfold moderation_prefix. rewrite !string_app_assoc. reflexivity.
Qed.

Lemma family_key_inj f1 f2 i1 i2 :
  family_ok f1 -> family_ok f2 -> family_key f1 i1 = family_key f2 i2 -> f1 = f2 /\ i1 = i2.
Proof.
  intros Hf1 Hf2. rewrite !family_key_split. intros E%string_app_inj.
  apply no_slash_app_inj in E as [Hd Ht]; [|by destruct f1|by destruct f2].
  destruct f1, f2; try done; cbn in Ht; subst; try done.
  apply no_slash_app_inj in Ht as [-> ->]; done.
Qed.

Lemma list_moderation_records_elem kind b l b' :
  list_moderation_records prefix kind b = (Ok l, b') ->
  objects b' = objects b /\
  forall x, x ∈ l <-> exists key, obj_body <$> objects b !! (moderation_prefix prefix kind +:+ key) = Some x.
Proof.
  intros [Ho Hl]%list_loop_ok. split; [done|]. rewrite drop_0 in Hl.
  intros x. split.
  - intros [i Hi]%list_elem_of_lookup. destruct (Forall2_lookup_r _ _ _ _ _ Hl Hi) as (k & Hk & Hx).
    apply list_elem_of_lookup_2, keys_under_elem in Hk as [[key ->]%starts_with_true _]. by exists key.
  - intros (key & Hx).
    assert (moderation_prefix prefix kind +:+ key ∈ keys_under (moderation_prefix prefix kind) b) as Hin.
    { apply keys_under_elem. split; [apply starts_with_true; by eexists|].
      by destruct (objects b !! _). }
    apply list_elem_of_lookup in Hin as [i Hi].
    destruct (Forall2_lookup_l _ _ _ _ _ Hl Hi) as (y & Hy & Hxy).
    rewrite Hx in Hxy. simplify_eq. by eapply list_elem_of_lookup_2.
Qed.

Lemma list_moderation_records_healthy kind b :
  (forall log o, s3_fault log o = Healthy) -> (0 < page_size)%nat ->
  exists l b', list_moderation_records prefix kind b = (Ok l, b').
Proof.
  intros Hh Hp. apply list_loop_healthy; [done..|].
  pose proof (keys_under_length (moderation_prefix prefix kind) b). rewrite drop_0. lia.
Qed.

(** ** Theorems *)

(** The key of every stored object determines what it is: two objects of
    different families (content, outboards, manifests, catalog documents,
    outboards, indexes and pointers, and the moderation records of each kind)
    never share a key, whatever their identifiers, and within a family
    distinct identifiers have distinct keys. *)
Theorem object_keys_disjoint f1 f2 i1 i2 :
  family_ok f1 -> family_ok f2 ->
  family_key f1 i1 = family_key f2 i2 <-> f1 = f2 /\ i1 = i2.
Proof. intros H1 H2. split; [by apply family_key_inj|]. by intros [-> ->]. Qed.

(** Listing the records of a kind reads every page and every record: a
    listing that succeeds holds exactly the bodies stored under
    [moderation/<kind>/], changes nothing, and always ends after finitely many
    pages. *)
Theorem list_moderation_records_exact kind b r b' :
  (0 < page_size)%nat ->
  list_moderation_records prefix kind b = (r, b') ->
  match r with
  | Ok l => objects b' = objects b /\
      forall x, x ∈ l <->
        exists key o, objects b !! family_key (Records kind) key = Some o /\ obj_body o = x
  | Err e => e <> "out of fuel"
  end.
Proof.
  intros Hp H. destruct r as [l|e].
  - apply list_moderation_records_elem in H as [Ho Hx]. split; [done|]. intros x.
    rewrite Hx. cbn. by setoid_rewrite fmap_Some; firstorder.
  - eapply list_loop_fuel; [done| |exact H]. pose proof (keys_under_length (moderation_prefix prefix kind) b).
    rewrite drop_0. lia.
Qed.
End Keys.

(** ** Witnesses *)

Module S3Sample.
#[local] Instance healthy : S3Service :=
  {| s3_fault := fun _ _ => Healthy; etag_of := id; page_size := 2 |}.

Definition record (body : string) : object := {| obj_body := body; obj_owner := None; obj_etag := body |}.

Definition bucket : Bucket :=
  {| objects := {[ "moderation/blocks/a" := record "1"; "moderation/blocks/b" := record "2";
                   "moderation/blocks/c" := record "3"; "moderation/catalog-blocks/d" := record "4" ]};
     s3_log := [] |}.

Lemma object_keys_disjoint_witness : family_key "" (Records "blocks") "a" <> family_key "" (Records "audit") "a".
Proof.
  intros E. apply (object_keys_disjoint "" (Records "blocks") (Records "audit") "a" "a") in E;
    [|reflexivity|reflexivity].
  destruct E as [E _]. discriminate E.
Defined.

Lemma list_moderation_records_exact_witness :
  exists l b', list_moderation_records "" "blocks" bucket = (Ok l, b') /\ "2" ∈ l /\ "4" ∉ l.
Proof.
  destruct (list_moderation_records "" "blocks" bucket) as [r b'] eqn:E.
  pose proof (list_moderation_records_exact "" "blocks" bucket r b' (Nat.lt_0_succ 1 : (0 < page_size)%nat) E) as H.
  assert (is_ok r = true) as Hr.
  { transitivity (is_ok (fst (list_moderation_records "" "blocks" bucket))); [by rewrite E|].
    vm_compute. reflexivity. }
  destruct r as [l|e]; [|discriminate Hr]. destruct H as [_ H]. exists l, b'. split; [reflexivity|].
  split.
  - apply H. exists "b", (record "2"). split; reflexivity.
  - assert ("4" ∉ match (list_moderation_records "" "blocks" bucket).1 with Ok l => l | Err _ => [] end) as Hn.
    { apply (bool_decide_unpack ("4" ∉ _)). vm_compute. exact I. }
    rewrite E in Hn. exact Hn.
Defined.
End S3Sample.
