(* ===== verification/Auth.v ===== *)
(** * Token verification (src/auth.rs)

    CWT bearer tokens against the IdP's key set: the claims parser, the
    COSE_Sign1 check with its cached and rate-limited key set, and the checks
    [verify_with] makes in order. The verifier's state is the key cache; an
    unknown [kid] makes it fetch the key set once. *)

From S2P Require Import Prelude Bytes Identifiers Json Extern Samples.

(** ** Data *)

Inductive AuthError :=
| Malformed | Algorithm | UnknownKid | Signature | Expired | NotYetValid
| MissingClaim (name : string) | Issuer | Audience | DuplicateKey
| KeySet (why : string).

Inductive Aud := AudOne (s : string) | AudMany (v : list string).

Definition aud_contains (aud : Aud) (want : string) : bool :=
  match aud with
  | AudOne s => bool_decide (s = want)
  | AudMany v => existsb (fun s => bool_decide (s = want)) v
  end.

Definition aud_as_str (aud : Aud) : option string :=
  match aud with
  | AudOne s => Some s
  | AudMany [s] => Some s
  | _ => None
  end.

Record VerifyOpts := { expected_aud : option string }.

Record VerifiedClaims := {
  iss : string;
  sub : string;
  aud : Aud;
  exp : Z;
  iat : Z;
  nbf : option Z;
  cti : bytes;
  kid : option string;
  patreon_user_id : option string;
  email : option string;
  email_verified : option bool;
  idp : option string;
  arkavo_account_id : option string;
  arkavo_roles : option (list string);
  arkavo_entitlements : list string;
  client_id : option string;
  arkavo_patreon : option json
}.

Definition CWT_TAG_PREFIX : bytes := String "216" (String "061" "").
Definition SKEW_SECS : Z := 60.
Definition PASSKEY_CREDENTIAL_TYP : string := "arkavo-passkey-credential".
Definition DEVICECHECK_AUD : string := "arkavo:devicecheck".
Definition KEY_REFRESH_MIN_INTERVAL : Z := secs 60.
Definition MAX_ENTITLEMENTS : nat := 500.
Definition MAX_ENTITLEMENT_BYTES : Z := 256.

Section Claims.
Context {B64 : Base64} {CB : Ciborium} {CO : Coset}.

(** ** Claim values *)

(** [serde_json::Number::from_f64] refuses NaN and the infinities. *)
Definition from_f64 (f : SpecFloat.spec_float) : option json :=
  match f with
  | SpecFloat.S754_nan | SpecFloat.S754_infinity _ => None
  | _ => Some (JFloat f)
  end.

Fixpoint cbor_to_json (v : cbor) : json :=
  match v with
  | CText s => JString s
  | CInteger i =>
      if in_i64 i then JInt i
      else if in_u64 i then JInt i
      else JString (pretty i)
  | CBool b => JBool b
  | CNull => JNull
  | CFloat f => default JNull (from_f64 f)
  | CBytes b => JString (b64std_encode b)
  | CArray a => JArray (map cbor_to_json a)
  | CMap m =>
      JObject ((fix go obj m :=
        match m with
        | [] => obj
        | (k, val) :: m =>
            match k with
            | CText key => go (assoc_insert key (cbor_to_json val) obj) m
            | _ => go obj m
            end
        end) [] m)
  | other => JString (cbor_debug other)
  end.

Definition entitlements (a : list cbor) : list string :=
  if (MAX_ENTITLEMENTS <? length a)%nat then []
  else default [] (mapM (fun v =>
    match v with
    | CText s => if (len s <=? MAX_ENTITLEMENT_BYTES)%Z then Some s else None
    | _ => None
    end) a).

Definition text_array (a : list cbor) : result AuthError (list string) :=
  try_map (fun v => match v with CText s => Ok s | _ => Err Malformed end) a.

(** The [kid] of the COSE_Key at key 1, when it parses and has one. *)
Definition cnf_cose_kid (v : cbor) (cose_kid : option bytes) : option bytes :=
  match key_from_cbor v with
  | Some key => if is_empty (ck_key_id key) then cose_kid else Some (ck_key_id key)
  | None => cose_kid
  end.

(** The loop of [parse_cnf_kid]: the integer keys seen, and the two kids. *)
Fixpoint cnf_loop (seen : list Z) (kid_bytes cose_kid : option bytes)
    (m : list (cbor * cbor)) : result AuthError (option bytes * option bytes) :=
  match m with
  | [] => Ok (kid_bytes, cose_kid)
  | (CInteger n, v) :: m =>
      if bool_decide (n ∈ seen) then Err DuplicateKey
      else
        match v, n with
        | CBytes b, 2 | CBytes b, 3 => cnf_loop (n :: seen) (Some b) cose_kid m
        | _, 1 => cnf_loop (n :: seen) kid_bytes (cnf_cose_kid v cose_kid) m
        | _, _ => cnf_loop (n :: seen) kid_bytes cose_kid m
        end%Z
  | (_, _) :: m => cnf_loop seen kid_bytes cose_kid m
  end.

Definition non_empty_bytes (b : option bytes) : option bytes :=
  match b with Some s => if is_empty s then None else Some s | None => None end.

Definition parse_cnf_kid (m : list (cbor * cbor)) : result AuthError (option string) :=
  '(kid_bytes, cose_kid) ← cnf_loop [] None None m;
  Ok (b64url_encode <$> non_empty_bytes (match kid_bytes with Some b => Some b | None => cose_kid end)).

(** ** The claims map *)

(** The loop's variables: the keys seen and the claims found so far. *)
Record claims_acc := {
  a_seen : list string;
  a_iss : option string;
  a_sub : option string;
  a_aud : option Aud;
  a_exp : option Z;
  a_iat : option Z;
  a_nbf : option Z;
  a_cti : option bytes;
  a_kid : option string;
  a_patreon_user_id : option string;
  a_email : option string;
  a_email_verified : option bool;
  a_idp : option string;
  a_account_id : option string;
  a_roles : option (list string);
  a_entitlements : list string;
  a_client_id : option string;
  a_patreon : option json
}.

Definition acc_empty : claims_acc :=
  {| a_seen := []; a_iss := None; a_sub := None; a_aud := None; a_exp := None;
     a_iat := None; a_nbf := None; a_cti := None; a_kid := None;
     a_patreon_user_id := None; a_email := None; a_email_verified := None;
     a_idp := None; a_account_id := None; a_roles := None; a_entitlements := [];
     a_client_id := None; a_patreon := None |}.

(** [aud] as an array: text members, none empty, at least one. *)
Definition aud_members (a : list cbor) : result AuthError Aud :=
  members ← try_map (fun item =>
    match item with
    | CText s => if is_empty s then Err Malformed else Ok s
    | _ => Err Malformed
    end) a;
  match members with [] => Err (MissingClaim "aud") | _ => Ok (AudMany members) end.

Definition set_seen (k : string) (c : claims_acc) : claims_acc :=
  {| a_seen := k :: a_seen c; a_iss := a_iss c; a_sub := a_sub c; a_aud := a_aud c;
     a_exp := a_exp c; a_iat := a_iat c; a_nbf := a_nbf c; a_cti := a_cti c;
     a_kid := a_kid c; a_patreon_user_id := a_patreon_user_id c; a_email := a_email c;
     a_email_verified := a_email_verified c; a_idp := a_idp c;
     a_account_id := a_account_id c; a_roles := a_roles c;
     a_entitlements := a_entitlements c; a_client_id := a_client_id c;
     a_patreon := a_patreon c |}.

(** An update of one field at a time, in the record's order. *)
Definition upd (c : claims_acc)
    (iss' sub' : option string) (aud' : option Aud) (exp' iat' nbf' : option Z)
    (cti' : option bytes) (kid' : option string) : claims_acc :=
  {| a_seen := a_seen c; a_iss := iss'; a_sub := sub'; a_aud := aud'; a_exp := exp';
     a_iat := iat'; a_nbf := nbf'; a_cti := cti'; a_kid := kid';
     a_patreon_user_id := a_patreon_user_id c; a_email := a_email c;
     a_email_verified := a_email_verified c; a_idp := a_idp c;
     a_account_id := a_account_id c; a_roles := a_roles c;
     a_entitlements := a_entitlements c; a_client_id := a_client_id c;
     a_patreon := a_patreon c |}.

Definition int_claim (key : Z) (v : cbor) (c : claims_acc) : result AuthError claims_acc :=
  let '(i, s, a) := (a_iss c, a_sub c, a_aud c) in
  let '(e, t, n) := (a_exp c, a_iat c, a_nbf c) in
  let '(ct, k) := (a_cti c, a_kid c) in
  match key, v with
  | 1, CText x => Ok (upd c (Some x) s a e t n ct k)
  | 2, CText x => Ok (upd c i (Some x) a e t n ct k)
  | 3, CText x => Ok (upd c i s (Some (AudOne x)) e t n ct k)
  | 3, CArray l => x ← aud_members l; Ok (upd c i s (Some x) e t n ct k)
  | 4, CInteger x => Ok (upd c i s a (i64_try_from x) t n ct k)
  | 6, CInteger x => Ok (upd c i s a e (i64_try_from x) n ct k)
  | 5, CInteger x => x ← ok_or (i64_try_from x) Malformed; Ok (upd c i s a e t (Some x) ct k)
  | 5, _ => Err Malformed
  | 7, CBytes x => Ok (upd c i s a e t n (Some x) k)
  | 8, CMap m => x ← parse_cnf_kid m; Ok (upd c i s a e t n ct x)
  | _, _ => Ok c
  end%Z.

Definition upd_text (c : claims_acc)
    (uid' email' : option string) (verified' : option bool) (idp' account' : option string)
    (roles' : option (list string)) (ents' : list string) (client' : option string)
    (patreon' : option json) : claims_acc :=
  {| a_seen := a_seen c; a_iss := a_iss c; a_sub := a_sub c; a_aud := a_aud c;
     a_exp := a_exp c; a_iat := a_iat c; a_nbf := a_nbf c; a_cti := a_cti c;
     a_kid := a_kid c; a_patreon_user_id := uid'; a_email := email';
     a_email_verified := verified'; a_idp := idp'; a_account_id := account';
     a_roles := roles'; a_entitlements := ents'; a_client_id := client';
     a_patreon := patreon' |}.

Definition text_claim (key : string) (v : cbor) (c : claims_acc) : result AuthError claims_acc :=
  let '(u, e, ev) := (a_patreon_user_id c, a_email c, a_email_verified c) in
  let '(i, ac, r) := (a_idp c, a_account_id c, a_roles c) in
  let '(en, cl, p) := (a_entitlements c, a_client_id c, a_patreon c) in
  if decide (key = "typ") then Err Malformed
  else match v with
  | CText s =>
      if decide (key = "email") then Ok (upd_text c u (Some s) ev i ac r en cl p)
      else if decide (key = "idp") then Ok (upd_text c u e ev (Some s) ac r en cl p)
      else if decide (key = "arkavo_account_id") then Ok (upd_text c u e ev i (Some s) r en cl p)
      else if decide (key = "client_id") then Ok (upd_text c u e ev i ac r en (Some s) p)
      else Ok c
  | CBool b =>
      if decide (key = "email_verified") then Ok (upd_text c u e (Some b) i ac r en cl p)
      else Ok c
  | CArray a =>
      if decide (key = "arkavo_roles") then
        r' ← text_array a; Ok (upd_text c u e ev i ac (Some r') en cl p)
      else if decide (key = "arkavo_entitlements") then
        Ok (upd_text c u e ev i ac r (entitlements a) cl p)
      else Ok c
  | CMap _ =>
      if decide (key = "arkavo_patreon") then
        let patreon := cbor_to_json v in
        Ok (upd_text c (get_str "patreon_user_id" patreon) e ev i ac r en cl (Some patreon))
      else Ok c
  | _ => Ok c
  end.

(** [format!("i:{..}")] or [format!("t:{..}")]; another key type is malformed. *)
Definition claim_key_id (k : cbor) : result AuthError string :=
  match k with
  | CInteger i => Ok ("i:" +:+ pretty i)
  | CText t => Ok ("t:" +:+ t)
  | _ => Err Malformed
  end.

Definition claim_step (c : claims_acc) (kv : cbor * cbor) : result AuthError claims_acc :=
  let '(k, v) := kv in
  key_id ← claim_key_id k;
  if bool_decide (key_id ∈ a_seen c) then Err DuplicateKey
  else
    let c := set_seen key_id c in
    match k with
    | CInteger key => int_claim key v c
    | CText key => text_claim key v c
    | _ => Ok c
    end.

Fixpoint claim_loop (c : claims_acc) (l : list (cbor * cbor)) : result AuthError claims_acc :=
  match l with
  | [] => Ok c
  | kv :: l => c ← claim_step c kv; claim_loop c l
  end.

Definition non_empty (v : option string) (name : string) : result AuthError string :=
  match v with
  | Some s => if is_empty s then Err (MissingClaim name) else Ok s
  | None => Err (MissingClaim name)
  end.

(** The struct expression that ends [parse_claims], fields in order. *)
Definition finish_claims (c : claims_acc) : result AuthError VerifiedClaims :=
  _ ← (match a_aud c with
       | Some (AudOne s) => if is_empty s then Err (MissingClaim "aud") else Ok tt
       | _ => Ok tt
       end);
  i ← non_empty (a_iss c) "iss";
  s ← non_empty (a_sub c) "sub";
  a ← ok_or (a_aud c) (MissingClaim "aud");
  e ← ok_or (a_exp c) (MissingClaim "exp");
  t ← ok_or (a_iat c) (MissingClaim "iat");
  ct ← ok_or (non_empty_bytes (a_cti c)) (MissingClaim "cti");
  Ok {| iss := i; sub := s; aud := a; exp := e; iat := t; nbf := a_nbf c; cti := ct;
        kid := a_kid c; patreon_user_id := a_patreon_user_id c; email := a_email c;
        email_verified := a_email_verified c; idp := a_idp c;
        arkavo_account_id := a_account_id c; arkavo_roles := a_roles c;
        arkavo_entitlements := a_entitlements c; client_id := a_client_id c;
        arkavo_patreon := a_patreon c |}.

Definition parse_claims (payload : bytes) : result AuthError VerifiedClaims :=
  match cbor_parse payload with
  | Some (CMap entries) => c ← claim_loop acc_empty entries; finish_claims c
  | _ => Err Malformed
  end.

End Claims.

(** ** The verifier *)

(** [KeyCache], with the instants of the key-set GETs sent so far, newest
    first: what [refresh_keys] makes the node send is observable. *)
Record KeyCache {EC : P256} := {
  keys : gmap bytes vkey;
  last_fetch : option Z;
  gets : list Z
}.

(** The verifier's configuration; the cache is the state it runs on. *)
Record CwtVerifier := {
  cose_keys_url : option string;
  expected_iss : option string
}.

Section Verifier.
Context {B64 : Base64} {CB : Ciborium} {CO : Coset} {EC : P256}.

Definition cache_new : KeyCache := {| keys := ∅; last_fetch := None; gets := [] |}.

Definition verifier_new (url : string) (issuer : option string) : CwtVerifier :=
  {| cose_keys_url := Some url; expected_iss := issuer |}.

(** [with_static_keys]: no URL, and the pinned keys (the last of two equal
    kids wins, as collecting into a [HashMap] has it). *)
Definition insert_keys (l : list (bytes * vkey)) : gmap bytes vkey :=
  foldl (fun m kv => <[kv.1 := kv.2]> m) ∅ l.

Definition with_static_keys (l : list (bytes * vkey)) : CwtVerifier * KeyCache :=
  ({| cose_keys_url := None; expected_iss := None |},
   {| keys := insert_keys l; last_fetch := None; gets := [] |}).

(** [with_expected_issuer] pins the [iss] of a verifier with static keys. *)
Definition with_expected_issuer (issuer : string) (v : CwtVerifier) : CwtVerifier :=
  {| cose_keys_url := cose_keys_url v; expected_iss := Some issuer |}.

(** *** COSE keys *)

(** The loop over [key.params]: curve, [x], [y]. *)
Fixpoint ec2_params (l : list (cose_label * cbor)) (crv_ok : bool) (x y : option bytes) :
    bool * option bytes * option bytes :=
  match l with
  | [] => (crv_ok, x, y)
  | (LabelInt (-1), v) :: l =>
      ec2_params l (match v with CInteger i => (i =? 1) | _ => false end) x y
  | (LabelInt (-2), CBytes b) :: l => ec2_params l crv_ok (Some b) y
  | (LabelInt (-3), CBytes b) :: l => ec2_params l crv_ok x (Some b)
  | _ :: l => ec2_params l crv_ok x y
  end%Z.

Definition p256_from_cose_key (key : CoseKey) : result string vkey :=
  match ck_kty key with
  | KtyOther => Err "kty is not EC2"
  | KtyEC2 =>
      let '(crv_ok, x, y) := ec2_params (ck_params key) false None None in
      if negb crv_ok then Err "crv is not P-256"
      else
        x ← ok_or x "missing x";
        y ← ok_or y "missing y";
        if negb ((len x =? 32)%Z && (len y =? 32)%Z) then Err "x/y are not 32 bytes"
        else vkey_from_sec1 (String "004" (x +:+ y))
  end.

(** The loop of [parse_cose_key_set]: entries that are not usable P-256 keys
    with a kid are skipped. *)
Definition usable_key (entry : cbor) : option (bytes * vkey) :=
  match key_from_cbor entry with
  | None => None
  | Some key =>
      match p256_from_cose_key key with
      | Ok vk => if is_empty (ck_key_id key) then None else Some (ck_key_id key, vk)
      | Err _ => None
      end
  end.

Definition parse_cose_key_set (body : bytes) : result string (list (bytes * vkey)) :=
  match cbor_parse body with
  | None => Err "cbor"
  | Some (CArray entries) =>
      match omap usable_key entries with
      | [] => Err "no usable P-256 keys in key set"
      | out => Ok out
      end
  | Some _ => Err "key set is not a CBOR array"
  end.

(** *** The key set and signatures

    [http_get] answers the one GET a refresh may send; [now] is the
    monotonic clock. *)
Context (http_get : string -> http_answer).

(** [last.elapsed()]: a duration is never negative. *)
Definition elapsed (now at_ : Z) : Z := Z.max 0 (now - at_).

Definition refresh_keys (v : CwtVerifier) (now : Z) : comp KeyCache AuthError unit := fun c =>
  match cose_keys_url v with
  | None => (Ok tt, c)
  | Some url =>
      if match last_fetch c with
         | Some last => (elapsed now last <? KEY_REFRESH_MIN_INTERVAL)%Z
         | None => false
         end
      then (Ok tt, c)
      else
        let c := {| keys := keys c; last_fetch := Some now; gets := now :: gets c |} in
        match http_get url with
        | NoAnswer why => (Err (KeySet ("GET " +:+ url +:+ ": " +:+ why)), c)
        | Answer status body =>
            if negb (is_success status) then
              (Err (KeySet ("GET " +:+ url +:+ ": HTTP " +:+ pretty status)), c)
            else
              match body with
              | Err e => (Err (KeySet ("read body: " +:+ e)), c)
              | Ok body =>
                  match parse_cose_key_set body with
                  | Err e => (Err (KeySet ("parse key set: " +:+ e)), c)
                  | Ok l =>
                      (Ok tt, {| keys := insert_keys l; last_fetch := last_fetch c;
                                 gets := gets c |})
                  end
              end
        end
  end.

Definition lookup_key (k : bytes) : comp KeyCache AuthError (option vkey) := fun c =>
  (Ok (keys c !! k), c).

Definition verify_signature (key : vkey) (s : CoseSign1) : bool :=
  match sig_from_slice (cs_signature s) with
  | Some sg => p256_verify key (sign1_tbs s) sg
  | None => false
  end.

Definition verify_sign1 (v : CwtVerifier) (now : Z) (s : CoseSign1) :
    comp KeyCache AuthError unit :=
  match cs_alg s with
  | Some ES256 =>
      match cs_crit s with
      | _ :: _ => throw Malformed
      | [] =>
          let k := cs_key_id s in
          if is_empty k then throw UnknownKid
          else
            found ← lookup_key k;
            key ← match found with
                  | Some key => mret key
                  | None =>
                      _ ← refresh_keys v now;
                      again ← lookup_key k;
                      lift (ok_or again UnknownKid)
                  end;
            if verify_signature key s then mret tt else throw Signature
      end
  | _ => throw Algorithm
  end.

(** *** The token checks, in order; [now] is Unix seconds and [inst] the
    monotonic clock. *)
Definition check_claims (v : CwtVerifier) (opts : VerifyOpts) (now : Z) (c : VerifiedClaims) :
    result AuthError VerifiedClaims :=
  if match expected_iss v with Some e => negb (bool_decide (iss c = e)) | None => false end
  then Err Issuer
  else if match expected_aud opts with Some w => negb (aud_contains (aud c) w) | None => false end
  then Err Audience
  else if (exp c <? iat c)%Z then Err Malformed
  else if (exp c <=? i64_sub now SKEW_SECS)%Z then Err Expired
  else if (i64_add now SKEW_SECS <? iat c)%Z then Err NotYetValid
  else if match nbf c with Some n => (i64_add now SKEW_SECS <? n)%Z | None => false end
  then Err NotYetValid
  else Ok c.

Definition verify_with (v : CwtVerifier) (token_b64 : string) (now inst : Z)
    (opts : VerifyOpts) : comp KeyCache AuthError VerifiedClaims :=
  body ← lift (ok_or (b64url_decode (trim token_b64)) Malformed);
  inner ← lift (ok_or (strip_prefix CWT_TAG_PREFIX body) Malformed);
  sign1 ← lift (ok_or (sign1_from_slice inner) Malformed);
  match cs_content_type sign1 with
  | Some _ => throw Malformed
  | None =>
      _ ← verify_sign1 v inst sign1;
      payload ← lift (ok_or (cs_payload sign1) Malformed);
      c ← lift (parse_claims payload);
      lift (check_claims v opts now c)
  end.

Definition verify (v : CwtVerifier) (token_b64 : string) (now inst : Z) :
    comp KeyCache AuthError VerifiedClaims :=
  verify_with v token_b64 now inst {| expected_aud := None |}.

Definition verify_device (v : CwtVerifier) (token_b64 : string) (now inst : Z) :
    comp KeyCache AuthError VerifiedClaims :=
  c ← verify_with v token_b64 now inst {| expected_aud := Some DEVICECHECK_AUD |};
  if match kid c with Some k => is_empty k | None => true end
  then throw (MissingClaim "kid")
  else mret c.

End Verifier.

(** ** Facts about the claims parser *)

(** What every accepted claims set satisfies. *)
Record claims_wf (c : VerifiedClaims) : Prop := {
  wf_iss : iss c <> "";
  wf_sub : sub c <> "";
  wf_cti : cti c <> "";
  wf_aud : exists a, aud_contains (aud c) a = true;
  wf_aud_member : forall a, aud_contains (aud c) a = true -> a <> "";
  wf_times : in_i64 (exp c) = true /\ in_i64 (iat c) = true;
  wf_nbf : forall n, nbf c = Some n -> in_i64 n = true;
  wf_entitlements : (length (arkavo_entitlements c) <= MAX_ENTITLEMENTS)%nat
    /\ Forall (fun e => (len e <= MAX_ENTITLEMENT_BYTES)%Z) (arkavo_entitlements c)
}.

Section ClaimsFacts.
Context {B64 : Base64} {CB : Ciborium} {CO : Coset}.

Lemma i64_try_from_Some x z : i64_try_from x = Some z -> in_i64 z = true.
Proof. unfold i64_try_from. destruct (in_i64 x) eqn:E; naive_solver. Qed.

Lemma entitlements_bounded a :
  (length (entitlements a) <= MAX_ENTITLEMENTS)%nat
  /\ Forall (fun e => (len e <= MAX_ENTITLEMENT_BYTES)%Z) (entitlements a).
Proof.
  unfold entitlements. destruct (Nat.ltb_spec MAX_ENTITLEMENTS (length a)) as [|Hle].
  { split; [cbn; unfold MAX_ENTITLEMENTS; lia|constructor]. }
  destruct (mapM _ a) as [l|] eqn:Hm; cbn; [|split; [lia|constructor]].
  apply mapM_Some_1 in Hm. split; [by rewrite <- (Forall2_length _ _ _ Hm)|].
  eapply Forall2_Forall_r; [exact Hm|]. apply Forall_true. intros v e He.
  destruct v; try done. destruct (Z.leb_spec (len s) MAX_ENTITLEMENT_BYTES); naive_solver.
Qed.

(** The loop invariant: what is held so far is well formed. *)
Record acc_wf (c : claims_acc) : Prop := {
  acc_many : forall l, a_aud c = Some (AudMany l) -> l <> [] /\ "" ∉ l;
  acc_times : (forall z, a_exp c = Some z -> in_i64 z = true)
    /\ (forall z, a_iat c = Some z -> in_i64 z = true)
    /\ (forall z, a_nbf c = Some z -> in_i64 z = true);
  acc_ents : (length (a_entitlements c) <= MAX_ENTITLEMENTS)%nat
    /\ Forall (fun e => (len e <= MAX_ENTITLEMENT_BYTES)%Z) (a_entitlements c)
}.

Lemma acc_empty_wf : acc_wf acc_empty.
Proof. split; cbn; [done|naive_solver|]. split; [lia|constructor]. Qed.

Lemma set_seen_wf k c : acc_wf c -> acc_wf (set_seen k c).
Proof. by intros [? ? ?]; split. Qed.

Lemma aud_members_wf a l : aud_members a = Ok (AudMany l) -> l <> [] /\ "" ∉ l.
Proof.
  unfold aud_members. intros (m & Hm & H)%result_bind_ok. apply try_map_ok in Hm.
  destruct m as [|x m]; [done|]. injection H as <-. split; [done|].
  enough (Forall (fun y => y <> "") (x :: m)) as Hf.
  { intros Hin. rewrite Forall_forall in Hf. by apply (Hf _ Hin). }
  eapply Forall2_Forall_r; [exact Hm|]. apply Forall_true.
  intros [] y Hy; try done. destruct s; naive_solver.
Qed.

Lemma int_claim_wf key v c c' : int_claim key v c = Ok c' -> acc_wf c -> acc_wf c' /\ a_seen c' = a_seen c.
Proof.
  intros H [Hm (He & Hi & Hn) Hen]. unfold int_claim in H.
  repeat case_match; inv_run; simplify_eq/=;
    (split; [split; cbn; [|split_and?|exact Hen]|done]); try done;
    try (intros ? ?; simplify_eq; eauto using i64_try_from_Some; fail).
  intros l' [= ->]. eauto using aud_members_wf.
Qed.

Lemma text_claim_wf key v c c' :
  text_claim key v c = Ok c' -> acc_wf c -> acc_wf c' /\ a_seen c' = a_seen c /\ key <> "typ".
Proof.
  intros H [Hm Ht Hen]. unfold text_claim in H.
  repeat case_match; inv_run; simplify_eq/=;
    (split; [split; cbn; auto using entitlements_bounded|done]).
Qed.

Lemma claim_step_wf c kv c' :
  claim_step c kv = Ok c' -> acc_wf c ->
  exists id, claim_key_id kv.1 = Ok id /\ (id ∉ a_seen c) /\ a_seen c' = (id :: a_seen c)
    /\ kv.1 <> CText "typ" /\ acc_wf c'.
Proof.
  destruct kv as [k v]. unfold claim_step.
  intros (id & Hid & H)%result_bind_ok Hwf. exists id. split; [done|].
  case_bool_decide; [done|]. split; [done|].
  destruct k; try done.
  - apply int_claim_wf in H as [? Hs]; [|by apply set_seen_wf]. by rewrite Hs.
  - apply text_claim_wf in H as (? & Hs & ?); [|by apply set_seen_wf].
    rewrite Hs. naive_solver.
Qed.


(** Distinct claim keys have distinct key ids. *)
Lemma claim_key_id_inj k1 k2 id : claim_key_id k1 = Ok id -> claim_key_id k2 = Ok id -> k1 = k2.
Proof.
  destruct k1, k2; cbn; intros [= <-] [= E]; try done.
  - change (pretty n0 = pretty n) in E. by apply pretty_Z_inj in E; subst.
  - change (s0 = s) in E. by subst.
Qed.

Lemma claim_loop_wf l c c' :
  claim_loop c l = Ok c' -> acc_wf c ->
  acc_wf c' /\ NoDup l.*1 /\ (forall v, (CText "typ", v) ∉ l)
  /\ Forall (fun k => forall id, claim_key_id k = Ok id -> id ∉ a_seen c) l.*1.
Proof.
  revert c; induction l as [|kv l IH]; intros c; cbn.
  { intros [= <-] ?. split_and!; [done|constructor|set_solver|constructor]. }
  intros (c1 & H1 & H)%result_bind_ok Hwf.
  destruct (claim_step_wf _ _ _ H1 Hwf) as (id & Hid & Hni & Hs & Ht & Hwf1).
  destruct (IH _ H Hwf1) as (? & Hnd & Htyp & Hl). rewrite Forall_forall, Hs in Hl.
  split_and!; [done| | |].
  - constructor; [|done]. intros Hin. apply (Hl _ Hin _ Hid). left.
  - intros v. rewrite not_elem_of_cons. split; [|done]. by intros <-.
  - constructor.
    + intros id' Hid'. by rewrite Hid in Hid'; simplify_eq.
    + rewrite Forall_forall. intros k Hk id' Hid'. specialize (Hl k Hk id' Hid').
      by rewrite not_elem_of_cons in Hl; destruct Hl.
Qed.

Lemma non_empty_ok v name s : non_empty v name = Ok s <-> v = Some s /\ s <> "".
Proof. destruct v as [[]|]; cbn; naive_solver. Qed.

Lemma finish_claims_wf c r : finish_claims c = Ok r -> acc_wf c -> claims_wf r.
Proof.
  intros H [Hm (He & Hi & Hn) Hen]. unfold finish_claims in H.
  apply result_bind_ok in H as (u & Haud & H). inv_run. simplify_eq.
  repeat match goal with H : non_empty _ _ = Ok _ |- _ => apply non_empty_ok in H as [? ?] end.
  split; cbn; auto.
  - destruct (a_cti c) as [[]|]; naive_solver.
  - destruct x1 as [s|l]; [exists s; by apply bool_decide_eq_true|].
    destruct (Hm l) as [Hne _]; [done|]. destruct l as [|a l]; [done|].
    exists a. by apply existsb_elem; left.
  - intros a Ha ->. destruct x1 as [s|l]; cbn in Ha.
    + apply bool_decide_eq_true in Ha as ->. by simplify_option_eq.
    + apply existsb_elem in Ha. by destruct (Hm l) as [_ ?].
Qed.
End ClaimsFacts.

(** ** Where the claims come from *)

(** [c] holds nothing that is not in the entries [P] says were read. *)
Record acc_from (P : cbor * cbor -> Prop) (c : claims_acc) : Prop := {
  from_iss : forall x, a_iss c = Some x -> P (CInteger 1, CText x);
  from_sub : forall x, a_sub c = Some x -> P (CInteger 2, CText x);
  from_aud : forall a x, a_aud c = Some a -> aud_contains a x = true ->
    P (CInteger 3, CText x) \/ exists l, P (CInteger 3, CArray l) /\ CText x ∈ l;
  from_exp : forall x, a_exp c = Some x -> P (CInteger 4, CInteger x);
  from_iat : forall x, a_iat c = Some x -> P (CInteger 6, CInteger x);
  from_nbf : forall x, a_nbf c = Some x -> P (CInteger 5, CInteger x);
  from_cti : forall x, a_cti c = Some x -> P (CInteger 7, CBytes x)
}.

Section Provenance.
Context {B64 : Base64} {CB : Ciborium} {CO : Coset}.

Lemma acc_from_weaken (P Q : cbor * cbor -> Prop) c :
  (forall kv, P kv -> Q kv) -> acc_from P c -> acc_from Q c.
Proof.
  intros HPQ [H1 H2 H3 H4 H5 H6 H7]. split; eauto.
  intros a x Ha Hx. destruct (H3 a x Ha Hx) as [?|(l & ? & ?)]; eauto.
Qed.

Lemma i64_try_from_id x z : i64_try_from x = Some z -> z = x.
Proof. unfold i64_try_from. case_match; naive_solver. Qed.

Lemma aud_members_elem l a x :
  aud_members l = Ok a -> aud_contains a x = true -> CText x ∈ l.
Proof.
  unfold aud_members. intros (m & Hm & H)%result_bind_ok Hx. apply try_map_ok in Hm.
  destruct m as [|y m]; [done|]. injection H as <-. apply existsb_elem in Hx.
  apply list_elem_of_lookup in Hx as [i Hi].
  destruct (Forall2_lookup_r _ _ _ _ _ Hm Hi) as (v & Hv & E).
  destruct v as [| | |s| | | | |]; try done. destruct s; simplify_eq/=.
  eapply list_elem_of_lookup_2. exact Hv.
Qed.

Lemma int_claim_from P key v c c' :
  int_claim key v c = Ok c' -> P (CInteger key, v) -> acc_from P c -> acc_from P c'.
Proof.
  intros H HP [H1 H2 H3 H4 H5 H6 H7]. unfold int_claim in H.
  repeat case_match; inv_run; simplify_eq/=; try (split; auto; fail);
    split; cbn; auto; intros; simplify_eq;
    repeat match goal with H : i64_try_from _ = Some _ |- _ => apply i64_try_from_id in H as -> end;
    eauto using aud_members_elem.
  match goal with H : aud_contains _ _ = true |- _ => apply bool_decide_eq_true in H as -> end.
  by left.
Qed.

Lemma text_claim_from P key v c c' :
  text_claim key v c = Ok c' -> acc_from P c -> acc_from P c'.
Proof.
  intros H [H1 H2 H3 H4 H5 H6 H7]. unfold text_claim in H.
  repeat case_match; inv_run; simplify_eq/=; by split.
Qed.

Lemma claim_loop_from P l c c' :
  claim_loop c l = Ok c' -> (forall kv, kv ∈ l -> P kv) -> acc_from P c -> acc_from P c'.
Proof.
  revert c; induction l as [|[k v] l IH]; intros c; [by intros [= <-]|].
  cbn -[claim_step]. intros (c1 & H1 & H)%result_bind_ok HP Hc.
  apply (IH c1); [done|set_solver|]. unfold claim_step in H1.
  apply result_bind_ok in H1 as (id & _ & H1). case_bool_decide; [done|].
  assert (acc_from P (set_seen id c)) as Hs by (destruct Hc; by split).
  destruct k; simplify_eq; eauto using text_claim_from.
  eapply int_claim_from; [done| |done]. apply HP. by left.
Qed.
End Provenance.

(** ** Facts about the verifier *)

(** The key [verify_sign1] uses: a held one, or one the refresh brought. *)
Definition key_for {B64 : Base64} {CB : Ciborium} {CO : Coset} {EC : P256}
    (http_get : string -> http_answer) (v : CwtVerifier) (inst : Z) (c : KeyCache)
    (k : bytes) (key : vkey) : Prop :=
  keys c !! k = Some key \/
  keys c !! k = None /\ exists c1, refresh_keys http_get v inst c = (Ok tt, c1)
                                 /\ keys c1 !! k = Some key.

(** The claims are for this verifier, this use and this moment. *)
Record claims_accepted (v : CwtVerifier) (opts : VerifyOpts) (now : Z) (c : VerifiedClaims) : Prop := {
  acc_issuer : forall e, expected_iss v = Some e -> iss c = e;
  acc_audience : forall w, expected_aud opts = Some w -> aud_contains (aud c) w = true;
  acc_interval : (iat c <= exp c)%Z;
  acc_unexpired : (now < exp c + SKEW_SECS)%Z;
  acc_issued : (iat c <= now + SKEW_SECS)%Z;
  acc_begun : forall n, nbf c = Some n -> (n <= now + SKEW_SECS)%Z
}.

Section VerifierFacts.
Context {B64 : Base64} {CB : Ciborium} {CO : Coset} {EC : P256}.

Lemma check_claims_spec v opts now c r :
  (0 <= now <= 2 ^ 62)%Z ->
  check_claims v opts now c = Ok r <-> r = c /\ claims_accepted v opts now c.
Proof.
  intros Hnow. unfold check_claims.
  rewrite i64_sub_id, i64_add_id by (unfold i64_min, i64_max, SKEW_SECS; lia).
  split.
  - intros H. repeat (case_match; try done); simplify_eq; split; try done;
      rewrite ?negb_false_iff, ?bool_decide_eq_true, ?Z.ltb_ge, ?Z.leb_gt in *;
      split; intros; simplify_eq; try done; lia.
  - intros [-> [Hi Ha ? ? ? Hb]].
    repeat case_match; try done;
      rewrite ?negb_true_iff, ?bool_decide_eq_false, ?Z.ltb_lt, ?Z.leb_le in *;
      try lia; exfalso.
    all: try (specialize (Hi _ eq_refl); done); try (specialize (Ha _ eq_refl); congruence).
    all: specialize (Hb _ eq_refl); lia.
Qed.

Lemma verify_sign1_spec http_get v inst s c :
  (exists c', verify_sign1 http_get v inst s c = (Ok tt, c')) <->
  cs_alg s = Some ES256 /\ cs_crit s = [] /\ cs_key_id s <> "" /\
  exists key, key_for http_get v inst c (cs_key_id s) key /\ verify_signature key s = true.
Proof.
  unfold verify_sign1, key_for. split.
  - intros [c' H]. destruct (cs_alg s) as [[]|]; try done. destruct (cs_crit s); [|done].
    destruct (cs_key_id s) as [|a k] eqn:Hk; [done|]. cbn [is_empty] in H.
    split_and!; [done..|]. inv_run. unfold lookup_key in *. simplify_eq.
    destruct (keys x0 !! String a k) eqn:Hl; inv_run.
    + exists v0. split; [by left|]. by destruct (verify_signature v0 s).
    + unfold lookup_key in *. simplify_eq. exists x1. split; [right; by destruct x; eauto|].
      by destruct (verify_signature x1 s).
  - intros (-> & -> & Hk & key & Hkey & Hs). destruct (cs_key_id s) as [|a k]; [done|].
    cbn [is_empty]. unfold mbind, comp_bind, lookup_key.
    destruct Hkey as [->|(-> & c1 & -> & Hc1)]; cbn.
    + rewrite Hs. by eexists.
    + rewrite Hc1. cbn. rewrite Hs. by eexists.
Qed.
End VerifierFacts.

(** ** Sequences of verifications

    One call: what the key-set URL would answer, the token, the two clocks
    and the options. *)
Record call := {
  answers : string -> http_answer;
  token_b64 : string;
  unix_now : Z;
  instant : Z;
  options : VerifyOpts
}.

Section KeyFetches.
Context {B64 : Base64} {CB : Ciborium} {CO : Coset} {EC : P256}.

Definition verify_all (v : CwtVerifier) (calls : list call) (c : KeyCache) : KeyCache :=
  foldl (fun c k =>
    (verify_with (answers k) v (token_b64 k) (unix_now k) (instant k) (options k) c).2) c calls.

(** Newest first: each fetch at least a minute after the one before. *)
Fixpoint spaced (l : list Z) : Prop :=
  match l with
  | x :: (y :: _) as tl => (y + KEY_REFRESH_MIN_INTERVAL <= x)%Z /\ spaced tl
  | _ => True
  end.

Definition cache_inv (c : KeyCache) : Prop :=
  spaced (gets c) /\ head (gets c) = last_fetch c.

(** A refresh leaves the cache as it is, or has sent one GET; it replaces the
    keys only when it succeeds. *)
Lemma refresh_keys_cases http_get v now c r c' :
  refresh_keys http_get v now c = (r, c') ->
  c' = c \/
  (gets c' = now :: gets c /\ last_fetch c' = Some now
   /\ (forall t, last_fetch c = Some t -> t + KEY_REFRESH_MIN_INTERVAL <= now)%Z
   /\ (is_ok r = false -> keys c' = keys c)).
Proof.
  unfold refresh_keys. destruct (cose_keys_url v) as [url|]; [|intros; simplify_eq; by left].
  destruct (match last_fetch c with Some _ => _ | None => _ end) eqn:Hl;
    [intros; simplify_eq; by left|].
  assert (forall t, last_fetch c = Some t -> t + KEY_REFRESH_MIN_INTERVAL <= now)%Z as Ht.
  { intros t Et. rewrite Et, Z.ltb_ge in Hl. unfold elapsed, KEY_REFRESH_MIN_INTERVAL, secs in *. lia. }
  intros H. right. repeat case_match; simplify_eq/=; by split_and!.
Qed.

Lemma refresh_keys_inv http_get v now c r c' :
  refresh_keys http_get v now c = (r, c') -> cache_inv c -> cache_inv c'.
Proof.
  intros [->|(Hg & Hf & Ht & _)]%refresh_keys_cases [Hs Hl]; [by split|].
  split; rewrite Hg; cbn; [|by rewrite Hf].
  destruct (gets c) as [|t g]; [done|]. split; [|done]. by apply Ht.
Qed.

(** Every verification is at most one refresh of the cache. *)
Lemma verify_with_cache http_get v tok now inst opts c r c' :
  verify_with http_get v tok now inst opts c = (r, c') ->
  c' = c \/ exists r1, refresh_keys http_get v inst c = (r1, c').
Proof.
  unfold verify_with, verify_sign1, mbind, comp_bind, lift, throw, lookup_key, mret, comp_ret.
  intros H. repeat (case_match; simplify_eq; try (by left); try (right; by eexists)).
Qed.

Lemma verify_all_inv v calls c : cache_inv c -> cache_inv (verify_all v calls c).
Proof.
  revert c; induction calls as [|k calls IH]; intros c Hc; [done|]. cbn. apply IH.
  destruct (verify_with _ _ _ _ _ _ c) as [r c'] eqn:E. cbn.
  apply verify_with_cache in E as [->|[r1 E]]; eauto using refresh_keys_inv.
Qed.
End KeyFetches.

(** ** Theorems *)

Section AuthTheorems.
Context {B64 : Base64} {CB : Ciborium} {CO : Coset} {EC : P256}.

(** C37: Whatever [parse_claims] accepts is a CBOR map without repeated keys
    and without a [typ] claim, and the claims are well formed: issuer,
    subject and token id are non-empty, there is an audience and none is
    empty, times are 64-bit, entitlements are bounded. Issuer, subject,
    audience, expiry, issue time and token id each stand in the map under
    their registered integer key. *)
Theorem parse_claims_sound payload c :
  parse_claims payload = Ok c ->
  exists entries, cbor_parse payload = Some (CMap entries)
    /\ NoDup entries.*1
    /\ (forall v, (CText "typ", v) ∉ entries)
    /\ claims_wf c
    /\ (CInteger 1, CText (iss c)) ∈ entries
    /\ (CInteger 2, CText (sub c)) ∈ entries
    /\ (forall x, aud_contains (aud c) x = true ->
         (CInteger 3, CText x) ∈ entries \/
         exists l, (CInteger 3, CArray l) ∈ entries /\ CText x ∈ l)
    /\ (CInteger 4, CInteger (exp c)) ∈ entries
    /\ (CInteger 6, CInteger (iat c)) ∈ entries
    /\ (CInteger 7, CBytes (cti c)) ∈ entries.
Proof.
  unfold parse_claims. destruct (cbor_parse payload) as [[]|]; try done.
  intros (a & Hloop & Hfin)%result_bind_ok. exists l.
  destruct (claim_loop_wf _ _ _ Hloop acc_empty_wf) as (Hwf & Hnd & Htyp & _).
  destruct (claim_loop_from (.∈ l) _ _ _ Hloop) as [? ? Haud ? ? ? ?]; [done|by split|].
  split_and!; eauto using finish_claims_wf; unfold finish_claims in Hfin;
    apply result_bind_ok in Hfin as (u & _ & Hfin); inv_run; simplify_eq; cbn;
    repeat match goal with H : non_empty _ _ = Ok _ |- _ => apply non_empty_ok in H as [? ?] end;
    eauto.
  destruct (a_cti a) as [[]|]; simplify_eq/=; eauto.
Qed.

(** C11: A bearer token is accepted exactly when it is a tagged COSE_Sign1
    without a content type, signed with ES256 and no critical headers under
    a key of the key set (held, or brought by the one refresh an unknown
    [kid] triggers), whose payload is a well-formed claims set for the
    pinned issuer and the wanted audience, inside its validity window with
    60 seconds of skew. The clock is assumed inside the signed 64-bit range
    with room for the skew. *)
Theorem verify_with_accepts http_get v token now inst opts cache c :
  (0 <= now <= 2 ^ 62)%Z ->
  (exists cache', verify_with http_get v token now inst opts cache = (Ok c, cache')) <->
  exists inner s payload key,
    b64url_decode (trim token) = Some (CWT_TAG_PREFIX +:+ inner)
    /\ sign1_from_slice inner = Some s
    /\ cs_content_type s = None
    /\ cs_alg s = Some ES256 /\ cs_crit s = [] /\ cs_key_id s <> ""
    /\ key_for http_get v inst cache (cs_key_id s) key
    /\ verify_signature key s = true
    /\ cs_payload s = Some payload
    /\ parse_claims payload = Ok c
    /\ claims_accepted v opts now c.
Proof.
  intros Hnow. unfold verify_with. split.
  - intros [cache' H]. inv_run. apply strip_prefix_Some in H1 as ->.
    destruct (cs_content_type x3) eqn:Hct; [done|]. inv_run.
    apply check_claims_spec in H as [-> ?]; [|done].
    destruct (verify_sign1_spec http_get v inst x3 cache) as [Hs _].
    destruct x. destruct Hs as (? & ? & ? & key & ? & ?); [eauto|].
    exists x1, x3, x2, key. by split_and!.
  - intros (inner & s & payload & key & Hb & Hin & Hct & Ha & Hc & Hk & Hkey & Hsig & Hp & Hcl & Hacc).
    rewrite Hb. unfold mbind, comp_bind, lift. cbn [ok_or].
    rewrite strip_prefix_app. cbn [ok_or]. rewrite Hin. cbn [ok_or]. rewrite Hct.
    destruct (verify_sign1_spec http_get v inst s cache) as [_ [c' Hs]]; [by eauto 10|].
    rewrite Hs, Hp. cbn [ok_or]. rewrite Hcl.
    exists c'. f_equal. by apply check_claims_spec.
Qed.

(** C38: Over any sequence of token verifications, whatever the tokens and
    whatever the IdP answers, the key set is fetched at most once a minute:
    the instants of the GETs are at least 60 seconds apart. *)
Theorem key_fetch_rate v calls : spaced (gets (verify_all v calls cache_new)).
Proof. by apply verify_all_inv. Qed.

(** A verification that cannot get the key set loses no key: a token
    signed by a key already held is checked against it without any GET, and
    a failed refresh leaves the held keys as they were. *)
Theorem failed_refresh_keeps_keys http_get v inst s c r c' :
  verify_sign1 http_get v inst s c = (r, c') ->
  (forall key, keys c !! cs_key_id s = Some key -> c' = c)
  /\ ((forall w, r <> Err (KeySet w)) \/ keys c' = keys c).
Proof.
  unfold verify_sign1, mbind, comp_bind, throw, lookup_key, mret, comp_ret, lift.
  intros H. split.
  - intros key Hkey. repeat (case_match; simplify_eq; try done).
  - destruct (refresh_keys http_get v inst c) as [r1 c1] eqn:Hr.
    pose proof (refresh_keys_cases _ _ _ _ _ _ Hr) as Hcases.
    repeat (case_match; simplify_eq; try (by left); try (by right)).
    + destruct (keys c' !! _); simplify_eq/=. by left.
    + right. destruct Hcases as [->|(_ & _ & _ & Hk)]; [done|]. by apply Hk.
Qed.
End AuthTheorems.

(** ** Witnesses *)

Module AuthSample.
Definition claims_map : list (cbor * cbor) :=
  [(CInteger 1, CText "https://idp"); (CInteger 2, CText "arkavo:alice");
   (CInteger 3, CText "arkavo:catalog"); (CInteger 4, CInteger 2000);
   (CInteger 6, CInteger 1000); (CInteger 7, CBytes "id-1");
   (CText "email", CText "alice@example.com")].

Definition message : CoseSign1 :=
  {| cs_alg := Some ES256; cs_crit := []; cs_content_type := None; cs_key_id := "k1";
     cs_payload := Some "claims"; cs_signature := "key1claims" |}.

#[local] Existing Instance plain_base64.
#[local] Existing Instance named_p256.
#[local] Instance cbor_table : Ciborium := table_ciborium [("claims", CMap claims_map)].
#[local] Instance cose_table : Coset := table_coset [("message", message)].

Definition verifier : CwtVerifier := verifier_new "https://idp/keys" (Some "https://idp").
Definition cache : KeyCache := {| keys := {["k1" := "key1"]}; last_fetch := None; gets := [] |}.
Definition alice : VerifiedClaims :=
  {| iss := "https://idp"; sub := "arkavo:alice"; aud := AudOne "arkavo:catalog"; exp := 2000;
     iat := 1000; nbf := None; cti := "id-1"; kid := None; patreon_user_id := None;
     email := Some "alice@example.com"; email_verified := None; idp := None;
     arkavo_account_id := None; arkavo_roles := None; arkavo_entitlements := [];
     client_id := None; arkavo_patreon := None |}.

Lemma parse_claims_sound_witness :
  parse_claims "claims" = Ok alice /\ claims_wf alice.
Proof.
  split; [vm_compute; reflexivity|].
  destruct (parse_claims_sound "claims" alice) as (l & _ & _ & _ & Hwf & _).
  - vm_compute. reflexivity.
  - exact Hwf.
Defined.

Lemma verify_with_accepts_witness :
  exists cache', verify_with (fun _ => NoAnswer "offline") verifier
    (CWT_TAG_PREFIX +:+ "message") 1500 0 {| expected_aud := Some "arkavo:catalog" |} cache
    = (Ok alice, cache').
Proof.
  apply (verify_with_accepts (fun _ => NoAnswer "offline") verifier
           (CWT_TAG_PREFIX +:+ "message") 1500 0 {| expected_aud := Some "arkavo:catalog" |}
           cache alice); [lia|].
  exists "message", message, "claims", "key1".
  split_and!; try (vm_compute; reflexivity); try done; [by left|].
  split; cbn; intros; simplify_eq; try done.
Defined.

Lemma failed_refresh_keeps_keys_witness :
  (forall key, keys cache !! cs_key_id message = Some key -> cache = cache)
  /\ ((forall w, Ok (E := AuthError) tt <> Err (KeySet w)) \/ keys cache = keys cache).
Proof.
  apply (failed_refresh_keeps_keys (fun _ => NoAnswer "offline") verifier 0 message cache (Ok tt) cache).
  vm_compute. reflexivity.
Defined.
End AuthSample.
