(* ===== verification/Authz.v ===== *)
(** * Decisions of the platform (src/authz.rs)

    The two clients of the policy decision point. A client is stateful (the
    service token it minted, the endpoint it discovered) and talks HTTP: the
    requests it sends are kept in its state, newest first, and an [Env]
    answers them, each answer and each clock reading depending on everything
    sent before. *)

From S2P Require Import Prelude Bytes Identifiers Json Extern Samples Net.

(** ** Data *)

Inductive EntityKind := Subject | Device | Environment.

#[export] Instance EntityKind_eq_dec : EqDecision EntityKind.
Proof. solve_decision. Defined.

Record ChainEntity := {
  ce_kind : EntityKind;
  ce_token : option string;
  ce_claims : json
}.

Definition is_subject (e : ChainEntity) : bool := bool_decide (ce_kind e = Subject).

Inductive ResourceType := CatalogItem | Publisher.

Definition resource_type_str (t : ResourceType) : string :=
  match t with CatalogItem => "catalog_item" | Publisher => "publisher" end.

Record DecisionRequest := {
  dr_chain : list ChainEntity;
  dr_action : string;
  dr_resource_type : ResourceType;
  dr_resources : list (string * list string)
}.

(** Verdicts by resource id. *)
Abbreviation Decisions := (gmap string bool).

(** The trait: a provider runs on a state of its own. *)
Class DecisionProvider (S : Type) :=
  decide_dyn : DecisionRequest -> comp S string Decisions.

Inductive EntityMode := Claims | Token.
Inductive AuthzProtocol := OpentdfV2 | Authzen.

Inductive mode_error := InvalidEntityMode (other : string) | InvalidProtocol (other : string).

Definition entity_mode_from_str (s : string) : result mode_error EntityMode :=
  let l := to_ascii_lowercase s in
  if bool_decide (l = "claims") || bool_decide (l = "") then Ok Claims
  else if bool_decide (l = "token") then Ok Token
  else Err (InvalidEntityMode l).

Definition authz_protocol_from_str (s : string) : result mode_error AuthzProtocol :=
  let l := to_ascii_lowercase s in
  if bool_decide (l = "authzen") || bool_decide (l = "") then Ok Authzen
  else if bool_decide (l = "opentdf-v2") then Ok OpentdfV2
  else Err (InvalidProtocol l).

Inductive ServiceCredential :=
| Static (token : string)
| ClientCredentials (token_url client_id client_secret : string)
| NoCredential.

Definition TOKEN_REFRESH_MARGIN : Z := secs 60.

Record CachedToken := { ct_token : string; ct_expires_at : Z }.

(** ** HTTP *)

Inductive request :=
| GetReq (url : string)
| FormReq (url : string) (fields : list (string * string))
| JsonReq (url : string) (bearer : option string) (body : json).

(** The network and the monotonic clock, given the requests sent so far. *)
Record Env := {
  answer : list request -> request -> http_answer;
  clock : list request -> Z
}.

(** What a client keeps between calls. *)
Record Client := {
  token_cache : option CachedToken;
  evaluations_url : option string;
  sent : list request
}.

Definition client_new : Client :=
  {| token_cache := None; evaluations_url := None; sent := [] |}.

Definition set_token (t : CachedToken) (c : Client) : Client :=
  {| token_cache := Some t; evaluations_url := evaluations_url c; sent := sent c |}.
Definition set_evaluations_url (u : string) (c : Client) : Client :=
  {| token_cache := token_cache c; evaluations_url := Some u; sent := sent c |}.
Definition log_request (r : request) (c : Client) : Client :=
  {| token_cache := token_cache c; evaluations_url := evaluations_url c; sent := r :: sent c |}.

(** ** Responses *)

Record TokenResponse := { access_token : string; expires_in : Z }.

Definition de_token_response (j : json) : result serde_error TokenResponse :=
  l ← struct_fields ["access_token"; "expires_in"] false j;
  t ← field de_string "access_token" l;
  e ← field_or 0%Z de_u64 "expires_in" l;
  Ok {| access_token := t; expires_in := e |}.

Record ResourceDecision := { ephemeral_resource_id : string; rd_decision : string }.

Definition de_resource_decision (_ : string) (j : json) : result serde_error ResourceDecision :=
  l ← struct_fields ["ephemeralResourceId"; "decision"] false j;
  i ← field_or "" de_string "ephemeralResourceId" l;
  d ← field_or "" de_string "decision" l;
  Ok {| ephemeral_resource_id := i; rd_decision := d |}.

Definition de_multi_resource_response (j : json) : result serde_error (list ResourceDecision) :=
  l ← struct_fields ["resourceDecisions"] false j;
  field_or [] (de_vec de_resource_decision) "resourceDecisions" l.

Definition de_authzen_discovery (j : json) : result serde_error (option string) :=
  l ← struct_fields ["access_evaluations_endpoint"] false j;
  field_or None (de_option de_string) "access_evaluations_endpoint" l.

Record EvaluationEntry := { ee_decision : bool; ee_context : option json }.

Definition de_evaluation_entry (_ : string) (j : json) : result serde_error EvaluationEntry :=
  l ← struct_fields ["decision"; "context"] false j;
  d ← field_or false de_bool "decision" l;
  c ← field_or None (de_option de_value) "context" l;
  Ok {| ee_decision := d; ee_context := c |}.

Definition de_evaluations_response (j : json) : result serde_error (list EvaluationEntry) :=
  l ← struct_fields ["evaluations"] false j;
  field_or [] (de_vec de_evaluation_entry) "evaluations" l.

(** ** Request bodies *)

Definition json_strings (l : list string) : json := JArray (JString <$> l).

(** *** OpenTDF v2 *)

Fixpoint chain_entities (i : nat) (l : list ChainEntity) : list json :=
  match l with
  | [] => []
  | e :: l =>
      JObject [("ephemeralId", JString ("e" +:+ pretty i));
               ("category", JString (if is_subject e then "CATEGORY_SUBJECT"
                                     else "CATEGORY_ENVIRONMENT"));
               ("claims", JObject [("@type", JString "type.googleapis.com/google.protobuf.Struct");
                                   ("value", ce_claims e)])]
      :: chain_entities (S i) l
  end.

Definition find_subject (chain : list ChainEntity) : option ChainEntity :=
  find is_subject chain.

Definition build_request (entity_mode : EntityMode) (req : DecisionRequest) : result string json :=
  pe ← ok_or (find_subject (dr_chain req)) "decision request has no subject entity";
  entity_identifier ←
    match entity_mode with
    | Token =>
        pe_token ← ok_or (ce_token pe) "subject entity has no token (entity_mode = token)";
        Ok (JObject [("token", JObject [("ephemeralId", JString "pe"); ("jwt", JString pe_token)])])
    | Claims =>
        Ok (JObject [("entityChain",
              JObject [("ephemeralId", JString "chain");
                       ("entities", JArray (chain_entities 0 (dr_chain req)))])])
    end;
  Ok (JObject [("entityIdentifier", entity_identifier);
               ("action", JObject [("name", JString (dr_action req))]);
               ("resources", JArray ((fun r : string * list string =>
                  JObject [("ephemeralId", JString r.1);
                           ("attributeValues", JObject [("fqns", json_strings r.2)])])
                  <$> dr_resources req))]).

(** *** AuthZEN *)

Definition insert_claim (out : list (string * json)) (claims : json) (key : string) :
    list (string * json) :=
  match json_get key claims with
  | Some v => assoc_insert key v out
  | None => out
  end.

Definition PATREON_ALLOWED : list string :=
  ["role"; "patreon_user_id"; "memberships"; "verified_at"; "cache_expires_at"].

Definition sanitize_patreon (p : json) : json :=
  match as_object p with
  | None => JObject []
  | Some _ =>
      let out := foldl (fun out k => insert_claim out p k) [] PATREON_ALLOWED in
      JObject (if bool_decide (get_str "role" p = Some "creator")
               then insert_claim out p "campaign_id" else out)
  end.

Definition SUBJECT_CLAIMS : list string :=
  ["iss"; "email"; "email_verified"; "idp"; "arkavo_account_id"; "arkavo_roles";
   "arkavo_entitlements"; "client_id"].

Definition authzen_subject (pe : ChainEntity) : json :=
  let properties := foldl (fun out k => insert_claim out (ce_claims pe) k) [] SUBJECT_CLAIMS in
  let properties :=
    match json_get "arkavo_patreon" (ce_claims pe) with
    | Some p => assoc_insert "arkavo_patreon" (sanitize_patreon p) properties
    | None => properties
    end in
  JObject [("type", JString "identity");
           ("id", default JNull (json_get "sub" (ce_claims pe)));
           ("properties", JObject properties)].

Definition text_or_empty (k : string) (claims : json) : json :=
  JString (default "" (get_str k claims)).

Definition allowlist_device (device : ChainEntity) : json :=
  let claims := ce_claims device in
  JObject ([("sub", text_or_empty "sub" claims); ("iss", text_or_empty "iss" claims);
            ("aud", text_or_empty "aud" claims); ("kid", text_or_empty "kid" claims)]
           ++ match ce_token device with Some t => [("token", JString t)] | None => [] end).

Definition allowlist_environment (claims : json) : json :=
  match as_object claims with
  | Some _ => JObject (insert_claim (insert_claim [] claims "region") claims "kind")
  | None => JObject []
  end.

Definition authzen_context (chain : list ChainEntity) : list (string * json) :=
  let devices := filter (fun e => ce_kind e = Device) chain in
  let environment := find (fun e => bool_decide (ce_kind e = Environment)) chain in
  match devices with
  | [] => []
  | [d] => [("device", allowlist_device d)]
  | _ => [("devices", JArray (allowlist_device <$> devices))]
  end
  ++ match environment with
     | Some env => [("environment", allowlist_environment (ce_claims env))]
     | None => []
     end
  ++ [("pep", JObject [("fulfillable_obligation_fqns", JArray [])])].

Definition authzen_resource (t : ResourceType) (r : string * list string) : json :=
  JObject [("resource",
    JObject [("type", JString (resource_type_str t)); ("id", JString r.1);
             ("properties", JObject [("attribute_value_fqns", json_strings r.2)])])].

Definition build_authzen_request (req : DecisionRequest) : result string json :=
  pe ← ok_or (find_subject (dr_chain req)) "decision request has no subject entity";
  _ ← ensure (bool_decide (dr_resources req <> [])) "empty resources must not be posted";
  Ok (JObject [("subject", authzen_subject pe);
               ("action", JObject [("name", JString (dr_action req))]);
               ("context", JObject (authzen_context (dr_chain req)));
               ("evaluations", JArray (authzen_resource (dr_resource_type req) <$> dr_resources req));
               ("options", JObject [("evaluations_semantic", JString "execute_all")])]).

(** ** Answers to decisions *)

Definition required_obligations_nonempty (context : option json) : bool :=
  match (context ≫= json_get "obligations") ≫= json_get "required" with
  | None => false
  | Some (JArray a) => bool_decide (a <> [])
  | Some _ => true
  end.

Definition evaluation_entitled (decision : bool) (context : option json) : bool :=
  decision && negb (required_obligations_nonempty context).

Definition entitled (e : EvaluationEntry) : bool :=
  evaluation_entitled (ee_decision e) (ee_context e).

(** Collecting pairs into a [HashMap]: the last of two equal keys wins. *)
Definition collect (l : list (string * bool)) : Decisions :=
  foldl (fun m kv => <[kv.1 := kv.2]> m) ∅ l.

Definition map_evaluations (resources : list (string * list string))
    (evaluations : list EvaluationEntry) : result string Decisions :=
  _ ← ensure (length evaluations =? length resources)%nat
    ("AuthZEN returned " +:+ pretty (length evaluations) +:+ " evaluations for "
     +:+ pretty (length resources) +:+ " resources");
  Ok (collect (zip_with (fun r e => (r.1, entitled e)) resources evaluations)).

Definition MAX_EVALUATIONS : nat := 500.

(** [slice.chunks(n)]; every round takes at least one element, so the
    length is enough fuel. *)
Fixpoint chunks_fuel {A} (fuel n : nat) (l : list A) : list (list A) :=
  match fuel, l with
  | S fuel, _ :: _ => take n l :: chunks_fuel fuel n (drop n l)
  | _, _ => []
  end.
Definition chunks {A} (n : nat) (l : list A) : list (list A) := chunks_fuel (length l) n l.

(** ** The clients *)

(** An [Instant] past its range: the addition panics. *)
Definition instant_max : Z := secs i64_max.

Section Clients.
Context {SJ : Serde} {UC : UrlCrate} (env : Env).

(** Send one request: it is logged, then answered. *)
Definition send (r : request) : comp Client string http_answer := fun c =>
  (Ok (answer env (sent c) r), log_request r c).

Definition instant_now : comp Client string Z := fun c => (Ok (clock env (sent c)), c).

(** [resp.json().await.context(what)] *)
Definition read_json {A} (de : json -> result serde_error A) (what : string)
    (body : result string bytes) : result string A :=
  match body with
  | Err _ => Err what
  | Ok text => map_err (fun _ => what) (j ← serde_parse text; de j)
  end.

(** The part of [service_bearer] after the cached token is found missing or
    expired: mint one, and keep it until a minute before it expires. *)
Definition mint_token (token_url client_id client_secret : string) :
    comp Client string (option string) :=
  resp ← send (FormReq token_url [("grant_type", "client_credentials");
                                  ("client_id", client_id); ("client_secret", client_secret)]);
  match resp with
  | NoAnswer _ => throw ("token POST " +:+ token_url)
  | Answer status body =>
      if negb (is_success status) then throw ("token endpoint returned " +:+ pretty status)
      else
        parsed ← lift (read_json de_token_response "token JSON parse" body);
        let ttl := secs (Z.max (expires_in parsed) 120) in
        later ← instant_now;
        let expires_at := (later + Z.max 0 (ttl - TOKEN_REFRESH_MARGIN))%Z in
        if (instant_max <? expires_at)%Z then throw "overflow when adding duration to instant"
        else
          _ ← modify (set_token {| ct_token := access_token parsed; ct_expires_at := expires_at |});
          mret (Some (access_token parsed))
  end.

Definition service_bearer (credential : ServiceCredential) : comp Client string (option string) :=
  match credential with
  | NoCredential => mret None
  | Static token => mret (Some token)
  | ClientCredentials token_url client_id client_secret =>
      c ← get;
      now ← instant_now;
      match token_cache c with
      | Some cached =>
          if (now <? ct_expires_at cached)%Z then mret (Some (ct_token cached))
          else mint_token token_url client_id client_secret
      | None => mint_token token_url client_id client_secret
      end
  end.

(** *** OpenTDF v2 *)

Record ConnectAuthzClient := {
  cz_endpoint : string;
  cz_credential : ServiceCredential;
  cz_entity_mode : EntityMode
}.

Definition connect_new (endpoint : string) (credential : ServiceCredential) (mode : EntityMode) :
    ConnectAuthzClient :=
  {| cz_endpoint := trim_end_matches "/" endpoint; cz_credential := credential;
     cz_entity_mode := mode |}.

Definition connect_decide (z : ConnectAuthzClient) (req : DecisionRequest) :
    comp Client string Decisions :=
  let url := cz_endpoint z +:+ "/authorization.v2.AuthorizationService/GetDecisionMultiResource" in
  body ← lift (build_request (cz_entity_mode z) req);
  token ← service_bearer (cz_credential z);
  resp ← send (JsonReq url token body);
  match resp with
  | NoAnswer _ => throw ("authorization POST " +:+ url)
  | Answer status text =>
      if negb (is_success status) then
        throw ("authorization service returned " +:+ pretty status +:+ ": "
               +:+ match text with Ok t => t | Err _ => "" end)
      else
        parsed ← lift (read_json de_multi_resource_response "authorization response JSON parse" text);
        mret (collect ((fun d => (ephemeral_resource_id d,
                                  bool_decide (rd_decision d = "DECISION_PERMIT"))) <$> parsed))
  end.

(** *** AuthZEN *)

Definition https_or_loopback (url : string) : bool :=
  match url_parse url with
  | None => false
  | Some u =>
      if decide (scheme u = "https") then true
      else if decide (scheme u = "http") then
        match host_str u with
        | Some h => bool_decide (h = "localhost")
                    || match ip_parse (unbracket h) with
                       | Some ip => is_loopback ip
                       | None => false
                       end
        | None => false
        end
      else false
  end.

Definition same_origin (url base : string) : bool :=
  match url_parse url, url_parse base with
  | Some u, Some b =>
      bool_decide (scheme u = scheme b) && bool_decide (host_str u = host_str b)
      && bool_decide (port_or_known_default u = port_or_known_default b)
  | _, _ => false
  end.

Record AuthZenClient := { az_endpoint : string; az_credential : ServiceCredential }.

Definition authzen_new (endpoint : string) (credential : ServiceCredential) : AuthZenClient :=
  {| az_endpoint := trim_end_matches "/" endpoint; az_credential := credential |}.

Definition evaluations_endpoint (z : AuthZenClient) : comp Client string string :=
  c ← get;
  match evaluations_url c with
  | Some url => mret url
  | None =>
      let well_known := az_endpoint z +:+ "/.well-known/authzen-configuration" in
      resp ← send (GetReq well_known);
      match resp with
      | NoAnswer _ => throw ("AuthZEN discovery GET " +:+ well_known)
      | Answer status body =>
          if negb (is_success status) then throw ("AuthZEN discovery returned " +:+ pretty status)
          else
            disc ← lift (read_json de_authzen_discovery "AuthZEN discovery JSON" body);
            url ← lift (ok_or (match disc with
                               | Some s => if is_empty s then None else Some s
                               | None => None
                               end) "discovery missing access_evaluations_endpoint");
            _ ← lift (ensure (same_origin url (az_endpoint z))
                  ("discovered access_evaluations_endpoint " +:+ url +:+ " is not on " +:+ az_endpoint z));
            _ ← lift (ensure (https_or_loopback url)
                  ("discovered access_evaluations_endpoint " +:+ url +:+ " is not https"));
            _ ← modify (set_evaluations_url url);
            mret url
      end
  end.

Definition decide_batch (z : AuthZenClient) (url : string) (req : DecisionRequest) :
    comp Client string Decisions :=
  body ← lift (build_authzen_request req);
  token ← service_bearer (az_credential z);
  resp ← send (JsonReq url token body);
  match resp with
  | NoAnswer _ => throw ("AuthZEN POST " +:+ url)
  | Answer status text =>
      if negb (is_success status) then throw ("AuthZEN evaluations returned " +:+ pretty status)
      else
        parsed ← lift (read_json de_evaluations_response "AuthZEN response JSON" text);
        lift (map_evaluations (dr_resources req) parsed)
  end.

Definition with_resources (req : DecisionRequest) (chunk : list (string * list string)) :
    DecisionRequest :=
  {| dr_chain := dr_chain req; dr_action := dr_action req;
     dr_resource_type := dr_resource_type req; dr_resources := chunk |}.

(** The loop over the batches; [decisions.extend(part)] lets the later win. *)
Fixpoint decide_batches (z : AuthZenClient) (url : string) (req : DecisionRequest)
    (decisions : Decisions) (batches : list (list (string * list string))) :
    comp Client string Decisions :=
  match batches with
  | [] => mret decisions
  | chunk :: batches =>
      part ← decide_batch z url (with_resources req chunk);
      decide_batches z url req (part ∪ decisions) batches
  end.

Definition authzen_decide (z : AuthZenClient) (req : DecisionRequest) : comp Client string Decisions :=
  match dr_resources req with
  | [] => mret ∅
  | _ =>
      url ← evaluations_endpoint z;
      decide_batches z url req ∅ (chunks MAX_EVALUATIONS (dr_resources req))
  end.

End Clients.

(** Both clients are providers. *)
Definition authzen_provider {SJ : Serde} {UC : UrlCrate} (env : Env) (z : AuthZenClient) :
  DecisionProvider Client := authzen_decide env z.
Definition connect_provider {SJ : Serde} (env : Env) (z : ConnectAuthzClient) :
  DecisionProvider Client := connect_decide env z.

(** ** Batches *)

Lemma chunks_fuel_concat {A} fuel n (l : list A) :
  (0 < n)%nat -> (length l <= fuel)%nat -> concat (chunks_fuel fuel n l) = l.
Proof.
  intros Hn. revert l; induction fuel as [|fuel IH]; intros [|x l] Hl; cbn in *; try done; [lia|].
  destruct n as [|n]; [lia|]. cbn. f_equal. rewrite IH; [apply take_drop|].
  rewrite length_drop. lia.
Qed.

Lemma chunks_fuel_bounded {A} fuel n (l : list A) :
  Forall (fun c => (length c <= n)%nat) (chunks_fuel fuel n l).
Proof.
  revert l; induction fuel as [|fuel IH]; intros [|x l]; try constructor; [|apply IH].
  rewrite length_take. lia.
Qed.

(** ** Decisions *)

Lemma collect_app l1 l2 : collect (l1 ++ l2) = collect l2 ∪ collect l1.
Proof.
  induction l2 as [|[k b] l2 IH] using rev_ind.
  - rewrite app_nil_r. symmetry. apply (left_id_L ∅ (∪)).
  - unfold collect in *. rewrite !app_assoc, !foldl_snoc, IH. cbn.
    by rewrite insert_union_l.
Qed.

Lemma collect_lookup l i k b :
  NoDup l.*1 -> l !! i = Some (k, b) -> collect l !! k = Some b.
Proof.
  induction l as [|[k' b'] l IH] using rev_ind; [done|].
  rewrite fmap_app, NoDup_app. intros (Hnd & Hdis & _) Hi.
  unfold collect in *. rewrite foldl_snoc. cbn.
  apply lookup_app_Some in Hi as [Hi|[_ Hi]].
  - rewrite lookup_insert_ne; [by apply IH|]. intros ->.
    apply (Hdis k); [|set_solver]. apply list_elem_of_fmap. exists (k, b).
    split; [done|]. by eapply list_elem_of_lookup_2.
  - apply list_lookup_singleton_Some in Hi as [_ [= -> ->]]. by rewrite lookup_insert_eq.
Qed.

(** Only what was collected is decided. *)
Lemma collect_elem l k b : collect l !! k = Some b -> (k, b) ∈ l.
Proof.
  induction l as [|[k' b'] l IH] using rev_ind; [done|].
  unfold collect in *. rewrite foldl_snoc. cbn. rewrite lookup_insert_Some.
  intros [[-> ->]|[_ H]]; set_solver.
Qed.

(** The verdicts for [resources] when the PDP answered [evals]. *)
Definition verdicts (resources : list (string * list string)) (evals : list EvaluationEntry) :
    list (string * bool) :=
  zip_with (fun r e => (r.1, entitled e)) resources evals.

Lemma verdicts_app r1 r2 e1 e2 :
  length r1 = length e1 -> verdicts (r1 ++ r2) (e1 ++ e2) = verdicts r1 e1 ++ verdicts r2 e2.
Proof. intros H. unfold verdicts. by rewrite zip_with_app. Qed.

Lemma verdicts_ids rs es : length es = length rs -> (verdicts rs es).*1 = rs.*1.
Proof.
  revert es; induction rs as [|r rs IH]; intros [|e es] H; try done. cbn. f_equal. by apply IH; injection H.
Qed.

(** One answered evaluation request: [batch] was posted to [url] after the
    log [sent c] had only grown, and the answer held [evals]. *)
Definition answered {SJ : Serde} (env : Env) (c c' : Client) (url : string)
    (req : DecisionRequest) (batch : list (string * list string) * list EvaluationEntry) : Prop :=
  exists later between token body status text j,
    sent c' = later ++ JsonReq url token body :: between ++ sent c
    /\ build_authzen_request (with_resources req batch.1) = Ok body
    /\ answer env (between ++ sent c) (JsonReq url token body) = Answer status (Ok text)
    /\ is_success status = true
    /\ serde_parse text = Ok j /\ de_evaluations_response j = Ok batch.2
    /\ length batch.2 = length batch.1.

Section DecideFacts.
Context {SJ : Serde} {UC : UrlCrate} (env : Env).

Lemma read_json_ok {A} (de : json -> result serde_error A) what body a :
  read_json de what body = Ok a <->
  exists text j, body = Ok text /\ serde_parse text = Ok j /\ de j = Ok a.
Proof.
  unfold read_json. destruct body as [text|]; [|naive_solver].
  rewrite map_err_ok, result_bind_ok. naive_solver.
Qed.

(** The log only grows. *)
Definition grows (c c' : Client) : Prop := exists l, sent c' = l ++ sent c.

#[local] Instance grows_preorder : PreOrder grows.
Proof.
  split; [by exists []|]. intros c1 c2 c3 [l1 H1] [l2 H2]. exists (l2 ++ l1).
  by rewrite H2, H1, app_assoc.
Qed.

Lemma send_ok r c a c' :
  send env r c = (Ok a, c') -> a = answer env (sent c) r /\ c' = log_request r c.
Proof. unfold send. naive_solver. Qed.

Lemma mint_token_grows u i k c t c' : mint_token env u i k c = (Ok t, c') -> grows c c'.
Proof.
  unfold mint_token. intros H. inv_run. apply send_ok in H0 as [-> ->].
  destruct (answer _ _ _); [done|]. destruct (negb _); [done|]. inv_run.
  unfold instant_now in *. simplify_eq. destruct (_ <? _)%Z; [done|].
  unfold modify in *. inv_run. simplify_eq. by eexists [_].
Qed.

Lemma service_bearer_grows cred c t c' : service_bearer env cred c = (Ok t, c') -> grows c c'.
Proof.
  destruct cred; cbn; intros H; inv_run; try done.
  unfold get, instant_now in *. simplify_eq.
  destruct (token_cache x) as [cached|]; [|by eapply mint_token_grows].
  destruct (_ <? _)%Z; [inv_run; done|by eapply mint_token_grows].
Qed.

Lemma decide_batch_answered z url req c d c' :
  decide_batch env z url req c = (Ok d, c') ->
  grows c c' /\ exists evals, answered env c c' url req (dr_resources req, evals)
    /\ d = collect (verdicts (dr_resources req) evals).
Proof.
  unfold decide_batch. intros H. inv_run. apply send_ok in H2 as [-> ->].
  destruct (service_bearer_grows _ _ _ _ H1) as [l Hl].
  destruct (answer env _ _) as [|status text] eqn:Ha; [done|].
  destruct (is_success status) eqn:Hs; [|done]. cbn [negb] in H. inv_run.
  apply read_json_ok in H2 as (t & j & -> & Hj & Hde).
  unfold map_evaluations in H. inv_run. apply Nat.eqb_eq in H2. simplify_eq.
  split; [by eexists (_ :: l); cbn; rewrite Hl|].
  exists x0. split; [|done].
  eexists [], l, _, _, status, t, j. cbn. rewrite <- Hl. by split_and!.
Qed.

Lemma decide_batches_answered z url req batches d0 c d c' :
  decide_batches env z url req d0 batches c = (Ok d, c') ->
  grows c c' /\ exists evals,
    Forall2 (fun chunk e => answered env c c' url req (chunk, e)) batches evals
    /\ d = collect (verdicts (concat batches) (concat evals)) ∪ d0.
Proof.
  revert d0 c; induction batches as [|chunk batches IH]; intros d0 c H; cbn in H.
  { inv_run. split; [done|]. exists []. split; [constructor|].
    symmetry. apply (left_id_L ∅ (∪)). }
  inv_run. destruct (decide_batch_answered _ _ _ _ _ _ H0) as (Hg1 & e & Ha & ->).
  destruct (IH _ _ H) as (Hg2 & evals & Hes & ->). destruct Hg1 as [l1 H1], Hg2 as [l2 H2].
  split; [exists (l2 ++ l1); by rewrite H2, H1, app_assoc|].
  exists (e :: evals). split.
  - constructor.
    + destruct Ha as (later & between & tok & body & st & text & j & Hs & Hrest).
      exists (l2 ++ later), between, tok, body, st, text, j.
      split; [by rewrite H2, Hs, app_assoc|]. done.
    + eapply Forall2_impl; [exact Hes|]. intros chunk' e'
        (later & between & tok & body & st & text & j & Hs & Hb & Han & Hrest).
      exists later, (between ++ l1), tok, body, st, text, j.
      rewrite <- !app_assoc. rewrite H1 in Hs, Han. done.
  - cbn. rewrite verdicts_app, collect_app.
    + by rewrite (assoc_L (∪)).
    + by destruct Ha as (? & ? & ? & ? & ? & ? & ? & _ & _ & _ & _ & _ & _ & ?).
Qed.

Lemma evaluations_endpoint_grows z c u c' : evaluations_endpoint env z c = (Ok u, c') -> grows c c'.
Proof.
  unfold evaluations_endpoint. intros H. inv_run. unfold get in *. simplify_eq.
  destruct (evaluations_url x); inv_run; [done|].
  apply send_ok in H0 as [-> ->]. destruct (answer _ _ _); [done|].
  destruct (negb _); [done|]. inv_run. unfold modify in *. simplify_eq. by eexists [_].
Qed.

Lemma answered_grows c0 c c' url req b :
  grows c0 c -> answered env c c' url req b -> answered env c0 c' url req b.
Proof.
  intros [l Hl] (later & between & tok & body & st & text & j & Hs & Hb & Han & Hrest).
  exists later, (between ++ l), tok, body, st, text, j.
  rewrite <- !app_assoc. rewrite Hl in Hs, Han. done.
Qed.

Lemma concat_lengths {A B} (l : list (list A)) (k : list (list B)) :
  Forall2 (fun a b => length b = length a) l k -> length (concat k) = length (concat l).
Proof. induction 1; cbn; [done|]. rewrite !length_app. lia. Qed.

Lemma authzen_decide_answered z req c d c' :
  authzen_decide env z req c = (Ok d, c') ->
  exists url evals,
    Forall2 (fun chunk e => answered env c c' url req (chunk, e))
      (chunks MAX_EVALUATIONS (dr_resources req)) evals
    /\ length (concat evals) = length (dr_resources req)
    /\ d = collect (verdicts (dr_resources req) (concat evals)).
Proof.
  assert (concat (chunks MAX_EVALUATIONS (dr_resources req)) = dr_resources req) as Hc.
  { apply chunks_fuel_concat; [unfold MAX_EVALUATIONS|]; lia. }
  unfold authzen_decide. destruct (dr_resources req) as [|r rs] eqn:Hr.
  { intros H. inv_run. exists "", []. by split_and!; [constructor| |]. }
  intros H. inv_run. apply evaluations_endpoint_grows in H0.
  destruct (decide_batches_answered _ _ _ _ _ _ _ _ H) as (_ & evals & Hes & ->).
  exists x, evals. split_and!.
  - eapply Forall2_impl; [exact Hes|]. intros. by eapply answered_grows.
  - rewrite <- Hc. apply concat_lengths. eapply Forall2_impl; [exact Hes|].
    by intros ? ? (? & ? & ? & ? & ? & ? & ? & _ & _ & _ & _ & _ & _ & ?).
  - rewrite Hc. apply (right_id_L ∅ (∪)).
Qed.
End DecideFacts.

(** ** The provider's promise

    What the publish and catalog decisions rely on: an id is permitted only
    when the provider has evidence for it. *)
Class EvidencedProvider (S : Type) {P : DecisionProvider S} := {
  evidence : S -> S -> DecisionRequest -> string -> Prop;
  decide_granted req s d s' id :
    decide_dyn req s = (Ok d, s') -> d !! id = Some true -> evidence s s' req id
}.
Arguments EvidencedProvider S {P}.

Section AuthZenEvidence.
Context {SJ : Serde} {UC : UrlCrate} (env : Env).

(** The PDP answered [true], with no obligations, at the place of [id] in a
    request about [req]. *)
Definition permitted_by_pdp (c c' : Client) (req : DecisionRequest) (id : string) : Prop :=
  exists url batch i fqns e,
    answered env c c' url req batch
    /\ batch.1 !! i = Some (id, fqns) /\ batch.2 !! i = Some e
    /\ (id, fqns) ∈ dr_resources req
    /\ ee_decision e = true /\ required_obligations_nonempty (ee_context e) = false.

Lemma verdicts_elem rs es id :
  (id, true) ∈ verdicts rs es ->
  exists i fqns e, rs !! i = Some (id, fqns) /\ es !! i = Some e /\ entitled e = true.
Proof.
  intros (i & Hi)%list_elem_of_lookup. apply lookup_zip_with_Some in Hi as ([id' f] & e & [= -> ?] & ? & ?).
  naive_solver.
Qed.

Lemma verdicts_concat_elem {A B} (R : list A -> list B -> Prop) chunks es i a b :
  Forall2 R chunks es -> Forall2 (fun c e => length e = length c) chunks es ->
  concat chunks !! i = Some a -> concat es !! i = Some b ->
  exists c e j, R c e /\ c !! j = Some a /\ e !! j = Some b.
Proof.
  intros HR. revert i. induction HR as [|c e cs es Hce _ IH]; intros i Hlen Ha Hb; [done|].
  inversion Hlen as [|? ? ? ? Hl Hls]; subst. cbn in Ha, Hb.
  destruct (decide (i < length c)%nat) as [Hi|Hi].
  - rewrite lookup_app_l in Ha by done. rewrite lookup_app_l in Hb by lia. by exists c, e, i.
  - rewrite lookup_app_r in Ha by lia. rewrite lookup_app_r in Hb by lia. rewrite Hl in Hb.
    by eapply IH.
Qed.

Lemma answered_lengths c c' url req chunks es :
  Forall2 (fun ch e => answered env c c' url req (ch, e)) chunks es ->
  Forall2 (fun ch e => length e = length ch) chunks es.
Proof.
  intros H. eapply Forall2_impl; [exact H|].
  by intros ? ? (? & ? & ? & ? & ? & ? & ? & _ & _ & _ & _ & _ & _ & ?).
Qed.

Lemma authzen_granted z req c d c' id :
  authzen_decide env z req c = (Ok d, c') -> d !! id = Some true -> permitted_by_pdp c c' req id.
Proof.
  intros (url & evals & Hes & Hlen & ->)%authzen_decide_answered Hid.
  apply collect_elem, verdicts_elem in Hid as (i & fqns & e & Hr & He & Hent).
  assert (concat (chunks MAX_EVALUATIONS (dr_resources req)) = dr_resources req) as Hc.
  { apply chunks_fuel_concat; [unfold MAX_EVALUATIONS|]; lia. }
  pose proof (list_elem_of_lookup_2 _ _ _ Hr) as Hin. rewrite <- Hc in Hr.
  destruct (verdicts_concat_elem _ _ _ _ _ _ Hes (answered_lengths _ _ _ _ _ _ Hes) Hr He)
    as (ch & es & j & Ha & Hj1 & Hj2).
  exists url, (ch, es), j, fqns, e. unfold entitled, evaluation_entitled in Hent.
  apply andb_true_iff in Hent as [? ?%negb_true_iff]. done.
Qed.

Definition authzen_evidenced z : EvidencedProvider Client (P := authzen_provider env z) :=
  {| evidence := permitted_by_pdp; decide_granted := authzen_granted z |}.
End AuthZenEvidence.

(** ** Where requests go *)

Section Origin.
Context {SJ : Serde} {UC : UrlCrate} (env : Env) (z : AuthZenClient).

Definition pdp_url (u : string) : Prop :=
  same_origin u (az_endpoint z) = true /\ https_or_loopback u = true.

(** A decision request, with the service token, goes to the PDP's origin
    over https; the client secret goes to the token endpoint only. *)
Definition request_ok (r : request) : Prop :=
  match r with
  | JsonReq u _ _ => pdp_url u
  | GetReq u => u = az_endpoint z +:+ "/.well-known/authzen-configuration"
  | FormReq u _ =>
      match az_credential z with ClientCredentials t _ _ => u = t | _ => False end
  end.

Definition client_ok (c : Client) : Prop :=
  (forall u, evaluations_url c = Some u -> pdp_url u) /\ Forall request_ok (sent c).

Lemma client_new_ok : client_ok client_new.
Proof. split; [done|constructor]. Qed.

Lemma stable_send r : request_ok r -> stable client_ok (send env r) (fun _ => True).
Proof. intros Hr c x c' [= <- <-] [? ?]. by split; [split; [done|constructor]|]. Qed.

Lemma stable_instant_now : stable client_ok (instant_now env) (fun _ => True).
Proof. intros c x c' [= <- <-] ?. by split. Qed.

Lemma stable_pure {A} (x : result string A) : stable client_ok (lift x) (fun _ => True).
Proof. by apply stable_lift. Qed.

#[local] Hint Resolve stable_send stable_instant_now stable_pure : tdf.

Lemma stable_service_bearer :
  stable client_ok (service_bearer env (az_credential z)) (fun _ => True).
Proof.
  unfold service_bearer. destruct (az_credential z) as [| u i k|] eqn:Hc; auto with tdf.
  assert (stable client_ok (mint_token env u i k) (fun _ => True)) as Hmint.
  { unfold mint_token. eapply stable_bind; [apply stable_send; cbn; by rewrite Hc|].
    intros a _. destruct a; auto with tdf. destruct (negb _); auto with tdf.
    eapply stable_bind; [auto with tdf|]. intros p _.
    eapply stable_bind; [auto with tdf|]. intros t _.
    destruct (_ <? _)%Z; auto with tdf.
    eapply stable_bind; [|auto with tdf]. apply stable_modify. by intros ? [? ?]. }
  eapply stable_bind; [apply stable_get|]. intros c _.
  eapply stable_bind; [auto with tdf|]. intros now _.
  destruct (token_cache c); [|done]. destruct (_ <? _)%Z; auto with tdf.
Qed.

Lemma stable_evaluations_endpoint : stable client_ok (evaluations_endpoint env z) pdp_url.
Proof.
  unfold evaluations_endpoint. eapply stable_bind; [apply stable_get|]. intros c [Hu _].
  destruct (evaluations_url c) as [u|]; [by apply stable_ret, Hu|].
  eapply stable_bind; [by apply stable_send|]. intros a _.
  destruct a; auto with tdf. destruct (negb _); auto with tdf.
  eapply stable_bind; [auto with tdf|]. intros disc _.
  eapply stable_bind; [auto with tdf|]. intros url _.
  eapply (stable_bind _ _ _ (fun _ => same_origin url (az_endpoint z) = true));
    [apply stable_lift; intros a H; by apply ensure_ok in H|]. intros _ Hs.
  eapply (stable_bind _ _ _ (fun _ => https_or_loopback url = true));
    [apply stable_lift; intros a H; by apply ensure_ok in H|]. intros _ Hh.
  eapply stable_bind; [|intros _ _; by apply stable_ret].
  apply stable_modify. intros c' [_ ?]. split; [|done]. by intros u [= <-].
Qed.

Lemma stable_decide_batch url req :
  pdp_url url -> stable client_ok (decide_batch env z url req) (fun _ => True).
Proof.
  intros Hu. unfold decide_batch. eapply stable_bind; [auto with tdf|]. intros body _.
  eapply stable_bind; [apply stable_service_bearer|]. intros tok _.
  eapply stable_bind; [by apply stable_send|]. intros a _.
  destruct a; auto with tdf. destruct (negb _); auto with tdf.
  eapply stable_bind; auto with tdf.
Qed.

Lemma stable_authzen_decide req : stable client_ok (authzen_decide env z req) (fun _ => True).
Proof.
  unfold authzen_decide. destruct (dr_resources req); auto with tdf.
  eapply stable_bind; [apply stable_evaluations_endpoint|]. intros url Hurl.
  generalize (chunks MAX_EVALUATIONS (p :: l)), (∅ : Decisions). intros batches.
  induction batches as [|b batches IH]; intros d; cbn; auto with tdf.
  eapply stable_bind; [by apply stable_decide_batch|]. intros part _. apply IH.
Qed.
End Origin.

(** ** What a decision request discloses *)

Lemma assoc_get_insert_claims keys p out k :
  assoc_get k (foldl (fun out k => insert_claim out p k) out keys) =
  if bool_decide (k ∈ keys)
  then match json_get k p with Some v => Some v | None => assoc_get k out end
  else assoc_get k out.
Proof.
  revert out; induction keys as [|k' keys IH]; intros out; cbn [foldl].
  { by rewrite bool_decide_false by set_solver. }
  rewrite IH. destruct (decide (k = k')) as [->|Hne].
  - rewrite (bool_decide_true (k' ∈ k' :: keys)) by set_solver.
    unfold insert_claim. destruct (json_get k' p); [rewrite assoc_get_insert_eq|];
      by case_bool_decide.
  - assert (assoc_get k (insert_claim out p k') = assoc_get k out) as ->.
    { unfold insert_claim. destruct (json_get k' p); [|done]. by rewrite assoc_get_insert_ne. }
    by rewrite (bool_decide_ext (k ∈ k' :: keys) (k ∈ keys)) by set_solver.
Qed.

Lemma sanitize_patreon_get p k :
  json_get k (sanitize_patreon p) =
  if bool_decide (k ∈ PATREON_ALLOWED)
     || bool_decide (k = "campaign_id") && bool_decide (get_str "role" p = Some "creator")
  then json_get k p else None.
Proof.
  unfold sanitize_patreon. destruct p; try (by case_match; case_match).
  cbn [as_object]. unfold json_get at 1.
  assert (forall k, assoc_get k (foldl (fun out k => insert_claim out (JObject l) k) [] PATREON_ALLOWED)
    = if bool_decide (k ∈ PATREON_ALLOWED) then json_get k (JObject l) else None) as Hall.
  { intros k'. rewrite assoc_get_insert_claims. case_bool_decide; [by case_match|done]. }
  destruct (bool_decide (get_str "role" (JObject l) = Some "creator")).
  - change (insert_claim ?o ?c "campaign_id") with
      (foldl (fun out k => insert_claim out c k) o ["campaign_id"]).
    rewrite assoc_get_insert_claims, Hall, andb_true_r.
    rewrite (bool_decide_ext (k ∈ ["campaign_id"]) (k = "campaign_id")) by set_solver.
    repeat case_bool_decide; cbn [orb]; try done; by destruct (json_get k (JObject l)).
  - by rewrite Hall, andb_false_r, orb_false_r.
Qed.

(** [j] is an object with exactly the members [f] says. *)
Definition discloses (j : json) (f : string -> option json) : Prop :=
  exists l, j = JObject l /\ NoDup l.*1 /\ forall k, assoc_get k l = f k.

(** The members of [claims] named in [ks], and no others. *)
Definition only (ks : list string) (claims : json) (k : string) : option json :=
  if bool_decide (k ∈ ks) then json_get k claims else None.

Lemma assoc_insert_key_list {A} k (v : A) l : (assoc_insert k v l).*1 = if bool_decide (k ∈ l.*1) then l.*1 else l.*1 ++ [k].
Proof.
  induction l as [|[k' v'] l IH]; [done|]. cbn. destruct (decide (k = k')) as [->|Hne].
  - cbn. by rewrite bool_decide_true by set_solver.
  - cbn. rewrite IH, (bool_decide_ext (k ∈ k' :: l.*1) (k ∈ l.*1)) by set_solver. by case_bool_decide.
Qed.

Lemma assoc_insert_NoDup {A} k (v : A) l : NoDup l.*1 -> NoDup (assoc_insert k v l).*1.
Proof.
  intros H. rewrite assoc_insert_key_list. case_bool_decide; [done|].
  apply NoDup_app. split_and!; [done|set_solver|apply NoDup_singleton].
Qed.

Lemma insert_claim_NoDup out claims k : NoDup out.*1 -> NoDup (insert_claim out claims k).*1.
Proof. unfold insert_claim. destruct (json_get k claims); [apply assoc_insert_NoDup|done]. Qed.

Lemma insert_claims_NoDup keys p out : NoDup out.*1 -> NoDup (foldl (fun out k => insert_claim out p k) out keys).*1.
Proof. revert out; induction keys as [|k keys IH]; intros out H; [done|]. by apply IH, insert_claim_NoDup. Qed.

Lemma assoc_get_claims keys p k : assoc_get k (foldl (fun out k => insert_claim out p k) [] keys) = only keys p k.
Proof. rewrite assoc_get_insert_claims. unfold only. case_bool_decide; [by destruct (json_get k p)|done]. Qed.

Lemma sanitize_patreon_discloses p :
  discloses (sanitize_patreon p) (fun k =>
    if bool_decide (k ∈ ["role"; "patreon_user_id"; "memberships"; "verified_at"; "cache_expires_at"])
       || bool_decide (k = "campaign_id") && bool_decide (get_str "role" p = Some "creator")
    then json_get k p else None).
Proof.
  assert (exists l, sanitize_patreon p = JObject l /\ NoDup l.*1) as (l & E & Hn).
  { unfold sanitize_patreon. destruct (as_object p); [|by exists []; split; [|constructor]].
    eexists. split; [reflexivity|]. case_bool_decide; [apply insert_claim_NoDup|]; apply insert_claims_NoDup; constructor. }
  exists l. split_and!; [done..|]. intros k. rewrite <- sanitize_patreon_get, E. done.
Qed.

(** A device: its four texts, and its own token when the chain holds one. *)
Definition device_members (e : ChainEntity) (k : string) : option json :=
  if bool_decide (k ∈ ["sub"; "iss"; "aud"; "kid"]) then Some (JString (default "" (get_str k (ce_claims e))))
  else if bool_decide (k = "token") then JString <$> ce_token e
  else None.

Lemma allowlist_device_discloses e : discloses (allowlist_device e) (device_members e).
Proof.
  eexists. split; [reflexivity|]. split.
  - apply (bool_decide_unpack _). by destruct (ce_token e).
  - intros k. unfold device_members.
    destruct (decide (k ∈ ["sub"; "iss"; "aud"; "kid"])) as [Hk|Hk].
    + rewrite bool_decide_true by done. set_unfold in Hk. by destruct Hk as [->|[->|[->|[->|[]]]]].
    + rewrite bool_decide_false by done. cbn [assoc_get app].
      rewrite !decide_False by set_solver. destruct (ce_token e) as [t|]; cbn.
      * destruct (decide (k = "token")) as [->|]; [done|]. by rewrite bool_decide_false by done.
      * by case_bool_decide.
Qed.

Lemma allowlist_environment_discloses claims : discloses (allowlist_environment claims) (only ["region"; "kind"] claims).
Proof.
  unfold allowlist_environment. destruct claims; cbn [as_object];
    try (exists []; split_and!; [done|constructor|]; intros k; unfold only; by case_bool_decide).
  eexists. split; [reflexivity|]. split.
  - apply insert_claim_NoDup, insert_claim_NoDup. constructor.
  - intros k. exact (assoc_get_claims ["region"; "kind"] (JObject l) k).
Qed.

(** What a subject's properties are made of. *)
Definition subject_members (claims : json) (k : string) : option json :=
  if bool_decide (k = "arkavo_patreon") then sanitize_patreon <$> json_get k claims
  else only ["iss"; "email"; "email_verified"; "idp"; "arkavo_account_id"; "arkavo_roles"; "arkavo_entitlements"; "client_id"]
         claims k.

Lemma authzen_subject_discloses pe :
  exists properties,
    authzen_subject pe = JObject [("type", JString "identity"); ("id", default JNull (json_get "sub" (ce_claims pe)));
                                  ("properties", properties)]
    /\ discloses properties (subject_members (ce_claims pe)).
Proof.
  eexists. split; [reflexivity|]. eexists. split; [reflexivity|]. split.
  - destruct (json_get _ _); [apply assoc_insert_NoDup|]; apply insert_claims_NoDup; constructor.
  - intros k. unfold subject_members. destruct (decide (k = "arkavo_patreon")) as [->|Hne].
    + rewrite bool_decide_true by done. destruct (json_get "arkavo_patreon" (ce_claims pe)); [by rewrite assoc_get_insert_eq|].
      by rewrite assoc_get_claims.
    + rewrite bool_decide_false by done.
      destruct (json_get "arkavo_patreon" (ce_claims pe)); [rewrite assoc_get_insert_ne by done|]; apply assoc_get_claims.
Qed.

(** The context of a request: the devices, the first environment, and the
    obligations this node fulfils, which are none. *)
Lemma authzen_context_discloses chain :
  exists devices environment,
    Forall2 (fun e d => discloses d (device_members e)) (filter (fun e => ce_kind e = Device) chain) devices
    /\ (forall e, find (fun e => bool_decide (ce_kind e = Environment)) chain = Some e ->
         exists j, environment = Some j /\ discloses j (only ["region"; "kind"] (ce_claims e)))
    /\ (find (fun e => bool_decide (ce_kind e = Environment)) chain = None -> environment = None)
    /\ discloses (JObject (authzen_context chain)) (fun k =>
         if bool_decide (k = "device") then match devices with [d] => Some d | _ => None end
         else if bool_decide (k = "devices") then match devices with [] | [_] => None | _ => Some (JArray devices) end
         else if bool_decide (k = "environment") then environment
         else if bool_decide (k = "pep") then Some (JObject [("fulfillable_obligation_fqns", JArray [])])
         else None).
Proof.
  unfold authzen_context. generalize (filter (fun e => ce_kind e = Device) chain) as ds.
  generalize (find (fun e => bool_decide (ce_kind e = Environment)) chain) as env. intros env ds.
  exists (allowlist_device <$> ds), (allowlist_environment <$> (ce_claims <$> env)). split_and!.
  - apply Forall2_fmap_r, Forall_Forall2_diag, Forall_forall. intros e _. apply allowlist_device_discloses.
  - intros e ->. eexists. split; [reflexivity|]. apply allowlist_environment_discloses.
  - by intros ->.
  - eexists. split; [reflexivity|]. split.
    + apply (bool_decide_unpack _). by destruct ds as [|d [|d' ds]], env.
    + intros k. destruct (decide (k = "device")) as [->|H1]; [by destruct ds as [|d [|d' ds]], env|].
      destruct (decide (k = "devices")) as [->|H2]; [by destruct ds as [|d [|d' ds]], env|].
      destruct (decide (k = "environment")) as [->|H3]; [by destruct ds as [|d [|d' ds]], env|].
      rewrite (bool_decide_false (k = "device")), (bool_decide_false (k = "devices")), (bool_decide_false (k = "environment")) by done.
      destruct (decide (k = "pep")) as [->|H4]; [by destruct ds as [|d [|d' ds]], env|].
      rewrite bool_decide_false by done. apply assoc_get_None.
      destruct ds as [|d [|d' ds]], env; cbn; set_solver.
Qed.

(** The chain with the person's own token forgotten. *)
Definition forget_subject_token (e : ChainEntity) : ChainEntity :=
  if is_subject e then {| ce_kind := ce_kind e; ce_token := None; ce_claims := ce_claims e |} else e.

Lemma forget_kind e : ce_kind (forget_subject_token e) = ce_kind e.
Proof. unfold forget_subject_token. by case_match. Qed.

Lemma forget_claims e : ce_claims (forget_subject_token e) = ce_claims e.
Proof. unfold forget_subject_token. by case_match. Qed.

Lemma find_forget (p : EntityKind -> bool) chain :
  find (fun e => p (ce_kind e)) (forget_subject_token <$> chain)
  = forget_subject_token <$> find (fun e => p (ce_kind e)) chain.
Proof.
  induction chain as [|e chain IH]; [done|]. cbn. rewrite forget_kind, IH. by destruct (p _).
Qed.

Lemma devices_forget (chain : list ChainEntity) :
  filter (fun e => ce_kind e = Device) (forget_subject_token <$> chain)
  = filter (fun e => ce_kind e = Device) chain.
Proof.
  induction chain as [|e chain IH]; [done|]. rewrite fmap_cons, !filter_cons, forget_kind, IH.
  destruct (decide _) as [Hd|]; [|done]. unfold forget_subject_token, is_subject.
  by rewrite Hd.
Qed.

Lemma authzen_context_forget chain :
  authzen_context (forget_subject_token <$> chain) = authzen_context chain.
Proof.
  unfold authzen_context. rewrite devices_forget.
  pose proof (find_forget (fun k => bool_decide (k = Environment)) chain) as E. cbn beta in E.
  rewrite E. destruct (find _ chain); [|done]. cbn. by rewrite forget_claims.
Qed.

(** ** Theorems *)

Section AuthzTheorems.
Context {SJ : Serde} {UC : UrlCrate} (env : Env).

(** C26: A group of resources is decided in requests of at most 500 that
    cover it in order, and when the ids are distinct each one gets the
    verdict answered at its own position: [true] exactly when that
    evaluation said [true] and asks for no obligation. An answer with another
    number of evaluations, an HTTP error or an unreadable answer yields no
    decision at all, so an id is permitted only on evidence from the PDP. *)
Theorem authzen_decide_positional z req c d c' :
  authzen_decide env z req c = (Ok d, c') ->
  exists url batches evals,
    concat batches = dr_resources req
    /\ Forall (fun b => (length b <= 500)%nat) batches
    /\ Forall2 (fun b e => answered env c c' url req (b, e)) batches evals
    /\ (NoDup (dr_resources req).*1 ->
        forall i id fqns, dr_resources req !! i = Some (id, fqns) ->
        exists e, concat evals !! i = Some e /\
          d !! id = Some (ee_decision e && negb (required_obligations_nonempty (ee_context e))))
    /\ (forall id, d !! id = Some true -> permitted_by_pdp env c c' req id).
Proof.
  intros H. destruct (authzen_decide_answered _ _ _ _ _ _ H) as (url & evals & Hes & Hlen & Hd).
  exists url, (chunks MAX_EVALUATIONS (dr_resources req)), evals. split_and!; try done.
  - apply chunks_fuel_concat; [unfold MAX_EVALUATIONS|]; lia.
  - apply chunks_fuel_bounded.
  - intros Hnd i id fqns Hi.
    destruct (lookup_lt_is_Some_2 (concat evals) i) as [e He].
    { rewrite Hlen. by eapply lookup_lt_Some. }
    exists e. split; [done|]. rewrite Hd. eapply (collect_lookup _ i).
    + by rewrite verdicts_ids.
    + unfold verdicts. apply lookup_zip_with_Some. by exists (id, fqns), e.
  - intros id Hid. by eapply authzen_granted.
Qed.

(** C39: Over any sequence of decisions from a fresh client, whatever the
    discovery document and the answers, every evaluation request (and with it
    the service token) goes to the scheme, host and port of the configured
    PDP, over https or to a loopback host; the client secret goes to the
    configured token endpoint only. *)
Theorem decision_requests_stay_on_origin z reqs :
  Forall (request_ok z)
    (sent (foldl (fun c req => (authzen_decide env z req c).2) client_new reqs)).
Proof.
  enough (forall c, client_ok z c ->
    client_ok z (foldl (fun c req => (authzen_decide env z req c).2) c reqs)) as H.
  { apply (H client_new), client_new_ok. }
  induction reqs as [|req reqs IH]; intros c Hc; [done|]. cbn. apply IH.
  destruct (authzen_decide env z req c) as [r c'] eqn:E.
  by destruct (stable_authzen_decide env z req _ _ _ E Hc).
Qed.

(** C40: Everything the PDP is told. The evaluation request is the same
    whatever the person's own token is, and it has only these members: the
    subject with its [sub] and the allowlisted claims, [arkavo_patreon] reduced
    to its five allowlisted members plus [campaign_id] for a creator; the
    action's name; of every device [sub], [iss], [aud], [kid] and its own
    token; of the environment [region] and [kind]; no obligations that can be
    fulfilled; and of every resource its type, id and attributes. *)
Theorem authzen_request_discloses req body :
  build_authzen_request req = Ok body ->
  build_authzen_request {| dr_chain := forget_subject_token <$> dr_chain req;
    dr_action := dr_action req; dr_resource_type := dr_resource_type req;
    dr_resources := dr_resources req |} = Ok body
  /\ exists pe properties context devices environment,
       find_subject (dr_chain req) = Some pe
       /\ body = JObject
            [("subject", JObject [("type", JString "identity"); ("id", default JNull (json_get "sub" (ce_claims pe)));
                                  ("properties", properties)]);
             ("action", JObject [("name", JString (dr_action req))]);
             ("context", context);
             ("evaluations", JArray ((fun r => JObject [("resource", JObject
                [("type", JString (resource_type_str (dr_resource_type req))); ("id", JString r.1);
                 ("properties", JObject [("attribute_value_fqns", json_strings r.2)])])]) <$> dr_resources req));
             ("options", JObject [("evaluations_semantic", JString "execute_all")])]
       /\ discloses properties (fun k =>
            if bool_decide (k = "arkavo_patreon") then sanitize_patreon <$> json_get k (ce_claims pe)
            else only ["iss"; "email"; "email_verified"; "idp"; "arkavo_account_id"; "arkavo_roles";
                       "arkavo_entitlements"; "client_id"] (ce_claims pe) k)
       /\ (forall p, discloses (sanitize_patreon p) (fun k =>
            if bool_decide (k ∈ ["role"; "patreon_user_id"; "memberships"; "verified_at"; "cache_expires_at"])
               || bool_decide (k = "campaign_id") && bool_decide (get_str "role" p = Some "creator")
            then json_get k p else None))
       /\ discloses context (fun k =>
            if bool_decide (k = "device") then match devices with [d] => Some d | _ => None end
            else if bool_decide (k = "devices") then match devices with [] | [_] => None | _ => Some (JArray devices) end
            else if bool_decide (k = "environment") then environment
            else if bool_decide (k = "pep") then Some (JObject [("fulfillable_obligation_fqns", JArray [])])
            else None)
       /\ Forall2 (fun e d => discloses d (fun k =>
              if bool_decide (k ∈ ["sub"; "iss"; "aud"; "kid"]) then Some (JString (default "" (get_str k (ce_claims e))))
              else if bool_decide (k = "token") then JString <$> ce_token e else None))
            (filter (fun e => ce_kind e = Device) (dr_chain req)) devices
       /\ (forall e, find (fun e => bool_decide (ce_kind e = Environment)) (dr_chain req) = Some e ->
            exists j, environment = Some j /\ discloses j (only ["region"; "kind"] (ce_claims e)))
       /\ (find (fun e => bool_decide (ce_kind e = Environment)) (dr_chain req) = None -> environment = None).
Proof.
  unfold build_authzen_request. intros (pe & Hpe & H)%result_bind_ok.
  apply ok_or_ok in Hpe. apply result_bind_ok in H as (u & Hu & [= <-]).
  cbn [dr_chain dr_action dr_resource_type dr_resources]. split.
  - unfold find_subject, is_subject in *.
    pose proof (find_forget (fun k => bool_decide (k = Subject)) (dr_chain req)) as E. cbn beta in E.
    rewrite E, Hpe. cbn [fmap option_fmap option_map ok_or].
    rewrite authzen_context_forget. unfold mbind at 1, result_bind at 1. rewrite Hu.
    unfold authzen_subject. by rewrite forget_claims.
  - destruct (authzen_subject_discloses pe) as (properties & -> & Hp).
    destruct (authzen_context_discloses (dr_chain req)) as (devices & environment & Hd & He & Hn & Hc).
    exists pe, properties, (JObject (authzen_context (dr_chain req))), devices, environment.
    split_and!; try done. exact sanitize_patreon_discloses.
Qed.
End AuthzTheorems.

(** ** Witnesses *)

Module AuthzSample.
Definition chain : list ChainEntity :=
  [{| ce_kind := Subject; ce_token := Some "person-cwt";
      ce_claims := JObject [("sub", JString "alice"); ("iss", JString "https://idp");
        ("arkavo_patreon", JObject [("role", JString "member"); ("access_token", JString "secret")])] |};
   {| ce_kind := Device; ce_token := Some "device-cwt";
      ce_claims := JObject [("sub", JString "alice"); ("kid", JString "dev")] |}].

Definition req : DecisionRequest :=
  {| dr_chain := chain; dr_action := "read"; dr_resource_type := CatalogItem;
     dr_resources := [("item1", ["fqn1"]); ("item2", ["fqn2"])] |}.

Definition serde : Serde := table_serde
  [("answers", JObject [("evaluations", JArray
     [JObject [("decision", JBool true)];
      JObject [("decision", JBool true);
               ("context", JObject [("obligations", JObject [("required", JArray [JString "watermark"])])])]])])].

Definition urls : UrlCrate :=
  {| url_parse := fun s => Some {| scheme := "https"; host_str := Some s; port_or_known_default := Some 443%Z |} |}.

Definition env : Env :=
  {| answer := fun _ _ => Answer 200 (Ok "answers"); clock := fun _ => 0%Z |}.

Definition client : Client :=
  {| token_cache := None; evaluations_url := Some "https://pdp/evaluations"; sent := [] |}.

Definition pdp : AuthZenClient := authzen_new "https://pdp/" (Static "service-token").

#[local] Existing Instance serde.
#[local] Existing Instance urls.

Lemma authzen_decide_positional_witness :
  exists d c', authzen_decide env pdp req client = (Ok d, c')
    /\ d !! "item1" = Some true /\ d !! "item2" = Some false
    /\ permitted_by_pdp env client c' req "item1".
Proof.
  destruct (authzen_decide env pdp req client) as [r c'] eqn:E.
  assert (r = Ok {["item1" := true; "item2" := false]}) as ->.
  { transitivity (fst (authzen_decide env pdp req client)); [by rewrite E|]. vm_compute. reflexivity. }
  eexists _, c'. split_and!; [reflexivity|reflexivity|reflexivity|].
  destruct (authzen_decide_positional env pdp req client _ c' E) as (url & b & ev & _ & _ & _ & _ & H).
  apply H. reflexivity.
Defined.

Lemma authzen_request_discloses_witness :
  exists body devices, build_authzen_request req = Ok body
    /\ build_authzen_request {| dr_chain := forget_subject_token <$> chain; dr_action := "read";
         dr_resource_type := CatalogItem; dr_resources := dr_resources req |} = Ok body
    /\ Forall2 (fun e d => discloses d (device_members e)) (filter (fun e => ce_kind e = Device) chain) devices.
Proof.
  eexists. destruct (authzen_request_discloses req _ eq_refl) as (H & pe & ps & context & devices & env & H').
  exists devices. split; [reflexivity|]. split; [exact H|apply H'].
Defined.
End AuthzSample.
