(* ===== verification/EntityChain.v ===== *)
(** * The entity chain a decision is asked about (src/entity_chain.rs)

    The verified person, each attested device bound to them, then the
    environment this node asserts. *)

From S2P Require Import Prelude Bytes Identifiers Json Extern Samples Net Auth Authz.

(** A refusal: status code and message. *)
Definition refusal : Type := Z * string.

Definition BAD_REQUEST : Z := 400.
Definition UNAUTHORIZED : Z := 401.
Definition FORBIDDEN : Z := 403.
Definition NOT_FOUND : Z := 404.
Definition CONFLICT : Z := 409.
Definition GONE : Z := 410.
Definition INTERNAL_SERVER_ERROR : Z := 500.
Definition BAD_GATEWAY : Z := 502.
Definition SERVICE_UNAVAILABLE : Z := 503.

(** [http::HeaderMap]: names in lower case with their values in order;
    [to_str] is the crate's check that a value is visible ASCII. *)
Definition HeaderMap : Type := list (string * bytes).

Class HttpCrate := { header_to_str : bytes -> option string }.

Definition get_all (name : string) (h : HeaderMap) : list bytes :=
  omap (fun kv : string * bytes => if bool_decide (kv.1 = name) then Some kv.2 else None) h.

Definition MAX_CHAIN_ENTITIES : nat := 8.

Section Chain.
Context {B64 : Base64} {CB : Ciborium} {CO : Coset} {EC : P256} {HC : HttpCrate}.

Definition entity_tokens (headers : HeaderMap) : list string :=
  omap header_to_str (get_all "x-entity-token" headers).

Definition check_length (devices : nat) (environment : bool) : result refusal unit :=
  if (MAX_CHAIN_ENTITIES <? 1 + devices + (if environment then 1 else 0))%nat
  then Err (BAD_REQUEST, "too many entities") else Ok tt.

(** One optional member of the subject's claims. *)
Definition opt_member {A} (k : string) (f : A -> json) (o : option A) : list (string * json) :=
  match o with Some a => [(k, f a)] | None => [] end.

Definition subject_entity (pe : VerifiedClaims) (token : option string) : ChainEntity :=
  {| ce_kind := Subject; ce_token := token;
     ce_claims := JObject (
       [("sub", JString (sub pe)); ("iss", JString (iss pe))]
       ++ opt_member "patreon_user_id" JString (patreon_user_id pe)
       ++ opt_member "email" JString (email pe)
       ++ opt_member "email_verified" JBool (email_verified pe)
       ++ opt_member "idp" JString (idp pe)
       ++ opt_member "arkavo_account_id" JString (arkavo_account_id pe)
       ++ opt_member "arkavo_roles" json_strings (arkavo_roles pe)
       ++ match arkavo_entitlements pe with
          | [] => []
          | l => [("arkavo_entitlements", json_strings l)]
          end
       ++ opt_member "client_id" JString (client_id pe)
       ++ opt_member "arkavo_patreon" id (arkavo_patreon pe)) |}.

Definition device_entity (token : string) (claims : VerifiedClaims) (k : string) : ChainEntity :=
  {| ce_kind := Device; ce_token := Some (trim token);
     ce_claims := JObject [("sub", JString (sub claims)); ("iss", JString (iss claims));
                           ("aud", JString DEVICECHECK_AUD); ("kid", JString k)] |}.

Definition environment_entity (environment : json) : ChainEntity :=
  {| ce_kind := Environment; ce_token := None; ce_claims := environment |}.

Context (http_get : string -> http_answer).

(** [inst i] is the monotonic clock at the i-th verification. *)
Definition verified_device (verifier : CwtVerifier) (token pe_sub : string) (now inst : Z) :
    comp KeyCache refusal ChainEntity :=
  claims ← comp_map_err (fun _ => (UNAUTHORIZED, "invalid entity token"))
             (verify_device http_get verifier token now inst);
  if negb (bool_decide (subject_id_bind (sub claims) = subject_id_bind pe_sub))
  then throw (UNAUTHORIZED, "entity token subject does not match bearer subject")
  else
    match kid claims with
    | Some k => if is_empty k then throw (UNAUTHORIZED, "invalid entity token")
                else mret (device_entity token claims k)
    | None => throw (UNAUTHORIZED, "invalid entity token")
    end.

Fixpoint verified_devices (verifier : CwtVerifier) (tokens : list string) (pe_sub : string)
    (now : Z) (inst : nat -> Z) : comp KeyCache refusal (list ChainEntity) :=
  match tokens with
  | [] => mret []
  | token :: tokens =>
      d ← verified_device verifier token pe_sub now (inst 0);
      ds ← verified_devices verifier tokens pe_sub now (fun i => inst (S i));
      mret (d :: ds)
  end.

Definition person_chain (verifier : CwtVerifier) (pe : VerifiedClaims) (pe_token : string)
    (headers : HeaderMap) (environment : option json) (now : Z) (inst : nat -> Z) :
    comp KeyCache refusal (list ChainEntity) :=
  let npe_tokens := entity_tokens headers in
  _ ← lift (check_length (length npe_tokens) (match environment with Some _ => true | None => false end));
  devices ← verified_devices verifier npe_tokens (sub pe) now inst;
  mret (subject_entity pe (Some pe_token) :: devices
        ++ match environment with Some env => [environment_entity env] | None => [] end).

(** ** Theorems *)

(** [e] is the device of a token that verified for this person. *)
Definition bound_device (verifier : CwtVerifier) (pe : VerifiedClaims) (now : Z)
    (token : string) (e : ChainEntity) : Prop :=
  exists c c' claims k inst,
    verify_with http_get verifier token now inst {| expected_aud := Some DEVICECHECK_AUD |} c
      = (Ok claims, c')
    /\ subject_id_bind (sub claims) = subject_id_bind (sub pe)
    /\ kid claims = Some k /\ k <> ""
    /\ e = device_entity token claims k.

Lemma verified_device_bound verifier token pe now inst c e c' :
  verified_device verifier token (sub pe) now inst c = (Ok e, c') ->
  bound_device verifier pe now token e.
Proof.
  unfold verified_device, verify_device. intros H. inv_run.
  destruct (match kid x1 with Some k => _ | None => _ end) eqn:Hk1; inv_run.
  case_bool_decide as Hb; cbn [negb] in H; [|by apply throw_ok in H].
  destruct (kid x1) as [k|] eqn:Hk; [|done]. rewrite Hk1 in H. inv_run.
  exists c, x2, x1, k, inst. split_and!; try done. by intros ->.
Qed.

Lemma verified_devices_bound verifier tokens pe now inst c ds c' :
  verified_devices verifier tokens (sub pe) now inst c = (Ok ds, c') ->
  Forall2 (bound_device verifier pe now) tokens ds.
Proof.
  revert inst c ds; induction tokens as [|t tokens IH]; intros inst c ds H; cbn in H; inv_run.
  - constructor.
  - constructor; [by eapply verified_device_bound|by eapply IH].
Qed.

(** A decision is asked about at most eight entities: first the verified
    person with their subject, then one device per presented token, in
    order, each verified with the DeviceCheck audience, bound to the same
    subject and carrying a key id, and last the environment of this node when
    it asserts one. One token that fails refuses the whole request. *)
Theorem person_chain_shape verifier pe pe_token headers environment now inst c chain c' :
  person_chain verifier pe pe_token headers environment now inst c = (Ok chain, c') ->
  (length chain <= 8)%nat
  /\ exists devices,
       chain = subject_entity pe (Some pe_token) :: devices
               ++ match environment with Some env => [environment_entity env] | None => [] end
       /\ Forall2 (bound_device verifier pe now) (entity_tokens headers) devices
       /\ find_subject chain = Some (subject_entity pe (Some pe_token))
       /\ (forall e, e ∈ chain -> ce_kind e = Environment -> Some (ce_claims e) = environment)
       /\ get_str "sub" (ce_claims (subject_entity pe (Some pe_token))) = Some (sub pe).
Proof.
  unfold person_chain. intros H. inv_run.
  match goal with H : check_length _ _ = Ok _ |- _ => rename H into Hc end.
  apply verified_devices_bound in H1. pose proof (Forall2_length _ _ _ H1) as Hlen.
  split.
  - unfold check_length, MAX_CHAIN_ENTITIES in Hc.
    destruct (Nat.ltb_spec 8 (1 + length (entity_tokens headers)
      + (if match environment with Some _ => true | None => false end then 1 else 0)));
      [done|]. cbn. rewrite length_app, <- Hlen. destruct environment; cbn in *; lia.
  - eexists. split_and!; [reflexivity|done|done| |done].
    intros e He Hk. apply elem_of_cons in He as [->|He]; [done|].
    apply elem_of_app in He as [He|He].
    + apply list_elem_of_lookup in He as [i Hi].
      destruct (Forall2_lookup_r _ _ _ _ _ H1 Hi) as (t & _ & ? & ? & ? & ? & ? & _ & _ & _ & _ & ->).
      done.
    + destruct environment; [|by apply not_elem_of_nil in He].
      by apply list_elem_of_singleton in He as ->.
Qed.
End Chain.

(** ** Witness *)

Module ChainSample.
Definition device_claims : list (cbor * cbor) :=
  [(CInteger 1, CText "https://idp"); (CInteger 2, CText "alice");
   (CInteger 3, CText DEVICECHECK_AUD); (CInteger 4, CInteger 2000);
   (CInteger 6, CInteger 1000); (CInteger 7, CBytes "id-2");
   (CInteger 8, CMap [(CInteger 3, CBytes "dev-kid")])].

#[local] Existing Instance plain_base64.
#[local] Existing Instance named_p256.
#[local] Instance cbor_table : Ciborium := table_ciborium [("claims", CMap device_claims)].
#[local] Instance cose_table : Coset := table_coset [("message", AuthSample.message)].
#[local] Instance header_plain : HttpCrate := {| header_to_str := Some |}.

Definition headers : HeaderMap := [("x-entity-token", CWT_TAG_PREFIX +:+ "message")].
Definition chain : list ChainEntity :=
  [subject_entity AuthSample.alice (Some "t");
   {| ce_kind := Device; ce_token := Some (CWT_TAG_PREFIX +:+ "message");
      ce_claims := JObject [("sub", JString "alice"); ("iss", JString "https://idp");
        ("aud", JString DEVICECHECK_AUD); ("kid", JString "dev-kid")] |}].

Lemma person_chain_shape_witness :
  person_chain (fun _ => NoAnswer "offline") AuthSample.verifier AuthSample.alice "t" headers None
    1500 (fun _ => 0%Z) AuthSample.cache = (Ok chain, AuthSample.cache)
  /\ (length chain <= 8)%nat.
Proof.
  assert (person_chain (fun _ => NoAnswer "offline") AuthSample.verifier AuthSample.alice "t" headers None
    1500 (fun _ => 0%Z) AuthSample.cache = (Ok chain, AuthSample.cache)) as H
    by (vm_compute; reflexivity).
  split; [exact H|].
  exact (proj1 (person_chain_shape _ _ _ _ _ _ _ _ _ _ _ H)).
Defined.
End ChainSample.
