(* ===== verification/PublishDecision.v ===== *)
(** * Whether a subject may publish (src/publish_decision.rs)

    One question to the decision service, for the whole entity chain. The
    provider is any [DecisionProvider]; what a Permit means is stated against
    the provider's evidence. *)

From S2P Require Import Prelude Bytes Identifiers Json Extern Samples Net Auth Authz EntityChain.

Definition DEFAULT_PUBLISH_ENTITLEMENT : string :=
  "https://patreon.arkavo.com/attr/arkavo-creator/value/publish".

(** [config::PublishDecisions] *)
Inductive PublishDecisions := Local | Shadow | Pdp.

#[export] Instance PublishDecisions_eq_dec : EqDecision PublishDecisions.
Proof. solve_decision. Defined.

Inductive Verdict := Permit | Deny | Unavailable.

#[export] Instance Verdict_eq_dec : EqDecision Verdict.
Proof. solve_decision. Defined.

Record StoredEntity := { se_kind : EntityKind; se_claims : json }.

Definition strip_tokens (chain : list ChainEntity) : list StoredEntity :=
  (fun e => {| se_kind := ce_kind e; se_claims := ce_claims e |}) <$> chain.

(** The decider's configuration; the provider, when there is one, runs on a
    state of its own. *)
Record PublishDecider := {
  pd_mode : PublishDecisions;
  pd_provider : bool;
  pd_entitlement : string;
  pd_environment : option json
}.

Definition decider_default : PublishDecider :=
  {| pd_mode := Local; pd_provider := false; pd_entitlement := DEFAULT_PUBLISH_ENTITLEMENT;
     pd_environment := None |}.

Definition decider_new (mode : PublishDecisions) (provider : bool) (entitlement : string)
    (environment : option json) : result string PublishDecider :=
  _ ← ensure (bool_decide (mode = Local) || provider)
        "[publishing] decisions needs [catalog.authz] endpoint";
  Ok {| pd_mode := mode; pd_provider := provider; pd_entitlement := entitlement;
        pd_environment := environment |}.

Definition asks (d : PublishDecider) : bool := negb (bool_decide (pd_mode d = Local)).

(** [chain.iter().find(is_subject).claims.get("sub").as_str()] *)
Definition chain_subject (chain : list ChainEntity) : option string :=
  find_subject chain ≫= fun e => get_str "sub" (ce_claims e).

Section Ask.
Context {S : Type} {P : DecisionProvider S}.

Definition publish_request (d : PublishDecider) (chain : list ChainEntity) (sub : string) :
    DecisionRequest :=
  {| dr_chain := chain; dr_action := "publish"; dr_resource_type := Publisher;
     dr_resources := [(sub, [pd_entitlement d])] |}.

(** [ask] never fails: it returns a verdict and the provider's new state. *)
Definition ask (d : PublishDecider) (chain : list ChainEntity) (s : S) : Verdict * S :=
  if pd_provider d then
    match chain_subject chain with
    | None => (Unavailable, s)
    | Some sub =>
        match decide_dyn (publish_request d chain sub) s with
        | (Ok m, s') => (if default false (m !! sub) then Permit else Deny, s')
        | (Err _, s') => (Unavailable, s')
        end
    end
  else (Unavailable, s).

Lemma ask_permit_evidence `{!EvidencedProvider S} d chain s s' :
  ask d chain s = (Permit, s') ->
  exists sub, chain_subject chain = Some sub /\ evidence s s' (publish_request d chain sub) sub.
Proof.
  unfold ask. destruct (pd_provider d); [|done].
  destruct (chain_subject chain) as [sub|]; [|done].
  destruct (decide_dyn _ s) as [[m|e] s1] eqn:E; [|done]. intros H.
  destruct (m !! sub) as [[]|] eqn:Hm; simplify_eq/=.
  exists sub. split; [done|]. by eapply decide_granted.
Qed.
End Ask.

(** A publish decision with the AuthZEN client permits only on the
    platform's word: the chain names a person, and in answer to a request for
    exactly that person with action [publish] and the publish entitlement the
    decision service answered [true] without obligations. Anything else, no
    provider, no subject, an HTTP or parse failure, is not a Permit. *)
Theorem publish_permit_needs_pdp {SJ : Serde} {UC : UrlCrate} (env : Env) (z : AuthZenClient)
    d chain c c' :
  ask (P := authzen_provider env z) d chain c = (Permit, c') ->
  exists sub url batch i fqns e,
    chain_subject chain = Some sub
    /\ answered env c c' url (publish_request d chain sub) batch
    /\ batch.1 !! i = Some (sub, fqns) /\ batch.2 !! i = Some e
    /\ fqns = [pd_entitlement d]
    /\ ee_decision e = true /\ required_obligations_nonempty (ee_context e) = false.
Proof.
  intros H. destruct (ask_permit_evidence (EvidencedProvider0 := authzen_evidenced env z) _ _ _ _ H)
    as (sub & Hsub & url & batch & i & fqns & e & Ha & Hi & He & Hin & Hd & Ho).
  exists sub, url, batch, i, fqns, e. split_and!; try done.
  apply list_elem_of_singleton in Hin. by injection Hin.
Qed.

Module PublishDecisionSample.
Definition serde : Serde := table_serde
  [("answers", JObject [("evaluations", JArray [JObject [("decision", JBool true)]])])].
#[local] Existing Instance serde.
#[local] Existing Instance AuthzSample.urls.

Definition decider : PublishDecider :=
  {| pd_mode := Pdp; pd_provider := true; pd_entitlement := "publish"; pd_environment := None |}.

Lemma publish_permit_needs_pdp_witness :
  exists c', ask (P := authzen_provider AuthzSample.env AuthzSample.pdp) decider AuthzSample.chain
               AuthzSample.client = (Permit, c')
    /\ chain_subject AuthzSample.chain = Some "alice".
Proof.
  destruct (ask (P := authzen_provider AuthzSample.env AuthzSample.pdp) decider AuthzSample.chain
               AuthzSample.client) as [v c'] eqn:E.
  assert (v = Permit) as ->.
  { transitivity (fst (ask (P := authzen_provider AuthzSample.env AuthzSample.pdp) decider
      AuthzSample.chain AuthzSample.client)); [by rewrite E|]. vm_compute. reflexivity. }
  exists c'. split; [reflexivity|].
  destruct (publish_permit_needs_pdp _ _ _ _ _ _ E) as (sub & url & batch & i & fqns & e & Hs & _).
  rewrite Hs. vm_compute in Hs. injection Hs as <-. reflexivity.
Defined.
End PublishDecisionSample.
