(* ===== verification/Moderation.v ===== *)
(** * Moderation records and the in-memory view (src/moderation.rs, first part)

    Suspensions, content blocks and catalog blocks: their stored form, the
    view every gate reads, and how a node re-reads the store. The store is
    the [ModerationStore] interface, which the bucket implements. *)

From stdpp Require Import sorting.
From S2P Require Import Prelude Bytes Identifiers Json Extern Samples S3Store.

Definition SUSPENSIONS : string := "suspensions".
Definition BLOCKS : string := "blocks".
Definition CATALOG_BLOCKS : string := "catalog-blocks".
Definition AUDIT : string := "audit".
Definition SESSIONS : string := "sessions".

(** ** Records *)

Record Suspension := {
  su_subject : string;
  su_reason : string;
  su_report_id : option string;
  su_hide_catalog : bool;
  su_by : string;
  su_at : Z;
  su_lifted_by : option string;
  su_lifted_at : option Z
}.

Record Block := {
  bl_hash : string;
  bl_reason : string;
  bl_report_id : option string;
  bl_by : string;
  bl_at : Z;
  bl_lifted_by : option string;
  bl_lifted_at : option Z
}.

Record CatalogBlock := {
  cb_subject : string;
  cb_reason : string;
  cb_report_id : option string;
  cb_by : string;
  cb_at : Z;
  cb_lifted_by : option string;
  cb_lifted_at : option Z
}.

(** [Option<T>] serializes to [null] or the value. *)
Definition ser_option {A} (f : A -> json) (o : option A) : json :=
  match o with Some a => f a | None => JNull end.

Definition ser_suspension (s : Suspension) : json :=
  JObject [("subject", JString (su_subject s)); ("reason", JString (su_reason s));
           ("reportId", ser_option JString (su_report_id s));
           ("hideCatalog", JBool (su_hide_catalog s)); ("by", JString (su_by s));
           ("at", JInt (su_at s)); ("liftedBy", ser_option JString (su_lifted_by s));
           ("liftedAt", ser_option JInt (su_lifted_at s))].

Definition de_suspension (j : json) : result serde_error Suspension :=
  l ← struct_fields ["subject"; "reason"; "reportId"; "hideCatalog"; "by"; "at"; "liftedBy"; "liftedAt"]
        false j;
  subject ← field de_string "subject" l;
  reason ← field de_string "reason" l;
  report_id ← field_or None (de_option de_string) "reportId" l;
  hide_catalog ← field_or false de_bool "hideCatalog" l;
  by_ ← field de_string "by" l;
  at_ ← field de_i64 "at" l;
  lifted_by ← field_or None (de_option de_string) "liftedBy" l;
  lifted_at ← field_or None (de_option de_i64) "liftedAt" l;
  Ok {| su_subject := subject; su_reason := reason; su_report_id := report_id;
        su_hide_catalog := hide_catalog; su_by := by_; su_at := at_;
        su_lifted_by := lifted_by; su_lifted_at := lifted_at |}.

Definition ser_block (b : Block) : json :=
  JObject [("hash", JString (bl_hash b)); ("reason", JString (bl_reason b));
           ("reportId", ser_option JString (bl_report_id b)); ("by", JString (bl_by b));
           ("at", JInt (bl_at b)); ("liftedBy", ser_option JString (bl_lifted_by b));
           ("liftedAt", ser_option JInt (bl_lifted_at b))].

Definition de_block (j : json) : result serde_error Block :=
  l ← struct_fields ["hash"; "reason"; "reportId"; "by"; "at"; "liftedBy"; "liftedAt"] false j;
  hash ← field de_string "hash" l;
  reason ← field de_string "reason" l;
  report_id ← field_or None (de_option de_string) "reportId" l;
  by_ ← field de_string "by" l;
  at_ ← field de_i64 "at" l;
  lifted_by ← field_or None (de_option de_string) "liftedBy" l;
  lifted_at ← field_or None (de_option de_i64) "liftedAt" l;
  Ok {| bl_hash := hash; bl_reason := reason; bl_report_id := report_id; bl_by := by_;
        bl_at := at_; bl_lifted_by := lifted_by; bl_lifted_at := lifted_at |}.

Definition ser_catalog_block (b : CatalogBlock) : json :=
  JObject [("subject", JString (cb_subject b)); ("reason", JString (cb_reason b));
           ("reportId", ser_option JString (cb_report_id b)); ("by", JString (cb_by b));
           ("at", JInt (cb_at b)); ("liftedBy", ser_option JString (cb_lifted_by b));
           ("liftedAt", ser_option JInt (cb_lifted_at b))].

Definition de_catalog_block (j : json) : result serde_error CatalogBlock :=
  l ← struct_fields ["subject"; "reason"; "reportId"; "by"; "at"; "liftedBy"; "liftedAt"] false j;
  subject ← field de_string "subject" l;
  reason ← field de_string "reason" l;
  report_id ← field_or None (de_option de_string) "reportId" l;
  by_ ← field de_string "by" l;
  at_ ← field de_i64 "at" l;
  lifted_by ← field_or None (de_option de_string) "liftedBy" l;
  lifted_at ← field_or None (de_option de_i64) "liftedAt" l;
  Ok {| cb_subject := subject; cb_reason := reason; cb_report_id := report_id; cb_by := by_;
        cb_at := at_; cb_lifted_by := lifted_by; cb_lifted_at := lifted_at |}.

(** ** The store *)

(** The trait [ModerationStore]. *)
Class ModerationStore (St : Type) := {
  list_records : string -> comp St string (list bytes);
  put_record : string -> string -> bytes -> comp St string unit
}.

Definition s3_moderation_store {S3 : S3Service} (prefix : string) : ModerationStore Bucket :=
  {| list_records := list_moderation_records prefix;
     put_record := put_moderation_record prefix |}.

(** What the rest of the node relies on. *)
Class LawfulStore (St : Type) {MS : ModerationStore St} := {
  stored : St -> string -> string -> option bytes;
  list_keeps kind s r s' : list_records kind s = (r, s') ->
    forall kind' key, stored s' kind' key = stored s kind' key;
  list_exact kind s l s' : list_records kind s = (Ok l, s') ->
    forall x, x ∈ l <-> exists key, stored s kind key = Some x;
  put_other kind key body s r s' : no_slash kind -> put_record kind key body s = (r, s') ->
    forall kind' key', no_slash kind' -> (kind', key') <> (kind, key) ->
    stored s' kind' key' = stored s kind' key';
  put_this kind key body s r s' : put_record kind key body s = (r, s') ->
    (stored s' kind key = stored s kind key /\ r <> Ok tt) \/ stored s' kind key = Some body
}.
Arguments LawfulStore St {MS}.

(** ** The view *)

Record Moderation := {
  suspensions : gmap string Suspension;
  blocks : gmap string Block;
  catalog_blocks : gmap string CatalogBlock
}.

Definition moderation_default : Moderation :=
  {| suspensions := ∅; blocks := ∅; catalog_blocks := ∅ |}.

Definition suspension (m : Moderation) (subject : string) : option Suspension :=
  suspensions m !! canonical_subject subject.

Definition is_suspended (m : Moderation) (subject : string) : bool :=
  bool_decide (is_Some (suspension m subject)).

Definition is_blocked (m : Moderation) (hash_hex : string) : bool :=
  bool_decide (is_Some (blocks m !! to_ascii_lowercase hash_hex)).

Definition catalog_hidden (m : Moderation) (subject : string) : bool :=
  let subject := canonical_subject subject in
  bool_decide (is_Some (catalog_blocks m !! subject))
  || match suspension m subject with Some s => su_hide_catalog s | None => false end.

Definition values {A} (m : gmap string A) : list A := (map_to_list m).*2.

(** [sort_by(|a, b| a.key.cmp(&b.key))]: strings compare by their bytes. *)
Definition key_le {A} (key : A -> string) (a b : A) : Prop :=
  String.leb (key a) (key b) = true.
#[export] Instance key_le_dec {A} (key : A -> string) : RelDecision (key_le key).
Proof. unfold key_le. intros a b. apply _. Defined.

Definition active_suspensions (m : Moderation) : list Suspension :=
  merge_sort (key_le su_subject) (values (suspensions m)).
Definition active_blocks (m : Moderation) : list Block :=
  merge_sort (key_le bl_hash) (values (blocks m)).
Definition active_catalog_blocks (m : Moderation) : list CatalogBlock :=
  merge_sort (key_le cb_subject) (values (catalog_blocks m)).

Definition apply_suspension (s : Suspension) (m : Moderation) : Moderation :=
  {| suspensions := match su_lifted_at s with
                    | Some _ => delete (su_subject s) (suspensions m)
                    | None => <[su_subject s := s]> (suspensions m)
                    end;
     blocks := blocks m; catalog_blocks := catalog_blocks m |}.

Definition apply_catalog_block (b : CatalogBlock) (m : Moderation) : Moderation :=
  {| suspensions := suspensions m; blocks := blocks m;
     catalog_blocks := match cb_lifted_at b with
                       | Some _ => delete (cb_subject b) (catalog_blocks m)
                       | None => <[cb_subject b := b]> (catalog_blocks m)
                       end |}.

Definition apply_block (b : Block) (m : Moderation) : Moderation :=
  {| suspensions := suspensions m;
     blocks := match bl_lifted_at b with
               | Some _ => delete (bl_hash b) (blocks m)
               | None => <[bl_hash b := b]> (blocks m)
               end;
     catalog_blocks := catalog_blocks m |}.

(** ** Reloading *)

Section Reload.
Context {SJ : Serde} {St : Type} {MS : ModerationStore St}.

Definition from_slice {A} (de : json -> result serde_error A) (raw : bytes) : result serde_error A :=
  j ← serde_parse raw; de j.

(** One of the loops of [reload]: unreadable and lifted records are skipped. *)
Definition collect_step {A} (de : json -> result serde_error A) (lifted_at : A -> option Z)
    (key : A -> string) (m : gmap string A) (raw : bytes) : gmap string A :=
  match from_slice de raw with
  | Ok a => match lifted_at a with None => <[key a := a]> m | Some _ => m end
  | Err _ => m
  end.

Definition collect_active {A} (de : json -> result serde_error A) (lifted_at : A -> option Z)
    (key : A -> string) (raws : list bytes) : gmap string A :=
  foldl (collect_step de lifted_at key) ∅ raws.

(** The new view; an error before the end leaves none. *)
Definition reload : comp St string Moderation :=
  raw_suspensions ← list_records SUSPENSIONS;
  let suspensions := collect_active de_suspension su_lifted_at su_subject raw_suspensions in
  raw_blocks ← list_records BLOCKS;
  let blocks := collect_active de_block bl_lifted_at bl_hash raw_blocks in
  raw_catalog_blocks ← list_records CATALOG_BLOCKS;
  let catalog_blocks := collect_active de_catalog_block cb_lifted_at cb_subject raw_catalog_blocks in
  mret {| suspensions := suspensions; blocks := blocks; catalog_blocks := catalog_blocks |}.

(** One tick of [spawn_refresh]: on error the last view is kept. *)
Definition refresh_tick (view : Moderation) (s : St) : Moderation * St :=
  match reload s with
  | (Ok view', s') => (view', s')
  | (Err _, s') => (view, s')
  end.
End Reload.

(** ** Facts *)

(** The bucket keeps the store's promise. *)
Section Bucket.
Context {S3 : S3Service} (prefix : string).

Definition bucket_stored (b : Bucket) (kind key : string) : option bytes :=
  obj_body <$> objects b !! family_key prefix (Records kind) key.

Lemma bucket_list_keeps kind b r b' :
  list_moderation_records prefix kind b = (r, b') ->
  forall kind' key, bucket_stored b' kind' key = bucket_stored b kind' key.
Proof.
  intros H kind' key. unfold bucket_stored.
  destruct (stable_list_loop (objects b) _ _ _ _ _ _ H eq_refl) as [-> _]. done.
Qed.

Lemma bucket_list_exact kind b l b' :
  list_moderation_records prefix kind b = (Ok l, b') ->
  forall x, x ∈ l <-> exists key, bucket_stored b kind key = Some x.
Proof. by intros [_ H]%list_moderation_records_elem. Qed.

Lemma put_moderation_record_effect kind key body b r b' :
  put_moderation_record prefix kind key body b = (r, b') ->
  (objects b' = objects b /\ r <> Ok tt)
  \/ objects b' = <[family_key prefix (Records kind) key := written body None]> (objects b).
Proof.
  intros (r0 & H & Hr)%context_spec. apply put_always_effect in H as [[H Hne]|H]; [left|by right].
  split; [done|]. destruct r as [[]|]; [|done]. by subst.
Qed.

Lemma bucket_put_other kind key body b r b' :
  no_slash kind -> put_moderation_record prefix kind key body b = (r, b') ->
  forall kind' key', no_slash kind' -> (kind', key') <> (kind, key) ->
  bucket_stored b' kind' key' = bucket_stored b kind' key'.
Proof.
  intros Hk H kind' key' Hk' Hne. unfold bucket_stored.
  apply put_moderation_record_effect in H as [[-> _]| ->]; [done|].
  rewrite lookup_insert_ne; [done|]. intros E. apply Hne.
  apply (family_key_inj prefix (Records kind) (Records kind')) in E as [[= ->] ->]; done.
Qed.

Lemma bucket_put_this kind key body b r b' :
  put_moderation_record prefix kind key body b = (r, b') ->
  (bucket_stored b' kind key = bucket_stored b kind key /\ r <> Ok tt)
  \/ bucket_stored b' kind key = Some body.
Proof.
  unfold bucket_stored. intros [[-> ?]| ->]%put_moderation_record_effect; [by left|right].
  by rewrite lookup_insert_eq.
Qed.

Definition bucket_lawful : LawfulStore Bucket (MS := s3_moderation_store prefix) :=
  Build_LawfulStore Bucket (s3_moderation_store prefix) bucket_stored bucket_list_keeps
    bucket_list_exact bucket_put_other bucket_put_this.
End Bucket.

Section ReloadFacts.
Context {SJ : Serde} {St : Type} {MS : ModerationStore St} {LS : LawfulStore St}.

Lemma collect_step_lookup {A} (de : json -> result serde_error A) lifted_at key m raw k a :
  collect_step de lifted_at key m raw !! k = Some a ->
  m !! k = Some a \/ from_slice de raw = Ok a /\ lifted_at a = None /\ key a = k.
Proof.
  unfold collect_step. destruct (from_slice de raw) as [a'|] eqn:Ha; [|by left].
  destruct (lifted_at a') eqn:Hl; [by left|].
  rewrite lookup_insert_Some. intros [[<- <-]|[_ H]]; auto.
Qed.

Lemma collect_step_mono {A} (de : json -> result serde_error A) lifted_at key m raw k :
  is_Some (m !! k) -> is_Some (collect_step de lifted_at key m raw !! k).
Proof.
  intros Hm. unfold collect_step. destruct (from_slice de raw) as [a|]; [|done].
  destruct (lifted_at a); [done|].
  destruct (decide (key a = k)) as [->|]; [by rewrite lookup_insert_eq|by rewrite lookup_insert_ne].
Qed.

(** A view entry is one of the records. *)
Lemma collect_active_lookup {A} (de : json -> result serde_error A) lifted_at key raws k a :
  collect_active de lifted_at key raws !! k = Some a ->
  exists raw, raw ∈ raws /\ from_slice de raw = Ok a /\ lifted_at a = None /\ key a = k.
Proof.
  unfold collect_active. induction raws as [|raw raws IH] using rev_ind; [done|].
  rewrite foldl_snoc. intros [H|?]%collect_step_lookup.
  - destruct (IH H) as (raw' & Hin & ?). exists raw'. split; [apply elem_of_app; by left|done].
  - exists raw. split; [apply elem_of_app; right; by apply list_elem_of_singleton|done].
Qed.

(** Every readable record that is not lifted is in the view. *)
Lemma collect_active_has {A} (de : json -> result serde_error A) lifted_at key raws raw a :
  raw ∈ raws -> from_slice de raw = Ok a -> lifted_at a = None ->
  is_Some (collect_active de lifted_at key raws !! key a).
Proof.
  unfold collect_active. intros Hin Ha Hl. induction raws as [|raw' raws IH] using rev_ind.
  { by apply not_elem_of_nil in Hin. }
  rewrite foldl_snoc. apply elem_of_app in Hin as [Hin|Hin].
  - by apply collect_step_mono, IH.
  - apply list_elem_of_singleton in Hin as ->. unfold collect_step. rewrite Ha, Hl.
    by rewrite lookup_insert_eq.
Qed.

Lemma reload_ok s view s' :
  reload s = (Ok view, s') ->
  exists rs rb rc,
    view = {| suspensions := collect_active de_suspension su_lifted_at su_subject rs;
              blocks := collect_active de_block bl_lifted_at bl_hash rb;
              catalog_blocks := collect_active de_catalog_block cb_lifted_at cb_subject rc |}
    /\ (forall x, x ∈ rs <-> exists key, stored s SUSPENSIONS key = Some x)
    /\ (forall x, x ∈ rb <-> exists key, stored s BLOCKS key = Some x)
    /\ (forall x, x ∈ rc <-> exists key, stored s CATALOG_BLOCKS key = Some x).
Proof.
  unfold reload. intros H. inv_run. exists x, x1, x3. split; [done|].
  split; [by eapply list_exact|].
  pose proof (list_keeps _ _ _ _ H0) as K0. pose proof (list_keeps _ _ _ _ H1) as K1.
  split; intros y.
  - rewrite (list_exact _ _ _ _ H1). by setoid_rewrite K0.
  - rewrite (list_exact _ _ _ _ H2). setoid_rewrite K1. by setoid_rewrite K0.
Qed.

(** Some readable record of [kind] for [k], not lifted, is stored. *)
Definition active_record {A} (de : json -> result serde_error A) (lifted_at : A -> option Z)
    (key : A -> string) (s : St) (kind k : string) (a : A) : Prop :=
  exists name raw, stored s kind name = Some raw /\ from_slice de raw = Ok a
    /\ lifted_at a = None /\ key a = k.

Lemma collect_active_stored {A} (de : json -> result serde_error A) lifted_at key s kind raws k :
  (forall x, x ∈ raws <-> exists name, stored s kind name = Some x) ->
  is_Some (collect_active de lifted_at key raws !! k)
  <-> exists a, active_record de lifted_at key s kind k a.
Proof.
  intros Hr. split.
  - intros [a (raw & [name Hn]%Hr & Ha & Hl & Hk)%collect_active_lookup]. by exists a, name, raw.
  - intros (a & name & raw & Hn & Ha & Hl & <-). eapply collect_active_has; [|done|done].
    apply Hr. by exists name.
Qed.

(** Every readable record of [kind] is stored under the name it carries. *)
Definition filed {A} (de : json -> result serde_error A) (key : A -> string) (s : St) (kind : string) : Prop :=
  forall name raw a, stored s kind name = Some raw -> from_slice de raw = Ok a -> key a = name.

(** Then the view has exactly the records. *)
Lemma collect_active_exact {A} (de : json -> result serde_error A) lifted_at key s kind raws k a :
  (forall x, x ∈ raws <-> exists name, stored s kind name = Some x) -> filed de key s kind ->
  collect_active de lifted_at key raws !! k = Some a <-> active_record de lifted_at key s kind k a.
Proof.
  intros Hr Hf. split.
  - intros (raw & [name Hn]%Hr & Ha & Hl & Hk)%collect_active_lookup. by exists name, raw.
  - intros (name & raw & Hn & Ha & Hl & <-).
    destruct (collect_active_has de lifted_at key raws raw a) as [a' Ha']; [apply Hr; by exists name|done..|].
    rewrite Ha'. f_equal. apply collect_active_lookup in Ha' as (raw' & [name' Hn']%Hr & Ha' & _ & Hk).
    rewrite (Hf _ _ _ Hn' Ha'), (Hf _ _ _ Hn Ha) in Hk. congruence.
Qed.

Lemma reload_keeps s r s' : reload s = (r, s') -> forall kind key, stored s' kind key = stored s kind key.
Proof.
  assert (stable (fun s1 => forall kind key, stored s1 kind key = stored s kind key) reload (fun _ => True)) as H.
  { assert (forall kind, stable (fun s1 => forall kind key, stored s1 kind key = stored s kind key)
      (list_records kind) (fun _ => True)) as Hl.
    { intros kind s1 r1 s2 H1 Hs. split; [|done]. intros k key. by rewrite (list_keeps _ _ _ _ H1). }
    unfold reload. repeat (eapply stable_bind; [apply Hl|]; intros ? _). auto with tdf. }
  intros Hr. by destruct (H _ _ _ Hr).
Qed.
End ReloadFacts.

(** ** The view and the bucket *)

Section Reads.
Context {SJ : Serde} {S3 : S3Service} (prefix : string).

#[local] Instance record_store_of : ModerationStore Bucket := s3_moderation_store prefix.
#[local] Instance record_laws_of : LawfulStore Bucket := bucket_lawful prefix.

(** The bucket has a readable record of the subject, or of the hash, that is
    not lifted. *)
Definition suspended_in (b : Bucket) (sub : string) (a : Suspension) : Prop :=
  active_record de_suspension su_lifted_at su_subject b SUSPENSIONS (canonical_subject sub) a.
Definition blocked_in (b : Bucket) (hash : string) (a : Block) : Prop :=
  active_record de_block bl_lifted_at bl_hash b BLOCKS (to_ascii_lowercase hash) a.
Definition catalog_blocked_in (b : Bucket) (sub : string) (a : CatalogBlock) : Prop :=
  active_record de_catalog_block cb_lifted_at cb_subject b CATALOG_BLOCKS (canonical_subject sub) a.

(** Every record is stored under the subject or hash it is about. *)
Definition all_filed (b : Bucket) : Prop :=
  filed de_suspension su_subject b SUSPENSIONS /\ filed de_block bl_hash b BLOCKS
  /\ filed de_catalog_block cb_subject b CATALOG_BLOCKS.

(** The catalog is withheld: blocked itself, or its owner is suspended with
    the catalog hidden. *)
Definition hidden_in (b : Bucket) (sub : string) : Prop :=
  (exists a, catalog_blocked_in b sub a)
  \/ exists a, suspended_in b (canonical_subject sub) a /\ su_hide_catalog a = true.

(** Every entry of the view is filed under its own subject or hash. *)
Definition view_keyed (v : Moderation) : Prop :=
  (forall k s, suspensions v !! k = Some s -> su_subject s = k)
  /\ (forall k b, blocks v !! k = Some b -> bl_hash b = k)
  /\ (forall k b, catalog_blocks v !! k = Some b -> cb_subject b = k).

(** The view says of every subject and hash what the bucket does. Where two
    records are about one subject, which the program never writes, the catalog
    is withheld only if all of them say so or one of them does. *)
Record shows (b : Bucket) (view : Moderation) : Prop := {
  shows_keyed : view_keyed view;
  shows_suspended sub : is_suspended view sub = true <-> exists a, suspended_in b sub a;
  shows_blocked hash : is_blocked view hash = true <-> exists a, blocked_in b hash a;
  shows_hidden_by sub : catalog_hidden view sub = true -> hidden_in b sub;
  shows_hidden sub : hidden_in b sub ->
    (forall a, suspended_in b (canonical_subject sub) a -> su_hide_catalog a = true) \/ (exists a, catalog_blocked_in b sub a) ->
    catalog_hidden view sub = true;
  shows_exact : all_filed b ->
    (forall sub, catalog_hidden view sub = true <-> hidden_in b sub)
    /\ (forall k a, suspensions view !! k = Some a <-> active_record de_suspension su_lifted_at su_subject b SUSPENSIONS k a)
    /\ (forall k a, blocks view !! k = Some a <-> active_record de_block bl_lifted_at bl_hash b BLOCKS k a)
    /\ (forall k a, catalog_blocks view !! k = Some a
         <-> active_record de_catalog_block cb_lifted_at cb_subject b CATALOG_BLOCKS k a)
}.

Lemma catalog_hidden_true view sub :
  catalog_hidden view sub = true
  <-> is_Some (catalog_blocks view !! canonical_subject sub)
      \/ exists a, suspensions view !! canonical_subject (canonical_subject sub) = Some a /\ su_hide_catalog a = true.
Proof.
  unfold catalog_hidden, suspension. rewrite orb_true_iff, bool_decide_eq_true.
  destruct (suspensions view !! _) as [a|]; naive_solver.
Qed.

Lemma reload_shows b view b' : reload b = (Ok view, b') -> shows b view.
Proof.
  intros E. destruct (reload_ok _ _ _ E) as (rs & rb & rc & -> & Hs & Hb & Hc). split.
  - split_and!; intros k a (raw & _ & _ & _ & ?)%collect_active_lookup; done.
  - intros sub. unfold is_suspended, suspension. cbn [suspensions].
    rewrite bool_decide_eq_true. by apply collect_active_stored.
  - intros h. unfold is_blocked. cbn [blocks]. rewrite bool_decide_eq_true. by apply collect_active_stored.
  - intros sub. rewrite catalog_hidden_true. cbn [catalog_blocks suspensions].
    intros [H|(a & (raw & [name Hn]%Hs & ? & ? & ?)%collect_active_lookup & Ha)]; [left; by eapply collect_active_stored|right].
    exists a. split; [|done]. by exists name, raw.
  - intros sub H Hall. rewrite catalog_hidden_true. cbn [catalog_blocks suspensions].
    destruct Hall as [Hall|Hblock]; [|left; by eapply collect_active_stored].
    destruct H as [Hblock|(a & Ha & _)]; [left; by eapply collect_active_stored|right].
    destruct (proj2 (collect_active_stored de_suspension su_lifted_at su_subject b SUSPENSIONS rs _ Hs) (ex_intro _ a Ha)) as [a' Ha'].
    exists a'. split; [exact Ha'|]. apply Hall. apply collect_active_lookup in Ha' as (raw & [name Hn]%Hs & ?). by exists name, raw.
  - intros (Fs & Fb & Fc). split_and!; [|intros k a; by apply collect_active_exact..].
    intros sub. rewrite catalog_hidden_true. cbn [catalog_blocks suspensions]. unfold hidden_in, catalog_blocked_in, suspended_in.
    rewrite (collect_active_stored de_catalog_block cb_lifted_at cb_subject b CATALOG_BLOCKS rc _ Hc).
    by setoid_rewrite (fun k a => collect_active_exact de_suspension su_lifted_at su_subject b SUSPENSIONS rs k a Hs Fs).
Qed.

Lemma reload_healthy b :
  (forall log o, s3_fault log o = Healthy) -> (0 < page_size)%nat -> exists view b', reload b = (Ok view, b').
Proof.
  intros Hh Hp. unfold reload, mbind, comp_bind. cbn [list_records record_store_of s3_moderation_store].
  destruct (list_moderation_records_healthy prefix SUSPENSIONS b Hh Hp) as (l1 & b1 & ->).
  destruct (list_moderation_records_healthy prefix BLOCKS b1 Hh Hp) as (l2 & b2 & ->).
  destruct (list_moderation_records_healthy prefix CATALOG_BLOCKS b2 Hh Hp) as (l3 & b3 & ->). by eexists _, _.
Qed.

(** ** Theorems *)

(** C16: Re-reading the store. When the re-read succeeds, a subject is
    suspended exactly when the bucket holds a readable suspension record for
    its canonical form that is not lifted; a hash is blocked exactly when it
    holds such a block record; a catalog is hidden only by such a catalog block
    or by a suspension that hides it, by every such block, and by a suspension
    that hides it unless the bucket has another one of that subject. On a
    bucket whose records are stored under what they are about, as the operator
    API stores them, a catalog is hidden exactly so, and the view has exactly
    the records in force. When the re-read fails, the last view is kept: a
    storage failure never lifts a suspension. A store that answers is always
    read. *)
Theorem refresh_refines_store view b view' b' :
  refresh_tick view b = (view', b') ->
  (shows b view' \/ view' = view /\ exists e, (reload b).1 = Err e)
  /\ ((forall log o, s3_fault log o = Healthy) -> (0 < page_size)%nat -> shows b view').
Proof.
  unfold refresh_tick. intros H. split.
  - destruct (reload b) as [[v|e] b1] eqn:E; injection H as <- <-; [left; by eapply reload_shows|].
    right. split; [done|]. by exists e.
  - intros Hh Hp. destruct (reload_healthy b Hh Hp) as (v & b1 & E). rewrite E in H. injection H as <- _.
    by eapply reload_shows.
Qed.
End Reads.


Module ModerationSample.
#[local] Existing Instance bit_serde.
#[local] Existing Instance S3Sample.healthy.

Definition alice : Suspension :=
  {| su_subject := "alice"; su_reason := "spam"; su_report_id := None; su_hide_catalog := true;
     su_by := "client:ops"; su_at := 1000; su_lifted_by := None; su_lifted_at := None |}.

Definition bucket : Bucket :=
  {| objects := {[ "moderation/suspensions/alice" := written (serde_print (ser_suspension alice)) None ]};
     s3_log := [] |}.

Lemma refresh_refines_store_witness :
  exists view' b', refresh_tick (MS := s3_moderation_store "") moderation_default bucket = (view', b')
    /\ is_suspended view' "arkavo:alice" = true /\ catalog_hidden view' "arkavo:alice" = true
    /\ is_suspended view' "bob" = false.
Proof.
  destruct (refresh_tick (MS := s3_moderation_store "") moderation_default bucket) as [view' b'] eqn:E.
  pose proof (refresh_refines_store "" moderation_default bucket view' b' E) as H.
  exists view', b'. split; [reflexivity|].
  assert (is_suspended view' "arkavo:alice" = true /\ is_suspended view' "bob" = false) as Hs.
  { assert (view' = (refresh_tick (MS := s3_moderation_store "") moderation_default bucket).1) as ->
      by (by rewrite E). split; vm_compute; reflexivity. }
  destruct H as [[H|[-> _]] _]; [|vm_compute in Hs; destruct Hs as [Hs _]; discriminate Hs].
  assert (forall name raw, bucket_stored "" bucket SUSPENSIONS name = Some raw -> raw = serde_print (ser_suspension alice)) as Hone.
  { intros name raw Hraw. unfold bucket_stored, bucket in Hraw. cbn [objects] in Hraw.
    apply fmap_Some in Hraw as (o & Ho & ->). by apply lookup_singleton_Some in Ho as [_ <-]. }
  assert (from_slice de_suspension (serde_print (ser_suspension alice)) = Ok alice) as Hread by (vm_compute; reflexivity).
  assert (suspended_in "" bucket "alice" alice) as Ha.
  { exists "alice", (serde_print (ser_suspension alice)). split_and!; vm_compute; reflexivity. }
  assert (canonical_subject "arkavo:alice" = "alice") as Hc by (vm_compute; reflexivity).
  split_and!; [apply (shows_suspended _ _ _ H); exists alice; exact Ha| |apply Hs].
  apply (shows_hidden _ _ _ H "arkavo:alice").
  - right. exists alice. rewrite Hc. split; [exact Ha|reflexivity].
  - left. intros a (name & raw & Hraw & Hde & _). rewrite (Hone _ _ Hraw), Hread in Hde. injection Hde as <-. reflexivity.
Defined.
End ModerationSample.
