(* ===== verification/PublishGate.v ===== *)
(** * The publish gate (src/moderation.rs, second part)

    Which iroh endpoints may push, and for whom: sessions held in memory,
    sessions read back from the store when their tag is this node's, the
    bounded memory of misses and the bounded number of lookups in flight. *)

From S2P Require Import Prelude Bytes Identifiers Json Extern Samples S3Store Auth Authz EntityChain PublishDecision Moderation.

(** ** iroh: endpoint ids *)

Class Iroh := {
  EndpointId : Type;
  EndpointId_eq_dec :: EqDecision EndpointId;
  EndpointId_countable :: Countable EndpointId;
  endpoint_to_string : EndpointId -> string;
  endpoint_from_str : string -> option EndpointId;
  (** [endpoint.verify(message, signature)] for a 64-byte signature. *)
  endpoint_verify : EndpointId -> bytes -> bytes -> bool
}.

Definition SESSION_LOOKUPS : nat := 16.
Definition SESSION_MISS_TTL : Z := secs 10.
Definition SESSION_MISSES : nat := Z.to_nat 4096.
Definition DEFAULT_SESSION_TTL_SECS : Z := 900.

(** ** Stored sessions *)

Record SessionRecord := {
  sr_endpoint_id : string;
  sr_subject : string;
  sr_expires_at : Z;
  sr_chain : option (list StoredEntity)
}.

Definition ser_kind (k : EntityKind) : json :=
  JString (match k with Subject => "subject" | Device => "device" | Environment => "environment" end).

Definition de_kind (k : string) (j : json) : result serde_error EntityKind :=
  s ← de_string k j;
  if decide (s = "subject") then Ok Subject
  else if decide (s = "device") then Ok Device
  else if decide (s = "environment") then Ok Environment
  else Err (Custom "unknown variant").

Definition ser_entity (e : StoredEntity) : json :=
  JObject [("kind", ser_kind (se_kind e)); ("claims", se_claims e)].

Definition de_entity (_ : string) (j : json) : result serde_error StoredEntity :=
  l ← struct_fields ["kind"; "claims"] false j;
  k ← field de_kind "kind" l;
  c ← field de_value "claims" l;
  Ok {| se_kind := k; se_claims := c |}.

Definition ser_session_record (r : SessionRecord) : json :=
  JObject ([("endpointId", JString (sr_endpoint_id r)); ("subject", JString (sr_subject r));
            ("expiresAt", JInt (sr_expires_at r))]
           ++ match sr_chain r with
              | Some c => [("chain", JArray (ser_entity <$> c))]
              | None => []
              end).

Definition de_session_record (j : json) : result serde_error SessionRecord :=
  l ← struct_fields ["endpointId"; "subject"; "expiresAt"; "chain"] false j;
  e ← field de_string "endpointId" l;
  s ← field de_string "subject" l;
  x ← field de_i64 "expiresAt" l;
  c ← field_or None (de_option (de_vec de_entity)) "chain" l;
  Ok {| sr_endpoint_id := e; sr_subject := s; sr_expires_at := x; sr_chain := c |}.

(** What the store holds: the record as the bytes that were tagged. *)
Record SealedRecord := { sl_kid : string; sl_record : bytes; sl_tag : string }.

(** serde_json on [SealedRecord]: [record] is a [RawValue], kept as its text. *)
Class SealedFormat := {
  sealed_parse : bytes -> option SealedRecord;
  sealed_print : SealedRecord -> bytes
}.

Definition RECORD_KEY_CONTEXT : string := "tdf-iroh-s3 2026-11-01 publish-session record tag v1".

Record RecordKey := { rk_key : bytes; rk_kid : string }.

Section Seal.
Context {SJ : Serde} {HX : Hex} {B3 : Blake3} {SF : SealedFormat}.

Definition derive (secret : bytes) : RecordKey :=
  let key := blake3_derive_key RECORD_KEY_CONTEXT secret in
  {| rk_key := key; rk_kid := hex_encode (String.substring 0 8 (blake3_hash key)) |}.

Definition record_tag (k : RecordKey) (record : bytes) : bytes := blake3_keyed_hash (rk_key k) record.

Definition seal_raw (k : option RecordKey) (record : bytes) : option bytes :=
  key ← k;
  Some (sealed_print {| sl_kid := rk_kid key; sl_record := record;
                        sl_tag := hex_encode (record_tag key record) |}).

Definition seal (k : option RecordKey) (record : SessionRecord) : option bytes :=
  seal_raw k (serde_print (ser_session_record record)).

(** [Hash::from_hex]: 64 hex digits. *)
Definition hash_from_hex (s : string) : option bytes :=
  if (len s =? 64)%Z then hex_decode s else None.

Definition unseal (k : option RecordKey) (body : bytes) : option SessionRecord :=
  key ← k;
  sealed ← sealed_parse body;
  if negb (bool_decide (sl_kid sealed = rk_kid key)) then None
  else
    match hash_from_hex (sl_tag sealed) with
    | Some tag =>
        if bool_decide (tag = record_tag key (sl_record sealed))
        then ok (from_slice de_session_record (sl_record sealed))
        else None
    | None => None
    end.
End Seal.

(** ** The gate *)

Record Session := { s_subject : string; s_expires : Z; s_chain : option (list StoredEntity) }.

Definition HeldSession : Type := string * option (list StoredEntity).

Inductive PushRefusal := NoSession | Suspended | Blocked.

(** [store]: whether the gate has a session store. [lookups] counts the
    permits taken. *)
Record PublishGate {IR : Iroh} := {
  moderation : Moderation;
  sessions : gmap EndpointId Session;
  connections : gmap Z EndpointId;
  store : bool;
  lookups : nat;
  misses : gmap EndpointId Z;
  decider : PublishDecider;
  session_ttl : Z;
  record_key : option RecordKey
}.

Inductive lookup_answer := Answered (body : option bytes) | LookupFailed | TimedOut.

Section Gate.
Context {SJ : Serde} {HX : Hex} {B3 : Blake3} {SF : SealedFormat} {IR : Iroh}.

Definition gate_new (m : Moderation) : PublishGate :=
  {| moderation := m; sessions := ∅; connections := ∅; store := false; lookups := 0;
     misses := ∅; decider := decider_default; session_ttl := secs DEFAULT_SESSION_TTL_SECS;
     record_key := None |}.

(** Updates of one field. *)
Definition set_moderation (m : Moderation) (g : PublishGate) : PublishGate :=
  {| moderation := m; sessions := sessions g; connections := connections g; store := store g;
     lookups := lookups g; misses := misses g; decider := decider g;
     session_ttl := session_ttl g; record_key := record_key g |}.
Definition set_sessions (x : gmap EndpointId Session) (g : PublishGate) : PublishGate :=
  {| moderation := moderation g; sessions := x; connections := connections g; store := store g;
     lookups := lookups g; misses := misses g; decider := decider g;
     session_ttl := session_ttl g; record_key := record_key g |}.
Definition set_connections (x : gmap Z EndpointId) (g : PublishGate) : PublishGate :=
  {| moderation := moderation g; sessions := sessions g; connections := x; store := store g;
     lookups := lookups g; misses := misses g; decider := decider g;
     session_ttl := session_ttl g; record_key := record_key g |}.
Definition set_lookups (x : nat) (g : PublishGate) : PublishGate :=
  {| moderation := moderation g; sessions := sessions g; connections := connections g;
     store := store g; lookups := x; misses := misses g; decider := decider g;
     session_ttl := session_ttl g; record_key := record_key g |}.
Definition set_misses (x : gmap EndpointId Z) (g : PublishGate) : PublishGate :=
  {| moderation := moderation g; sessions := sessions g; connections := connections g;
     store := store g; lookups := lookups g; misses := x; decider := decider g;
     session_ttl := session_ttl g; record_key := record_key g |}.

Definition set_session_key (secret : bytes) (g : PublishGate) : PublishGate :=
  {| moderation := moderation g; sessions := sessions g; connections := connections g;
     store := store g; lookups := lookups g; misses := misses g; decider := decider g;
     session_ttl := session_ttl g;
     record_key := match record_key g with Some k => Some k | None => Some (derive secret) end |}.

Definition with_session_ttl (ttl : Z) (g : PublishGate) : PublishGate :=
  {| moderation := moderation g; sessions := sessions g; connections := connections g;
     store := store g; lookups := lookups g; misses := misses g; decider := decider g;
     session_ttl := ttl; record_key := record_key g |}.
Definition with_decider (d : PublishDecider) (g : PublishGate) : PublishGate :=
  {| moderation := moderation g; sessions := sessions g; connections := connections g;
     store := store g; lookups := lookups g; misses := misses g; decider := d;
     session_ttl := session_ttl g; record_key := record_key g |}.
Definition with_session_store (g : PublishGate) : PublishGate :=
  {| moderation := moderation g; sessions := sessions g; connections := connections g;
     store := true; lookups := lookups g; misses := misses g; decider := decider g;
     session_ttl := session_ttl g; record_key := record_key g |}.

(** [at] and [now] are the two readings of the clock, in order. *)
Definition open_session_with_chain (endpoint : EndpointId) (subject : string) (ttl : Z)
    (chain : option (list StoredEntity)) (at_ now : Z) (g : PublishGate) : PublishGate :=
  set_sessions
    (<[endpoint := {| s_subject := canonical_subject subject; s_expires := (at_ + ttl)%Z;
                      s_chain := chain |}]>
       (filter (fun kv => (now < s_expires kv.2)%Z) (sessions g))) g.

Definition connected (connection_id : Z) (endpoint : option EndpointId) (g : PublishGate) : PublishGate :=
  match endpoint with
  | Some e => set_connections (<[connection_id := e]> (connections g)) g
  | None => g
  end.

Definition closed (connection_id : Z) (g : PublishGate) : PublishGate :=
  set_connections (delete connection_id (connections g)) g.

Definition held_session (endpoint : EndpointId) (now : Z) (g : PublishGate) : option HeldSession :=
  s ← sessions g !! endpoint;
  if (now <? s_expires s)%Z then Some (s_subject s, s_chain s) else None.

Definition recently_missed (endpoint : EndpointId) (now : Z) (g : PublishGate) : bool :=
  match misses g !! endpoint with
  | Some at_ => (elapsed now at_ <? SESSION_MISS_TTL)%Z
  | None => false
  end.

(** The first of the oldest entries. *)
Definition oldest (m : gmap EndpointId Z) : option EndpointId :=
  fst <$> foldl (fun best kv =>
    match best with
    | Some b => if (kv.2 <? b.2)%Z then Some kv else best
    | None => Some kv
    end) None (map_to_list m).

Definition missed (endpoint : EndpointId) (now : Z) (g : PublishGate) : PublishGate :=
  let m := misses g in
  let m := if (SESSION_MISSES <=? size m)%nat
           then filter (fun kv => (elapsed now kv.2 < SESSION_MISS_TTL)%Z) m else m in
  let m := if (SESSION_MISSES <=? size m)%nat
           then match oldest m with Some o => delete o m | None => m end else m in
  set_misses (<[endpoint := now]> m) g.

(** [look_up], given the store's answer; [wall] is Unix seconds. *)
Definition look_up (endpoint : EndpointId) (answer : lookup_answer) (wall at_ now : Z)
    (g : PublishGate) : option HeldSession * PublishGate :=
  match answer with
  | Answered (Some body) =>
      match unseal (record_key g) body with
      | None => (None, g)
      | Some record =>
          let left := i64_sub (sr_expires_at record) wall in
          if negb (bool_decide (sr_endpoint_id record = endpoint_to_string endpoint))
             || (left <=? 0)%Z
          then (None, g)
          else
            (Some (canonical_subject (sr_subject record), sr_chain record),
             open_session_with_chain endpoint (sr_subject record)
               (Z.min (secs left) (session_ttl g)) (sr_chain record) at_ now g)
      end
  | _ => (None, g)
  end.

(** [stored_session] up to the store's answer: [true] when a permit was
    taken and the store is asked. *)
Definition begin_lookup (endpoint : EndpointId) (now : Z) (g : PublishGate) : bool * PublishGate :=
  if negb (store g) then (false, g)
  else if recently_missed endpoint now g then (false, g)
  else if (SESSION_LOOKUPS <=? lookups g)%nat then (false, g)
  else (true, set_lookups (S (lookups g)) g).

(** The rest of [stored_session]: the permit is given back. *)
Definition end_lookup (endpoint : EndpointId) (answer : lookup_answer) (wall at_ now : Z)
    (g : PublishGate) : option HeldSession * PublishGate :=
  let '(found, g) := look_up endpoint answer wall at_ now g in
  let g := match found with None => missed endpoint now g | Some _ => g end in
  (found, set_lookups (pred (lookups g)) g).

(** The person of a stored chain. *)
Definition stored_person (chain : list StoredEntity) : option string :=
  find (fun e => bool_decide (se_kind e = Subject)) chain ≫= fun e => get_str "sub" (se_claims e).

Definition decided_session (g : PublishGate) (subject : string) (chain : option (list StoredEntity)) :
    result PushRefusal unit :=
  if negb (bool_decide (pd_mode (decider g) = Pdp)) then Ok tt
  else
    match chain with
    | None => Err NoSession
    | Some chain =>
        match stored_person chain with
        | Some p => if bool_decide (canonical_subject p = canonical_subject subject)
                    then Ok tt else Err NoSession
        | None => Err NoSession
        end
    end.

(** [authorize_push] after the session is found. *)
Definition check_push (g : PublishGate) (held : HeldSession) (hash_hex : string)
    (endpoint : EndpointId) : result PushRefusal (string * EndpointId) :=
  let '(subject, chain) := held in
  if is_suspended (moderation g) subject then Err Suspended
  else if is_blocked (moderation g) hash_hex then Err Blocked
  else _ ← decided_session g subject chain; Ok (subject, endpoint).

(** The clock readings of one push: when the held session is looked for,
    when the misses are, and when the answer is there (Unix seconds, then two
    readings of the monotonic clock). *)
Record readings := { t_held : Z; t_miss : Z; t_wall : Z; t_open : Z; t_now : Z }.

(** [ask] is the session store: what it answers for an endpoint's key. *)
Definition authorize_push (ask : string -> lookup_answer) (t : readings) (connection_id : Z)
    (hash_hex : string) : comp PublishGate PushRefusal (string * EndpointId) := fun g =>
  match connections g !! connection_id with
  | None => (Err NoSession, g)
  | Some endpoint =>
      match held_session endpoint (t_held t) g with
      | Some held => (check_push g held hash_hex endpoint, g)
      | None =>
          let '(asked, g) := begin_lookup endpoint (t_miss t) g in
          if asked then
            let '(found, g) :=
              end_lookup endpoint (ask (endpoint_to_string endpoint)) (t_wall t) (t_open t) (t_now t) g in
            match found with
            | Some held => (check_push g held hash_hex endpoint, g)
            | None => (Err NoSession, g)
            end
          else (Err NoSession, g)
      end
  end.
End Gate.

(** ** Facts *)

Section GateFacts.
Context {SJ : Serde} {HX : Hex} {B3 : Blake3} {SF : SealedFormat} {IR : Iroh}.

(** [body] is a session record this node tagged for [endpoint]: its tag is
    the keyed hash of the record text under the node's key, and it is live. *)
Definition genuine (key : RecordKey) (endpoint : EndpointId) (wall : Z) (body : bytes)
    (record : SessionRecord) : Prop :=
  exists sealed tag,
    sealed_parse body = Some sealed
    /\ sl_kid sealed = rk_kid key
    /\ hash_from_hex (sl_tag sealed) = Some tag
    /\ tag = record_tag key (sl_record sealed)
    /\ from_slice de_session_record (sl_record sealed) = Ok record
    /\ sr_endpoint_id record = endpoint_to_string endpoint
    /\ (0 < i64_sub (sr_expires_at record) wall)%Z.

Lemma unseal_Some k body record :
  unseal k body = Some record <->
  exists key sealed tag,
    k = Some key /\ sealed_parse body = Some sealed /\ sl_kid sealed = rk_kid key
    /\ hash_from_hex (sl_tag sealed) = Some tag /\ tag = record_tag key (sl_record sealed)
    /\ from_slice de_session_record (sl_record sealed) = Ok record.
Proof.
  unfold unseal. destruct k as [key|]; [|naive_solver]. cbn.
  destruct (sealed_parse body) as [sealed|]; [|naive_solver]. cbn.
  case_bool_decide as Hk; cbn; [|naive_solver].
  destruct (hash_from_hex (sl_tag sealed)) as [tag|] eqn:Ht; [|naive_solver].
  case_bool_decide as Hb; [|naive_solver].
  destruct (from_slice de_session_record (sl_record sealed)) as [r|e] eqn:Hr; cbn.
  - split; [intros [= ->]; by exists key, sealed, tag|].
    intros (? & ? & ? & [= <-] & [= <-] & _ & _ & _ & H). rewrite Hr in H. by injection H as ->.
  - split; [done|]. intros (? & ? & ? & [= <-] & [= <-] & _ & _ & _ & H). by rewrite Hr in H.
Qed.

Lemma look_up_Some endpoint answer wall at_ now g held g' :
  look_up endpoint answer wall at_ now g = (Some held, g') <->
  exists key body record,
    answer = Answered (Some body) /\ record_key g = Some key
    /\ genuine key endpoint wall body record
    /\ held = (canonical_subject (sr_subject record), sr_chain record)
    /\ g' = open_session_with_chain endpoint (sr_subject record)
              (Z.min (secs (i64_sub (sr_expires_at record) wall)) (session_ttl g))
              (sr_chain record) at_ now g.
Proof.
  unfold look_up, genuine. split.
  - destruct answer as [[body|]| |]; try done.
    destruct (unseal (record_key g) body) as [record|] eqn:Hu; [|done].
    case_bool_decide as He; cbn; [|done].
    destruct (Z.leb_spec (i64_sub (sr_expires_at record) wall) 0); [done|].
    intros [= <- <-]. apply unseal_Some in Hu as (key & sealed & tag & ? & ? & ? & ? & ? & ?).
    exists key, body, record. split_and!; try done. exists sealed, tag. by split_and!.
  - intros (key & body & record & -> & Hkey & (sealed & tag & ? & ? & ? & ? & ? & He & Hl) & -> & ->).
    assert (unseal (record_key g) body = Some record) as ->.
    { apply unseal_Some. exists key, sealed, tag. by split_and!. }
    rewrite (bool_decide_true _ He). cbn.
    destruct (Z.leb_spec (i64_sub (sr_expires_at record) wall) 0); [lia|done].
Qed.

(** A lookup changes only the sessions. *)
Lemma look_up_frame endpoint answer wall at_ now g held g' :
  look_up endpoint answer wall at_ now g = (held, g') ->
  exists s, g' = set_sessions s g.
Proof.
  unfold look_up. intros H.
  assert (g = set_sessions (sessions g) g) as Hg by by destruct g.
  repeat case_match; simplify_eq; eauto.
Qed.

Lemma begin_lookup_frame endpoint now g a g' :
  begin_lookup endpoint now g = (a, g') -> exists n, g' = set_lookups n g.
Proof.
  unfold begin_lookup. intros H.
  assert (g = set_lookups (lookups g) g) as Hg by by destruct g.
  repeat case_match; simplify_eq; eauto.
Qed.

Lemma begin_lookup_true endpoint now g g' :
  begin_lookup endpoint now g = (true, g') <->
  store g = true /\ recently_missed endpoint now g = false /\ (lookups g < SESSION_LOOKUPS)%nat
  /\ g' = set_lookups (S (lookups g)) g.
Proof.
  unfold begin_lookup. destruct (store g); [|naive_solver].
  destruct (recently_missed endpoint now g); [naive_solver|].
  destruct (Nat.leb_spec SESSION_LOOKUPS (lookups g)); [|naive_solver].
  split; [done|]. intros (_ & _ & ? & _). lia.
Qed.

(** What a lookup that finds a session returns and leaves. *)
Lemma end_lookup_Some endpoint answer wall at_ now g held g' :
  end_lookup endpoint answer wall at_ now g = (Some held, g') ->
  exists key body record,
    answer = Answered (Some body) /\ record_key g = Some key
    /\ genuine key endpoint wall body record
    /\ held = (canonical_subject (sr_subject record), sr_chain record)
    /\ g' = set_lookups (pred (lookups g))
             (open_session_with_chain endpoint (sr_subject record)
                (Z.min (secs (i64_sub (sr_expires_at record) wall)) (session_ttl g))
                (sr_chain record) at_ now g).
Proof.
  unfold end_lookup. destruct (look_up _ _ _ _ _ _) as [[h|] g1] eqn:Hk; [|done].
  intros [= -> <-]. apply look_up_Some in Hk as (key & body & record & -> & Hkey & Hg & -> & ->).
  by exists key, body, record.
Qed.

Lemma end_lookup_finds endpoint wall at_ now g key body record :
  record_key g = Some key -> genuine key endpoint wall body record ->
  end_lookup endpoint (Answered (Some body)) wall at_ now g =
  (Some (canonical_subject (sr_subject record), sr_chain record),
   set_lookups (pred (lookups g))
     (open_session_with_chain endpoint (sr_subject record)
        (Z.min (secs (i64_sub (sr_expires_at record) wall)) (session_ttl g))
        (sr_chain record) at_ now g)).
Proof.
  intros Hkey Hg. unfold end_lookup.
  rewrite (proj2 (look_up_Some endpoint (Answered (Some body)) wall at_ now g _ _)
    (ex_intro _ key (ex_intro _ body (ex_intro _ record
      (conj eq_refl (conj Hkey (conj Hg (conj eq_refl eq_refl)))))))). done.
Qed.

Lemma decided_session_ok g subject chain u :
  decided_session g subject chain = Ok u <->
  (pd_mode (decider g) = Pdp ->
   exists c p, chain = Some c /\ stored_person c = Some p
     /\ canonical_subject p = canonical_subject subject).
Proof.
  destruct u. unfold decided_session. case_bool_decide as Hm; cbn; [|naive_solver].
  destruct chain as [c|]; [|naive_solver].
  destruct (stored_person c) as [p|] eqn:Hp; [|naive_solver].
  case_bool_decide; naive_solver.
Qed.

(** What must hold of the session a push uses. *)
Definition may_push (g : PublishGate) (subject : string) (chain : option (list StoredEntity))
    (hash_hex : string) : Prop :=
  is_suspended (moderation g) subject = false
  /\ is_blocked (moderation g) hash_hex = false
  /\ (pd_mode (decider g) = Pdp ->
      exists c p, chain = Some c /\ stored_person c = Some p
        /\ canonical_subject p = canonical_subject subject).

Lemma check_push_ok g subject chain hash_hex endpoint r :
  check_push g (subject, chain) hash_hex endpoint = Ok r <->
  r = (subject, endpoint) /\ may_push g subject chain hash_hex.
Proof.
  unfold check_push, may_push.
  destruct (is_suspended _ _); [naive_solver|]. destruct (is_blocked _ _); [naive_solver|].
  rewrite result_bind_ok. setoid_rewrite decided_session_ok. naive_solver.
Qed.

Lemma held_session_Some endpoint now g subject chain :
  held_session endpoint now g = Some (subject, chain) <->
  exists s, sessions g !! endpoint = Some s /\ (now < s_expires s)%Z
    /\ s_subject s = subject /\ s_chain s = chain.
Proof.
  unfold held_session. destruct (sessions g !! endpoint) as [s|]; cbn; [|naive_solver].
  destruct (Z.ltb_spec now (s_expires s)); [naive_solver|].
  split; [done|]. intros (s' & ? & ? & ?). simplify_eq. lia.
Qed.
End GateFacts.

(** ** Sealing *)

(** What is relied on of hex, blake3 and serde_json. *)
Class SealLaws {SJ : Serde} {HX : Hex} {B3 : Blake3} {SF : SealedFormat} := {
  seal_round_trip :: SerdeRoundTrip SJ;
  hex_decode_encode b : hex_decode (hex_encode b) = Some b;
  hex_encode_len b : len (hex_encode b) = (2 * len b)%Z;
  keyed_hash_len k m : len (blake3_keyed_hash k m) = 32%Z;
  sealed_parse_print s : sealed_parse (sealed_print s) = Some s
}.

(** A record the node writes: a 64-bit expiry, and claims that JSON keeps. *)
Definition writable (r : SessionRecord) : Prop :=
  in_i64 (sr_expires_at r) = true
  /\ forall c, sr_chain r = Some c ->
       Forall (fun e => floatless (se_claims e) = true /\ unique_keys (se_claims e)) c.

Section SealFacts.
Context {SJ : Serde} {HX : Hex} {B3 : Blake3} {SF : SealedFormat} {SL : SealLaws}.

Lemma de_ser_entity k e : unique_keys (se_claims e) -> de_entity k (ser_entity e) = Ok e.
Proof.
  intros Hu. destruct e as [[] claims]; unfold de_entity, ser_entity; read_struct;
    unfold de_value; by rewrite to_value_unique.
Qed.

Lemma de_ser_entities k c :
  Forall (fun e => floatless (se_claims e) = true /\ unique_keys (se_claims e)) c ->
  de_vec de_entity k (JArray (ser_entity <$> c)) = Ok c.
Proof.
  intros H. apply try_map_ok. induction H as [|e c [_ He] _ IH]; constructor; [|done].
  by apply de_ser_entity.
Qed.

Lemma de_ser_session_record r : writable r -> de_session_record (ser_session_record r) = Ok r.
Proof.
  intros [Hx Hc]. destruct r as [e s x [c|]]; cbn in Hx, Hc.
  - specialize (Hc c eq_refl). unfold de_session_record, ser_session_record. cbn [app sr_chain].
    read_struct. cbn [sr_expires_at de_i64 de_option]. rewrite Hx. cbn [mbind result_bind].
    by rewrite de_ser_entities.
  - unfold de_session_record, ser_session_record. cbn [app sr_chain]. read_struct.
    cbn [sr_expires_at de_i64]. by rewrite Hx.
Qed.

Lemma floatless_session_record r : writable r -> floatless (ser_session_record r) = true.
Proof.
  intros [_ Hc]. destruct r as [e s x [c|]]; [|done]. cbn.
  rewrite andb_true_r. specialize (Hc c eq_refl). induction Hc as [|e' c [He _] _ IH]; [done|].
  cbn. rewrite He. destruct e' as [[] ?]; exact IH.
Qed.

(** A record that was sealed is unsealed. *)
Lemma seal_unseal_same key record body :
  writable record -> seal (Some key) record = Some body -> unseal (Some key) body = Some record.
Proof.
  intros Hw [= <-]. apply unseal_Some. eexists key, _, _. split; [done|].
  split; [apply sealed_parse_print|]. cbn [sl_kid sl_tag sl_record]. split; [done|].
  split_and!; [|reflexivity|].
  - unfold hash_from_hex. rewrite hex_encode_len. unfold record_tag.
    rewrite keyed_hash_len. cbn [Z.eqb Z.mul Pos.mul Pos.eqb]. apply hex_decode_encode.
  - unfold from_slice. rewrite (parse_print (SerdeRoundTrip := seal_round_trip))
      by by apply floatless_session_record.
    by apply de_ser_session_record.
Qed.

(** While it lives, it is a genuine record of its endpoint. *)
Lemma sealed_genuine {IR : Iroh} key record body (endpoint : EndpointId) wall :
  writable record -> seal (Some key) record = Some body ->
  sr_endpoint_id record = endpoint_to_string endpoint -> (0 < i64_sub (sr_expires_at record) wall)%Z ->
  genuine key endpoint wall body record.
Proof.
  intros Hw Hs He Hl. apply (seal_unseal_same key) in Hs; [|done].
  apply unseal_Some in Hs as (key' & sealed & tag & [= <-] & Hp & Hk & Ht & Htag & Hr).
  exists sealed, tag. by split_and!.
Qed.
End SealFacts.

(** ** The gate as a system of steps

    Pushes of different peers interleave: a lookup is begun, other steps
    happen, and it ends when the store has answered. The second component is
    the endpoints whose lookup is in flight. *)

Section System.
Context {SJ : Serde} {HX : Hex} {B3 : Blake3} {SF : SealedFormat} {IR : Iroh}.

Inductive gate_step : PublishGate * list EndpointId -> PublishGate * list EndpointId -> Prop :=
| StepOpen g l endpoint subject ttl chain at_ now :
    gate_step (g, l) (open_session_with_chain endpoint subject ttl chain at_ now g, l)
| StepConnected g l c e : gate_step (g, l) (connected c e g, l)
| StepClosed g l c : gate_step (g, l) (closed c g, l)
| StepModeration g l m : gate_step (g, l) (set_moderation m g, l)
| StepKey g l secret : gate_step (g, l) (set_session_key secret g, l)
| StepBegin g l endpoint now g' :
    begin_lookup endpoint now g = (true, g') -> gate_step (g, l) (g', endpoint :: l)
| StepEnd g l1 endpoint l2 answer wall at_ now held g' :
    end_lookup endpoint answer wall at_ now g = (held, g') ->
    gate_step (g, l1 ++ endpoint :: l2) (g', l1 ++ l2).

(** From a gate as it is built at start-up. *)
Inductive gate_reachable : PublishGate * list EndpointId -> Prop :=
| reach_new m ttl d : gate_reachable (with_session_store (with_decider d (with_session_ttl ttl (gate_new m))), [])
| reach_step s s' : gate_reachable s -> gate_step s s' -> gate_reachable s'.

Definition gate_bounded (s : PublishGate * list EndpointId) : Prop :=
  (size (misses s.1) <= SESSION_MISSES)%nat /\ lookups s.1 = length s.2
  /\ (length s.2 <= SESSION_LOOKUPS)%nat.

Lemma oldest_Some (m : gmap EndpointId Z) :
  m <> ∅ -> exists o, oldest m = Some o /\ is_Some (m !! o).
Proof.
  intros Hm. unfold oldest.
  assert (forall l best, (forall kv, best = Some kv -> m !! kv.1 = Some kv.2) ->
    (forall kv, kv ∈ l -> m !! kv.1 = Some kv.2) -> (l <> [] \/ best <> None) ->
    exists kv, foldl (fun best kv => match best with
      | Some b => if (kv.2 <? b.2)%Z then Some kv else best
      | None => Some kv end) best l = Some kv /\ m !! kv.1 = Some kv.2) as H.
  { induction l as [|kv l IH]; intros best Hb Hl Hne; cbn.
    - destruct best as [kv|]; [|naive_solver]. eauto.
    - apply IH.
      + intros kv'. destruct best as [b|]; [destruct (_ <? _)%Z|]; intros [= <-]; auto;
          apply Hl; left.
      + intros. apply Hl. by right.
      + right. destruct best; [by destruct (_ <? _)%Z|done]. }
  destruct (H (map_to_list m) None) as ([k v] & -> & Hk); [done| | |].
  - intros [k v] Hin. by apply elem_of_map_to_list in Hin.
  - left. by rewrite map_to_list_empty_iff.
  - exists k. split; [done|]. by eexists.
Qed.

Lemma missed_size endpoint now g :
  (size (misses g) <= SESSION_MISSES)%nat ->
  (size (misses (missed endpoint now g)) <= SESSION_MISSES)%nat.
Proof.
  intros Hs. unfold missed. cbn [misses set_misses].
  set (m1 := if (SESSION_MISSES <=? size (misses g))%nat then _ else misses g).
  assert (0 < SESSION_MISSES)%nat as Hpos by (unfold SESSION_MISSES; lia).
  assert (size m1 <= SESSION_MISSES)%nat as H1.
  { subst m1. destruct (Nat.leb_spec SESSION_MISSES (size (misses g))); [|done].
    etransitivity; [apply map_size_filter|done]. }
  clearbody m1. set (m2 := if (SESSION_MISSES <=? size m1)%nat then _ else m1).
  assert (size m2 < SESSION_MISSES)%nat as H2.
  { subst m2. destruct (Nat.leb_spec SESSION_MISSES (size m1)) as [Hge|]; [|done].
    destruct (oldest_Some m1) as (o & -> & [v Ho]).
    { intros E. rewrite E, map_size_empty in Hge. lia. }
    rewrite map_size_delete_Some by (by exists v). lia. }
  rewrite map_size_insert. destruct (m2 !! endpoint); unfold id; lia.
Qed.

Lemma end_lookup_size endpoint answer wall at_ now g held g' :
  end_lookup endpoint answer wall at_ now g = (held, g') ->
  lookups g' = pred (lookups g)
  /\ ((size (misses g) <= SESSION_MISSES)%nat -> (size (misses g') <= SESSION_MISSES)%nat).
Proof.
  unfold end_lookup. destruct (look_up _ _ _ _ _ _) as [found g1] eqn:Hk.
  apply look_up_frame in Hk as [s ->]. destruct found; intros [= <- <-]; cbn; [done|].
  split; [done|]. intros H. by apply (missed_size endpoint now (set_sessions s g)).
Qed.

Lemma gate_step_bounded s s' : gate_step s s' -> gate_bounded s -> gate_bounded s'.
Proof.
  unfold gate_bounded. intros H (Hm & Hl & Hb). destruct H; cbn [fst snd] in *; try done.
  - by destruct e.
  - apply begin_lookup_true in H as (_ & _ & Hlt & ->). cbn. rewrite Hl in *. split_and!; [done|done|lia].
  - apply end_lookup_size in H as [Hp Hs]. rewrite Hp, Hl. rewrite !length_app in *. cbn in *.
    split_and!; [by apply Hs|lia|lia].
Qed.
End System.

(** ** Theorems *)

Section GateTheorems.
Context {SJ : Serde} {HX : Hex} {B3 : Blake3} {SF : SealedFormat} {IR : Iroh}.

(** The session a push on an endpoint uses: one held and not expired, or one
    in the store that this node tagged, when the gate asks the store. *)
Definition session_for (ask : string -> lookup_answer) (t : readings) (g : PublishGate)
    (endpoint : EndpointId) (subject : string) (chain : option (list StoredEntity)) : Prop :=
  held_session endpoint (t_held t) g = Some (subject, chain)
  \/ held_session endpoint (t_held t) g = None
     /\ store g = true
     /\ recently_missed endpoint (t_miss t) g = false
     /\ (lookups g < SESSION_LOOKUPS)%nat
     /\ exists key body record,
          ask (endpoint_to_string endpoint) = Answered (Some body)
          /\ record_key g = Some key
          /\ genuine key endpoint (t_wall t) body record
          /\ subject = canonical_subject (sr_subject record) /\ chain = sr_chain record.

(** A push on an endpoint whose session is in the store. *)
Lemma authorize_push_stored ask t connection_id hash_hex g endpoint key body record :
  connections g !! connection_id = Some endpoint -> held_session endpoint (t_held t) g = None ->
  store g = true -> recently_missed endpoint (t_miss t) g = false -> (lookups g < SESSION_LOOKUPS)%nat ->
  ask (endpoint_to_string endpoint) = Answered (Some body) -> record_key g = Some key ->
  genuine key endpoint (t_wall t) body record ->
  may_push g (canonical_subject (sr_subject record)) (sr_chain record) hash_hex ->
  exists g', authorize_push ask t connection_id hash_hex g
             = (Ok (canonical_subject (sr_subject record), endpoint), g').
Proof.
  intros Hc Hh Hst Hm Hl Ha Hkey Hg Hmay. unfold authorize_push. rewrite Hc, Hh.
  rewrite (proj2 (begin_lookup_true endpoint (t_miss t) g _) (conj Hst (conj Hm (conj Hl eq_refl)))).
  rewrite Ha. rewrite (end_lookup_finds endpoint _ _ _ (set_lookups (S (lookups g)) g) key body record Hkey Hg).
  eexists. f_equal. apply check_push_ok. split; [done|exact Hmay].
Qed.

(** C1: Exactly which pushes are accepted. A push on a connection is accepted
    for a subject if and only if the connection's endpoint has a live session
    for that subject, held or genuinely stored by this node, the subject is
    not suspended, the content is not blocked, and, when the platform decides,
    the session keeps the chain the platform permitted and its person is the
    session's subject. *)
Theorem authorize_push_exact ask t connection_id hash_hex g subject endpoint :
  (exists g', authorize_push ask t connection_id hash_hex g = (Ok (subject, endpoint), g')) <->
  connections g !! connection_id = Some endpoint /\
  exists chain, session_for ask t g endpoint subject chain /\ may_push g subject chain hash_hex.
Proof.
  unfold authorize_push, session_for.
  destruct (connections g !! connection_id) as [e|] eqn:Hcn; [|naive_solver].
  destruct (held_session e (t_held t) g) as [[sub chain]|] eqn:Hh.
  { split.
    - intros [g' [= Hc <-]]. apply check_push_ok in Hc as [[= -> ->] ?]. split; [done|]. exists chain. by auto.
    - intros [[= ->] (chain' & Hs & Hm)]. rewrite Hh in Hs. destruct Hs as [[= -> ->]|[? _]]; [|done].
      eexists. f_equal. by apply check_push_ok. }
  split.
  - intros [g' H]. destruct (begin_lookup e (t_miss t) g) as [[] g1] eqn:Hb; [|done].
    apply begin_lookup_true in Hb as (Hst & Hm & Hl & ->).
    destruct (end_lookup _ _ _ _ _ _) as [[held|] g2] eqn:Hk; [|done].
    apply end_lookup_Some in Hk as (key & body & record & Ha & Hkey & Hg & -> & ->).
    pose proof (f_equal fst H) as Hc. cbn [fst] in Hc. apply check_push_ok in Hc as [[= -> ->] Hmay].
    split; [done|]. exists (sr_chain record). split; [|exact Hmay].
    right. split_and!; try done. exists key, body, record. by split_and!.
  - intros [[= ->] (chain & [?|(_ & Hst & Hm & Hl & key & body & record & Ha & Hkey & Hg & -> & ->)] & Hmay)];
      [by rewrite Hh in *|].
    destruct (authorize_push_stored ask t _ hash_hex g endpoint key body record Hcn Hh Hst Hm Hl Ha Hkey Hg Hmay)
      as [g' H]. unfold authorize_push in H. rewrite Hcn, Hh in H. by exists g'.
Qed.

(** However pushes, lookups, sessions and moderation changes interleave,
    the gate's memory and load stay bounded: at most 4096 endpoints are
    remembered as misses, at most 16 session lookups are in flight, and the
    permits taken are exactly the lookups in flight. *)
Theorem gate_resources_bounded s :
  gate_reachable s ->
  (Z.of_nat (size (misses s.1)) <= 4096)%Z /\ lookups s.1 = length s.2 /\ (length s.2 <= 16)%nat.
Proof.
  intros H. cut (gate_bounded s); [unfold gate_bounded, SESSION_MISSES, SESSION_LOOKUPS; lia|]. induction H as [m ttl d|s s' _ IH Hstep].
  - split_and!; [apply Nat.le_0_l|reflexivity|apply Nat.le_0_l].
  - exact (gate_step_bounded _ _ Hstep IH).
Qed.

(** A session read back from the store lives no longer than its record
    says and no longer than opening one grants, is for the endpoint asked
    about, and is one this node tagged; a lookup that finds nothing leaves the
    sessions as they were and is remembered as a miss. *)
Theorem stored_session_capped endpoint answer wall at_ now g held g' :
  end_lookup endpoint answer wall at_ now g = (held, g') ->
  match held with
  | Some (subject, chain) =>
      exists key body record s,
        answer = Answered (Some body) /\ record_key g = Some key
        /\ genuine key endpoint wall body record
        /\ subject = canonical_subject (sr_subject record)
        /\ sessions g' !! endpoint = Some s
        /\ s_subject s = subject /\ s_chain s = chain
        /\ (s_expires s <= at_ + session_ttl g)%Z
        /\ (s_expires s <= at_ + secs (i64_sub (sr_expires_at record) wall))%Z
  | None => sessions g' = sessions g /\ recently_missed endpoint now g' = true
  end.
Proof.
  destruct held as [[subject chain]|]; intros H.
  - apply end_lookup_Some in H as (key & body & record & Ha & Hkey & Hg & [= -> ->] & ->).
    eexists key, body, record, _. split_and!; try done; [by cbn; rewrite lookup_insert_eq| | | |];
      cbn; try done; lia.
  - unfold end_lookup in H. destruct (look_up _ _ _ _ _ _) as [found g1] eqn:Hk.
    destruct found; [done|]. injection H as <-.
    assert (g1 = g) as ->.
    { unfold look_up in Hk. by repeat case_match; simplify_eq. }
    split; [done|]. unfold recently_missed. cbn. rewrite lookup_insert_eq.
    unfold elapsed. rewrite Z.sub_diag. done.
Qed.

(** What the node seals it reads back: a session record it tagged with
    its key is unsealed to the same record with the same key, and only a body
    whose tag is the keyed hash of its record text is unsealed at all. *)
Theorem seal_unseal {SL : SealLaws} key record body :
  writable record ->
  seal (Some key) record = Some body ->
  unseal (Some key) body = Some record
  /\ (forall body' record', unseal (Some key) body' = Some record' ->
      exists sealed, sealed_parse body' = Some sealed
        /\ hash_from_hex (sl_tag sealed) = Some (record_tag key (sl_record sealed))).
Proof.
  intros Hw Hs. split; [by apply seal_unseal_same|].
  intros body' record' (key' & sealed & tag & [= <-] & Hp & _ & Ht & -> & _)%unseal_Some.
  by exists sealed.
Qed.
End GateTheorems.

(** ** Witnesses *)

Module GateSample.
#[local] Existing Instance bit_serde.
#[local] Existing Instance plain_hex.
#[local] Existing Instance toy_blake3.

#[local] Instance iroh : Iroh :=
  {| EndpointId := string; endpoint_to_string := id; endpoint_from_str := Some;
     endpoint_verify := fun e m s => bool_decide (s = e +:+ m) |}.

Definition endpoint0 : EndpointId := "endpoint".

(** Sealed records as JSON strings. *)
Definition sealed_json (s : SealedRecord) : json :=
  JArray [JString (sl_kid s); JString (sl_record s); JString (sl_tag s)].
#[local] Instance sealed : SealedFormat :=
  {| sealed_parse := fun b =>
       match serde_parse b with
       | Ok (JArray [JString k; JString r; JString t]) =>
           Some {| sl_kid := k; sl_record := r; sl_tag := t |}
       | _ => None
       end;
     sealed_print := fun s => serde_print (sealed_json s) |}.

#[local] Instance laws : SealLaws.
Proof.
  split.
  - exact bit_serde_round_trip.
  - exact decode_encode_hex.
  - exact len_encode_hex.
  - intros k m. reflexivity.
  - intros [k r t]. cbn [sealed_parse sealed_print sealed].
    rewrite (parse_print (SerdeRoundTrip := bit_serde_round_trip)) by reflexivity. reflexivity.
Defined.

Definition record : SessionRecord :=
  {| sr_endpoint_id := "endpoint"; sr_subject := "arkavo:alice"; sr_expires_at := 2000; sr_chain := None |}.

Definition gate : PublishGate :=
  connected 7 (Some endpoint0)
    (set_session_key "secret" (with_session_store (gate_new moderation_default))).

Definition body : bytes := default "" (seal (record_key gate) record).
Definition times : readings := {| t_held := 0; t_miss := 0; t_wall := 1500; t_open := 0; t_now := 0 |}.

Lemma record_writable : writable record.
Proof. split; [reflexivity|]. intros c Hc. discriminate Hc. Qed.

Lemma seal_unseal_witness :
  seal (record_key gate) record = Some body /\ unseal (record_key gate) body = Some record.
Proof.
  assert (seal (record_key gate) record = Some body) as Hs by (vm_compute; reflexivity).
  split; [exact Hs|].
  exact (proj1 (seal_unseal (derive "secret") record body record_writable Hs)).
Defined.

Lemma stored_session_capped_witness :
  exists g', end_lookup endpoint0 (Answered (Some body)) 1500 0 0 gate
    = (Some ("alice", None), g').
Proof.
  destruct (end_lookup endpoint0 (Answered (Some body)) 1500 0 0 gate) as [held g'] eqn:E.
  pose proof (stored_session_capped _ _ _ _ _ _ _ _ E) as H.
  assert (held = Some ("alice", None)) as ->.
  { transitivity (fst (end_lookup endpoint0 (Answered (Some body)) 1500 0 0 gate));
      [by rewrite E|]. vm_compute. reflexivity. }
  destruct H as (key & b & r & s & _ & _ & _ & _ & _ & _ & _ & _). exists g'. reflexivity.
Defined.

Lemma gate_resources_bounded_witness :
  (Z.of_nat (size (misses gate)) <= 4096)%Z.
Proof.
  apply (gate_resources_bounded (gate, [])).
  eapply reach_step; [|eapply (StepConnected _ _ 7 (Some endpoint0))].
  eapply reach_step; [|eapply (StepKey _ _ "secret")].
  apply (reach_new moderation_default (secs DEFAULT_SESSION_TTL_SECS) decider_default).
Defined.
End GateSample.
