(* ===== verification/ModerationApi.v ===== *)
(** * Publishing and operator API (src/moderation.rs, third part)

    The publish policy (who may open a session), the operator check, proof of
    possession of an endpoint, and the HTTP handlers. A handler runs on the
    node's state: the verifier's key cache, the gate, the moderation store and
    the decision provider. *)

From S2P Require Import Prelude Bytes Identifiers Json Extern Samples S3Store Auth Authz EntityChain PublishDecision Moderation PublishGate.

Definition MAX_REASON_CHARS : Z := 1000.
Definition SESSION_SKEW_SECS : Z := 300.

Record PublishPolicy := {
  pp_entitlement : option string;
  pp_audience : option string;
  pp_session_ttl_secs : Z;
  pp_operator_client_ids : gset string;
  pp_decider : PublishDecider
}.

Record SessionRequest := { rq_endpoint_id : string; rq_timestamp : Z; rq_signature : string }.

Definition de_session_request (j : json) : result serde_error SessionRequest :=
  l ← struct_fields ["endpointId"; "timestamp"; "signature"] true j;
  e ← field de_string "endpointId" l;
  t ← field de_i64 "timestamp" l;
  s ← field de_string "signature" l;
  Ok {| rq_endpoint_id := e; rq_timestamp := t; rq_signature := s |}.

Record ActionRequest := { ar_reason : string; ar_report_id : option string; ar_hide_catalog : bool }.

Definition de_action_request (j : json) : result serde_error ActionRequest :=
  l ← struct_fields ["reason"; "reportId"; "hideCatalog"] true j;
  r ← field de_string "reason" l;
  i ← field_or None (de_option de_string) "reportId" l;
  h ← field_or false de_bool "hideCatalog" l;
  Ok {| ar_reason := r; ar_report_id := i; ar_hide_catalog := h |}.

(** The clocks a handler reads: Unix seconds at its i-th reading, the
    monotonic clock likewise, and nanoseconds for the audit key. *)
Record Clocks := { now_secs : nat -> Z; inst : nat -> Z; nanos : Z }.

Section Policy.
Context {B64 : Base64} {CB : Ciborium} {CO : Coset} {EC : P256} {HC : HttpCrate}.
Context {Sp : Type} {P : DecisionProvider Sp}.
Context (http_get : string -> http_answer).

Definition bearer (headers : HeaderMap) : option string :=
  v ← head (get_all "authorization" headers);
  s ← header_to_str v;
  t ← strip_prefix "Bearer " s;
  let t := trim t in
  if is_empty t then None else Some t.

Definition auth_status (e : AuthError) : refusal :=
  match e with
  | KeySet _ => (BAD_GATEWAY, "invalid token")
  | _ => (UNAUTHORIZED, "invalid token")
  end.

(** The policy runs on the key cache and the provider's state. *)
Definition PolicyState : Type := KeyCache * Sp.
Definition on_keys {E A} (m : comp KeyCache E A) : comp PolicyState E A :=
  zoom fst (fun k s => (k, s.2)) m.
Definition ask_pdp (d : PublishDecider) (chain : list ChainEntity) : comp PolicyState refusal Verdict :=
  fun s => let '(v, sp) := ask d chain s.2 in (Ok v, (s.1, sp)).

Definition policy_chain (policy : PublishPolicy) (verifier : CwtVerifier) (headers : HeaderMap)
    (claims : VerifiedClaims) (token : string) (t : Clocks) : comp KeyCache refusal (list ChainEntity) :=
  let devices := entity_tokens headers in
  let environment := pd_environment (pp_decider policy) in
  _ ← lift (check_length (length devices) (match environment with Some _ => true | None => false end));
  ds ← verified_devices http_get verifier devices (sub claims) (now_secs t 1) (fun i => inst t (S i));
  mret (subject_entity claims (Some token) :: ds
        ++ match environment with Some env => [environment_entity env] | None => [] end).

(** The answer of this node alone. *)
Definition local_answer (policy : PublishPolicy) (claims : VerifiedClaims) (suspended : bool) :
    result refusal unit :=
  if suspended then Err (FORBIDDEN, "publishing suspended")
  else
    match pp_entitlement policy with
    | Some want =>
        if existsb (fun x => bool_decide (x = want)) (arkavo_entitlements claims) then Ok tt
        else Err (FORBIDDEN, "publishing entitlement required")
    | None => Ok tt
    end.

Definition publisher_with_chain (policy : PublishPolicy) (verifier : CwtVerifier) (m : Moderation)
    (headers : HeaderMap) (t : Clocks) :
    comp PolicyState refusal (VerifiedClaims * option (list ChainEntity)) :=
  token ← lift (ok_or (bearer headers) (UNAUTHORIZED, "missing bearer token"));
  claims ← comp_map_err auth_status (on_keys (verify_with http_get verifier token (now_secs t 0) (inst t 0)
             {| expected_aud := pp_audience policy |}));
  if starts_with "client:" (sub claims) then throw (FORBIDDEN, "service tokens cannot publish")
  else
    let suspended := is_suspended m (sub claims) in
    let mode := pd_mode (pp_decider policy) in
    if suspended && negb (bool_decide (mode = Shadow)) then throw (FORBIDDEN, "publishing suspended")
    else
      let local := local_answer policy claims suspended in
      match mode with
      | Local => _ ← lift local; mret (claims, None)
      | Shadow =>
          chain ← attempt (on_keys (policy_chain policy verifier headers claims token t));
          verdict ← match chain with
                    | Ok chain => ask_pdp (pp_decider policy) chain
                    | Err _ => mret Unavailable
                    end;
          _ ← lift local;
          mret (claims, if bool_decide (verdict = Permit) then ok chain else None)
      | Pdp =>
          chain ← on_keys (policy_chain policy verifier headers claims token t);
          verdict ← ask_pdp (pp_decider policy) chain;
          match verdict with
          | Permit => mret (claims, Some chain)
          | Deny => throw (FORBIDDEN, "publishing not permitted")
          | Unavailable => throw (SERVICE_UNAVAILABLE, "decision service unavailable")
          end
      end.

Definition publisher (policy : PublishPolicy) (verifier : CwtVerifier) (m : Moderation)
    (headers : HeaderMap) (t : Clocks) : comp PolicyState refusal VerifiedClaims :=
  '(claims, _) ← publisher_with_chain policy verifier m headers t; mret claims.

Definition operator (policy : PublishPolicy) (verifier : CwtVerifier) (headers : HeaderMap)
    (t : Clocks) : comp KeyCache refusal string :=
  if bool_decide (pp_operator_client_ids policy = ∅)
  then throw (SERVICE_UNAVAILABLE, "operator API not configured")
  else
    token ← lift (ok_or (bearer headers) (UNAUTHORIZED, "missing bearer token"));
    claims ← comp_map_err auth_status (verify http_get verifier token (now_secs t 0) (inst t 0));
    client ← lift (ok_or (match strip_prefix "client:" (sub claims) with
                          | Some c => if is_empty c then None else Some c
                          | None => None
                          end) (FORBIDDEN, "operator token required"));
    let service := match arkavo_roles claims with
                   | Some r => existsb (fun x => bool_decide (x = "service-account")) r
                   | None => false
                   end in
    if negb service || negb (aud_contains (aud claims) client)
    then throw (FORBIDDEN, "operator token required")
    else if negb (bool_decide (client ∈ pp_operator_client_ids policy))
    then throw (FORBIDDEN, "not an operator")
    else mret ("client:" +:+ client).
End Policy.

(** ** Proof of possession *)

Definition newline : string := String "010" "".

Section Possession.
Context {HX : Hex} {B3 : Blake3} {IR : Iroh}.

Definition session_message (endpoint : EndpointId) (bearer_token : string) (timestamp : Z) : bytes :=
  "tdf-iroh-s3 publish-session v1" +:+ newline +:+ endpoint_to_string endpoint +:+ newline
  +:+ hex_encode (blake3_hash bearer_token) +:+ newline +:+ pretty timestamp.

Definition verify_possession (endpoint : EndpointId) (bearer_token : string) (timestamp : Z)
    (signature_hex : string) (now : Z) : result refusal unit :=
  if (SESSION_SKEW_SECS <? i64_abs (i64_sub now timestamp))%Z
  then Err (BAD_REQUEST, "timestamp out of range")
  else
    signature ← ok_or (match hex_decode (trim signature_hex) with
                       | Some b => if (len b =? 64)%Z then Some b else None
                       | None => None
                       end) (BAD_REQUEST, "invalid signature");
    if endpoint_verify endpoint (session_message endpoint bearer_token timestamp) signature
    then Ok tt
    else Err (FORBIDDEN, "signature does not match endpointId").
End Possession.

(** ** Handlers *)

Record Api {EC : P256} {IR : Iroh} {St Sp : Type} := {
  api_keys : KeyCache;
  api_gate : PublishGate;
  api_store : St;
  api_provider : Sp
}.
Arguments Api {EC IR} St Sp.

Definition checked_reason (r : string) : result refusal string :=
  let r := trim r in
  if is_empty r || (MAX_REASON_CHARS <? chars_count r)%Z
  then Err (BAD_REQUEST, "reason is required (≤ 1000 characters)") else Ok r.

Definition checked_report_id (r : option string) : result refusal (option string) :=
  match r with
  | Some id => if valid_subject id then Ok (Some id) else Err (BAD_REQUEST, "invalid reportId")
  | None => Ok None
  end.

(** [{nanos:020}] *)
Fixpoint zeros (n : nat) : string := match n with O => "" | S n => String "0" (zeros n) end.
Definition pad20 (s : string) : string := zeros (20 - String.length s) +:+ s.

Definition audit_key (kind key : string) (nanos : Z) : string :=
  kind +:+ "/" +:+ key +:+ "/" +:+ pad20 (pretty nanos).

Definition audit_event (action : string) (record : json) : json :=
  JObject [("action", JString action); ("record", record)].

Section Handlers.
Context {B64 : Base64} {CB : Ciborium} {CO : Coset} {EC : P256} {HC : HttpCrate}.
Context {SJ : Serde} {HX : Hex} {B3 : Blake3} {SF : SealedFormat} {IR : Iroh}.
Context {St Sp : Type} {MS : ModerationStore St} {P : DecisionProvider Sp}.
Context (http_get : string -> http_answer) (verifier : CwtVerifier) (policy : PublishPolicy).

Abbreviation api := (Api St Sp).

Definition set_keys (k : KeyCache) (a : api) : api :=
  {| api_keys := k; api_gate := api_gate a; api_store := api_store a; api_provider := api_provider a |}.
Definition set_gate (g : PublishGate) (a : api) : api :=
  {| api_keys := api_keys a; api_gate := g; api_store := api_store a; api_provider := api_provider a |}.
Definition set_store (s : St) (a : api) : api :=
  {| api_keys := api_keys a; api_gate := api_gate a; api_store := s; api_provider := api_provider a |}.
Definition set_policy_state (s : KeyCache * Sp) (a : api) : api :=
  {| api_keys := s.1; api_gate := api_gate a; api_store := api_store a; api_provider := s.2 |}.

Definition on_store {E A} (m : comp St E A) : comp api E A := zoom api_store set_store m.
Definition view (a : api) : Moderation := moderation (api_gate a).
Definition apply_view (f : Moderation -> Moderation) : comp api refusal unit :=
  modify (fun a => set_gate (set_moderation (f (view a)) (api_gate a)) a).

Definition persist (kind key : string) (record : json) : comp St refusal unit :=
  comp_map_err (fun _ => (BAD_GATEWAY, "storage unavailable")) (put_record kind key (serde_print record)).

Definition audit (action kind key : string) (record : json) (nanos : Z) : comp St refusal unit :=
  persist AUDIT (audit_key kind key nanos) (audit_event action record).

Definition require_operator (headers : HeaderMap) (t : Clocks) : comp api refusal string :=
  zoom api_keys set_keys (operator http_get policy verifier headers t).

Definition open_session (headers : HeaderMap) (body : SessionRequest) (t : Clocks) :
    comp api refusal (EndpointId * string * Z) :=
  a ← get;
  '(claims, chain) ← zoom (fun a => (api_keys a, api_provider a)) set_policy_state
                       (publisher_with_chain http_get policy verifier (view a) headers t);
  let chain := strip_tokens <$> chain in
  endpoint ← lift (ok_or (endpoint_from_str (trim (rq_endpoint_id body))) (BAD_REQUEST, "invalid endpointId"));
  let token := default "" (bearer headers) in
  _ ← lift (verify_possession endpoint token (rq_timestamp body) (rq_signature body) (now_secs t 2));
  let expires_at := i64_add (now_secs t 3) (pp_session_ttl_secs policy) in
  let record := {| sr_endpoint_id := endpoint_to_string endpoint; sr_subject := sub claims;
                   sr_expires_at := expires_at; sr_chain := chain |} in
  a ← get;
  _ ← match seal (record_key (api_gate a)) record with
      | Some body =>
          _ ← attempt (F := refusal) (on_store (put_record SESSIONS (sr_endpoint_id record) body)); mret tt
      | None => mret tt
      end;
  _ ← modify (fun a => set_gate (open_session_with_chain endpoint (sub claims)
        (secs (pp_session_ttl_secs policy)) chain (inst t 8) (inst t 9) (api_gate a)) a);
  mret (endpoint, canonical_subject (sub claims), expires_at).

Definition list_suspensions (headers : HeaderMap) (t : Clocks) : comp api refusal (list Suspension) :=
  _ ← require_operator headers t; a ← get; mret (active_suspensions (view a)).
Definition list_blocks (headers : HeaderMap) (t : Clocks) : comp api refusal (list Block) :=
  _ ← require_operator headers t; a ← get; mret (active_blocks (view a)).
Definition list_catalog_blocks (headers : HeaderMap) (t : Clocks) : comp api refusal (list CatalogBlock) :=
  _ ← require_operator headers t; a ← get; mret (active_catalog_blocks (view a)).

Definition suspend (subject : string) (headers : HeaderMap) (body : ActionRequest) (t : Clocks) :
    comp api refusal Suspension :=
  by_ ← require_operator headers t;
  let subject := canonical_subject subject in
  if negb (valid_subject subject) then throw (BAD_REQUEST, "invalid subject")
  else
    reason ← lift (checked_reason (ar_reason body));
    report_id ← lift (checked_report_id (ar_report_id body));
    let record := {| su_subject := subject; su_reason := reason; su_report_id := report_id;
                     su_hide_catalog := ar_hide_catalog body; su_by := by_; su_at := now_secs t 1;
                     su_lifted_by := None; su_lifted_at := None |} in
    _ ← on_store (audit "suspend" SUSPENSIONS subject (ser_suspension record) (nanos t));
    _ ← on_store (persist SUSPENSIONS subject (ser_suspension record));
    _ ← apply_view (apply_suspension record);
    mret record.

Definition lift_suspension (subject : string) (headers : HeaderMap) (t : Clocks) :
    comp api refusal Suspension :=
  by_ ← require_operator headers t;
  a ← get;
  found ← lift (ok_or (suspension (view a) subject) (NOT_FOUND, "no active suspension"));
  let record := {| su_subject := su_subject found; su_reason := su_reason found;
                   su_report_id := su_report_id found; su_hide_catalog := su_hide_catalog found;
                   su_by := su_by found; su_at := su_at found;
                   su_lifted_by := Some by_; su_lifted_at := Some (now_secs t 1) |} in
  _ ← on_store (audit "lift_suspension" SUSPENSIONS (su_subject record) (ser_suspension record) (nanos t));
  _ ← on_store (persist SUSPENSIONS (su_subject record) (ser_suspension record));
  _ ← apply_view (apply_suspension record);
  mret record.

Definition block (hash : string) (headers : HeaderMap) (body : ActionRequest) (t : Clocks) :
    comp api refusal Block :=
  by_ ← require_operator headers t;
  if negb (valid_hash hash) then throw (BAD_REQUEST, "hash must be 64 hex chars")
  else if ar_hide_catalog body then throw (BAD_REQUEST, "hideCatalog applies to suspensions")
  else
    let hash := to_ascii_lowercase hash in
    reason ← lift (checked_reason (ar_reason body));
    report_id ← lift (checked_report_id (ar_report_id body));
    let record := {| bl_hash := hash; bl_reason := reason; bl_report_id := report_id; bl_by := by_;
                     bl_at := now_secs t 1; bl_lifted_by := None; bl_lifted_at := None |} in
    _ ← on_store (audit "block" BLOCKS hash (ser_block record) (nanos t));
    _ ← on_store (persist BLOCKS hash (ser_block record));
    _ ← apply_view (apply_block record);
    mret record.

Definition lift_block (hash : string) (headers : HeaderMap) (t : Clocks) : comp api refusal Block :=
  by_ ← require_operator headers t;
  let hash := to_ascii_lowercase hash in
  a ← get;
  found ← lift (ok_or (find (fun b => bool_decide (bl_hash b = hash)) (active_blocks (view a)))
                  (NOT_FOUND, "no active block"));
  let record := {| bl_hash := bl_hash found; bl_reason := bl_reason found;
                   bl_report_id := bl_report_id found; bl_by := bl_by found; bl_at := bl_at found;
                   bl_lifted_by := Some by_; bl_lifted_at := Some (now_secs t 1) |} in
  _ ← on_store (audit "lift_block" BLOCKS hash (ser_block record) (nanos t));
  _ ← on_store (persist BLOCKS hash (ser_block record));
  _ ← apply_view (apply_block record);
  mret record.

Definition block_catalog (subject : string) (headers : HeaderMap) (body : ActionRequest) (t : Clocks) :
    comp api refusal CatalogBlock :=
  by_ ← require_operator headers t;
  let subject := canonical_subject subject in
  if negb (valid_subject subject) then throw (BAD_REQUEST, "invalid subject")
  else if ar_hide_catalog body then throw (BAD_REQUEST, "hideCatalog applies to suspensions")
  else
    reason ← lift (checked_reason (ar_reason body));
    report_id ← lift (checked_report_id (ar_report_id body));
    let record := {| cb_subject := subject; cb_reason := reason; cb_report_id := report_id;
                     cb_by := by_; cb_at := now_secs t 1; cb_lifted_by := None; cb_lifted_at := None |} in
    _ ← on_store (audit "block_catalog" CATALOG_BLOCKS subject (ser_catalog_block record) (nanos t));
    _ ← on_store (persist CATALOG_BLOCKS subject (ser_catalog_block record));
    _ ← apply_view (apply_catalog_block record);
    mret record.

Definition lift_catalog_block (subject : string) (headers : HeaderMap) (t : Clocks) :
    comp api refusal CatalogBlock :=
  by_ ← require_operator headers t;
  let subject := canonical_subject subject in
  a ← get;
  found ← lift (ok_or (find (fun b => bool_decide (cb_subject b = subject)) (active_catalog_blocks (view a)))
                  (NOT_FOUND, "no active catalog block"));
  let record := {| cb_subject := cb_subject found; cb_reason := cb_reason found;
                   cb_report_id := cb_report_id found; cb_by := cb_by found; cb_at := cb_at found;
                   cb_lifted_by := Some by_; cb_lifted_at := Some (now_secs t 1) |} in
  _ ← on_store (audit "lift_catalog_block" CATALOG_BLOCKS subject (ser_catalog_block record) (nanos t));
  _ ← on_store (persist CATALOG_BLOCKS subject (ser_catalog_block record));
  _ ← apply_view (apply_catalog_block record);
  mret record.
End Handlers.

(** ** Facts: the policy *)

Section PolicyFacts.
Context {B64 : Base64} {CB : Ciborium} {CO : Coset} {EC : P256} {HC : HttpCrate}.
Context {Sp : Type} {P : DecisionProvider Sp}.
Context (http_get : string -> http_answer).

Lemma zoom_ok {S T E A} (proj : S -> T) put (m : comp T E A) s a s' :
  zoom proj put m s = (Ok a, s') <-> exists t, m (proj s) = (Ok a, t) /\ s' = put t s.
Proof. unfold zoom. destruct (m (proj s)) as [r t]. naive_solver. Qed.

(** [verifies]: the token is accepted for the audience, whatever the key
    cache is left as. *)
Definition verifies (verifier : CwtVerifier) (token : string) (aud_ : option string) (now inst : Z)
    (c : KeyCache) (claims : VerifiedClaims) : Prop :=
  exists c', verify_with http_get verifier token now inst {| expected_aud := aud_ |} c = (Ok claims, c').

Lemma local_answer_ok policy claims suspended u :
  local_answer policy claims suspended = Ok u <->
  suspended = false /\ forall want, pp_entitlement policy = Some want -> want ∈ arkavo_entitlements claims.
Proof.
  destruct u. unfold local_answer. destruct suspended; [naive_solver|].
  destruct (pp_entitlement policy) as [want|]; [|naive_solver].
  destruct (existsb _ _) eqn:E.
  - apply existsb_elem in E. naive_solver.
  - split; [done|]. intros [_ H]. specialize (H want eq_refl). apply existsb_elem in H. congruence.
Qed.

(** The chain of a publish decision is [person_chain] with this node's
    environment. *)
Lemma policy_chain_person policy verifier headers claims token t :
  policy_chain http_get policy verifier headers claims token t =
  person_chain http_get verifier claims token headers (pd_environment (pp_decider policy))
    (now_secs t 1) (fun i => inst t (S i)).
Proof. reflexivity. Qed.

(** The chain a publisher is returned with is about the publisher. *)
Lemma policy_chain_subject policy verifier headers claims token t c chain c' :
  policy_chain http_get policy verifier headers claims token t c = (Ok chain, c') ->
  exists rest, chain = subject_entity claims (Some token) :: rest.
Proof. unfold policy_chain. intros H. inv_run. by eexists. Qed.

Lemma publisher_chain policy verifier m headers t s claims chain s' :
  publisher_with_chain http_get policy verifier m headers t s = (Ok (claims, chain), s') ->
  (forall c, chain = Some c -> exists token rest, c = subject_entity claims (Some token) :: rest)
  /\ (pd_mode (pp_decider policy) = Pdp -> chain <> None).
Proof.
  unfold publisher_with_chain. intros H. inv_run.
  repeat case_match; try (by apply throw_ok in H); inv_run; simplify_eq; split; try done.
  - intros c Hc. case_bool_decide; [|done]. unfold attempt in *.
    destruct (on_keys (policy_chain _ _ _ _ _ _ _) _) as [[ch|e] s1] eqn:Hk; simplify_eq/=.
    apply zoom_ok in Hk as (k & Hk & _). apply policy_chain_subject in Hk. eauto.
  - intros c Hc. repeat case_match; inv_run; simplify_eq; try done.
    match goal with H : on_keys (policy_chain _ _ _ _ _ _ _) _ = _ |- _ =>
      apply zoom_ok in H as (k & Hk & _) end.
    apply policy_chain_subject in Hk. eauto.
  - intros _. repeat case_match; inv_run; simplify_eq; done.
Qed.

Lemma option_exact {A} (o chain : option A) (Q : A -> Prop) :
  (forall c, o = Some c <-> Q c) -> (chain = o <-> forall c, chain = Some c <-> Q c).
Proof. intros Ho. rewrite option_eq. by setoid_rewrite Ho. Qed.

Lemma local_answer_entitled policy claims :
  local_answer policy claims false = Ok tt
  <-> forall want, pp_entitlement policy = Some want -> want ∈ arkavo_entitlements claims.
Proof. rewrite local_answer_ok. naive_solver. Qed.

(** Ends a branch in which the outcome is known. *)
Ltac ends_publisher :=
  split; [intros [? ?]; simplify_eq; by split_and!|intros (-> & _ & _ & ? & ->); first [done|by eexists]].

(** Who decides, from the chain the headers make (or the refusal of it). *)
Definition decided (policy : PublishPolicy) (claims : VerifiedClaims) (made : result refusal (list ChainEntity)) (sp : Sp)
    (chain : option (list ChainEntity)) : Prop :=
  let entitled := forall want, pp_entitlement policy = Some want -> want ∈ arkavo_entitlements claims in
  let permitted c := made = Ok c /\ (ask (pp_decider policy) c sp).1 = Permit in
  match pd_mode (pp_decider policy) with
  | Local => entitled /\ chain = None
  | Shadow => entitled /\ forall c, chain = Some c <-> permitted c
  | Pdp => exists c, permitted c /\ chain = Some c
  end.

(** C22: Exactly who may publish: a caller with a token verified for the
    publishing audience, whose subject is a person and is not suspended, and,
    when this node decides, or decides while the platform is shadowed, whose
    token carries the publishing entitlement; when the platform decides, whose
    devices' tokens are good and whose chain the platform permits. A chain is
    returned, and so kept in the session, exactly when the platform was asked
    about it and permitted it; in shadow neither its answer nor a bad device
    token keeps anyone from publishing. *)
Theorem publisher_exact policy verifier m headers t s claims chain :
  (exists s', publisher_with_chain http_get policy verifier m headers t s = (Ok (claims, chain), s')) <->
  exists token k,
    bearer headers = Some token
    /\ verify_with http_get verifier token (now_secs t 0) (inst t 0) {| expected_aud := pp_audience policy |} s.1 = (Ok claims, k)
    /\ starts_with "client:" (sub claims) = false
    /\ is_suspended m (sub claims) = false
    /\ decided policy claims (policy_chain http_get policy verifier headers claims token t k).1 s.2 chain.
Proof.
  unfold publisher_with_chain, decided, ask_pdp, attempt, on_keys, zoom, comp_map_err, lift, mbind, comp_bind, mret, comp_ret, throw.
  destruct (bearer headers) as [token|]; cbn [ok_or]; [|split; [by intros [? ?]|by intros (? & ? & ? & _)]].
  destruct (verify_with _ _ _ _ _ _ s.1) as [[cl|e] k] eqn:Ev; cbn;
    [|split; [by intros [? ?]|intros (? & ? & [= <-] & H & _); congruence]].
  transitivity (cl = claims /\ starts_with "client:" (sub cl) = false /\ is_suspended m (sub cl) = false
    /\ decided policy cl (policy_chain http_get policy verifier headers cl token t k).1 s.2 chain).
  2: { split; [intros (<- & H); by exists token, k|]. intros (? & ? & [= <-] & H & H1). rewrite Ev in H. by injection H as <- <-. }
  destruct (starts_with _ _); [split; [by intros [? ?]|by intros (_ & ? & _)]|].
  destruct (is_suspended m (sub cl)).
  { split; [|by intros (_ & _ & ? & _)]. intros [s' H]. exfalso. revert H. cbn [andb]. unfold local_answer.
    case_bool_decide as Hm; cbn; [rewrite Hm; cbn|done].
    destruct (policy_chain _ _ _ _ _ _ _ k) as [[c|e] k2]; cbn; [|done]. by destruct (ask _ c s.2). }
  cbn [andb]. unfold decided. pose proof (local_answer_entitled policy cl) as Hl.
  revert Hl. generalize (local_answer policy cl false). intros local Hl.
  destruct (pd_mode _); cbn; [rewrite <- Hl|rewrite <- Hl; destruct (policy_chain _ _ _ _ _ _ _ k) as [[c|e] k2]; cbn
    |destruct (policy_chain _ _ _ _ _ _ _ k) as [[c|e] k2]; cbn].
  - destruct local as [[]|]; ends_publisher.
  - destruct (ask _ c s.2) as [v sp] eqn:Ea; cbn.
    rewrite <- (option_exact (if bool_decide (v = Permit) then Some c else None)).
    { destruct local as [[]|]; ends_publisher. }
    intros c'. case_bool_decide; split; [by intros [= <-]; rewrite Ea|by intros [[= <-] _]|done|].
    intros [[= <-] H']. by rewrite Ea in H'.
  - rewrite <- (option_exact None) by naive_solver. destruct local as [[]|]; try case_bool_decide; ends_publisher.
  - destruct (ask _ c s.2) as [v sp] eqn:Ea; cbn.
    transitivity (cl = claims /\ v = Permit /\ chain = Some c).
    { destruct v; cbn; (split; [intros [? ?]; by simplify_eq|intros (-> & ? & ->); first [done|by eexists]]). }
    split; [intros (-> & -> & ->); split_and!; [done..|]; exists c; by rewrite Ea|].
    intros (-> & _ & _ & c' & [[= <-] Hc] & ->). by rewrite Ea in Hc.
  - split; [by intros [? ?]|]. by intros (_ & _ & _ & c' & [? _] & _).
Qed.

(** Exactly who is an operator: a caller with a verified token whose
    subject is [client:<id>] for an allowlisted id, with the service-account
    role and an audience naming that client. Without an allowlist there are
    no operators. *)
Theorem operator_exact policy verifier headers t c by_ :
  (exists c', operator http_get policy verifier headers t c = (Ok by_, c')) <->
  exists token claims client,
    bearer headers = Some token
    /\ verifies verifier token None (now_secs t 0) (inst t 0) c claims
    /\ sub claims = "client:" +:+ client /\ client <> ""
    /\ (exists roles, arkavo_roles claims = Some roles /\ "service-account" ∈ roles)
    /\ aud_contains (aud claims) client = true
    /\ client ∈ pp_operator_client_ids policy
    /\ by_ = "client:" +:+ client.
Proof.
  unfold operator, verifies, verify. split.
  - intros [c' H]. case_bool_decide as Hne; [by apply throw_ok in H|]. inv_run.
    match goal with H : match strip_prefix _ _ with _ => _ end = Some _ |- _ =>
      destruct (strip_prefix "client:" _) as [client|] eqn:Hc; [|done];
      destruct (is_empty client) eqn:He; [done|]; injection H as <- end.
    apply strip_prefix_Some in Hc.
    destruct (match arkavo_roles _ with Some r => _ | None => _ end) eqn:Hr; [|by apply throw_ok in H].
    destruct (aud_contains _ _) eqn:Ha; cbn in H; [|by apply throw_ok in H].
    case_bool_decide as Hin; cbn in H; [|by apply throw_ok in H]. inv_run.
    eexists _, _, client. split_and!; try done; [by eexists|by intros ->|].
    destruct (arkavo_roles _) as [roles|]; [|done]. exists roles. split; [done|]. by apply existsb_elem.
  - intros (token & claims & client & Hb & [c' Hv] & Hsub & Hne & (roles & Hr & Hin) & Ha & Hop & ->).
    rewrite bool_decide_false by set_solver.
    rewrite Hb. unfold mbind, comp_bind, lift, comp_map_err. cbn [ok_or]. rewrite Hv. cbn [map_err].
    rewrite Hsub, strip_prefix_app. destruct client as [|a client]; [done|]. cbn [is_empty ok_or].
    rewrite Hr. replace (existsb _ roles) with true by (symmetry; by apply existsb_elem).
    rewrite Ha. cbn [negb orb]. rewrite bool_decide_true by done. by eexists.
Qed.
End PolicyFacts.

(** ** Proof of possession *)

Section PossessionFacts.
Context {HX : Hex} {B3 : Blake3} {IR : Iroh}.

(** The skew check on machine integers. *)
Lemma skew_check now timestamp :
  (0 <= now <= 2 ^ 62)%Z -> in_i64 timestamp = true ->
  (SESSION_SKEW_SECS <? i64_abs (i64_sub now timestamp))%Z = false <->
  (Z.abs (now - timestamp) <= SESSION_SKEW_SECS \/ now - timestamp = 2 ^ 63)%Z.
Proof.
  unfold in_i64, i64_min, i64_max, i64_abs, i64_sub, i64_wrap, SESSION_SKEW_SECS.
  intros Hn [?%Z.leb_le ?%Z.leb_le]%andb_true_iff. rewrite Z.ltb_ge. dlia.
Qed.

(** Opening a session needs proof of possession of the endpoint: a
    64-byte signature by the endpoint's key over its id, the hash of the
    bearer token and the timestamp. The timestamp is within 300 seconds of the
    node's clock, or exactly 2^63 seconds before it: there the subtraction
    wraps to the smallest integer, whose absolute value is itself. *)
Theorem possession_window endpoint token timestamp signature_hex now :
  (0 <= now <= 2 ^ 62)%Z -> in_i64 timestamp = true ->
  verify_possession endpoint token timestamp signature_hex now = Ok tt <->
  (Z.abs (now - timestamp) <= 300 \/ now - timestamp = 2 ^ 63)%Z
  /\ exists signature, hex_decode (trim signature_hex) = Some signature /\ len signature = 64%Z
     /\ endpoint_verify endpoint (session_message endpoint token timestamp) signature = true.
Proof.
  intros Hn Ht. unfold verify_possession. pose proof (skew_check now timestamp Hn Ht) as Hs.
  destruct (SESSION_SKEW_SECS <? _)%Z.
  { split; [done|]. intros [H _]. apply Hs in H. done. }
  rewrite result_bind_ok. split.
  - intros (sg & Hsg & H). apply ok_or_ok in Hsg. destruct (hex_decode _) as [b|] eqn:Hd; [|done].
    destruct (Z.eqb_spec (len b) 64); [|done]. injection Hsg as <-.
    split; [by apply Hs|]. exists b. split_and!; try done. by destruct (endpoint_verify _ _ _).
  - intros [_ (sg & -> & Hlen & Hv)]. exists sg. rewrite Hlen, Hv. done.
Qed.
End PossessionFacts.

(** ** Operator actions *)

Inductive action :=
| ASuspend (subject : string) (body : ActionRequest)
| ALiftSuspension (subject : string)
| ABlock (hash : string) (body : ActionRequest)
| ALiftBlock (hash : string)
| ABlockCatalog (subject : string) (body : ActionRequest)
| ALiftCatalogBlock (subject : string).

(** *** What an action changes *)

Inductive Change :=
| CSuspension (record : Suspension)
| CBlock (record : Block)
| CCatalogBlock (record : CatalogBlock).

Definition change_kind (c : Change) : string :=
  match c with CSuspension _ => SUSPENSIONS | CBlock _ => BLOCKS | CCatalogBlock _ => CATALOG_BLOCKS end.
Definition change_record (c : Change) : json :=
  match c with CSuspension r => ser_suspension r | CBlock r => ser_block r | CCatalogBlock r => ser_catalog_block r end.
Definition apply_change (c : Change) : Moderation -> Moderation :=
  match c with CSuspension r => apply_suspension r | CBlock r => apply_block r | CCatalogBlock r => apply_catalog_block r end.

(** Whom or what it is about. *)
Definition change_key (c : Change) : string :=
  match c with CSuspension r => su_subject r | CBlock r => bl_hash r | CCatalogBlock r => cb_subject r end.

(** Who is answerable for it: who lifted it, or else who made it. *)
Definition change_by (c : Change) : string :=
  match c with
  | CSuspension r => default (su_by r) (su_lifted_by r)
  | CBlock r => default (bl_by r) (bl_lifted_by r)
  | CCatalogBlock r => default (cb_by r) (cb_lifted_by r)
  end.

(** The name in the audit event and the change an operator asks for: a record
    with the given reason, or the one in force with its end. *)
Definition intended (x : action) (by_ : string) (at_ : Z) (v : Moderation) : option (string * Change) :=
  match x with
  | ASuspend s b =>
      Some ("suspend", CSuspension {| su_subject := canonical_subject s; su_reason := trim (ar_reason b);
        su_report_id := ar_report_id b; su_hide_catalog := ar_hide_catalog b; su_by := by_; su_at := at_;
        su_lifted_by := None; su_lifted_at := None |})
  | ALiftSuspension s =>
      r ← suspensions v !! canonical_subject s;
      Some ("lift_suspension", CSuspension {| su_subject := canonical_subject s; su_reason := su_reason r;
        su_report_id := su_report_id r; su_hide_catalog := su_hide_catalog r; su_by := su_by r; su_at := su_at r;
        su_lifted_by := Some by_; su_lifted_at := Some at_ |})
  | ABlock h b =>
      Some ("block", CBlock {| bl_hash := to_ascii_lowercase h; bl_reason := trim (ar_reason b);
        bl_report_id := ar_report_id b; bl_by := by_; bl_at := at_; bl_lifted_by := None; bl_lifted_at := None |})
  | ALiftBlock h =>
      r ← blocks v !! to_ascii_lowercase h;
      Some ("lift_block", CBlock {| bl_hash := to_ascii_lowercase h; bl_reason := bl_reason r;
        bl_report_id := bl_report_id r; bl_by := bl_by r; bl_at := bl_at r;
        bl_lifted_by := Some by_; bl_lifted_at := Some at_ |})
  | ABlockCatalog s b =>
      Some ("block_catalog", CCatalogBlock {| cb_subject := canonical_subject s; cb_reason := trim (ar_reason b);
        cb_report_id := ar_report_id b; cb_by := by_; cb_at := at_; cb_lifted_by := None; cb_lifted_at := None |})
  | ALiftCatalogBlock s =>
      r ← catalog_blocks v !! canonical_subject s;
      Some ("lift_catalog_block", CCatalogBlock {| cb_subject := canonical_subject s; cb_reason := cb_reason r;
        cb_report_id := cb_report_id r; cb_by := cb_by r; cb_at := cb_at r;
        cb_lifted_by := Some by_; cb_lifted_at := Some at_ |})
  end.

Lemma change_kind_plain c : no_slash (change_kind c) /\ change_kind c <> AUDIT.
Proof. by destruct c. Qed.

Section Actions.
Context {B64 : Base64} {CB : Ciborium} {CO : Coset} {EC : P256} {HC : HttpCrate}.
Context {SJ : Serde} {HX : Hex} {B3 : Blake3} {SF : SealedFormat} {IR : Iroh}.
Context {St Sp : Type} {MS : ModerationStore St} {LS : LawfulStore St}.
Context (http_get : string -> http_answer) (verifier : CwtVerifier) (policy : PublishPolicy).

Abbreviation api := (Api St Sp).

(** One request to the operator API that changes something. *)
Definition run_action (x : action) (headers : HeaderMap) (t : Clocks) : comp api refusal json :=
  match x with
  | ASuspend s b => r ← suspend http_get verifier policy s headers b t; mret (ser_suspension r)
  | ALiftSuspension s => r ← lift_suspension http_get verifier policy s headers t; mret (ser_suspension r)
  | ABlock h b => r ← block http_get verifier policy h headers b t; mret (ser_block r)
  | ALiftBlock h => r ← lift_block http_get verifier policy h headers t; mret (ser_block r)
  | ABlockCatalog s b => r ← block_catalog http_get verifier policy s headers b t; mret (ser_catalog_block r)
  | ALiftCatalogBlock s => r ← lift_catalog_block http_get verifier policy s headers t; mret (ser_catalog_block r)
  end.

(** A change [c] as the action [name]: nothing but its audit event and the
    record it is about is written; each is as it was or as intended, the record
    the latter only once the event is stored; the action is answered with the
    record when both are stored, and the view then has the change; when storage
    failed it says so, and the view is as it was. *)
Record committed (name : string) (c : Change) (t : Clocks) (a a' : api) (r : result refusal json) : Prop := {
  com_frame : forall kind' key', no_slash kind' ->
    (kind', key') <> (AUDIT, audit_key (change_kind c) (change_key c) (nanos t)) ->
    (kind', key') <> (change_kind c, change_key c) ->
    stored (api_store a') kind' key' = stored (api_store a) kind' key';
  com_event :
    stored (api_store a') AUDIT (audit_key (change_kind c) (change_key c) (nanos t))
      = stored (api_store a) AUDIT (audit_key (change_kind c) (change_key c) (nanos t))
    \/ stored (api_store a') AUDIT (audit_key (change_kind c) (change_key c) (nanos t))
      = Some (serde_print (audit_event name (change_record c)));
  com_record :
    stored (api_store a') (change_kind c) (change_key c) = stored (api_store a) (change_kind c) (change_key c)
    \/ stored (api_store a') (change_kind c) (change_key c) = Some (serde_print (change_record c))
       /\ stored (api_store a') AUDIT (audit_key (change_kind c) (change_key c) (nanos t))
         = Some (serde_print (audit_event name (change_record c)));
  com_done : forall j, r = Ok j ->
    j = change_record c
    /\ stored (api_store a') AUDIT (audit_key (change_kind c) (change_key c) (nanos t))
      = Some (serde_print (audit_event name (change_record c)))
    /\ stored (api_store a') (change_kind c) (change_key c) = Some (serde_print (change_record c))
    /\ view a' = apply_change c (view a);
  com_failed : forall e, r = Err e -> e = (BAD_GATEWAY, "storage unavailable") /\ view a' = view a
}.

(** The end of every handler. *)
Definition commit {R} (name kind key : string) (record : json) (f : Moderation -> Moderation) (t : Clocks)
    (ret : R) : comp api refusal R :=
  _ ← on_store (audit name kind key record (nanos t));
  _ ← on_store (persist kind key record);
  _ ← apply_view f;
  mret ret.

Lemma on_store_run {E A} (m : comp St E A) (a : api) r a' :
  on_store m a = (r, a') <-> exists s, m (api_store a) = (r, s) /\ a' = set_store s a.
Proof. unfold on_store, zoom. destruct (m _) as [r0 s]. naive_solver. Qed.

Lemma persist_run kind key record (s : St) r s' :
  no_slash kind -> persist kind key record s = (r, s') ->
  (forall kind' key', no_slash kind' -> (kind', key') <> (kind, key) ->
     stored s' kind' key' = stored s kind' key')
  /\ ((stored s' kind key = stored s kind key /\ r <> Ok tt)
      \/ stored s' kind key = Some (serde_print record)).
Proof.
  unfold persist, comp_map_err. intros Hk H.
  destruct (put_record kind key (serde_print record) s) as [r0 s0] eqn:E. injection H as <- <-.
  split; [by eapply put_other|]. destruct (put_this _ _ _ _ _ _ E) as [[? ?]|?]; [left|by right].
  split; [done|]. by destruct r0 as [[]|].
Qed.

Lemma persist_err kind key record (s : St) e s' :
  persist kind key record s = (Err e, s') -> e = (BAD_GATEWAY, "storage unavailable").
Proof. unfold persist, comp_map_err. destruct (put_record _ _ _ s) as [[]]; intros [= <-]; done. Qed.

Lemma commit_spec {R} name c t (ret : R) (out : R -> json) (a : api) r a' :
  out ret = change_record c ->
  commit name (change_kind c) (change_key c) (change_record c) (apply_change c) t ret a = (r, a') ->
  committed name c t a a' (out <$> r).
Proof.
  intros Hout H. destruct (change_kind_plain c) as [Hk Hne]. unfold commit in H. assert (no_slash AUDIT) as Hau by reflexivity.
  apply comp_bind_state in H as [([] & a1 & H1 & H)|(e & H1 & ->)].
  2: { apply on_store_run in H1 as (s & H1 & ->). pose proof (persist_err _ _ _ _ _ _ H1) as ->.
       apply persist_run in H1 as [Hf Hthis]; [|done].
       split; cbn; try done; [by intros; apply Hf| |left; apply Hf; [done|congruence]|by intros e [= <-]].
       destruct Hthis as [[? _]|?]; [by left|by right]. }
  apply on_store_run in H1 as (s & H1 & ->). apply persist_run in H1 as [Hf [[_ ?]|Ha]]; [done| |done].
  assert (forall r2 s2, persist (change_kind c) (change_key c) (change_record c) s = (r2, s2) ->
    stored s2 AUDIT (audit_key (change_kind c) (change_key c) (nanos t)) = Some (serde_print (audit_event name (change_record c)))
    /\ (forall kind' key', no_slash kind' -> (kind', key') <> (AUDIT, audit_key (change_kind c) (change_key c) (nanos t)) ->
          (kind', key') <> (change_kind c, change_key c) -> stored s2 kind' key' = stored (api_store a) kind' key')) as Hboth.
  { intros r2 s2 [Hf2 _]%persist_run; [|done]. split; [rewrite Hf2; [done|done|congruence]|].
    intros k' key' ? ? ?. rewrite Hf2, Hf; done. }
  apply comp_bind_state in H as [([] & a2 & H2 & H)|(e & H2 & ->)];
    apply on_store_run in H2 as (s2 & H2 & ->); destruct (Hboth _ _ H2) as [Ha2 Hfr].
  - apply persist_run in H2 as [Hf2 [[_ ?]|Hr]]; [done| |done].
    injection H as <- <-. split; cbn; [done|by right|by right| |done]. intros j [= <-]. by split_and!.
  - pose proof (persist_err _ _ _ _ _ _ H2) as ->. apply persist_run in H2 as [Hf2 Hthis]; [|done].
    split; cbn; [done|by right| |done|by intros e [= <-]].
    destruct Hthis as [[Hsame _]|Hr]; [left|by right]. cbn in Hsame. rewrite Hsame, Hf; [done..|]. congruence.
Qed.

(** Nothing but the key cache moved. *)
Definition untouched (a a' : api) : Prop :=
  api_store a' = api_store a /\ api_gate a' = api_gate a.

Lemma require_operator_run headers t (a : api) r a' :
  require_operator http_get verifier policy headers t a = (r, a') ->
  untouched a a' /\ forall by_, r = Ok by_ ->
    exists c', operator http_get policy verifier headers t (api_keys a) = (Ok by_, c').
Proof.
  unfold require_operator, zoom. destruct (operator _ _ _ _ _ _) as [r0 k] eqn:E.
  intros [= <- <-]. split; [done|]. intros by_ ->. by exists k.
Qed.

(** What an action achieves when it succeeds. *)
Definition takes_effect (x : action) (v : Moderation) : Prop :=
  match x with
  | ASuspend s _ => is_suspended v s = true
  | ALiftSuspension s => is_suspended v s = false
  | ABlock h _ => is_blocked v h = true
  | ALiftBlock h => is_blocked v h = false
  | ABlockCatalog s _ => catalog_hidden v s = true
  | ALiftCatalogBlock s => catalog_blocks v !! canonical_subject s = None
  end.

(** Refused before anything was done, or an operator's action of which the
    change that was asked for is committed. *)
Definition outcome (x : action) (headers : HeaderMap) (t : Clocks) (a a' : api) (r : result refusal json) : Prop :=
  (is_ok r = false /\ untouched a a')
  \/ exists by_ keys name c,
       operator http_get policy verifier headers t (api_keys a) = (Ok by_, keys)
       /\ committed name c t a a' r
       /\ (view_keyed (view a) ->
            intended x by_ (now_secs t 1) (view a) = Some (name, c)
            /\ view_keyed (view a') /\ (is_ok r = true -> takes_effect x (view a'))).

Lemma view_keyed_suspension s v : view_keyed v -> view_keyed (apply_suspension s v).
Proof.
  intros (H1 & H2 & H3). split_and!; try done. intros k x. cbn.
  destruct (su_lifted_at s); [rewrite lookup_delete_Some|rewrite lookup_insert_Some]; naive_solver.
Qed.

Lemma view_keyed_block b v : view_keyed v -> view_keyed (apply_block b v).
Proof.
  intros (H1 & H2 & H3). split_and!; try done. intros k x. cbn.
  destruct (bl_lifted_at b); [rewrite lookup_delete_Some|rewrite lookup_insert_Some]; naive_solver.
Qed.

Lemma view_keyed_catalog_block b v : view_keyed v -> view_keyed (apply_catalog_block b v).
Proof.
  intros (H1 & H2 & H3). split_and!; try done. intros k x. cbn.
  destruct (cb_lifted_at b); [rewrite lookup_delete_Some|rewrite lookup_insert_Some]; naive_solver.
Qed.

Lemma view_keyed_change c v : view_keyed v -> view_keyed (apply_change c v).
Proof. destruct c; [apply view_keyed_suspension|apply view_keyed_block|apply view_keyed_catalog_block]. Qed.

(** The intended change has the effect. *)
Lemma intended_effect x by_ at_ v name c :
  intended x by_ at_ v = Some (name, c) -> takes_effect x (apply_change c v).
Proof.
  destruct x; cbn [intended takes_effect]; intros H; try (destruct (_ !! _) as [r|]; [|done]; cbn in H); injection H as <- <-;
    cbn; unfold is_suspended, suspension, is_blocked, catalog_hidden; cbn; rewrite ?lookup_insert_eq, ?lookup_delete_eq; try done.
Qed.

Lemma outcome_refused x headers t (a a' : api) e : untouched a a' -> outcome x headers t a a' (Err e).
Proof. by left. Qed.

(** The shape of every handler: the operator is checked, the change is worked
    out from the state it left, and committed. *)
Lemma outcome_commit {R} x headers t (a a1 : api) by_ keys name c (ret : R) (out : R -> json) r a' :
  untouched a a1 -> operator http_get policy verifier headers t (api_keys a) = (Ok by_, keys) ->
  (view_keyed (view a) -> intended x by_ (now_secs t 1) (view a) = Some (name, c)) -> out ret = change_record c ->
  commit name (change_kind c) (change_key c) (change_record c) (apply_change c) t ret a1 = (r, a') ->
  outcome x headers t a a' (out <$> r).
Proof.
  intros [Hs Hg] Hop Hi Hout H. apply (commit_spec _ _ _ _ out) in H; [|done].
  assert (view a1 = view a) as Hv by (unfold view; by rewrite Hg).
  destruct H as [H1 H2 H3 H4 H5]. rewrite Hs in H1, H2, H3. rewrite Hv in H4, H5.
  right. exists by_, keys, name, c. split; [done|]. split; [by split|].
  intros Hk. split; [auto|]. destruct (out <$> r) as [j|e].
  - destruct (H4 j eq_refl) as (_ & _ & _ & ->). split; [by apply view_keyed_change|]. intros _. by eapply intended_effect, Hi.
  - destruct (H5 e eq_refl) as [_ ->]. by split.
Qed.

Lemma active_find {A} (key : A -> string) (m : gmap string A) k b :
  find (fun b => bool_decide (key b = k)) (sorting.merge_sort (key_le key) (values m)) = Some b ->
  key b = k.
Proof. intros H. apply find_some in H as [_ H]. by apply bool_decide_eq_true in H. Qed.

Lemma active_find_lookup {A} (key : A -> string) (m : gmap string A) k b :
  (forall k a, m !! k = Some a -> key a = k) ->
  find (fun b => bool_decide (key b = k)) (sorting.merge_sort (key_le key) (values m)) = Some b -> m !! k = Some b.
Proof.
  intros Hk Hb. pose proof (active_find _ _ _ _ Hb) as <-. apply find_some in Hb as [Hb _].
  apply list_elem_of_In in Hb. rewrite sorting.merge_sort_Permutation in Hb.
  apply list_elem_of_fmap in Hb as ([k' b'] & -> & Hin%elem_of_map_to_list). cbn. by rewrite (Hk _ _ Hin).
Qed.

Lemma fmap_state {A B} (m : comp api refusal A) (g : A -> B) (a : api) r a' :
  (m ≫= fun x => mret (g x)) a = (r, a') -> exists r0, m a = (r0, a') /\ r = g <$> r0.
Proof.
  unfold mbind, comp_bind, mret, comp_ret. destruct (m a) as [[x|e] s]; intros [= <- <-]; eauto.
Qed.

Lemma checked_reason_trim r x : checked_reason r = Ok x -> x = trim r.
Proof. unfold checked_reason. case_match; congruence. Qed.
Lemma checked_report_id_same r x : checked_report_id r = Ok x -> x = r.
Proof. unfold checked_report_id. repeat case_match; congruence. Qed.

(** The operator check at the start of a handler, and its early returns. *)
Ltac check_operator H Hu Hop :=
  let by_ := fresh "by_" in let a1 := fresh "a1" in let H1 := fresh in let e := fresh "e" in let Hop1 := fresh in
  let keys := fresh "keys" in
  apply comp_bind_state in H as [(by_ & a1 & H1 & H)|(e & H1 & ->)];
  apply require_operator_run in H1 as [Hu Hop1]; [destruct (Hop1 by_ eq_refl) as [keys Hop]; clear Hop1|by apply outcome_refused].
Ltac refused H := injection H as <- <-; by apply outcome_refused.
Ltac checked H :=
  unfold lift in H; unfold mbind at 1, comp_bind at 1 in H;
  match type of H with context [match ?x with Ok _ => _ | Err _ => _ end] =>
    destruct x eqn:?; [|refused H] end.
Ltac checked_body H :=
  checked H; checked H;
  repeat match goal with
         | E : checked_reason _ = Ok _ |- _ => apply checked_reason_trim in E; subst
         | E : checked_report_id _ = Ok _ |- _ => apply checked_report_id_same in E; subst
         end.
Ltac found H :=
  unfold get in H; unfold mbind at 1, comp_bind at 1 in H; checked H;
  match goal with E : ok_or _ _ = Ok _ |- _ => apply ok_or_ok in E end.

Lemma suspend_outcome s b headers t (a : api) r a' :
  suspend http_get verifier policy s headers b t a = (r, a') -> outcome (ASuspend s b) headers t a a' (ser_suspension <$> r).
Proof.
  unfold suspend. intros H. check_operator H Hu Hop.
  destruct (valid_subject _); cbn [negb] in H; [|refused H]. checked_body H.
  eapply (outcome_commit (ASuspend s b)); [done|done|done| |exact H]; done.
Qed.

Lemma lift_suspension_outcome s headers t (a : api) r a' :
  lift_suspension http_get verifier policy s headers t a = (r, a') ->
  outcome (ALiftSuspension s) headers t a a' (ser_suspension <$> r).
Proof.
  unfold lift_suspension. intros H. check_operator H Hu Hop. found H.
  match goal with E : suspension _ _ = Some _ |- _ => rename E into Hs end.
  eapply (outcome_commit (ALiftSuspension s) _ _ _ _ _ _ "lift_suspension" (CSuspension _)); [done|done| |reflexivity|exact H].
  intros (Hk & _). destruct Hu as [_ Hg]. unfold suspension, view in Hs. rewrite Hg in Hs. fold (view a) in Hs.
  cbn [intended]. rewrite Hs. cbn. by rewrite (Hk _ _ Hs).
Qed.

Lemma block_outcome h b headers t (a : api) r a' :
  block http_get verifier policy h headers b t a = (r, a') -> outcome (ABlock h b) headers t a a' (ser_block <$> r).
Proof.
  unfold block. intros H. check_operator H Hu Hop.
  destruct (valid_hash _); cbn [negb] in H; [|refused H].
  destruct (ar_hide_catalog b); [refused H|]. checked_body H.
  eapply (outcome_commit (ABlock h b)); [done|done|done| |exact H]; done.
Qed.

Lemma lift_block_outcome h headers t (a : api) r a' :
  lift_block http_get verifier policy h headers t a = (r, a') -> outcome (ALiftBlock h) headers t a a' (ser_block <$> r).
Proof.
  unfold lift_block. intros H. check_operator H Hu Hop. cbv zeta in H. found H.
  match goal with E : find _ _ = Some _ |- _ => rename E into Hf end. pose proof (active_find _ _ _ _ Hf) as Hs.
  rewrite Hs in H. match type of H with context [ser_block ?record] =>
    refine (outcome_commit (ALiftBlock h) _ _ _ _ _ _ "lift_block" (CBlock record) record ser_block _ _ Hu Hop _ eq_refl H) end.
  intros (_ & Hk & _). destruct Hu as [_ Hg]. unfold view in Hf. rewrite Hg in Hf. apply active_find_lookup in Hf; [|exact Hk].
  cbn [intended]. fold (view a) in Hf. by rewrite Hf.
Qed.

Lemma block_catalog_outcome s b headers t (a : api) r a' :
  block_catalog http_get verifier policy s headers b t a = (r, a') ->
  outcome (ABlockCatalog s b) headers t a a' (ser_catalog_block <$> r).
Proof.
  unfold block_catalog. intros H. check_operator H Hu Hop.
  destruct (valid_subject _); cbn [negb] in H; [|refused H].
  destruct (ar_hide_catalog b); [refused H|]. checked_body H.
  eapply (outcome_commit (ABlockCatalog s b)); [done|done|done| |exact H]; done.
Qed.

Lemma lift_catalog_block_outcome s headers t (a : api) r a' :
  lift_catalog_block http_get verifier policy s headers t a = (r, a') ->
  outcome (ALiftCatalogBlock s) headers t a a' (ser_catalog_block <$> r).
Proof.
  unfold lift_catalog_block. intros H. check_operator H Hu Hop. cbv zeta in H. found H.
  match goal with E : find _ _ = Some _ |- _ => rename E into Hf end. pose proof (active_find _ _ _ _ Hf) as Hs.
  rewrite Hs in H. match type of H with context [ser_catalog_block ?record] =>
    refine (outcome_commit (ALiftCatalogBlock s) _ _ _ _ _ _ "lift_catalog_block" (CCatalogBlock record) record ser_catalog_block _ _ Hu Hop _ eq_refl H) end.
  intros (_ & _ & Hk). destruct Hu as [_ Hg]. unfold view in Hf. rewrite Hg in Hf. apply active_find_lookup in Hf; [|exact Hk].
  cbn [intended]. fold (view a) in Hf. by rewrite Hf.
Qed.

Lemma run_action_outcome x headers t (a : api) r a' :
  run_action x headers t a = (r, a') -> outcome x headers t a a' r.
Proof.
  unfold run_action. intros H. destruct x; apply fmap_state in H as (r0 & H & ->);
    eauto using suspend_outcome, lift_suspension_outcome, block_outcome, lift_block_outcome,
      block_catalog_outcome, lift_catalog_block_outcome.
Qed.

(** Without an operator nothing happens. *)
Lemma run_action_operator x headers t (a : api) r a' :
  run_action x headers t a = (r, a') ->
  (is_ok r = false /\ untouched a a')
  \/ exists by_ c', operator http_get policy verifier headers t (api_keys a) = (Ok by_, c').
Proof.
  assert (forall A (k : string -> comp api refusal A) r0,
    (require_operator http_get verifier policy headers t ≫= k) a = (r0, a') ->
    (is_ok r0 = false /\ untouched a a')
    \/ exists by_ c', operator http_get policy verifier headers t (api_keys a) = (Ok by_, c')) as Hk.
  { intros A k r0 [(by_ & a1 & H1 & _)|(e & H1 & ->)]%comp_bind_state;
      apply require_operator_run in H1 as [Hu Hop]; [right|by left].
    destruct (Hop by_ eq_refl) as [c' Hc']. by exists by_, c'. }
  unfold run_action. intros H. destruct x; apply fmap_state in H as (r0 & H & ->); apply Hk in H; destruct r0; exact H.
Qed.

(** ** Which actions succeed *)

(** A body with a reason and, if any, a well-formed report. *)
Definition body_ok (b : ActionRequest) : Prop :=
  trim (ar_reason b) <> "" /\ (chars_count (trim (ar_reason b)) <= 1000)%Z
  /\ forall id, ar_report_id b = Some id -> valid_subject id = true.

(** What is asked for can be done. *)
Definition acceptable (x : action) (v : Moderation) : Prop :=
  match x with
  | ASuspend s b => valid_subject (canonical_subject s) = true /\ body_ok b
  | ALiftSuspension s => is_suspended v s = true
  | ABlock h b => valid_hash h = true /\ ar_hide_catalog b = false /\ body_ok b
  | ALiftBlock h => is_blocked v h = true
  | ABlockCatalog s b => valid_subject (canonical_subject s) = true /\ ar_hide_catalog b = false /\ body_ok b
  | ALiftCatalogBlock s => is_Some (catalog_blocks v !! canonical_subject s)
  end.

Lemma body_checked b :
  body_ok b <-> (exists r, checked_reason (ar_reason b) = Ok r) /\ exists i, checked_report_id (ar_report_id b) = Ok i.
Proof.
  unfold body_ok, checked_reason, checked_report_id, MAX_REASON_CHARS.
  assert (forall r, (r <> "" /\ (chars_count r <= 1000)%Z)
    <-> exists x, (if is_empty r || (1000 <? chars_count r)%Z then Err (BAD_REQUEST, "reason is required (≤ 1000 characters)") else Ok r)
          = Ok (E := refusal) x) as Hr.
  { intros [|c r]; cbn [is_empty orb]; [split; [by intros [? _]|by intros [? ?]]|].
    destruct (Z.ltb_spec 1000 (chars_count (String c r))); split; [lia|by intros [? ?]|by eexists|done]. }
  rewrite <- Hr. destruct (ar_report_id b) as [id|]; [|split; [|naive_solver]; intros (? & ? & _); split; [done|by eexists]].
  destruct (valid_subject id) eqn:Hv; split; [|naive_solver| |].
  - intros (? & ? & _). split; [done|by eexists].
  - intros (_ & _ & H). specialize (H id eq_refl). congruence.
  - by intros [_ [? ?]].
Qed.

Lemma active_find_Some {A} (key : A -> string) (m : gmap string A) k :
  (forall k a, m !! k = Some a -> key a = k) ->
  is_Some (find (fun b => bool_decide (key b = k)) (sorting.merge_sort (key_le key) (values m))) <-> is_Some (m !! k).
Proof.
  intros Hk. split.
  - intros [b Hb%active_find_lookup]; [by eexists|done].
  - intros [b Hb]. destruct (find _ _) eqn:Hf; [by eexists|exfalso].
    eapply find_none in Hf; [|apply list_elem_of_In; rewrite sorting.merge_sort_Permutation; apply list_elem_of_fmap;
      exists (k, b); split; [done|by apply elem_of_map_to_list]].
    cbn in Hf. apply bool_decide_eq_false in Hf. by rewrite (Hk _ _ Hb) in Hf.
Qed.

Lemma commit_ok {R} name kind key record f t (ret : R) (a : api) :
  (forall kind key body st, (put_record kind key body st).1 = Ok tt) ->
  is_ok (commit name kind key record f t ret a).1 = true.
Proof.
  intros Hput. unfold commit, audit, persist, on_store, zoom, comp_map_err, mbind, comp_bind, apply_view, modify.
  match goal with |- context [put_record AUDIT ?k ?b ?s] => pose proof (Hput AUDIT k b s) as H1; destruct (put_record AUDIT k b s) end.
  cbn in H1. subst. cbn.
  match goal with |- context [put_record kind ?k ?b ?s] => pose proof (Hput kind k b s) as H2; destruct (put_record kind k b s) end.
  cbn in H2. by subst.
Qed.

Lemma fmap_ok {A B} (m : comp api refusal A) (g : A -> B) (a : api) :
  is_ok ((m ≫= fun x => mret (g x)) a).1 = is_ok (m a).1.
Proof. unfold mbind, comp_bind. by destruct (m a) as [[x|e] s]. Qed.

(** After the operator was let in. *)
Lemma operator_ok {A} (k : string -> comp api refusal A) headers t (a : api) (Q : Prop) :
  (forall by_ c, is_ok (k by_ (set_keys c a)).1 = true <-> Q) ->
  is_ok ((require_operator http_get verifier policy headers t ≫= k) a).1 = true
  <-> (exists by_ c', operator http_get policy verifier headers t (api_keys a) = (Ok by_, c')) /\ Q.
Proof.
  intros Hk. unfold require_operator, zoom, mbind, comp_bind.
  destruct (operator _ _ _ _ _ _) as [[by_|e] c]; cbn; [rewrite Hk; naive_solver|].
  split; [done|]. by intros [(? & ? & ?) _].
Qed.
(** The parts of the handlers: a guard, the body, a record that is looked up. *)
Lemma guard_ok {A} (g : bool) e (m : comp api refusal A) (a : api) (Q : Prop) :
  (is_ok (m a).1 = true <-> Q) -> is_ok ((if negb g then throw e else m) a).1 = true <-> g = true /\ Q.
Proof. intros <-. destruct g; cbn; naive_solver. Qed.

Lemma refuses_ok {A} (g : bool) e (m : comp api refusal A) (a : api) (Q : Prop) :
  (is_ok (m a).1 = true <-> Q) -> is_ok ((if g then throw e else m) a).1 = true <-> g = false /\ Q.
Proof. intros <-. destruct g; cbn; naive_solver. Qed.

Lemma with_body_ok {A} b (k : string -> option string -> comp api refusal A) (a : api) :
  (forall r i, is_ok (k r i a).1 = true) ->
  is_ok ((lift (checked_reason (ar_reason b)) ≫= fun r => lift (checked_report_id (ar_report_id b)) ≫= k r) a).1 = true
  <-> body_ok b.
Proof.
  intros Hk. rewrite body_checked. unfold lift, mbind, comp_bind.
  destruct (checked_reason _) as [r|e]; [|split; [done|by intros [[? ?] _]]].
  destruct (checked_report_id _) as [i|e]; [|split; [done|by intros [_ [? ?]]]].
  rewrite Hk. split; [|done]. intros _. split; by eexists.
Qed.

Lemma found_ok {A B} (f : api -> option A) e (k : A -> comp api refusal B) (a : api) :
  (forall x, is_ok (k x a).1 = true) ->
  is_ok ((get ≫= fun a0 => lift (ok_or (f a0) e) ≫= k) a).1 = true <-> is_Some (f a).
Proof.
  intros Hk. unfold get, lift, mbind, comp_bind. destruct (f a) as [x|]; cbn; [rewrite Hk|]; by split.
Qed.

Lemma run_action_ok x headers t (a : api) :
  (forall kind key body st, (put_record kind key body st).1 = Ok tt) -> view_keyed (view a) ->
  is_ok (run_action x headers t a).1 = true
  <-> (exists by_ c', operator http_get policy verifier headers t (api_keys a) = (Ok by_, c')) /\ acceptable x (view a).
Proof.
  intros Hput (K1 & K2 & K3). unfold run_action.
  destruct x; rewrite fmap_ok; apply operator_ok; intros by_ c; cbn [acceptable].
  - apply guard_ok, with_body_ok. intros r i. by apply commit_ok.
  - unfold is_suspended. rewrite bool_decide_eq_true.
    apply (found_ok (fun a => suspension (view a) subject) _ _ (set_keys c a)). intros r. by apply commit_ok.
  - apply guard_ok, refuses_ok, with_body_ok. intros r i. by apply commit_ok.
  - unfold is_blocked. rewrite bool_decide_eq_true, <- (active_find_Some bl_hash) by done.
    apply (found_ok (fun a => find _ (active_blocks (view a))) _ _ (set_keys c a)). intros r. by apply commit_ok.
  - apply guard_ok, refuses_ok, with_body_ok. intros r i. by apply commit_ok.
  - rewrite <- (active_find_Some cb_subject) by done.
    apply (found_ok (fun a => find _ (active_catalog_blocks (view a))) _ _ (set_keys c a)). intros r. by apply commit_ok.
Qed.
End Actions.

(** ** Theorems *)

(** C9: Every operator action, against the bucket. An action is refused with
    nothing stored and the view as it was, or an operator's token was verified
    and exactly the change that was asked for is committed: the audit event
    names the action and carries the record, the record is about the subject or
    hash of the request, with the operator, the time and the reason given, or is
    the one in force marked as lifted. Only that event and that record are
    written, each as a whole or not at all; the record is written only once the
    event is stored; an action is answered with its record only when both are
    stored, and then the view has the change: suspended, lifted, blocked,
    unblocked. When storage fails the answer is 502 and the view is as it was
    (a write whose answer was lost may have happened). On a store that answers
    exactly the operators' acceptable actions succeed: those on a well-formed
    subject or hash with a reason, and lifts of what is in force. *)
Theorem moderation_actions_audited
    {B64 : Base64} {CB : Ciborium} {CO : Coset} {EC : P256} {HC : HttpCrate}
    {SJ : Serde} {HX : Hex} {B3 : Blake3} {SF : SealedFormat} {IR : Iroh} {S3 : S3Service}
    (prefix : string) (Sp : Type) http_get verifier policy x headers t (a : Api Bucket Sp) r a' :
  run_action (MS := s3_moderation_store prefix) http_get verifier policy x headers t a = (r, a') ->
  ((is_ok r = false /\ untouched a a')
   \/ exists by_ keys name c,
        operator http_get policy verifier headers t (api_keys a) = (Ok by_, keys)
        /\ committed (LS := bucket_lawful prefix) name c t a a' r
        /\ (view_keyed (view a) ->
             intended x by_ (now_secs t 1) (view a) = Some (name, c)
             /\ view_keyed (view a') /\ (is_ok r = true -> takes_effect x (view a'))))
  /\ ((forall log o, s3_fault log o = Healthy) -> view_keyed (view a) ->
      (is_ok r = true <->
         (exists by_ c', operator http_get policy verifier headers t (api_keys a) = (Ok by_, c')) /\ acceptable x (view a))).
Proof.
  intros H. split.
  - exact (run_action_outcome (LS := bucket_lawful prefix) _ _ _ _ _ _ _ _ _ H).
  - intros Hh Hk. assert (r = (run_action (MS := s3_moderation_store prefix) http_get verifier policy x headers t a).1) as -> by (by rewrite H).
    apply run_action_ok; [|done]. intros kind key body st. cbn. unfold put_moderation_record, context, comp_map_err, put_object, begin_op, mbind, comp_bind.
    rewrite Hh. reflexivity.
Qed.

Section Sessions.
Context {B64 : Base64} {CB : Ciborium} {CO : Coset} {EC : P256} {HC : HttpCrate}.
Context {SJ : Serde} {HX : Hex} {B3 : Blake3} {SF : SealedFormat} {IR : Iroh}.
Context {St Sp : Type} {MS : ModerationStore St} {P : DecisionProvider Sp}.

(** An opened session is good for pushes. After [POST /publish/sessions]
    answered, a push on a connection of that endpoint is accepted for the
    caller's subject until the session expires, unless the subject is
    suspended or the content blocked in the meantime (for a subject without a
    second [arkavo:] prefix left after the first is stripped); when the platform
    decides, that includes that it permitted the caller. The session lives
    for the configured time from the moment it was opened. *)
Theorem opened_session_pushes http_get verifier policy headers body t (a : Api St Sp) endpoint subject expires_at a'
    ask_store r connection_id hash_hex :
  open_session http_get verifier policy headers body t a = (Ok (endpoint, subject, expires_at), a') ->
  decider (api_gate a') = pp_decider policy ->
  canonical subject ->
  connections (api_gate a') !! connection_id = Some endpoint ->
  (t_held r < inst t 8 + secs (pp_session_ttl_secs policy))%Z ->
  is_suspended (moderation (api_gate a')) subject = false ->
  is_blocked (moderation (api_gate a')) hash_hex = false ->
  authorize_push ask_store r connection_id hash_hex (api_gate a') = (Ok (subject, endpoint), api_gate a').
Proof.
  intros Hopen Hd Hcan Hc Ht Hs Hb. unfold open_session in Hopen. inv_run.
  unfold get, modify in *. simplify_eq.
  match goal with H : zoom _ _ _ _ = _ |- _ => apply zoom_ok in H as (ps & Hpub & ->) end.
  destruct (publisher_chain _ _ _ _ _ _ _ _ _ _ Hpub) as [Hchain Hpdp].
  unfold authorize_push. cbn [api_gate set_gate] in *.
  rewrite Hc. rewrite (proj2 (held_session_Some x1 (t_held r) _ (canonical_subject (sub v))
    (strip_tokens <$> o))).
  2: { eexists. cbn. rewrite lookup_insert_eq. split_and!; try done. }
  f_equal. apply check_push_ok. split; [done|]. split_and!; [done..|]. rewrite Hd. intros Hm.
  destruct o as [c|]; [|by apply Hpdp in Hm]. destruct (Hchain c eq_refl) as (tok & rest & ->).
  eexists _, (sub v). split; [done|]. split; [done|].
  by rewrite (canonical_subject_id _ Hcan).
Qed.
End Sessions.

(** ** Witnesses *)

Module ApiSample.
#[local] Existing Instance bit_serde.
#[local] Existing Instance plain_hex.
#[local] Existing Instance plain_base64.
#[local] Existing Instance named_p256.
#[local] Existing Instance toy_blake3.
#[local] Existing Instance S3Sample.healthy.
#[local] Existing Instance GateSample.iroh.
#[local] Existing Instance GateSample.sealed.
#[local] Instance headers_plain : HttpCrate := {| header_to_str := Some |}.

Definition claims_of (subject audience : string) (extra : list (cbor * cbor)) : cbor :=
  CMap ([(CInteger 1, CText "https://idp"); (CInteger 2, CText subject);
         (CInteger 3, CText audience); (CInteger 4, CInteger 2000);
         (CInteger 6, CInteger 1000); (CInteger 7, CBytes "id")] ++ extra).

Definition message_of (payload : string) : CoseSign1 :=
  {| cs_alg := Some ES256; cs_crit := []; cs_content_type := None; cs_key_id := "k1";
     cs_payload := Some payload; cs_signature := "key1" +:+ payload |}.

#[local] Instance cbor_table : Ciborium := table_ciborium
  [("person", claims_of "arkavo:alice" "arkavo" [(CText "arkavo_entitlements", CArray [CText "publish"])]);
   ("ops", claims_of "client:ops" "ops" [(CText "arkavo_roles", CArray [CText "service-account"])])].
#[local] Instance cose_table : Coset := table_coset
  [("person-token", message_of "person"); ("ops-token", message_of "ops")].
#[local] Instance no_provider : DecisionProvider unit := fun _ s => (Err "not configured", s).

Definition offline : string -> http_answer := fun _ => NoAnswer "offline".
Definition policy : PublishPolicy :=
  {| pp_entitlement := Some "publish"; pp_audience := Some "arkavo"; pp_session_ttl_secs := 900;
     pp_operator_client_ids := {["ops"]}; pp_decider := decider_default |}.
Definition clocks : Clocks := {| now_secs := fun _ => 1500%Z; inst := fun _ => 0%Z; nanos := 1500000000000 |}.
Definition auth (token : string) : HeaderMap := [("authorization", "Bearer " +:+ CWT_TAG_PREFIX +:+ token)].

Definition node : Api Bucket unit :=
  {| api_keys := AuthSample.cache; api_gate := GateSample.gate;
     api_store := {| objects := ∅; s3_log := [] |}; api_provider := tt |}.

Definition request : SessionRequest :=
  {| rq_endpoint_id := "endpoint"; rq_timestamp := 1400;
     rq_signature := hex_encode (repeat_char 64 "s") |}.

(** A verifier that accepts any 64-byte signature. *)
#[local] Instance iroh_any : Iroh :=
  {| EndpointId := string; endpoint_to_string := id; endpoint_from_str := Some;
     endpoint_verify := fun _ _ _ => true |}.
Definition endpoint1 : EndpointId := "endpoint".

Lemma possession_window_witness :
  verify_possession endpoint1 "token" 1400 (hex_encode (repeat_char 64 "s")) 1500 = Ok tt.
Proof.
  apply (possession_window endpoint1 "token" 1400 (hex_encode (repeat_char 64 "s")) 1500); [lia|reflexivity|].
  split; [left; lia|]. exists (repeat_char 64 "s"). split_and!; vm_compute; reflexivity.
Defined.

Definition gate1 : PublishGate := connected 7 (Some endpoint1) (gate_new moderation_default).
Definition node1 : Api Bucket unit :=
  {| api_keys := AuthSample.cache; api_gate := gate1;
     api_store := {| objects := ∅; s3_log := [] |}; api_provider := tt |}.
Definition run_open := open_session (MS := s3_moderation_store "") offline AuthSample.verifier policy
  (auth "person-token") request clocks node1.

Lemma opened_session_pushes_witness :
  exists a', run_open = (Ok (endpoint1, "alice", 2400%Z), a')
    /\ authorize_push (fun _ => TimedOut) GateSample.times 7 "hash" (api_gate a')
       = (Ok ("alice", endpoint1), api_gate a').
Proof.
  destruct run_open as [r a'] eqn:E.
  assert (r = Ok (endpoint1, "alice", 2400%Z)) as -> by
    (transitivity run_open.1; [by rewrite E|vm_compute; reflexivity]).
  exists a'. split; [reflexivity|].
  pose proof (opened_session_pushes (MS := s3_moderation_store "") offline AuthSample.verifier policy
    (auth "person-token") request clocks node1 endpoint1 "alice" 2400 a' (fun _ => TimedOut)
    GateSample.times 7 "hash" E) as H.
  assert (a' = run_open.2) as Ha by (by rewrite E).
  apply H; clear H E; rewrite ?Ha; vm_compute; reflexivity.
Defined.

Definition run_suspend := run_action (MS := s3_moderation_store "") offline AuthSample.verifier policy
  (ASuspend "arkavo:alice" {| ar_reason := "spam"; ar_report_id := None; ar_hide_catalog := false |})
  (auth "ops-token") clocks node1.

Lemma moderation_actions_audited_witness :
  exists r a', run_suspend = (Ok r, a') /\ is_suspended (view a') "alice" = true.
Proof.
  succeeds run_suspend r a' E.
  destruct (moderation_actions_audited "" unit offline AuthSample.verifier policy _ _ _ _ _ _ E)
    as ([[H _]|(by_ & keys & name & c & _ & _ & H)] & _); [discriminate H|].
  exists r, a'. split; [reflexivity|]. apply H; [|reflexivity].
  split_and!; intros k x Hx; discriminate Hx.
Defined.
End ApiSample.
