(* ===== verification/ModerationTasks.v ===== *)
(** * Operator actions in flight (src/moderation.rs, the handlers as tasks)

    Every handler of the operator API waits three times: for the operator's
    token to be verified, for the audit event to be stored, and for the record
    to be stored. Between those moments other handlers run, on this node and on
    the other nodes that share the bucket. A handler is split here at those
    points, shown to be [run_action] when nothing comes between, and followed
    through any interleaving. *)

From S2P Require Import Prelude Bytes Identifiers Json Extern Samples S3Store Auth Authz EntityChain PublishDecision Moderation PublishGate ModerationApi.

(** ** A change that was decided on *)

Record Commit := { cm_action : string; cm_key : string; cm_change : Change; cm_nanos : Z }.

Definition cm_kind (c : Commit) : string := change_kind (cm_change c).
Definition cm_record (c : Commit) : json := change_record (cm_change c).
Definition cm_audit_key (c : Commit) : string := audit_key (cm_kind c) (cm_key c) (cm_nanos c).
Definition cm_event (c : Commit) : json := audit_event (cm_action c) (cm_record c).

(** What a handler waits for next. *)
Inductive Stage := Auditing | Persisting | Applying.

Section Tasks.
Context {B64 : Base64} {CB : Ciborium} {CO : Coset} {EC : P256} {HC : HttpCrate}.
Context {SJ : Serde} {HX : Hex} {B3 : Blake3} {SF : SealedFormat} {IR : Iroh}.
Context {St Sp : Type} {MS : ModerationStore St}.
Context (http_get : string -> http_answer) (verifier : CwtVerifier) (policy : PublishPolicy).

Abbreviation api := (Api St Sp).

(** The first half of each handler: the operator, the checks, the record. *)
Definition prepare_suspend (subject : string) (headers : HeaderMap) (body : ActionRequest) (t : Clocks) :
    comp api refusal Commit :=
  by_ ← require_operator http_get verifier policy headers t;
  let subject := canonical_subject subject in
  if negb (valid_subject subject) then throw (BAD_REQUEST, "invalid subject")
  else
    reason ← lift (checked_reason (ar_reason body));
    report_id ← lift (checked_report_id (ar_report_id body));
    mret {| cm_action := "suspend"; cm_key := subject; cm_nanos := nanos t;
            cm_change := CSuspension {| su_subject := subject; su_reason := reason; su_report_id := report_id;
              su_hide_catalog := ar_hide_catalog body; su_by := by_; su_at := now_secs t 1;
              su_lifted_by := None; su_lifted_at := None |} |}.

Definition prepare_lift_suspension (subject : string) (headers : HeaderMap) (t : Clocks) : comp api refusal Commit :=
  by_ ← require_operator http_get verifier policy headers t;
  a ← get;
  found ← lift (ok_or (suspension (view a) subject) (NOT_FOUND, "no active suspension"));
  mret {| cm_action := "lift_suspension"; cm_key := su_subject found; cm_nanos := nanos t;
          cm_change := CSuspension {| su_subject := su_subject found; su_reason := su_reason found;
            su_report_id := su_report_id found; su_hide_catalog := su_hide_catalog found;
            su_by := su_by found; su_at := su_at found;
            su_lifted_by := Some by_; su_lifted_at := Some (now_secs t 1) |} |}.

Definition prepare_block (hash : string) (headers : HeaderMap) (body : ActionRequest) (t : Clocks) :
    comp api refusal Commit :=
  by_ ← require_operator http_get verifier policy headers t;
  if negb (valid_hash hash) then throw (BAD_REQUEST, "hash must be 64 hex chars")
  else if ar_hide_catalog body then throw (BAD_REQUEST, "hideCatalog applies to suspensions")
  else
    let hash := to_ascii_lowercase hash in
    reason ← lift (checked_reason (ar_reason body));
    report_id ← lift (checked_report_id (ar_report_id body));
    mret {| cm_action := "block"; cm_key := hash; cm_nanos := nanos t;
            cm_change := CBlock {| bl_hash := hash; bl_reason := reason; bl_report_id := report_id; bl_by := by_;
              bl_at := now_secs t 1; bl_lifted_by := None; bl_lifted_at := None |} |}.

Definition prepare_lift_block (hash : string) (headers : HeaderMap) (t : Clocks) : comp api refusal Commit :=
  by_ ← require_operator http_get verifier policy headers t;
  let hash := to_ascii_lowercase hash in
  a ← get;
  found ← lift (ok_or (find (fun b => bool_decide (bl_hash b = hash)) (active_blocks (view a)))
                  (NOT_FOUND, "no active block"));
  mret {| cm_action := "lift_block"; cm_key := hash; cm_nanos := nanos t;
          cm_change := CBlock {| bl_hash := bl_hash found; bl_reason := bl_reason found;
            bl_report_id := bl_report_id found; bl_by := bl_by found; bl_at := bl_at found;
            bl_lifted_by := Some by_; bl_lifted_at := Some (now_secs t 1) |} |}.

Definition prepare_block_catalog (subject : string) (headers : HeaderMap) (body : ActionRequest) (t : Clocks) :
    comp api refusal Commit :=
  by_ ← require_operator http_get verifier policy headers t;
  let subject := canonical_subject subject in
  if negb (valid_subject subject) then throw (BAD_REQUEST, "invalid subject")
  else if ar_hide_catalog body then throw (BAD_REQUEST, "hideCatalog applies to suspensions")
  else
    reason ← lift (checked_reason (ar_reason body));
    report_id ← lift (checked_report_id (ar_report_id body));
    mret {| cm_action := "block_catalog"; cm_key := subject; cm_nanos := nanos t;
            cm_change := CCatalogBlock {| cb_subject := subject; cb_reason := reason; cb_report_id := report_id;
              cb_by := by_; cb_at := now_secs t 1; cb_lifted_by := None; cb_lifted_at := None |} |}.

Definition prepare_lift_catalog_block (subject : string) (headers : HeaderMap) (t : Clocks) : comp api refusal Commit :=
  by_ ← require_operator http_get verifier policy headers t;
  let subject := canonical_subject subject in
  a ← get;
  found ← lift (ok_or (find (fun b => bool_decide (cb_subject b = subject)) (active_catalog_blocks (view a)))
                  (NOT_FOUND, "no active catalog block"));
  mret {| cm_action := "lift_catalog_block"; cm_key := subject; cm_nanos := nanos t;
          cm_change := CCatalogBlock {| cb_subject := cb_subject found; cb_reason := cb_reason found;
            cb_report_id := cb_report_id found; cb_by := cb_by found; cb_at := cb_at found;
            cb_lifted_by := Some by_; cb_lifted_at := Some (now_secs t 1) |} |}.

Definition prepare (x : action) (headers : HeaderMap) (t : Clocks) : comp api refusal Commit :=
  match x with
  | ASuspend s b => prepare_suspend s headers b t
  | ALiftSuspension s => prepare_lift_suspension s headers t
  | ABlock h b => prepare_block h headers b t
  | ALiftBlock h => prepare_lift_block h headers t
  | ABlockCatalog s b => prepare_block_catalog s headers b t
  | ALiftCatalogBlock s => prepare_lift_catalog_block s headers t
  end.

(** One turn of a task: what comes next, or nothing when it is answered. *)
Definition take_turn (c : Commit) (stage : Stage) : comp api refusal (option Stage) :=
  match stage with
  | Auditing =>
      _ ← on_store (audit (cm_action c) (cm_kind c) (cm_key c) (cm_record c) (cm_nanos c)); mret (Some Persisting)
  | Persisting => _ ← on_store (persist (cm_kind c) (cm_key c) (cm_record c)); mret (Some Applying)
  | Applying => _ ← apply_view (apply_change (cm_change c)); mret None
  end.

(** A task left to itself. *)
Fixpoint run_task (fuel : nat) (c : Commit) (stage : Stage) : comp api refusal json :=
  next ← take_turn c stage;
  match fuel, next with
  | S fuel, Some stage => run_task fuel c stage
  | _, _ => mret (cm_record c)
  end.

(** ** Alone it is the handler *)

(** The halves of a handler, put together again. *)
Lemma run_task_commit {R} c t (ret : R) (out : R -> json) (a : api) :
  nanos t = cm_nanos c -> out ret = cm_record c ->
  (commit (cm_action c) (cm_kind c) (cm_key c) (cm_record c) (apply_change (cm_change c)) t ret ≫= fun r => mret (out r)) a
  = run_task 2 c Auditing a.
Proof.
  intros Ht Hr. unfold commit, run_task, take_turn. rewrite Ht. unfold mbind, comp_bind, mret, comp_ret.
  repeat match goal with |- context [match ?m ?s with (_, _) => _ end] => destruct (m s) as [[?|?] ?] end;
    cbn; by rewrite ?Hr.
Qed.

Lemma bind_bind {A B C} (m : comp api refusal A) (f : A -> comp api refusal B) (g : B -> comp api refusal C) a :
  ((m ≫= f) ≫= g) a = (m ≫= fun x => f x ≫= g) a.
Proof. unfold mbind, comp_bind. by destruct (m a) as [[?|?] ?]. Qed.

Lemma bind_ext {A B} (m : comp api refusal A) (f g : A -> comp api refusal B) a :
  (forall x a, f x a = g x a) -> (m ≫= f) a = (m ≫= g) a.
Proof. intros H. unfold mbind, comp_bind. destruct (m a) as [[?|?] ?]; [apply H|done]. Qed.

Lemma throw_bind {A B} e (f : A -> comp api refusal B) a : (throw e ≫= f) a = throw e a.
Proof. done. Qed.

Lemma run_action_tasks x headers t (a : api) :
  run_action http_get verifier policy x headers t a = (prepare x headers t ≫= fun c => run_task 2 c Auditing) a.
Proof.
  destruct x; cbn [run_action prepare];
    unfold suspend, lift_suspension, block, lift_block, block_catalog, lift_catalog_block, prepare_suspend,
      prepare_lift_suspension, prepare_block, prepare_lift_block, prepare_block_catalog, prepare_lift_catalog_block;
    cbv zeta; rewrite !bind_bind; apply bind_ext; intros by_ a1;
    repeat first
      [ case_match; [by rewrite !throw_bind|]
      | rewrite !bind_bind; apply bind_ext; intros ? ?
      | match goal with |- _ = (mret ?c ≫= _) ?s =>
          first [ exact (run_task_commit c t _ ser_suspension s eq_refl eq_refl)
                | exact (run_task_commit c t _ ser_block s eq_refl eq_refl)
                | exact (run_task_commit c t _ ser_catalog_block s eq_refl eq_refl) ] end ].
Qed.
End Tasks.

(** ** The names of audit events

    [{kind}/{key}/{nanos:020}] says which record and when: the time takes up
    the last twenty characters, whatever it is. *)

Definition NANOS_END : Z := 10 ^ 20.

Fixpoint dec_value (acc : N) (s : string) : N :=
  match s with
  | "" => acc
  | String c s => dec_value (10 * acc + (N_of_ascii c - 48)) s
  end.

Lemma pretty_char_value d : (d < 10)%N -> (N_of_ascii (pretty_N_char d) - 48 = d)%N.
Proof.
  intros H. assert (d = 0 \/ d = 1 \/ d = 2 \/ d = 3 \/ d = 4 \/ d = 5 \/ d = 6 \/ d = 7 \/ d = 8 \/ d = 9)%N as Hd by lia.
  repeat destruct Hd as [->|Hd]; by subst.
Qed.

Lemma dec_value_go x s : dec_value 0 (pretty_N_go x s) = dec_value x s.
Proof.
  revert s. induction (N.lt_wf_0 x) as [x _ IH]. intros s. destruct (decide (x = 0)%N) as [->|Hx]; [done|].
  rewrite pretty_N_go_step by lia. rewrite IH by (apply N.div_lt; lia). cbn [dec_value].
  rewrite pretty_char_value by (apply N.mod_lt; lia). f_equal. pose proof (N.div_mod x 10). lia.
Qed.

Lemma pretty_go_length k x s : (x < 10 ^ N.of_nat k)%N -> (String.length (pretty_N_go x s) <= k + String.length s)%nat.
Proof.
  revert x s; induction k as [|k IH]; intros x s Hx; [assert (x = 0)%N as -> by (cbn in Hx; lia); done|].
  destruct (decide (x = 0)%N) as [->|Hne]; [rewrite pretty_N_go_0; lia|].
  rewrite pretty_N_go_step by lia. etrans; [apply IH|cbn; lia].
  apply N.Div0.div_lt_upper_bound. rewrite Nat2N.inj_succ, N.pow_succ_r' in Hx. lia.
Qed.

Lemma pretty_nanos n : (0 <= n)%Z -> pretty n = pretty (Z.to_N n).
Proof. by destruct n. Qed.

Lemma pretty_value n : (0 <= n)%Z -> dec_value 0 (pretty n) = Z.to_N n.
Proof.
  intros H. rewrite pretty_nanos by done. unfold pretty, pretty_N. case_decide as E; [by rewrite E|]. apply dec_value_go.
Qed.

Lemma zeros_value k s : dec_value 0 (zeros k +:+ s) = dec_value 0 s.
Proof. by induction k. Qed.

Lemma zeros_length k : String.length (zeros k) = k.
Proof. induction k; cbn; congruence. Qed.

Lemma pad20_length n : (0 <= n < NANOS_END)%Z -> String.length (pad20 (pretty n)) = 20%nat.
Proof.
  intros Hn. assert (String.length (pretty n) <= 20)%nat as Hl.
  { rewrite pretty_nanos by lia. unfold pretty, pretty_N. case_decide; [cbn; lia|].
    pose proof (pretty_go_length 20 (Z.to_N n) "") as H1. cbn [String.length] in H1. rewrite Nat.add_0_r in H1. apply H1.
    unfold NANOS_END in Hn. change (10 ^ N.of_nat 20)%N with (Z.to_N (10 ^ 20)). lia. }
  unfold pad20. rewrite app_length_string, zeros_length. lia.
Qed.

Lemma app_split (a b c d : string) : String.length b = String.length d -> a +:+ b = c +:+ d -> a = c /\ b = d.
Proof.
  intros Hl. revert c; induction a as [|x a IH]; intros [|y c] E.
  - done.
  - apply (f_equal String.length) in E. rewrite !app_length_string in E. cbn in E. lia.
  - apply (f_equal String.length) in E. rewrite !app_length_string in E. cbn in E. lia.
  - rewrite !string_app_cons in E. injection E as <- E. by destruct (IH _ E) as [-> ->].
Qed.

(** Two events have one name only if they are about one record and one time. *)
Lemma audit_key_inj kind kind' key key' n n' :
  no_slash kind -> no_slash kind' -> (0 <= n < NANOS_END)%Z -> (0 <= n' < NANOS_END)%Z ->
  audit_key kind key n = audit_key kind' key' n' -> kind = kind' /\ key = key' /\ n = n'.
Proof.
  unfold audit_key. intros Hk Hk' Hn Hn' E. apply no_slash_app_inj in E as [-> E]; [|done..].
  apply app_split in E as [-> E]; [|rewrite !app_length_string; by rewrite !pad20_length]. apply string_app_inj in E. split_and!; [done..|].
  apply (f_equal (dec_value 0)) in E. unfold pad20 in E. rewrite !zeros_value, !pretty_value in E by lia. lia.
Qed.

(** ** Tasks of many nodes on one bucket *)

Section Desk.
Context {B64 : Base64} {CB : Ciborium} {CO : Coset} {EC : P256} {HC : HttpCrate}.
Context {SJ : Serde} {HX : Hex} {B3 : Blake3} {SF : SealedFormat} {IR : Iroh}.
Context {St Sp : Type} {MS : ModerationStore St} {LS : LawfulStore St}.
Context (http_get : string -> http_answer) (verifier : CwtVerifier) (policy : PublishPolicy).

Abbreviation api := (Api St Sp).

(** The clocks of the nodes tell at least [start] from here on. *)
Context (start : Z).

(** The store, the tasks in flight, and every action that ever began. *)
Record Desk := { d_store : St; d_tasks : gmap nat (Commit * Stage); d_begun : list Commit }.

(** After a turn that left [r]: a task that failed or was answered is gone. *)
Definition after (i : nat) (c : Commit) (r : result refusal (option Stage)) (ts : gmap nat (Commit * Stage)) :
    gmap nat (Commit * Stage) :=
  match r with Ok (Some stage) => <[i := (c, stage)]> ts | _ => delete i ts end.

Definition RECORD_KINDS : list string := [AUDIT; SUSPENSIONS; BLOCKS; CATALOG_BLOCKS].

(** The clock: [c] has a time from [start] on that takes twenty digits, and no
    other action on the same record has the same nanosecond. *)
Definition new_time (c : Commit) (begun : list Commit) : Prop :=
  (0 <= start <= cm_nanos c)%Z /\ (cm_nanos c < NANOS_END)%Z
  /\ forall c', c' ∈ begun -> cm_kind c' = cm_kind c -> cm_key c' = cm_key c -> cm_nanos c' <> cm_nanos c.

(** A node (its keys, its gate and its view are its own) begins an action;
    a task takes a turn; or something else is stored. *)
Inductive desk_step : Desk -> Desk -> Prop :=
| DeskBegin i x headers t (a a' : api) c ts begun :
    prepare http_get verifier policy x headers t a = (Ok c, a') -> ts !! i = None -> new_time c begun ->
    desk_step {| d_store := api_store a; d_tasks := ts; d_begun := begun |}
      {| d_store := api_store a'; d_tasks := <[i := (c, Auditing)]> ts; d_begun := c :: begun |}
| DeskTurn i c stage (a a' : api) r ts begun :
    ts !! i = Some (c, stage) -> take_turn c stage a = (r, a') ->
    desk_step {| d_store := api_store a; d_tasks := ts; d_begun := begun |}
      {| d_store := api_store a'; d_tasks := after i c r ts; d_begun := begun |}
| DeskOther s s' ts begun :
    (forall kind key, kind ∈ RECORD_KINDS -> stored s' kind key = stored s kind key) ->
    desk_step {| d_store := s; d_tasks := ts; d_begun := begun |} {| d_store := s'; d_tasks := ts; d_begun := begun |}.

(** An operator, whose token was verified, answers for the change; and the
    record is about the name it is filed under. *)
Definition accountable (c : Commit) : Prop :=
  change_key (cm_change c) = cm_key c
  /\ exists headers t keys keys', operator http_get policy verifier headers t keys = (Ok (change_by (cm_change c)), keys').

Definition event_stored (s : St) (c : Commit) : Prop :=
  stored s AUDIT (cm_audit_key c) = Some (serde_print (cm_event c)).

(** The record [raw] under [kind/key] is that of an accountable change whose
    audit event is stored. *)
Definition audited (s : St) (kind key : string) (raw : bytes) : Prop :=
  exists c, accountable c /\ cm_kind c = kind /\ cm_key c = key /\ raw = serde_print (cm_record c) /\ event_stored s c.

Definition keeps_events (s s' : St) : Prop :=
  forall key raw, stored s AUDIT key = Some raw -> stored s' AUDIT key = Some raw.

(** No event has a time from [start] on. *)
Definition events_past (s : St) : Prop :=
  forall kind key n, no_slash kind -> (start <= n < NANOS_END)%Z -> stored s AUDIT (audit_key kind key n) = None.

Definition timed (c : Commit) : Prop := (0 <= cm_nanos c < NANOS_END)%Z.

Record desk_inv (s0 : St) (w : Desk) : Prop := {
  di_events : keeps_events s0 (d_store w);
  di_records : forall kind key raw, kind ∈ RECORD_KINDS -> kind <> AUDIT ->
    stored (d_store w) kind key = Some raw ->
    stored s0 kind key = Some raw \/ audited (d_store w) kind key raw;
  di_tasks : forall i c stage, d_tasks w !! i = Some (c, stage) ->
    accountable c /\ (stage <> Auditing -> event_stored (d_store w) c);
  (** Every event has the name of an action that began, or was there. *)
  di_names : forall key raw, stored (d_store w) AUDIT key = Some raw ->
    stored s0 AUDIT key = Some raw \/ exists c, c ∈ d_begun w /\ key = cm_audit_key c;
  di_begun : forall i c stage, d_tasks w !! i = Some (c, stage) -> c ∈ d_begun w;
  di_timed : forall c, c ∈ d_begun w -> timed c;
  (** A task that is yet to store its event has a name to itself. *)
  di_free : forall i c, d_tasks w !! i = Some (c, Auditing) -> stored (d_store w) AUDIT (cm_audit_key c) = None;
  di_apart : forall i j c c' stage stage', i <> j -> d_tasks w !! i = Some (c, stage) -> d_tasks w !! j = Some (c', stage') ->
    cm_audit_key c <> cm_audit_key c'
}.

(** ** What a task starts from *)

Ltac prepared H :=
  let by_ := fresh "by_" in let a1 := fresh "a1" in let H1 := fresh "H1" in
  apply comp_bind_ok in H as (by_ & a1 & H1 & H);
  apply require_operator_run in H1 as [Hs Hop]; destruct (Hop by_ eq_refl) as [keys' Hop'];
  cbv zeta in H; repeat (split_if H; [by apply throw_ok in H|]); inv_run; unfold get in *; simplify_eq.

Lemma prepare_accountable x headers t (a : api) c a' :
  prepare http_get verifier policy x headers t a = (Ok c, a') -> accountable c /\ untouched a a'.
Proof.
  intros H. destruct x; cbn [prepare] in H;
    unfold prepare_suspend, prepare_lift_suspension, prepare_block, prepare_lift_block, prepare_block_catalog,
      prepare_lift_catalog_block in H; prepared H;
    (split; [split; [first [reflexivity | cbn; eapply active_find; eassumption]|by eexists _, _, _, _]|exact Hs]).
Qed.

(** ** The invariant *)

Lemma event_stored_keeps s s' c : keeps_events s s' -> event_stored s c -> event_stored s' c.
Proof. intros H. apply H. Qed.

Lemma keeps_events_trans s1 s2 s3 : keeps_events s1 s2 -> keeps_events s2 s3 -> keeps_events s1 s3.
Proof. intros H1 H2 key raw H. auto. Qed.

Lemma change_kind_record c : change_kind c ∈ RECORD_KINDS /\ change_kind c <> AUDIT /\ no_slash (change_kind c).
Proof. destruct c; split_and!; try done; unfold RECORD_KINDS; cbn; set_solver. Qed.

Lemma record_kind_plain kind : kind ∈ RECORD_KINDS -> no_slash kind.
Proof. unfold RECORD_KINDS. rewrite !elem_of_cons, elem_of_nil. by intros [->|[->|[->|[->|[]]]]]. Qed.

(** The invariant survives a change of the store that keeps the events and
    leaves each record as it was or audited, when every new event is that of a
    task that leaves the desk or goes on past its audit. *)
Lemma desk_inv_step s0 s s' i c stage r ts begun :
  desk_inv s0 {| d_store := s; d_tasks := ts; d_begun := begun |} -> ts !! i = Some (c, stage) -> keeps_events s s' ->
  (forall kind key raw, kind ∈ RECORD_KINDS -> kind <> AUDIT -> stored s' kind key = Some raw ->
     stored s kind key = Some raw \/ audited s' kind key raw) ->
  (forall key, key <> cm_audit_key c -> stored s' AUDIT key = stored s AUDIT key) ->
  (forall next, r = Ok (Some next) -> next <> Auditing /\ event_stored s' c) ->
  desk_inv s0 {| d_store := s'; d_tasks := after i c r ts; d_begun := begun |}.
Proof.
  intros [He Hr Ht Hn Hb Htm Hf Ha] Hi Hk Hs Ho Hnext. cbn in *.
  assert (forall j c' st, after i c r ts !! j = Some (c', st) ->
    j = i /\ c' = c /\ (exists next, r = Ok (Some next) /\ st = next) \/ j <> i /\ ts !! j = Some (c', st)) as Hj.
  { intros j c' st. destruct r as [[next|]|]; cbn [after].
    - rewrite lookup_insert_Some. intros [[<- [= <- <-]]|[? ?]]; [left|by right]. split_and!; [done..|]. by exists next.
    - rewrite lookup_delete_Some. intros [? ?]. by right.
    - rewrite lookup_delete_Some. intros [? ?]. by right. }
  split; cbn.
  - by eapply keeps_events_trans.
  - intros kind key raw Hin Hne Hraw. destruct (Hs _ _ _ Hin Hne Hraw) as [Hraw'|]; [|by right].
    destruct (Hr _ _ _ Hin Hne Hraw') as [|(c0 & ? & ? & ? & ? & ?)]; [by left|right].
    exists c0. split_and!; try done. by eapply event_stored_keeps.
  - intros j c' st [(-> & -> & next & Hr' & ->)|[Hne Hold]]%Hj.
    + split; [by eapply Ht|]. intros _. by eapply Hnext.
    + destruct (Ht _ _ _ Hold) as [? Hev]. split; [done|]. intros Hst. by eapply event_stored_keeps, Hev.
  - intros key raw Hraw. destruct (decide (key = cm_audit_key c)) as [->|Hne]; [right; exists c; split; [by eapply Hb|done]|].
    rewrite Ho in Hraw by done. by apply Hn in Hraw.
  - intros j c' st [(-> & -> & _)|[_ Hold]]%Hj; by eapply Hb.
  - done.
  - intros j c' [(-> & -> & next & Hr' & <-)|[Hne Hold]]%Hj; [by destruct (Hnext _ Hr')|].
    rewrite Ho; [by eapply Hf|]. by eapply Ha.
  - intros j k c1 c2 st1 st2 Hjk [(-> & -> & _)|[? H1]]%Hj [(-> & -> & _)|[? H2]]%Hj; [done| | |];
      [exact (Ha _ _ _ _ _ _ Hjk Hi H2)|exact (Ha _ _ _ _ _ _ Hjk H1 Hi)|exact (Ha _ _ _ _ _ _ Hjk H1 H2)].
Qed.

(** An audit event goes to a name nothing is stored under. *)
Lemma audit_turn s0 i c (a a' : api) r ts begun :
  desk_inv s0 {| d_store := api_store a; d_tasks := ts; d_begun := begun |} -> ts !! i = Some (c, Auditing) ->
  take_turn c Auditing a = (r, a') ->
  desk_inv s0 {| d_store := api_store a'; d_tasks := after i c r ts; d_begun := begun |}.
Proof.
  intros Hi Hc H. pose proof (di_free _ _ Hi i c Hc) as Hfree. cbn in Hfree.
  assert (exists r0 s, persist AUDIT (cm_audit_key c) (cm_event c) (api_store a) = (r0, s)
    /\ api_store a' = s /\ forall next, r = Ok (Some next) -> next = Persisting /\ r0 = Ok tt) as (r0 & s & Hp & -> & Hn).
  { cbn [take_turn] in H. unfold on_store, zoom, audit, mbind, comp_bind in H. cbv beta zeta in H.
    change (audit_event _ _) with (cm_event c) in H. change (audit_key _ _ _) with (cm_audit_key c) in H.
    destruct (persist _ _ _ _) as [[[]|e] s]; injection H as <- <-; eexists _, _; (split_and!; [reflexivity..|]); intros next [= <-]; done. }
  apply persist_run in Hp as [Ho Ht]; [|done]. eapply desk_inv_step; [done|done| | | |].
  - intros key raw Hraw. destruct (decide (key = cm_audit_key c)) as [->|Hne]; [congruence|].
    rewrite Ho; [done|done|congruence].
  - intros kind key raw Hin Hne Hraw. left. rewrite <- Ho; [done|by apply record_kind_plain|congruence].
  - intros key Hne. apply Ho; [done|congruence].
  - intros next Hr. destruct (Hn _ Hr) as [-> Hok]. split; [done|]. by destruct Ht as [[_ Hno]|Hev].
Qed.

(** A record is stored after its event. *)
Lemma persist_turn s0 i c (a a' : api) r ts begun :
  desk_inv s0 {| d_store := api_store a; d_tasks := ts; d_begun := begun |} -> ts !! i = Some (c, Persisting) ->
  take_turn c Persisting a = (r, a') ->
  desk_inv s0 {| d_store := api_store a'; d_tasks := after i c r ts; d_begun := begun |}.
Proof.
  intros Hi Hc H. assert (exists r0, persist (cm_kind c) (cm_key c) (cm_record c) (api_store a) = (r0, api_store a')
    /\ forall next, r = Ok (Some next) -> next = Applying) as (r0 & Hp & Hn).
  { cbn [take_turn] in H. unfold on_store, zoom, mbind, comp_bind in H. cbv beta zeta in H.
    destruct (persist _ _ _ _) as [[[]|e] s]; injection H as <- <-; eexists; (split; [reflexivity|]); intros next [= <-]; done. }
  destruct (change_kind_record (cm_change c)) as (Hin & Hne & Hns).
  apply persist_run in Hp as [Ho Ht]; [|done].
  destruct (di_tasks _ _ Hi i c Persisting Hc) as [Hacc Hev]. specialize (Hev ltac:(done)). cbn in Hev.
  assert (forall key, stored (api_store a') AUDIT key = stored (api_store a) AUDIT key) as Hau.
  { intros key. apply Ho; [done|]. intros [= E _]. by apply Hne. }
  assert (keeps_events (api_store a) (api_store a')) as Hk by (intros key raw Hraw; by rewrite Hau).
  eapply desk_inv_step; [done|done|done| |by intros|].
  - intros kind key raw Hkin Hkne Hraw.
    destruct (decide ((kind, key) = (cm_kind c, cm_key c))) as [[= -> ->]|Hother].
    + destruct Ht as [[Hsame _]|Hnew]; [left; congruence|right]. rewrite Hnew in Hraw. injection Hraw as <-.
      exists c. split_and!; try done. by eapply event_stored_keeps.
    + left. rewrite <- Ho; [done|by apply record_kind_plain|done].
  - intros next ->%Hn. split; [done|]. by eapply event_stored_keeps.
Qed.

(** Nothing is stored under the name of an action that begins. *)
Lemma begin_free s0 s ts begun c :
  desk_inv s0 {| d_store := s; d_tasks := ts; d_begun := begun |} -> events_past s0 -> new_time c begun ->
  stored s AUDIT (cm_audit_key c) = None /\ forall c', c' ∈ begun -> cm_audit_key c <> cm_audit_key c'.
Proof.
  intros Hi Hp (Hn & He & Hd). pose proof (change_kind_record (cm_change c)) as (_ & _ & Hns).
  assert (forall c', c' ∈ begun -> cm_audit_key c <> cm_audit_key c') as Hne.
  { intros c' Hc' E. pose proof (change_kind_record (cm_change c')) as (_ & _ & Hns').
    apply audit_key_inj in E as (Ek & Ekey & En); [|done|done|lia|by eapply (di_timed _ _ Hi)].
    by eapply (Hd c'). }
  split; [|done]. destruct (stored s AUDIT (cm_audit_key c)) as [raw|] eqn:E; [|done].
  destruct (di_names _ _ Hi _ _ E) as [Hold|(c' & Hc' & Heq)]; [|by destruct (Hne c')].
  unfold cm_audit_key in Hold. rewrite Hp in Hold; [done|done|lia].
Qed.

Lemma begin_inv s0 s i c ts begun :
  desk_inv s0 {| d_store := s; d_tasks := ts; d_begun := begun |} -> events_past s0 -> new_time c begun -> accountable c ->
  ts !! i = None -> desk_inv s0 {| d_store := s; d_tasks := <[i := (c, Auditing)]> ts; d_begun := c :: begun |}.
Proof.
  intros Hi Hp Hnew Hacc Hn. destruct (begin_free _ _ _ _ _ Hi Hp Hnew) as [Hfree Hne].
  destruct Hi as [He Hr Ht Hnm Hb Htm Hf Ha]. cbn in *. split; try done; cbn.
  - intros j c' st. rewrite lookup_insert_Some. intros [[<- [= <- <-]]|[_ Hj]]; [by split|by apply (Ht j)].
  - intros key raw [Hold|(c' & ? & ?)]%Hnm; [by left|right]. exists c'. split; [set_solver|done].
  - intros j c' st. rewrite lookup_insert_Some. intros [[_ [= <- _]]|[_ Hj]]; [set_solver|]. apply Hb in Hj. set_solver.
  - intros c' [->|Hc']%elem_of_cons; [destruct Hnew as (? & ? & _); unfold timed; lia|by apply Htm].
  - intros j c'. rewrite lookup_insert_Some. intros [[_ [= <-]]|[_ Hj]]; [done|by eapply Hf].
  - intros j k c1 c2 st1 st2 Hjk. rewrite !lookup_insert_Some.
    intros [[<- [= <- <-]]|[? H1]] [[<- [= <- <-]]|[? H2]]; [done| | |].
    + exact (Hne _ (Hb _ _ _ H2)).
    + intros E. exact (Hne _ (Hb _ _ _ H1) (eq_sym E)).
    + exact (Ha _ _ _ _ _ _ Hjk H1 H2).
Qed.

Lemma desk_step_inv s0 w w' : events_past s0 -> desk_step w w' -> desk_inv s0 w -> desk_inv s0 w'.
Proof.
  intros Hp Hs Hi. destruct Hs as [i x headers t a a' c ts begun Hpr Hn Hnew|i c stage a a' r ts begun Hc Ha|s s' ts begun Ho].
  - apply prepare_accountable in Hpr as [Hacc [-> _]]. by apply begin_inv.
  - destruct stage.
    + by eapply audit_turn.
    + by eapply persist_turn.
    + injection Ha as <- <-. eapply desk_inv_step; [done|done|by intros ? ?|by left|done|done].
  - destruct Hi as [He Hr Ht Hnm Hb Htm Hf Hap]. assert (forall key, stored s' AUDIT key = stored s AUDIT key) as Hau
      by (intros key; apply Ho; set_solver).
    split; cbn in *; try done.
    + intros key raw H. rewrite Hau. by apply He.
    + intros kind key raw Hin Hne Hraw. rewrite Ho in Hraw by done.
      destruct (Hr _ _ _ Hin Hne Hraw) as [|(c & ? & ? & ? & ? & Hev)]; [by left|right]. exists c. split_and!; try done.
      unfold event_stored. by rewrite Hau.
    + intros j c st Hj. destruct (Ht _ _ _ Hj) as [? Hev]. split; [done|]. intros Hst. unfold event_stored. rewrite Hau. by apply Hev.
    + intros key raw. rewrite Hau. apply Hnm.
    + intros j c Hj. rewrite Hau. by eapply Hf.
Qed.

Lemma desk_inv_start s0 : desk_inv s0 {| d_store := s0; d_tasks := ∅; d_begun := [] |}.
Proof.
  split; cbn; try (intros i c stage; by rewrite lookup_empty); try (by intros; left).
  - by intros ? ?.
  - by intros c ?%not_elem_of_nil.
  - intros i c. by rewrite lookup_empty.
Qed.

Lemma steps_inv s0 w w' : events_past s0 -> rtc desk_step w w' -> desk_inv s0 w -> desk_inv s0 w'.
Proof. intros Hp. induction 1 as [w|w w1 w' Hs _ IH]; intros Hi; [done|]. by eapply IH, desk_step_inv. Qed.

(** One step keeps what is stored: a task writes its event where nothing is. *)
Lemma step_keeps_events s0 w w' : desk_inv s0 w -> desk_step w w' -> keeps_events (d_store w) (d_store w').
Proof.
  intros Hi Hs. destruct Hs as [i x headers t a a' c ts begun Hpr _ _|i c stage a a' r ts begun Hc Ha|s s' ts begun Ho]; cbn.
  - apply prepare_accountable in Hpr as [_ [-> _]]. by intros ? ?.
  - destruct stage; cbn [take_turn] in Ha.
    + pose proof (di_free _ _ Hi i c Hc) as Hfree. cbn in Hfree.
      apply comp_bind_state in Ha as [([] & a1 & Hp & [= _ <-])|(e & Hp & _)];
        apply on_store_run in Hp as (s & Hp & ->); apply persist_run in Hp as [Hoth _]; try done;
        intros key raw Hraw; (rewrite Hoth; [done..|]); intros [= ->]; unfold cm_audit_key in Hfree; congruence.
    + destruct (change_kind_record (cm_change c)) as (_ & Hne & Hns).
      apply comp_bind_state in Ha as [([] & a1 & Hp & [= _ <-])|(e & Hp & _)];
        apply on_store_run in Hp as (s & Hp & ->); apply persist_run in Hp as [Hoth _]; try done;
        intros key raw Hraw; (rewrite Hoth; [done..|]); intros [= E _]; by apply Hne.
    + injection Ha as _ <-. by intros ? ?.
  - intros key raw. rewrite Ho; [done|set_solver].
Qed.

Lemma steps_keep_events s0 w w' :
  events_past s0 -> desk_inv s0 w -> rtc desk_step w w' -> keeps_events (d_store w) (d_store w').
Proof.
  intros Hp Hi Hs. induction Hs as [w|w w1 w' Hs _ IH]; [by intros ? ?|].
  eapply keeps_events_trans; [by eapply step_keeps_events|]. by eapply IH, desk_step_inv.
Qed.

(** C10: The audit log is complete and is only added to, however the operators'
    actions interleave. Any number of actions on any number of nodes that share
    the bucket wait for their tokens, their audit events and their records in
    any order, with storage errors at any point (a failed write may or may not
    have happened). The clocks tell times of at most twenty digits that are
    later than those of the events already stored, and two actions on the same
    record do not read the same nanosecond: then the names the events are stored
    under differ, whatever the subjects and hashes are. So no audit event is
    ever changed or removed; every suspension, block or catalog block that is
    stored and was not there before is the record of a change made or lifted by
    an operator whose token was verified, is filed under what it is about, and
    has its audit event stored; and so has every action that is past its audit,
    hence every action that was answered with success. A handler nothing comes
    between is exactly such a task, run to its end. *)
Theorem records_audited s0 w :
  events_past s0 ->
  rtc desk_step {| d_store := s0; d_tasks := ∅; d_begun := [] |} w ->
  (forall key raw, stored s0 AUDIT key = Some raw -> stored (d_store w) AUDIT key = Some raw)
  /\ (forall kind key raw, kind ∈ [SUSPENSIONS; BLOCKS; CATALOG_BLOCKS] -> stored (d_store w) kind key = Some raw ->
        stored s0 kind key = Some raw \/ audited (d_store w) kind key raw)
  /\ (forall i c stage, d_tasks w !! i = Some (c, stage) -> stage <> Auditing -> event_stored (d_store w) c)
  /\ (forall w', rtc desk_step w w' ->
        forall key raw, stored (d_store w) AUDIT key = Some raw -> stored (d_store w') AUDIT key = Some raw)
  /\ (forall x headers t (a : api), run_action http_get verifier policy x headers t a
        = (prepare http_get verifier policy x headers t ≫= fun c => run_task 2 c Auditing) a).
Proof.
  intros Hp Hw. pose proof (steps_inv s0 _ _ Hp Hw (desk_inv_start s0)) as Hi. pose proof Hi as [He Hr Ht _ _ _ _ _].
  split_and!; [done| |intros i c stage Hi'; by apply (Ht i)| |apply run_action_tasks].
  - intros kind key raw Hin. apply Hr; set_unfold in Hin; [set_solver|].
    by destruct Hin as [->|[->|[->|[]]]].
  - intros w' Hw'. by eapply steps_keep_events.
Qed.
End Desk.

(** ** Witnesses *)

Module TaskSample.
#[local] Existing Instance bit_serde.
#[local] Existing Instance plain_hex.
#[local] Existing Instance plain_base64.
#[local] Existing Instance named_p256.
#[local] Existing Instance toy_blake3.
#[local] Existing Instance S3Sample.healthy.
#[local] Existing Instance GateSample.sealed.
#[local] Existing Instance ApiSample.headers_plain.
#[local] Existing Instance ApiSample.cbor_table.
#[local] Existing Instance ApiSample.cose_table.
#[local] Existing Instance ApiSample.no_provider.
#[local] Existing Instance ApiSample.iroh_any.
#[local] Instance records : ModerationStore Bucket := s3_moderation_store "".
#[local] Instance lawful : LawfulStore Bucket := bucket_lawful "".

Definition body : ActionRequest := {| ar_reason := "spam"; ar_report_id := None; ar_hide_catalog := false |}.
Definition again : ActionRequest := {| ar_reason := "again"; ar_report_id := None; ar_hide_catalog := false |}.
Definition at_nanos (n : Z) : Clocks := {| now_secs := fun _ => 1500%Z; inst := fun _ => 0%Z; nanos := n |}.
Definition begin (x : action) (n : Z) (a : Api Bucket unit) : result refusal Commit * Api Bucket unit :=
  prepare ApiSample.offline AuthSample.verifier ApiSample.policy x (ApiSample.auth "ops-token") (at_nanos n) a.
Definition turn (c : Commit) (stage : Stage) (a : Api Bucket unit) : Api Bucket unit := (take_turn c stage a).2.

Definition nothing : Commit :=
  {| cm_action := ""; cm_key := ""; cm_nanos := 0;
     cm_change := CSuspension {| su_subject := ""; su_reason := ""; su_report_id := None; su_hide_catalog := false;
       su_by := ""; su_at := 0; su_lifted_by := None; su_lifted_at := None |} |}.
Definition begun (x : action) (n : Z) (a : Api Bucket unit) : Commit := default nothing (ok (begin x n a).1).

(** Alice is suspended while an earlier suspension of hers is lifted. *)
Definition suspended : Api Bucket unit :=
  let c := begun (ASuspend "alice" body) 1 ApiSample.node1 in
  turn c Applying (turn c Persisting (turn c Auditing ApiSample.node1)).
Definition lifting : Commit := begun (ALiftSuspension "alice") 2 suspended.
Definition suspending : Commit := begun (ASuspend "alice" again) 3 suspended.

Definition both_audited : Api Bucket unit := turn lifting Auditing (turn suspending Auditing suspended).
Definition both_stored : Api Bucket unit := turn suspending Persisting (turn lifting Persisting both_audited).

(** The suspension is stored last and the lift is applied last: both were
    answered with success, the bucket says she is suspended and the node lets
    her publish until it reads the records again. *)
Theorem crossed_actions :
  let node := turn lifting Applying (turn suspending Applying both_stored) in
  is_suspended (view node) "alice" = false
  /\ bucket_stored "" (api_store node) SUSPENSIONS "alice" = Some (serde_print (cm_record suspending))
  /\ is_suspended (refresh_tick (view node) (api_store node)).1 "alice" = true.
Proof. vm_compute. split_and!; reflexivity. Qed.

Abbreviation step := (desk_step (Sp := unit) ApiSample.offline AuthSample.verifier ApiSample.policy 2).
Definition desk (a : Api Bucket unit) (ts : gmap nat (Commit * Stage)) (l : list Commit) : Desk :=
  {| d_store := api_store a; d_tasks := ts; d_begun := l |}.

Lemma begin_step i x n a c ts l :
  (begin x n a).1 = Ok c -> api_store (begin x n a).2 = api_store a -> ts !! i = None -> new_time 2 c l ->
  step (desk a ts l) (desk a (<[i := (c, Auditing)]> ts) (c :: l)).
Proof.
  intros Hb Hs Hl Hn. assert (begin x n a = (Ok c, (begin x n a).2)) as Hb' by (rewrite <- Hb; apply surjective_pairing).
  pose proof (DeskBegin ApiSample.offline AuthSample.verifier ApiSample.policy 2 i x _ _ a _ _ _ _ Hb' Hl Hn) as H.
  by rewrite Hs in H.
Qed.

Lemma turn_step i c stage next a ts l :
  ts !! i = Some (c, stage) -> (take_turn c stage a).1 = Ok (Some next) ->
  step (desk a ts l) (desk (turn c stage a) (<[i := (c, next)]> ts) l).
Proof.
  intros Hi Hn. assert (take_turn c stage a = (Ok (Some next), turn c stage a)) as Ha by (rewrite <- Hn; apply surjective_pairing).
  exact (DeskTurn ApiSample.offline AuthSample.verifier ApiSample.policy 2 i c stage a _ _ ts l Hi Ha).
Qed.

Definition two_begun : gmap nat (Commit * Stage) := <[1%nat := (suspending, Auditing)]> (<[0%nat := (lifting, Auditing)]> ∅).
Definition two_audited : gmap nat (Commit * Stage) :=
  <[0%nat := (lifting, Persisting)]> (<[1%nat := (suspending, Persisting)]> two_begun).
Definition two_stored : gmap nat (Commit * Stage) :=
  <[1%nat := (suspending, Applying)]> (<[0%nat := (lifting, Applying)]> two_audited).

Ltac computed := vm_compute; reflexivity.

Lemma lifting_time : new_time 2 lifting [].
Proof.
  assert (cm_nanos lifting = 2%Z) as Hl by computed.
  split; [rewrite Hl; lia|]. split; [rewrite Hl; unfold NANOS_END; lia|].
  intros c' Hc'. apply not_elem_of_nil in Hc'. destruct Hc'.
Qed.

Lemma suspending_time : new_time 2 suspending [lifting].
Proof.
  assert (cm_nanos suspending = 3%Z) as Hs by computed. assert (cm_nanos lifting = 2%Z) as Hl by computed.
  split; [rewrite Hs; lia|]. split; [rewrite Hs; unfold NANOS_END; lia|].
  intros c' ->%list_elem_of_singleton _ _. rewrite Hs, Hl. lia.
Qed.

Lemma crossing : rtc step (desk suspended ∅ []) (desk both_stored two_stored [suspending; lifting]).
Proof.
  transitivity (desk suspended two_begun [suspending; lifting]); [|transitivity (desk both_audited two_audited [suspending; lifting])].
  - eapply rtc_l; [apply (begin_step 0 (ALiftSuspension "alice") 2 suspended lifting); [computed..|exact lifting_time]|].
    eapply rtc_l; [apply (begin_step 1 (ASuspend "alice" again) 3 suspended suspending); [computed..|exact suspending_time]|apply rtc_refl].
  - eapply rtc_l; [apply (turn_step 1 suspending Auditing Persisting); computed|].
    eapply rtc_l; [apply (turn_step 0 lifting Auditing Persisting); computed|apply rtc_refl].
  - eapply rtc_l; [apply (turn_step 0 lifting Persisting Applying); computed|].
    eapply rtc_l; [apply (turn_step 1 suspending Persisting Applying); computed|apply rtc_refl].
Qed.

(** The one event there is has the time 1. *)
Lemma suspended_past : events_past 2 (api_store suspended).
Proof.
  intros kind key n Hk Hn. destruct (stored _ _ _) as [raw|] eqn:E; [exfalso|done].
  apply fmap_Some in E as (o & E%elem_of_dom_2 & _).
  assert (dom (objects (api_store suspended)) = {[ family_key "" (Records AUDIT) (audit_key SUSPENSIONS "alice" 1);
    family_key "" (Records SUSPENSIONS) "alice" ]}) as Hd by computed.
  rewrite Hd in E. apply elem_of_union in E as [E|E]; apply elem_of_singleton in E;
    (apply family_key_inj in E as [Ef E]; [|reflexivity..]); [|discriminate Ef].
  apply audit_key_inj in E as (_ & _ & ->); [lia|done|reflexivity|lia|unfold NANOS_END; lia].
Qed.

Lemma records_audited_witness :
  exists raw, stored (api_store both_stored) SUSPENSIONS "alice" = Some raw
    /\ audited ApiSample.offline AuthSample.verifier ApiSample.policy (api_store both_stored) SUSPENSIONS "alice" raw.
Proof.
  destruct (records_audited (Sp := unit) ApiSample.offline AuthSample.verifier ApiSample.policy 2 (api_store suspended)
    (desk both_stored two_stored [suspending; lifting]) suspended_past crossing) as (_ & H & _).
  specialize (H SUSPENSIONS "alice" (serde_print (cm_record suspending)) ltac:(apply elem_of_cons; by left)).
  unfold desk in H. cbn [d_store] in H.
  exists (serde_print (cm_record suspending)). assert (stored (api_store both_stored) SUSPENSIONS "alice"
    = Some (serde_print (cm_record suspending))) as Hs by computed.
  split; [exact Hs|]. destruct (H Hs) as [Hold|Hnew]; [|exact Hnew].
  assert (bool_decide (stored (api_store suspended) SUSPENSIONS "alice" = Some (serde_print (cm_record suspending))) = false)
    as Hno by computed.
  apply bool_decide_eq_false in Hno. contradiction.
Defined.
End TaskSample.
