(* ===== verification/CatalogMetadata.v ===== *)
(** * Catalog envelopes and their attributes (src/catalog_metadata.rs)

    A catalog is a ZTDF whose clear manifest is checked: its type, a policy of
    only [uuid] and [body], and exactly one attribute. Attribute policies in
    opentdf-rs's structured form are read by that crate (a parameter). *)

From stdpp Require Import sorting.
From S2P Require Import Prelude Bytes Identifiers Json Extern Samples Moderation.

Definition CATALOG_ENTRY_MIME_TYPE : string := "application/vnd.arkavo.catalog-entry+json".
Definition CATALOG_MIME_TYPE : string := "application/vnd.arkavo.creator-catalog+json".
Definition CAMPAIGN_FQN_PREFIX : string := "https://patreon.arkavo.com/attr/campaign/value/".
Definition CREATOR_FQN_PREFIX : string := "https://arkavo.net/attr/creator/value/".

Record ManifestPolicy := { mp_mime_type : option string; mp_policy : list (string * json) }.

Inductive EnvelopeRefusal := NotCatalog | NoPolicyId | Policy.

(** ** opentdf: attribute policies

    Numbers and times appear as the text their [Display] (or [to_rfc3339])
    gives, which is all that is used of them. *)
Inductive AttributeValue :=
| AVString (s : string)
| AVStringArray (l : list string)
| AVNumber (display : string)
| AVBoolean (b : bool)
| AVDateTime (rfc3339 : string)
| AVNumberArray (display : list string).

#[local] Set Warnings "-register-all".
Inductive AttributePolicy :=
| Condition (namespace name : string) (value : option AttributeValue)
| LogicalAnd (conditions : list AttributePolicy)
| LogicalOr (conditions : list AttributePolicy)
| LogicalNot (condition : AttributePolicy).

Class OpenTdf := { attribute_policy_from_value : json -> option AttributePolicy }.

(** ** Strings in order *)

Definition string_le (a b : string) : Prop := key_le (fun s => s) a b.
#[export] Instance string_le_dec : RelDecision string_le.
Proof. unfold string_le. apply _. Defined.

Definition sort_strings : list string -> list string := merge_sort string_le.

(** [Vec::dedup]: of equal neighbours the first is kept. *)
Fixpoint dedup (l : list string) : list string :=
  match l with
  | x :: (y :: _) as tl => if bool_decide (x = y) then dedup tl else x :: dedup tl
  | _ => l
  end.

Definition bool_str (b : bool) : string := if b then "true" else "false".

Section Metadata.
Context {SJ : Serde} {B64 : Base64} {OT : OpenTdf}.

(** [serde_json::from_slice::<Value>] *)
Definition parse_value (b : bytes) : option json := to_value <$> ok (serde_parse b).

Definition read_manifest (b : bytes) : option ManifestPolicy :=
  manifest ← parse_value b;
  let mime_type := json_get "payload" manifest ≫= get_str "mimeType" in
  info ← json_get "encryptionInformation" manifest;
  text ← get_str "policy" info;
  raw ← b64std_decode text;
  doc ← parse_value raw;
  policy ← as_object doc;
  key_access ← json_get "keyAccess" info ≫= as_array;
  if forallb (fun k => match get_str "url" k with Some _ => true | None => false end) key_access
  then Some {| mp_mime_type := mime_type; mp_policy := policy |} else None.

Definition policy_id (m : ManifestPolicy) : option string :=
  id ← get_str "uuid" (JObject (mp_policy m));
  if is_empty id then None else Some id.

Fixpoint collect_fqns (policy : AttributePolicy) (out : list string) : list string :=
  match policy with
  | Condition namespace name value =>
      let base := "https://" +:+ namespace +:+ "/attr/" +:+ name in
      match value with
      | Some (AVString s) => out ++ [base +:+ "/value/" +:+ s]
      | Some (AVStringArray l) => out ++ ((fun s => base +:+ "/value/" +:+ s) <$> l)
      | Some (AVNumber n) => out ++ [base +:+ "/value/" +:+ n]
      | Some (AVBoolean b) => out ++ [base +:+ "/value/" +:+ bool_str b]
      | Some (AVDateTime d) => out ++ [base +:+ "/value/" +:+ d]
      | Some (AVNumberArray l) => out ++ ((fun n => base +:+ "/value/" +:+ n) <$> l)
      | None => out ++ [base]
      end
  | LogicalAnd l | LogicalOr l =>
      (fix go l out := match l with [] => out | c :: l => go l (collect_fqns c out) end) l out
  | LogicalNot c => collect_fqns c out
  end.

(** One element of [dataAttributes]. *)
Definition attribute_fqns (fqns : list string) (attribute : json) : result string (list string) :=
  match get_str "attribute" attribute with
  | Some fqn => Ok (fqns ++ [fqn])
  | None =>
      p ← ok_or (attribute_policy_from_value attribute) "Failed to parse TDF policy data attribute";
      Ok (collect_fqns p fqns)
  end.

Fixpoint attributes_loop (fqns : list string) (l : list json) : result string (list string) :=
  match l with
  | [] => Ok fqns
  | a :: l => fqns ← attribute_fqns fqns a; attributes_loop fqns l
  end.

Definition extract_attribute_fqns (policy_json : bytes) : result string (list string) :=
  policy ← ok_or (parse_value policy_json) "Failed to parse TDF policy JSON";
  body ← ok_or (json_get "body" policy) "TDF policy has no body";
  attributes ← match json_get "dataAttributes" body with
               | None | Some JNull => Ok []
               | Some (JArray a) => Ok a
               | Some _ => Err "TDF policy dataAttributes is not an array"
               end;
  fqns ← attributes_loop [] attributes;
  Ok (dedup (sort_strings fqns)).

Definition has_attribute (m : ManifestPolicy) (fqn : string) : bool :=
  match extract_attribute_fqns (serde_print (JObject (mp_policy m))) with
  | Ok fqns => existsb (fun f => bool_decide (f = fqn)) fqns
  | Err _ => false
  end.

(** [body.<key>] as a list: absent and [null] are empty. *)
Definition list_of (policy : list (string * json)) (key : string) : option (list json) :=
  match json_get "body" (JObject policy) ≫= json_get key with
  | None | Some JNull => Some []
  | Some (JArray a) => Some a
  | Some _ => None
  end.

Definition is_campaign (f : string) : bool :=
  match strip_prefix CAMPAIGN_FQN_PREFIX f with
  | Some id => negb (is_empty id) && all_bytes is_ascii_digit id
  | None => false
  end.

Definition is_creator (sub f : string) : bool :=
  bool_decide (strip_prefix CREATOR_FQN_PREFIX f = Some sub) && is_lower_uuid sub.

Definition check_envelope (envelope : ManifestPolicy) (sub : string) : result EnvelopeRefusal string :=
  if negb (bool_decide (mp_mime_type envelope = Some CATALOG_MIME_TYPE)) then Err NotCatalog
  else if negb (bool_decide (sort_strings (mp_policy envelope).*1 = ["body"; "uuid"])) then Err Policy
  else if negb (bool_decide (is_Some (policy_id envelope))) then Err NoPolicyId
  else if negb (match list_of (mp_policy envelope) "dissem" with Some [] => true | _ => false end) then Err Policy
  else
    match (match list_of (mp_policy envelope) "dataAttributes" with
           | Some [one] => get_str "attribute" one
           | _ => None
           end) with
    | Some f => if is_campaign f || is_creator sub f then Ok f else Err Policy
    | None => Err Policy
    end.
End Metadata.

(** ** Theorems *)

Section MetadataTheorems.
Context {SJ : Serde} {B64 : Base64} {OT : OpenTdf}.

Lemma sort_two_keys l : sort_strings l = ["body"; "uuid"] <-> l ≡ₚ ["body"; "uuid"].
Proof.
  split.
  - intros <-. symmetry. apply merge_sort_Permutation.
  - intros H. symmetry in H. apply Permutation_length_2_inv in H as [-> | ->]; vm_compute; reflexivity.
Qed.

Lemma policy_id_Some m id :
  policy_id m = Some id <-> get_str "uuid" (JObject (mp_policy m)) = Some id /\ id <> "".
Proof.
  unfold policy_id. destruct (get_str "uuid" _) as [u|]; cbn; [|naive_solver].
  destruct u; cbn; naive_solver.
Qed.

(** The attribute values a catalog may be under. *)
Definition catalog_attribute_of (sub f : string) : Prop :=
  (exists id, f = CAMPAIGN_FQN_PREFIX +:+ id /\ id <> "" /\ all_bytes is_ascii_digit id = true)
  \/ (f = CREATOR_FQN_PREFIX +:+ sub /\ is_lower_uuid sub = true).

Lemma is_campaign_or_creator sub f :
  is_campaign f || is_creator sub f = true <-> catalog_attribute_of sub f.
Proof.
  unfold is_campaign, is_creator, catalog_attribute_of. rewrite orb_true_iff, andb_true_iff, bool_decide_eq_true.
  rewrite strip_prefix_Some. apply or_iff_compat_r. split.
  - destruct (strip_prefix CAMPAIGN_FQN_PREFIX f) as [id|] eqn:E; [|done].
    apply strip_prefix_Some in E as ->. intros [Hne Hd]%andb_true_iff. exists id.
    split; [done|]. by destruct id.
  - intros (id & -> & Hne & Hd). rewrite strip_prefix_app, Hd. by destruct id.
Qed.

(** Exactly which envelopes are a subject's catalog: a manifest of the
    catalog type whose policy has only a [body] and a non-empty [uuid], no
    dissemination list, and one attribute, which is a campaign value (digits)
    or the creator value of this very subject (a lowercase account UUID). Its
    result is that attribute. *)
Theorem check_envelope_exact envelope sub f :
  check_envelope envelope sub = Ok f <->
  mp_mime_type envelope = Some CATALOG_MIME_TYPE
  /\ (mp_policy envelope).*1 ≡ₚ ["body"; "uuid"]
  /\ (exists id, get_str "uuid" (JObject (mp_policy envelope)) = Some id /\ id <> "")
  /\ list_of (mp_policy envelope) "dissem" = Some []
  /\ (exists one, list_of (mp_policy envelope) "dataAttributes" = Some [one]
       /\ get_str "attribute" one = Some f)
  /\ catalog_attribute_of sub f.
Proof.
  unfold check_envelope.
  case_bool_decide as Hm; cbn [negb]; [|naive_solver].
  case_bool_decide as Hk; cbn [negb]; rewrite <- sort_two_keys; [|naive_solver].
  case_bool_decide as Hi; cbn [negb].
  2: { split; [done|]. intros (_ & _ & (id & Hid) & _). apply policy_id_Some in Hid.
       rewrite Hid in Hi. by destruct Hi. }
  destruct (list_of (mp_policy envelope) "dissem") as [[|]|] eqn:Hd; cbn [negb]; [|naive_solver..].
  destruct Hi as [id Hid%policy_id_Some].
  destruct (list_of (mp_policy envelope) "dataAttributes") as [[|one [|]]|]; [naive_solver| |naive_solver..].
  destruct (get_str "attribute" one) as [g|] eqn:Hg; [|naive_solver].
  destruct (is_campaign g || is_creator sub g) eqn:Hc; rewrite <- is_campaign_or_creator.
  - split; [intros [= ->]; split_and!; try done; eauto|]. intros (_ & _ & _ & _ & (one' & [= <-] & Hg') & _).
    rewrite Hg in Hg'. by injection Hg' as ->.
  - split; [done|]. intros (_ & _ & _ & _ & (one' & [= <-] & Hg') & Hf).
    rewrite Hg in Hg'. injection Hg' as ->. congruence.
Qed.
End MetadataTheorems.
