(* ===== verification/CreatorCatalog.v ===== *)
(** * The clear entry list of a catalog (src/creator_catalog.rs)

    The index a publisher sends: at most 1000 recordings, each named by a
    content id, a version, a hash and a size. *)

From S2P Require Import Prelude Bytes Identifiers Json Extern Samples.

Definition MAX_CATALOG_BYTES : Z := 4 * 1024 * 1024.
Definition MAX_ENTRIES : Z := 1000.
Definition MAX_OWNER_BYTES : Z := 248.
Definition MAX_CONTENT_ID_BYTES : Z := 256.
Definition MAX_VERSION : Z := 9007199254740991.
Definition MAX_PAYLOAD_SIZE : Z := 4294967295.

Record CreatorCatalogEntry := {
  content_id : string;
  version : Z;
  payload_hash : string;
  payload_size : Z
}.

Section Index.
Context {SJ : Serde}.

Definition de_entry (j : json) : result serde_error CreatorCatalogEntry :=
  l ← struct_fields ["contentID"; "version"; "payloadHash"; "payloadSize"] true j;
  c ← field de_string "contentID" l;
  v ← field de_u64 "version" l;
  h ← field de_string "payloadHash" l;
  s ← field de_u64 "payloadSize" l;
  Ok {| content_id := c; version := v; payload_hash := h; payload_size := s |}.

Definition in_range (lo hi n : Z) : bool := ((lo <=? n) && (n <=? hi))%Z.

Definition entry (raw : json) : result string CreatorCatalogEntry :=
  e ← map_err serde_display (de_entry raw);
  if negb (valid_identifier (content_id e) MAX_CONTENT_ID_BYTES)
  then Err ("contentID must be 1-256 bytes of [A-Za-z0-9:._@-] without " +:+ dquote +:+ ".." +:+ dquote)
  else if negb (in_range 1 MAX_VERSION (version e))
  then Err "version must be an integer from 1 to 9007199254740991"
  else if negb (is_lower_hex_hash (payload_hash e))
  then Err "payloadHash must be 64 lowercase hex characters"
  else if negb (in_range 1 MAX_PAYLOAD_SIZE (payload_size e))
  then Err "payloadSize must be an integer from 1 to 4294967295"
  else Ok e.

(** The loop: [content_ids] maps each id seen to its position. *)
Fixpoint index_loop (i : nat) (content_ids : gmap string nat) (raw : list json) :
    result string (list CreatorCatalogEntry) :=
  match raw with
  | [] => Ok []
  | r :: raw =>
      e ← map_err (fun reason => "entries[" +:+ pretty i +:+ "]." +:+ reason) (entry r);
      match content_ids !! content_id e with
      | Some first =>
          Err ("entries[" +:+ pretty i +:+ "].contentID duplicates entries["
               +:+ pretty first +:+ "].contentID")
      | None =>
          entries ← index_loop (S i) (<[content_id e := i]> content_ids) raw;
          Ok (e :: entries)
      end
  end.

Definition parse_index (index : json) : result string (list CreatorCatalogEntry) :=
  match index with
  | JArray raw =>
      if (MAX_ENTRIES <? Z.of_nat (length raw))%Z
      then Err "must be an array of at most 1000 entries"
      else index_loop 0 ∅ raw
  | _ => Err "must be an array of at most 1000 entries"
  end.

(** ** Theorems *)

Record entry_ok (e : CreatorCatalogEntry) : Prop := {
  ok_content_id : valid_identifier (content_id e) 256 = true;
  ok_version : (1 <= version e <= 2 ^ 53 - 1)%Z;
  ok_hash : is_lower_hex_hash (payload_hash e) = true;
  ok_size : (1 <= payload_size e <= 2 ^ 32 - 1)%Z
}.

Lemma in_range_true lo hi n : in_range lo hi n = true <-> (lo <= n <= hi)%Z.
Proof. unfold in_range. rewrite andb_true_iff, !Z.leb_le. done. Qed.

Lemma entry_spec raw e : entry raw = Ok e <-> de_entry raw = Ok e /\ entry_ok e.
Proof.
  unfold entry. rewrite result_bind_ok. split.
  - intros (e' & He%map_err_ok & H).
    destruct (valid_identifier _ _) eqn:H1; [|done]. destruct (in_range 1 MAX_VERSION _) eqn:H2; [|done].
    destruct (is_lower_hex_hash _) eqn:H3; [|done]. destruct (in_range 1 MAX_PAYLOAD_SIZE _) eqn:H4; [|done].
    cbn in H. simplify_eq. split; [done|]. apply in_range_true in H2, H4. by split.
  - intros [He [H1 H2 H3 H4]]. exists e. split; [by apply map_err_ok|].
    change 256%Z with MAX_CONTENT_ID_BYTES in H1. rewrite H1, H3.
    rewrite (proj2 (in_range_true 1 MAX_VERSION _) H2), (proj2 (in_range_true 1 MAX_PAYLOAD_SIZE _) H4). done.
Qed.

Lemma index_loop_spec i ids raw entries :
  index_loop i ids raw = Ok entries <->
  Forall2 (fun r e => entry r = Ok e) raw entries
  /\ NoDup (content_id <$> entries) /\ Forall (fun e => ids !! content_id e = None) entries.
Proof.
  revert i ids entries; induction raw as [|r raw IH]; intros i ids entries; cbn.
  { split; [intros [= <-]; split_and!; constructor|]. intros (H & _). by inversion H. }
  rewrite result_bind_ok. split.
  - intros (e & He%map_err_ok & H). destruct (ids !! content_id e) eqn:Hid; [done|].
    apply result_bind_ok in H as (es & Hes & [= <-]). apply IH in Hes as (Hf & Hnd & Hids).
    rewrite Forall_forall in Hids. split_and!.
    + by constructor.
    + cbn. constructor; [|done]. intros (e' & Heq & Hin)%list_elem_of_fmap.
      specialize (Hids e' Hin). rewrite Heq, lookup_insert_eq in Hids. done.
    + constructor; [done|]. apply Forall_forall. intros e' Hin. specialize (Hids e' Hin).
      by apply lookup_insert_None in Hids as [? _].
  - intros (Hf & Hnd & Hids). inversion Hf as [|? e ? es He Hes]; subst.
    cbn in Hnd. apply NoDup_cons in Hnd as [Hni Hnd]. apply Forall_cons in Hids as [Hid Hids].
    exists e. split; [by apply map_err_ok|]. rewrite Hid. apply result_bind_ok. exists es.
    split; [|done]. apply IH. split_and!; [done..|]. rewrite Forall_forall in Hids |- *.
    intros e' Hin. rewrite lookup_insert_ne; [by apply Hids|]. intros Heq. apply Hni.
    apply list_elem_of_fmap. by exists e'.
Qed.

(** An index is accepted exactly when it is an array of at most 1000
    readable entries with distinct content ids, each with a valid identifier,
    a version and a size in range and a lowercase hash; the entries are
    returned in order. *)
Theorem parse_index_exact index entries :
  parse_index index = Ok entries <->
  exists raw, index = JArray raw /\ (length raw <= 1000)%nat
    /\ Forall2 (fun r e => de_entry r = Ok e /\ entry_ok e) raw entries
    /\ NoDup (content_id <$> entries).
Proof.
  unfold parse_index. assert (forall raw : list json, (MAX_ENTRIES <? Z.of_nat (length raw))%Z = false <->
    (length raw <= 1000)%nat) as Hlen by (intros; rewrite Z.ltb_ge; unfold MAX_ENTRIES; lia).
  split.
  - destruct index; try done. specialize (Hlen l). destruct (MAX_ENTRIES <? _)%Z; [done|].
    intros (Hf & Hnd & _)%index_loop_spec. exists l. split_and!; [done|by apply Hlen| |done].
    eapply Forall2_impl; [exact Hf|]. intros. by apply entry_spec.
  - intros (raw & -> & Hl%Hlen & Hf & Hnd). rewrite Hl. apply index_loop_spec. split_and!; [|done|].
    + eapply Forall2_impl; [exact Hf|]. intros. by apply entry_spec.
    + apply Forall_true. intros. apply lookup_empty.
Qed.
End Index.
