(* ===== verification/CatalogV2.v ===== *)
(** * Signed catalog pointers (src/catalog_v2.rs)

    A pointer names the catalog document; the creator's passkey signs it; the
    identity provider attests that the passkey is the creator's. The whole
    chain is checked here, on the verifier's key cache. *)

From S2P Require Import Prelude Bytes Identifiers Json Extern Samples Auth CreatorCatalog.

Definition POINTER_SCHEMA : string := "arkavo.catalog-pointer/1".
Definition CREDENTIAL_CONTENT_TYPE : string := "application/arkavo-passkey-credential+cbor".
Definition MAX_SEQ : Z := 9007199254740991.
Definition MAX_POINTER_BYTES : Z := 1024.
Definition MAX_CREDENTIAL_ID_BYTES : Z := 1023.
Definition MAX_AUTHENTICATOR_DATA_BYTES : Z := 4096.
Definition MAX_CLIENT_DATA_BYTES : Z := 4096.
Definition MAX_SIGNATURE_BYTES : Z := 80.
Definition MAX_ATTESTATION_BYTES : Z := 4096.
Definition FLAG_UP : Z := 1.
Definition FLAG_UV : Z := 4.
Definition SKEW_SECS : Z := 60.

Record Passkeys := { pk_rp_id : string; pk_origin : string }.
Definition for_rp (rp_id : string) : Passkeys :=
  {| pk_rp_id := rp_id; pk_origin := "https://" +:+ rp_id |}.

Record Pointer := {
  pt_schema : string;
  pt_owner : string;
  pt_seq : Z;
  pt_catalog_hash : string;
  pt_catalog_size : Z;
  pt_issued_at : string
}.

Record Assertion := {
  as_credential_id : string;
  as_authenticator_data : string;
  as_client_data_json : string;
  as_signature : string
}.

Record Bundle := { bd_pointer : string; bd_assertion : Assertion; bd_credential : string }.

Inductive BundleError := Invalid (why : string) | BKeySet (why : string).

Record Credential {EC : P256} := {
  cr_sub : string;
  cr_credential_id : bytes;
  cr_public_key : vkey;
  cr_rp_id : string;
  cr_iss : string;
  cr_iat : Z
}.

Record VerifiedBundle := { vb_pointer : Pointer; vb_credential_id : bytes }.

Section Pointers.
Context {SJ : Serde}.

Definition de_pointer (j : json) : result serde_error Pointer :=
  l ← struct_fields ["schema"; "owner"; "seq"; "catalogHash"; "catalogSize"; "issuedAt"] true j;
  s ← field de_string "schema" l;
  o ← field de_string "owner" l;
  n ← field de_u64 "seq" l;
  h ← field de_string "catalogHash" l;
  z ← field de_u64 "catalogSize" l;
  t ← field de_string "issuedAt" l;
  Ok {| pt_schema := s; pt_owner := o; pt_seq := n; pt_catalog_hash := h; pt_catalog_size := z;
        pt_issued_at := t |}.

Definition pointer_error (e : serde_error) : string := "pointer: " +:+ serde_display e.

Definition parse_pointer (b : bytes) : result string Pointer :=
  if (MAX_POINTER_BYTES <? len b)%Z then Err "pointer larger than 1024 bytes"
  else if negb (utf8_valid b) then Err "pointer is not UTF-8"
  else
    j ← map_err pointer_error (serde_parse b);
    if negb (no_duplicate_keys j) then Err (pointer_error (Custom "duplicate key"))
    else
      p ← map_err pointer_error (de_pointer j);
      if negb (bool_decide (pt_schema p = POINTER_SCHEMA))
      then Err ("pointer schema must be " +:+ dquote +:+ POINTER_SCHEMA +:+ dquote)
      else if negb (valid_identifier (pt_owner p) MAX_OWNER_BYTES)
      then Err ("pointer owner must be 1-248 bytes of [A-Za-z0-9:._@-] without " +:+ dquote +:+ ".." +:+ dquote)
      else if negb (in_range 1 MAX_SEQ (pt_seq p)) then Err "pointer seq must be 1-9007199254740991"
      else if negb (is_lower_hex_hash (pt_catalog_hash p))
      then Err "pointer catalogHash must be 64 lowercase hex characters"
      else if negb (in_range 1 MAX_CATALOG_BYTES (pt_catalog_size p))
      then Err "pointer catalogSize must be 1-4194304"
      else if negb (is_utc_timestamp (pt_issued_at p))
      then Err "pointer issuedAt must be YYYY-MM-DDTHH:MM:SSZ"
      else Ok p.
End Pointers.

(** ** Attestations *)

(** The loop's variables. *)
Record cred_acc {EC : P256} := {
  k_seen : list string;
  k_typ : option string;
  k_iss : option string;
  k_sub : option string;
  k_id : option bytes;
  k_key : option vkey;
  k_rp : option string;
  k_iat : option Z
}.

Section Attestations.
Context {CB : Ciborium} {CO : Coset} {EC : P256}.

Definition cred_empty : cred_acc :=
  {| k_seen := []; k_typ := None; k_iss := None; k_sub := None; k_id := None; k_key := None;
     k_rp := None; k_iat := None |}.

(** The [match] on a key and its value. *)
Definition cred_field (k : string) (v : cbor) (a : cred_acc) : result string cred_acc :=
  let '(seen, typ, iss) := (k_seen a, k_typ a, k_iss a) in
  let '(sub, id, key) := (k_sub a, k_id a, k_key a) in
  let '(rp, iat) := (k_rp a, k_iat a) in
  let mk typ iss sub id key rp iat :=
    Ok {| k_seen := seen; k_typ := typ; k_iss := iss; k_sub := sub; k_id := id; k_key := key;
          k_rp := rp; k_iat := iat |} in
  let unexpected := Err ("credential has unexpected or mistyped " +:+ k) in
  match v with
  | CText s =>
      if decide (k = "typ") then mk (Some s) iss sub id key rp iat
      else if decide (k = "iss") then mk typ (Some s) sub id key rp iat
      else if decide (k = "sub") then mk typ iss (Some s) id key rp iat
      else if decide (k = "rpId") then mk typ iss sub id key (Some s) iat
      else unexpected
  | CBytes b => if decide (k = "credentialId") then mk typ iss sub (Some b) key rp iat else unexpected
  | CMap _ =>
      if decide (k = "publicKey") then
        cose ← ok_or (key_from_cbor v) "credential publicKey is not a COSE_Key";
        vk ← map_err (fun e => "credential publicKey: " +:+ e) (p256_from_cose_key cose);
        mk typ iss sub id (Some vk) rp iat
      else unexpected
  | CInteger n =>
      if decide (k = "iat") then
        z ← ok_or (i64_try_from n) "credential iat"; mk typ iss sub id key rp (Some z)
      else unexpected
  | _ => unexpected
  end.

Definition cred_seen (k : string) (a : cred_acc) : cred_acc :=
  {| k_seen := k :: k_seen a; k_typ := k_typ a; k_iss := k_iss a; k_sub := k_sub a; k_id := k_id a;
     k_key := k_key a; k_rp := k_rp a; k_iat := k_iat a |}.

Fixpoint cred_loop (a : cred_acc) (l : list (cbor * cbor)) : result string cred_acc :=
  match l with
  | [] => Ok a
  | (CText k, v) :: l =>
      if bool_decide (k ∈ k_seen a) then Err ("credential repeats " +:+ k)
      else a ← cred_field k v (cred_seen k a); cred_loop a l
  | _ => Err "credential keys must be text"
  end.

Definition missing (name : string) : string := "credential is missing " +:+ name.

Definition parse_credential (payload : bytes) : result string Credential :=
  match cbor_parse payload with
  | None => Err "credential payload is not CBOR"
  | Some (CMap entries) =>
      a ← cred_loop cred_empty entries;
      if negb (bool_decide (k_typ a = Some PASSKEY_CREDENTIAL_TYP))
      then Err ("credential typ must be " +:+ dquote +:+ PASSKEY_CREDENTIAL_TYP +:+ dquote)
      else
        iss ← ok_or (k_iss a) (missing "iss");
        sub ← ok_or (non_empty_bytes (k_sub a)) (missing "sub");
        id ← ok_or (non_empty_bytes (k_id a)) (missing "credentialId");
        key ← ok_or (k_key a) (missing "publicKey");
        rp ← ok_or (k_rp a) (missing "rpId");
        iat ← ok_or (k_iat a) (missing "iat");
        Ok {| cr_sub := sub; cr_credential_id := id; cr_public_key := key; cr_rp_id := rp;
              cr_iss := iss; cr_iat := iat |}
  | Some _ => Err "credential payload is not a map"
  end.

Context (http_get : string -> http_answer).

Definition sign1_error (e : AuthError) : BundleError :=
  match e with
  | KeySet why => BKeySet why
  | UnknownKid => Invalid "credential signed by an unknown key"
  | Algorithm => Invalid "credential must be ES256"
  | _ => Invalid "credential signature does not verify"
  end.

Definition credential_content_type (s : CoseSign1) : bool :=
  match cs_content_type s with
  | Some (ContentText t) => bool_decide (t = CREDENTIAL_CONTENT_TYPE)
  | _ => false
  end.

Definition verify_credential (b : bytes) (verifier : CwtVerifier) (now inst : Z) :
    comp KeyCache BundleError Credential :=
  sign1 ← lift (ok_or (if starts_with (String "210" "") b then sign1_from_tagged_slice b
                       else sign1_from_slice b) (Invalid "credential is not a COSE_Sign1"));
  if negb (credential_content_type sign1)
  then throw (Invalid ("credential content type must be " +:+ dquote +:+ CREDENTIAL_CONTENT_TYPE +:+ dquote))
  else
    _ ← comp_map_err sign1_error (verify_sign1 http_get verifier inst sign1);
    payload ← lift (ok_or (cs_payload sign1) (Invalid "credential has no payload"));
    credential ← lift (map_err Invalid (parse_credential payload));
    if match expected_iss verifier with
       | Some i => negb (bool_decide (cr_iss credential = i))
       | None => false
       end
    then throw (Invalid "credential issuer mismatch")
    else if (i64_add now SKEW_SECS <? cr_iat credential)%Z
    then throw (Invalid "credential issued in the future")
    else mret credential.
End Attestations.

(** ** Assertions and bundles *)

Section Bundles.
Context {SJ : Serde} {B64 : Base64} {CB : Ciborium} {CO : Coset} {EC : P256} {SH : Sha2}.

Definition b64 (field value : string) (max : Z) : result BundleError bytes :=
  if (((max + 2) / 3) * 4 <? len value)%Z then Err (Invalid (field +:+ " too large"))
  else
    b ← ok_or (b64url_decode value) (Invalid (field +:+ " is not unpadded base64url"));
    if is_empty b || (max <? len b)%Z
    then Err (Invalid (field +:+ " must be 1-" +:+ pretty max +:+ " bytes"))
    else Ok b.

(** The byte at a position, as an integer. *)
Definition byte_at (i : nat) (b : bytes) : Z :=
  match String.get i b with Some c => Z.of_N (u8 c) | None => 0 end.

Definition verify_assertion (pointer_bytes : bytes) (assertion : Assertion) (key : vkey)
    (passkeys : Passkeys) : result BundleError unit :=
  auth_data ← b64 "assertion.authenticatorData" (as_authenticator_data assertion) MAX_AUTHENTICATOR_DATA_BYTES;
  client_data ← b64 "assertion.clientDataJSON" (as_client_data_json assertion) MAX_CLIENT_DATA_BYTES;
  signature ← b64 "assertion.signature" (as_signature assertion) MAX_SIGNATURE_BYTES;
  doc ← map_err (fun _ => Invalid "clientDataJSON is not JSON") (serde_parse client_data);
  let cd := to_value doc in
  if negb (bool_decide (get_str "type" cd = Some "webauthn.get"))
  then Err (Invalid "clientDataJSON type must be webauthn.get")
  else
    challenge ← ok_or (get_str "challenge" cd ≫= b64url_decode)
      (Invalid "clientDataJSON challenge missing or not base64url");
    if negb (bool_decide (challenge = sha256 pointer_bytes))
    then Err (Invalid "assertion challenge is not SHA-256 of the pointer")
    else if negb (bool_decide (get_str "origin" cd = Some (pk_origin passkeys)))
    then Err (Invalid "clientDataJSON origin is not this relying party")
    else if bool_decide ((json_get "crossOrigin" cd ≫= as_bool) = Some true)
    then Err (Invalid "cross-origin assertions are refused")
    else if (len auth_data <? 37)%Z then Err (Invalid "authenticatorData too short")
    else if negb (bool_decide (String.substring 0 32 auth_data = sha256 (pk_rp_id passkeys)))
    then Err (Invalid "authenticatorData rpIdHash is not this relying party")
    else
      let flags := byte_at 32 auth_data in
      if (Z.land flags FLAG_UP =? 0)%Z || (Z.land flags FLAG_UV =? 0)%Z
      then Err (Invalid "assertion must have user presence and verification")
      else
        signature ← ok_or (sig_from_der signature) (Invalid "assertion signature is not DER ECDSA");
        if p256_verify key (auth_data +:+ sha256 client_data) signature then Ok tt
        else Err (Invalid "assertion signature does not verify").

Definition check_credential (credential : Credential) (pointer : Pointer) (passkeys : Passkeys) :
    result BundleError unit :=
  if negb (bool_decide (cr_sub credential = pt_owner pointer))
  then Err (Invalid "credential subject does not match the pointer owner")
  else if negb (bool_decide (cr_rp_id credential = pk_rp_id passkeys))
  then Err (Invalid "credential rpId is not this relying party")
  else Ok tt.

Context (http_get : string -> http_answer).

Definition verify_bundle (bundle : Bundle) (expected_owner : string) (verifier : CwtVerifier)
    (passkeys : Passkeys) (now inst : Z) : comp KeyCache BundleError VerifiedBundle :=
  pointer_bytes ← lift (b64 "pointer" (bd_pointer bundle) MAX_POINTER_BYTES);
  pointer ← lift (map_err Invalid (parse_pointer pointer_bytes));
  if negb (bool_decide (pt_owner pointer = expected_owner))
  then throw (Invalid "pointer owner does not match the catalog subject")
  else
    attestation ← lift (b64 "credential" (bd_credential bundle) MAX_ATTESTATION_BYTES);
    credential ← verify_credential http_get attestation verifier now inst;
    _ ← lift (check_credential credential pointer passkeys);
    credential_id ← lift (b64 "assertion.credentialId" (as_credential_id (bd_assertion bundle))
                            MAX_CREDENTIAL_ID_BYTES);
    if negb (bool_decide (credential_id = cr_credential_id credential))
    then throw (Invalid "assertion credentialId does not match the attested credential")
    else
      _ ← lift (verify_assertion pointer_bytes (bd_assertion bundle) (cr_public_key credential) passkeys);
      mret {| vb_pointer := pointer; vb_credential_id := credential_id |}.

(** [Deserialize for Bundle] *)
Definition de_assertion (_ : string) (j : json) : result serde_error Assertion :=
  l ← struct_fields ["credentialId"; "authenticatorData"; "clientDataJSON"; "signature"] true j;
  c ← field de_string "credentialId" l;
  a ← field de_string "authenticatorData" l;
  d ← field de_string "clientDataJSON" l;
  s ← field de_string "signature" l;
  Ok {| as_credential_id := c; as_authenticator_data := a; as_client_data_json := d; as_signature := s |}.

Definition de_bundle (_ : string) (j : json) : result serde_error Bundle :=
  l ← struct_fields ["pointer"; "assertion"; "credential"] true j;
  p ← field de_string "pointer" l;
  a ← field de_assertion "assertion" l;
  c ← field de_string "credential" l;
  Ok {| bd_pointer := p; bd_assertion := a; bd_credential := c |}.

Definition ser_bundle (b : Bundle) : json :=
  JObject [("pointer", JString (bd_pointer b));
           ("assertion", JObject [
              ("credentialId", JString (as_credential_id (bd_assertion b)));
              ("authenticatorData", JString (as_authenticator_data (bd_assertion b)));
              ("clientDataJSON", JString (as_client_data_json (bd_assertion b)));
              ("signature", JString (as_signature (bd_assertion b)))]);
           ("credential", JString (bd_credential b))].
End Bundles.

(** ** Facts *)

Record pointer_ok (p : Pointer) : Prop := {
  pok_schema : pt_schema p = POINTER_SCHEMA;
  pok_owner : valid_identifier (pt_owner p) 248 = true;
  pok_seq : (1 <= pt_seq p <= 2 ^ 53 - 1)%Z;
  pok_hash : is_lower_hex_hash (pt_catalog_hash p) = true;
  pok_size : (1 <= pt_catalog_size p <= 4194304)%Z;
  pok_issued : is_utc_timestamp (pt_issued_at p) = true
}.

Section Facts.
Context {SJ : Serde} {B64 : Base64} {CB : Ciborium} {CO : Coset} {EC : P256} {SH : Sha2}.

Lemma parse_pointer_ok b p :
  parse_pointer b = Ok p ->
  (len b <= 1024)%Z /\ utf8_valid b = true
  /\ (exists j, serde_parse b = Ok j /\ unique_keys j /\ de_pointer j = Ok p) /\ pointer_ok p.
Proof.
  unfold parse_pointer. destruct (Z.ltb_spec MAX_POINTER_BYTES (len b)); [done|].
  destruct (utf8_valid b); [|done]. cbn [negb]. intros (j & Hj%map_err_ok & H')%result_bind_ok.
  destruct (no_duplicate_keys j) eqn:Hd; [|done]. cbn [negb] in H'.
  apply result_bind_ok in H' as (p' & Hp%map_err_ok & H').
  case_bool_decide as H1; [|done]. destruct (valid_identifier _ _) eqn:H2; [|done].
  destruct (in_range 1 MAX_SEQ _) eqn:H3; [|done]. destruct (is_lower_hex_hash _) eqn:H4; [|done].
  destruct (in_range 1 MAX_CATALOG_BYTES _) eqn:H5; [|done]. destruct (is_utc_timestamp _) eqn:H6; [|done].
  cbn in H'. simplify_eq. apply in_range_true in H3, H5. split_and!; try done.
  exists j. split_and!; try done. by apply no_duplicate_keys_unique.
Qed.

(** [value] is the base64url of [b], within the size. *)
Definition encodes (max : Z) (value : string) (b : bytes) : Prop :=
  (len value <= ((max + 2) / 3) * 4)%Z /\ b64url_decode value = Some b /\ b <> "" /\ (len b <= max)%Z.

Lemma b64_ok field value max b : b64 field value max = Ok b <-> encodes max value b.
Proof.
  unfold b64, encodes. destruct (Z.ltb_spec (((max + 2) / 3) * 4) (len value)); [split; [done|lia]|].
  destruct (b64url_decode value) as [b'|]; cbn; [|by split; [|intros (_ & ? & _)]].
  destruct b' as [|x b']; cbn; [split; [done|naive_solver]|].
  destruct (Z.ltb_spec max (len (String x b'))); (split; [|naive_solver lia]); [done|]. intros [= <-]. split_and!; [lia|done..].
Qed.

(** The passkey signed these pointer bytes for this relying party, with the
    user present and verified. *)
Definition passkey_signed (pointer_bytes : bytes) (a : Assertion) (key : vkey) (pk : Passkeys) : Prop :=
  exists auth_data client_data der doc signature,
    encodes MAX_AUTHENTICATOR_DATA_BYTES (as_authenticator_data a) auth_data
    /\ encodes MAX_CLIENT_DATA_BYTES (as_client_data_json a) client_data
    /\ encodes MAX_SIGNATURE_BYTES (as_signature a) der
    /\ serde_parse client_data = Ok doc
    /\ get_str "type" (to_value doc) = Some "webauthn.get"
    /\ (get_str "challenge" (to_value doc) ≫= b64url_decode) = Some (sha256 pointer_bytes)
    /\ get_str "origin" (to_value doc) = Some (pk_origin pk)
    /\ (json_get "crossOrigin" (to_value doc) ≫= as_bool) <> Some true
    /\ (37 <= len auth_data)%Z
    /\ String.substring 0 32 auth_data = sha256 (pk_rp_id pk)
    /\ Z.testbit (byte_at 32 auth_data) 0 = true /\ Z.testbit (byte_at 32 auth_data) 2 = true
    /\ sig_from_der der = Some signature
    /\ p256_verify key (auth_data +:+ sha256 client_data) signature = true.

Lemma land_bit f k : (0 <= k)%Z -> (Z.land f (2 ^ k) =? 0)%Z = negb (Z.testbit f k).
Proof.
  intros Hk. destruct (Z.testbit f k) eqn:E; cbn.
  - apply Z.eqb_neq. intros H. assert (Z.testbit (Z.land f (2 ^ k)) k = false) as H1
      by (rewrite H; apply Z.bits_0). rewrite Z.land_spec, E, Z.pow2_bits_true in H1 by done. done.
  - apply Z.eqb_eq, Z.bits_inj'. intros n Hn. rewrite Z.land_spec, Z.bits_0, Z.pow2_bits_eqb by done.
    destruct (Z.eqb_spec k n) as [->|]; [by rewrite E|apply andb_false_r].
Qed.

Lemma verify_assertion_ok pointer_bytes a key pk :
  verify_assertion pointer_bytes a key pk = Ok tt <-> passkey_signed pointer_bytes a key pk.
Proof.
  unfold verify_assertion. change FLAG_UP with (2 ^ 0)%Z. change FLAG_UV with (2 ^ 2)%Z. split.
  - intros (auth & Ha%b64_ok & H)%result_bind_ok.
    apply result_bind_ok in H as (cl & Hc%b64_ok & H). apply result_bind_ok in H as (sg & Hs%b64_ok & H).
    apply result_bind_ok in H as (doc & Hd%map_err_ok & H).
    case_bool_decide as H1; [|done]. cbn [negb] in H.
    apply result_bind_ok in H as (ch & Hch%ok_or_ok & H).
    case_bool_decide as H2; [|done]. case_bool_decide as H3; [|done]. case_bool_decide as H4; [done|].
    cbn [negb] in H. destruct (Z.ltb_spec (len auth) 37); [done|].
    case_bool_decide as H5; [|done]. cbn [negb] in H. rewrite !land_bit in H by lia.
    destruct (Z.testbit (byte_at 32 auth) 0) eqn:H6; [|done].
    destruct (Z.testbit (byte_at 32 auth) 2) eqn:H7; [|done]. cbn in H.
    apply result_bind_ok in H as (sig' & Hsig%ok_or_ok & H).
    exists auth, cl, sg, doc, sig'. subst ch. split_and!; try done. by destruct (p256_verify _ _ _).
  - intros (auth & cl & sg & doc & sig' & Ha & Hc & Hs & Hd & H1 & H2 & H3 & H4 & H5 & H6 & H7 & H8 & H9 & H10).
    rewrite (proj2 (b64_ok _ _ _ _) Ha), (proj2 (b64_ok _ _ _ _) Hc), (proj2 (b64_ok _ _ _ _) Hs). cbn [mbind result_bind].
    rewrite Hd. cbn [map_err mbind result_bind]. rewrite (bool_decide_true _ H1). cbn [negb]. rewrite H2. cbn [ok_or mbind result_bind].
    rewrite bool_decide_true by done. rewrite (bool_decide_true _ H3), (bool_decide_false _ H4). cbn [negb].
    destruct (Z.ltb_spec (len auth) 37); [lia|]. rewrite (bool_decide_true _ H6). cbn [negb].
    rewrite !land_bit, H7, H8 by lia. cbn [negb orb]. rewrite H9. cbn [ok_or mbind result_bind]. by rewrite H10.
Qed.

(** The identity provider attested this credential. *)
Definition attested (http_get : string -> http_answer) (verifier : CwtVerifier) (now inst : Z) (c : KeyCache)
    (attestation : bytes) (s : CoseSign1) (payload : bytes) (cr : Credential) : Prop :=
  (if starts_with (String "210" "") attestation then sign1_from_tagged_slice attestation
   else sign1_from_slice attestation) = Some s
  /\ cs_content_type s = Some (ContentText CREDENTIAL_CONTENT_TYPE)
  /\ (cs_alg s = Some ES256 /\ cs_crit s = [] /\ cs_key_id s <> ""
      /\ exists key, key_for http_get verifier inst c (cs_key_id s) key /\ verify_signature key s = true)
  /\ cs_payload s = Some payload
  /\ parse_credential payload = Ok cr
  /\ (forall i, expected_iss verifier = Some i -> cr_iss cr = i)
  /\ (cr_iat cr <= i64_add now SKEW_SECS)%Z.

Lemma credential_content_type_true s :
  credential_content_type s = true <-> cs_content_type s = Some (ContentText CREDENTIAL_CONTENT_TYPE).
Proof.
  unfold credential_content_type. destruct (cs_content_type s) as [[t|]|]; try (split; done).
  rewrite bool_decide_eq_true. naive_solver.
Qed.

Lemma issuer_pinned verifier cr :
  match expected_iss verifier with Some i => negb (bool_decide (cr_iss cr = i)) | None => false end = false
  <-> forall i, expected_iss verifier = Some i -> cr_iss cr = i.
Proof.
  destruct (expected_iss verifier) as [i|]; [|split; [by intros _ i|done]].
  rewrite negb_false_iff, bool_decide_eq_true. naive_solver.
Qed.

Lemma verify_credential_ok http_get b verifier now inst c cr :
  (exists c', verify_credential http_get b verifier now inst c = (Ok cr, c'))
  <-> exists s payload, attested http_get verifier now inst c b s payload cr.
Proof.
  unfold verify_credential, attested. split.
  - intros [c' H]. inv_run.
    destruct (credential_content_type x) eqn:Hct; cbn [negb] in H; [|by apply throw_ok in H].
    inv_run. match goal with u : unit |- _ => destruct u end.
    destruct (verify_sign1_spec http_get verifier inst x c) as [Hs _]. specialize (Hs (ex_intro _ _ H1)).
    destruct (match expected_iss verifier with Some _ => _ | None => _ end) eqn:Hi; [by apply throw_ok in H|].
    destruct (Z.ltb_spec (i64_add now SKEW_SECS) (cr_iat x4)); [by apply throw_ok in H|]. inv_run.
    apply credential_content_type_true in Hct. eexists _, _. split_and!; try done; try apply Hs. by apply issuer_pinned.
  - intros (s & payload & Hs & Hct & Hv & Hp & Hc & Hi & Ht). rewrite Hs. unfold lift, comp_map_err, mbind, comp_bind. cbn [ok_or].
    apply credential_content_type_true in Hct as ->. cbn [negb].
    apply (verify_sign1_spec http_get verifier inst s c) in Hv as [c' ->]. cbn [map_err]. rewrite Hp. cbn [ok_or]. rewrite Hc. cbn [map_err].
    apply issuer_pinned in Hi as ->. destruct (Z.ltb_spec (i64_add now SKEW_SECS) (cr_iat cr)); [lia|]. by exists c'.
Qed.

Lemma cred_field_typ k v a a' t :
  cred_field k v a = Ok a' -> k_typ a' = Some t -> k_typ a = Some t \/ k = "typ" /\ v = CText t.
Proof.
  unfold cred_field. intros H Ht.
  destruct v; repeat (destruct (decide _) as [E|_]); inv_run; simplify_eq/=; auto.
Qed.

Lemma cred_loop_typ l a a' t :
  cred_loop a l = Ok a' -> k_typ a' = Some t -> k_typ a = Some t \/ (CText "typ", CText t) ∈ l.
Proof.
  revert a; induction l as [|[k v] l IH]; intros a; cbn -[cred_field]; [by intros [= ->]; left|].
  destruct k; try done. case_bool_decide; [done|].
  intros (a1 & H1 & H2)%result_bind_ok Ht. destruct (IH _ H2 Ht) as [Ha|Hin]; [|right; by right].
  apply (cred_field_typ _ _ _ _ _ H1) in Ha as [?|[-> ->]]; [by left|right; by left].
Qed.

(** An attestation's payload carries its type; a token's never has one. *)
Lemma parse_credential_typ payload cr :
  parse_credential payload = Ok cr ->
  exists entries, cbor_parse payload = Some (CMap entries)
    /\ (CText "typ", CText PASSKEY_CREDENTIAL_TYP) ∈ entries.
Proof.
  unfold parse_credential. destruct (cbor_parse payload) as [[]|]; try done.
  intros (a & Ha & H)%result_bind_ok. case_bool_decide as Ht; [|done]. exists l. split; [done|].
  by destruct (cred_loop_typ _ _ _ _ Ha Ht).
Qed.

Lemma parse_claims_no_typ payload claims :
  parse_claims payload = Ok claims ->
  exists entries, cbor_parse payload = Some (CMap entries) /\ forall v, (CText "typ", v) ∉ entries.
Proof.
  unfold parse_claims. destruct (cbor_parse payload) as [[]|]; try done.
  intros (a & Hloop & _)%result_bind_ok. exists l. split; [done|].
  by destruct (claim_loop_wf _ _ _ Hloop acc_empty_wf) as (_ & _ & ? & _).
Qed.

Lemma claims_not_credential p claims :
  parse_claims p = Ok claims -> is_ok (parse_credential p) = false.
Proof.
  intros (e1 & He1 & Hno)%parse_claims_no_typ. destruct (parse_credential p) eqn:E; [|done].
  apply parse_credential_typ in E as (e & He & Hin). rewrite He1 in He. simplify_eq. by apply Hno in Hin.
Qed.

Lemma credential_not_claims p cr :
  parse_credential p = Ok cr -> is_ok (parse_claims p) = false.
Proof.
  intros (e1 & He1 & Hin)%parse_credential_typ. destruct (parse_claims p) eqn:E; [|done].
  apply parse_claims_no_typ in E as (e & He & Hno). rewrite He1 in He. simplify_eq. by apply Hno in Hin.
Qed.

(** The message and payload of an accepted token. *)
Lemma verify_with_message http_get v token now inst opts c claims c' :
  verify_with http_get v token now inst opts c = (Ok claims, c') ->
  exists inner s p, b64url_decode (trim token) = Some (CWT_TAG_PREFIX +:+ inner)
    /\ sign1_from_slice inner = Some s /\ cs_content_type s = None
    /\ cs_payload s = Some p /\ parse_claims p = Ok claims.
Proof.
  unfold verify_with. intros H. inv_run.
  match goal with H : strip_prefix _ _ = Some _ |- _ => apply strip_prefix_Some in H as -> end.
  destruct (cs_content_type _) eqn:Hct; [by apply throw_ok in H|]. inv_run.
  match goal with H : check_claims _ _ _ ?cl = Ok ?r |- _ =>
    assert (r = cl) as -> by (unfold check_claims in H; repeat (case_match; try done); congruence) end.
  by eexists _, _, _.
Qed.

(** ** Theorems *)

(** C12: Exactly which bundles are accepted: those with their whole chain. A
    valid pointer of the expected owner; an attestation the identity provider
    signed (ES256, under a key of its key set, of the attestation content
    type, from the pinned issuer, not from the future) that binds the
    assertion's credential and its public key to that owner and this relying
    party; and an assertion by that public key over exactly these pointer
    bytes, for this origin and relying party, with the user present and
    verified; each part within its size. *)
Theorem bundle_exact http_get bundle owner verifier pk now inst c vb :
  (exists c', verify_bundle http_get bundle owner verifier pk now inst c = (Ok vb, c')) <->
  exists pointer_bytes attestation s payload cr,
    encodes MAX_POINTER_BYTES (bd_pointer bundle) pointer_bytes
    /\ parse_pointer pointer_bytes = Ok (vb_pointer vb)
    /\ pointer_ok (vb_pointer vb) /\ pt_owner (vb_pointer vb) = owner
    /\ encodes MAX_ATTESTATION_BYTES (bd_credential bundle) attestation
    /\ attested http_get verifier now inst c attestation s payload cr
    /\ cr_sub cr = owner /\ cr_rp_id cr = pk_rp_id pk
    /\ encodes MAX_CREDENTIAL_ID_BYTES (as_credential_id (bd_assertion bundle)) (cr_credential_id cr)
    /\ vb_credential_id vb = cr_credential_id cr
    /\ passkey_signed pointer_bytes (bd_assertion bundle) (cr_public_key cr) pk.
Proof.
  unfold verify_bundle. split.
  - intros [c' H]. inv_run. case_bool_decide as Ho; cbn [negb] in H; [|by apply throw_ok in H].
    inv_run. case_bool_decide as Hc; cbn [negb] in H; [|by apply throw_ok in H]. inv_run.
    repeat match goal with H : b64 _ _ _ = Ok _ |- _ => apply b64_ok in H end.
    match goal with H : verify_credential _ _ _ _ _ _ = _ |- _ =>
      destruct (proj1 (verify_credential_ok _ _ _ _ _ _ _) (ex_intro _ _ H)) as (s & payload & Hatt) end.
    match goal with H : check_credential ?cr _ _ = Ok _ |- _ => unfold check_credential in H;
      case_bool_decide as Hsub; [|done]; case_bool_decide as Hrp; [|done] end.
    match goal with H : verify_assertion _ _ _ _ = Ok ?u |- _ => destruct u; apply verify_assertion_ok in H end.
    match goal with H : parse_pointer _ = Ok _ |- _ => pose proof (parse_pointer_ok _ _ H) as (_ & _ & _ & Hp) end.
    cbn [vb_pointer vb_credential_id]. eexists _, _, s, payload, _. split_and!; done.
  - intros (pb & att & s & payload & cr & Hpb & Hp & _ & Ho & Hat & Hatt & Hsub & Hrp & Hid & Hvb & Hsig).
    unfold lift, mbind, comp_bind. rewrite (proj2 (b64_ok _ _ _ _) Hpb), Hp. cbn [map_err].
    rewrite bool_decide_true by done. cbn [negb]. rewrite (proj2 (b64_ok _ _ _ _) Hat).
    destruct (proj2 (verify_credential_ok http_get att verifier now inst c cr)) as [c' ->]; [by eauto|].
    unfold check_credential. rewrite !bool_decide_true by congruence. cbn [negb].
    rewrite (proj2 (b64_ok _ _ _ _) Hid), bool_decide_true by done. cbn [negb].
    rewrite (proj2 (verify_assertion_ok _ _ _ _) Hsig). exists c'. rewrite <- Hvb. by destruct vb.
Qed.

(** Bearer tokens and passkey attestations are signed with the same keys
    and never pass for each other: the message of an accepted token and the
    message of an accepted attestation differ in their protected headers, and
    no payload is accepted in both roles. *)
Theorem token_attestation_disjoint http_get v token now inst opts c1 claims c1' b now' inst' c2 cr c2' :
  verify_with http_get v token now inst opts c1 = (Ok claims, c1') ->
  verify_credential http_get b v now' inst' c2 = (Ok cr, c2') ->
  exists inner s1 s2 p1 p2,
    b64url_decode (trim token) = Some (CWT_TAG_PREFIX +:+ inner) /\ sign1_from_slice inner = Some s1
    /\ cs_payload s1 = Some p1 /\ parse_claims p1 = Ok claims
    /\ attested http_get v now' inst' c2 b s2 p2 cr
    /\ cs_content_type s1 <> cs_content_type s2 /\ p1 <> p2
    /\ is_ok (parse_credential p1) = false /\ is_ok (parse_claims p2) = false.
Proof.
  intros (inner & s1 & p1 & Hd & Hs1 & Hct1 & Hp1 & Hcl)%verify_with_message
         Hcred.
  destruct (proj1 (verify_credential_ok _ _ _ _ _ _ _) (ex_intro _ _ Hcred)) as (s2 & p2 & Hatt).
  pose proof Hatt as (Hs2 & Hct2 & _ & Hp2 & Hcr & _).
  assert (is_ok (parse_credential p1) = false) as Hn1 by (eapply claims_not_credential; eauto).
  assert (is_ok (parse_claims p2) = false) as Hn2 by (eapply credential_not_claims; eauto).
  exists inner, s1, s2, p1, p2. split_and!; try done; [by rewrite Hct1, Hct2|].
  intros ->. by rewrite Hcl in Hn2.
Qed.
End Facts.

(** ** Witnesses *)

Module BundleSample.
#[local] Existing Instance plain_base64.
#[local] Existing Instance named_p256.

(** Digests of 32 bytes, and keys named by their coordinates. *)
#[local] Instance sha : Sha2 := {| sha256 := fun _ => repeat_char 32 "s" |}.

Definition coordinates : list (cose_label * cbor) :=
  [(LabelInt (-1), CInteger 1); (LabelInt (-2), CBytes (repeat_char 32 "x"));
   (LabelInt (-3), CBytes (repeat_char 32 "y"))].

Definition credential_map : cbor :=
  CMap [(CText "typ", CText PASSKEY_CREDENTIAL_TYP); (CText "iss", CText "https://idp");
        (CText "sub", CText "alice"); (CText "credentialId", CBytes "cred");
        (CText "publicKey", CMap []); (CText "rpId", CText "identity.arkavo.net");
        (CText "iat", CInteger 1000)].

Definition attestation_message : CoseSign1 :=
  {| cs_alg := Some ES256; cs_crit := [];
     cs_content_type := Some (ContentText CREDENTIAL_CONTENT_TYPE); cs_key_id := "k1";
     cs_payload := Some "credential"; cs_signature := "key1credential" |}.

#[local] Instance cbor_table : Ciborium :=
  table_ciborium [("claims", CMap AuthSample.claims_map); ("credential", credential_map)].
#[local] Instance cose_table : Coset :=
  {| sign1_from_slice := fun b =>
       assoc_get b [("message", AuthSample.message); ("attestation", attestation_message)];
     sign1_from_tagged_slice := fun _ => None;
     sign1_tbs := fun s => default "" (cs_payload s);
     key_from_cbor := fun _ =>
       Some {| ck_kty := KtyEC2; ck_key_id := "p"; ck_params := coordinates |} |}.

Definition pointer_doc : json :=
  JObject [("schema", JString POINTER_SCHEMA); ("owner", JString "alice"); ("seq", JInt 1);
           ("catalogHash", JString (repeat_char 64 "a")); ("catalogSize", JInt 10);
           ("issuedAt", JString "2026-01-01T00:00:00Z")].
Definition client_doc : json :=
  JObject [("type", JString "webauthn.get"); ("challenge", JString (repeat_char 32 "s"));
           ("origin", JString "https://identity.arkavo.net")].

#[local] Instance serde : Serde := table_serde [("pointer", pointer_doc); ("client", client_doc)].

Definition auth_data : bytes := repeat_char 32 "s" +:+ String "005" "0000".
Definition public_key : string := String "004" (repeat_char 32 "x" +:+ repeat_char 32 "y").

Definition bundle : Bundle :=
  {| bd_pointer := "pointer"; bd_credential := "attestation";
     bd_assertion := {| as_credential_id := "cred"; as_authenticator_data := auth_data;
       as_client_data_json := "client"; as_signature := "sig" |} |}.

(** Signatures that check for the attested key. *)
#[local] Instance p256 : P256 :=
  {| vkey := string; psig := string; vkey_from_sec1 := Ok;
     sig_from_slice := Some; sig_from_der := Some;
     p256_verify := fun k msg s =>
       if bool_decide (k = public_key) then bool_decide (s = "sig") else bool_decide (s = k +:+ msg) |}.

Definition offline : string -> http_answer := fun _ => NoAnswer "offline".
Definition cache : KeyCache := {| keys := {["k1" := "key1"]}; last_fetch := None; gets := [] |}.

Lemma token_attestation_disjoint_witness :
  is_ok (parse_credential "claims") = false /\ is_ok (parse_claims "credential") = false.
Proof.
  destruct (verify_with offline AuthSample.verifier (CWT_TAG_PREFIX +:+ "message") 1500 0
    {| expected_aud := None |} cache) as [[cl|e] c1] eqn:E1; [|vm_compute in E1; discriminate E1].
  destruct (verify_credential offline "attestation" AuthSample.verifier 1500 0 cache) as [[cr|e] c2] eqn:E2;
    [|vm_compute in E2; discriminate E2].
  destruct (token_attestation_disjoint _ _ _ _ _ _ _ _ _ _ _ _ _ _ _ E1 E2)
    as (inner & s1 & s2 & p1 & p2 & Hi & Hs1 & Hp1 & _ & Hatt & _ & _ & Hn1 & Hn2).
  destruct Hatt as (Hs2 & _ & _ & Hp2 & _). vm_compute in Hi, Hs2. injection Hi as <-. injection Hs2 as <-.
  vm_compute in Hs1. injection Hs1 as <-. vm_compute in Hp1, Hp2. injection Hp1 as <-. injection Hp2 as <-.
  split; [exact Hn1|exact Hn2].
Defined.
End BundleSample.
