(* ===== verification/Validation.v ===== *)
(** * Validating a pushed archive (src/validation/)

    The structure check (structure.rs: ZIP64 end records, the bounded opening
    of the central directory, the manifest and the payload member), the
    attribute and assertion checks (attributes.rs, assertion.rs) and the
    pipeline (mod.rs). The zip and opentdf crates are parameters: the opener
    of an archive is any program over reads, run through the budget reader. *)

From S2P Require Import Prelude Bytes Extern Samples.

(** ** The reader

    The content of a file or buffer, and the offsets at which reading fails. *)
Record reader := { rd_data : bytes; rd_bad : Z -> bool }.

Definition READ_FAILED : string := "Failed to read TDF archive".

(** [seek(Start(offset))] then [take(len).read_to_end]: what there is, up to
    [len] bytes. *)
Definition read_at (r : reader) (offset len : Z) : result string bytes :=
  if rd_bad r offset then Err READ_FAILED
  else Ok (String.substring (Z.to_nat offset) (Z.to_nat len) (rd_data r)).

(** ** opentdf and zip *)

Class TdfCrate := {
  TdfManifest : Type;
  manifest_from_json : string -> option TdfManifest;
  manifest_to_json : TdfManifest -> option string;
  payload_url : TdfManifest -> string;
  get_policy_raw : TdfManifest -> option string;
  (** [policy_binding.hash] of each key access object. *)
  binding_hashes : TdfManifest -> list string;
  (** [AttributeFqn::parse]: namespace, name and value. *)
  fqn_parse : string -> option (string * string * option string)
}.

(** A member: the size its header declares, the bytes it inflates to, and
    whether reading to the end fails (a wrong CRC, a truncated stream). *)
Record member := { mb_size : Z; mb_content : bytes; mb_corrupt : bool }.

(** An open archive: the members by name; [None] for one listed but not
    readable (encrypted, or an unsupported method). *)
Record archive := { ar_len : Z; ar_members : gmap string (option member) }.

(** A program over a reader: each read is of [len] bytes at [offset]. *)
Inductive opener (A : Type) : Type :=
| Opened (a : result string A)
| Reading (offset len : Z) (k : result string bytes -> opener A).
Arguments Opened {A} a.
Arguments Reading {A} offset len k.

Class ZipCrate := {
  (** [ZipArchive::new], for a file of the given length. *)
  zip_open : Z -> opener archive
}.

(** [member.take(limit)] read to its end: at the limit the member's own end,
    where the CRC is checked, is not reached. *)
Definition read_member (m : member) (limit : Z) : result string bytes :=
  if (limit <=? len (mb_content m))%Z
  then Ok (String.substring 0 (Z.to_nat limit) (mb_content m))
  else if mb_corrupt m then Err "Invalid checksum" else Ok (mb_content m).

Definition index_for_name (a : archive) (name : string) : option (option member) := ar_members a !! name.

(** ** structure.rs *)

Definition MANIFEST : string := "manifest.json".
Definition LEGACY_MANIFEST : string := "0.manifest.json".
Definition DEFAULT_PAYLOAD : string := "0.payload".
Definition MAX_MANIFEST_BYTES : Z := 4 * 1024 * 1024.
Definition MAX_ARCHIVE_ENTRIES : Z := 65535.
Definition MAX_CENTRAL_DIRECTORY_READ : Z := 16 * 1024 * 1024.
Definition MAX_ZIP64_CANDIDATES : nat := 4.

(** [BudgetReader::read] into a buffer of [buf] bytes: the result and the
    budget left; [None] is unlimited. *)
Definition budget_read (r : reader) (offset buf : Z) (budget : option Z) :
    result string bytes * option Z :=
  match budget with
  | None => (read_at r offset buf, None)
  | Some left_ =>
      if (left_ =? 0)%Z && negb (buf =? 0)%Z
      then (Err ("TDF archive central directory exceeds " +:+ pretty MAX_CENTRAL_DIRECTORY_READ
                 +:+ " bytes"), budget)
      else
        match read_at r offset (Z.min buf left_) with
        | Err e => (Err e, budget)
        | Ok b => (Ok b, Some (left_ - len b)%Z)
        end
  end.

(** Running the opener; the third component collects what it was given. *)
Fixpoint run_opener {A} (r : reader) (budget : option Z) (given : list bytes) (o : opener A) :
    result string A * option Z * list bytes :=
  match o with
  | Opened a => (a, budget, given)
  | Reading offset buf k =>
      let '(res, budget) := budget_read r offset (Z.max 0 buf) budget in
      run_opener r budget (match res with Ok b => b :: given | Err _ => given end) (k res)
  end.

(** Little-endian integers. *)
Fixpoint le_bytes (s : bytes) : Z :=
  match s with
  | "" => 0
  | String c s => Z.of_N (u8 c) + 256 * le_bytes s
  end.
Definition le_at (off n : nat) (s : bytes) : Z := le_bytes (String.substring off n s).

Definition EOCD : string := "PK" +:+ String "005" (String "006" "").
Definition LOCATOR : string := "PK" +:+ String "006" (String "007" "").
Definition EOCD64 : string := "PK" +:+ String "006" (String "006" "").
Definition EOCD_LEN : nat := 22.
Definition LOCATOR_LEN : nat := 20.
Definition EOCD64_LEN : nat := 56.

(** Every offset where [needle] starts, counting from [i]. *)
Fixpoint positions_from (i : nat) (haystack needle : string) : list nat :=
  match haystack with
  | "" => []
  | String _ rest =>
      if starts_with needle haystack then i :: positions_from (S i) rest needle
      else positions_from (S i) rest needle
  end.
Definition positions (haystack needle : string) : list nat := positions_from 0 haystack needle.

(** [s.get(a..a + n)] *)
Definition get_range (a n : nat) (s : bytes) : option bytes :=
  if (a + n <=? String.length s)%nat then Some (String.substring a n s) else None.

Definition too_many_members (n : Z) : string :=
  "TDF archive lists " +:+ pretty n +:+ " members, more than " +:+ pretty MAX_ARCHIVE_ENTRIES.

(** The inner loop, over the ZIP64 end records of a region. *)
Fixpoint check_records (region : bytes) (l : list nat) : result string unit :=
  match l with
  | [] => Ok tt
  | q :: l =>
      match get_range q EOCD64_LEN region with
      | None => check_records region l
      | Some record =>
          let on_disk := le_at 24 8 record in
          let files := le_at 32 8 record in
          if (MAX_ARCHIVE_ENTRIES <? Z.max files on_disk)%Z
          then Err (too_many_members (Z.max files on_disk))
          else check_records region l
      end
  end.

(** The body of the outer loop for one end record: how many candidates were
    counted before it, and after it. *)
Definition check_end_record (r : reader) (tail : bytes) (tail_start window : nat) (p : nat) (candidates : nat) :
    result string nat :=
  match get_range p EOCD_LEN tail with
  | None => Ok candidates
  | Some eocd =>
      let files := le_at 10 2 eocd in
      let cd_offset := le_at 16 4 eocd in
      if negb (files =? 65535)%Z && negb (cd_offset =? 4294967295)%Z then Ok candidates
      else if (MAX_ZIP64_CANDIDATES <? S candidates)%nat
      then Err ("TDF archive has more than " +:+ pretty MAX_ZIP64_CANDIDATES +:+ " ZIP64 end records")
      else
        let eocd_at := (tail_start + p)%nat in
        if (eocd_at <? LOCATOR_LEN)%nat then Ok (S candidates)
        else
          let locator_at := (eocd_at - LOCATOR_LEN)%nat in
          locator ← (if (LOCATOR_LEN <=? p)%nat
                     then Ok (String.substring (p - LOCATOR_LEN) LOCATOR_LEN tail)
                     else read_at r (Z.of_nat locator_at) (Z.of_nat LOCATOR_LEN));
          if negb (bool_decide (String.substring 0 4 locator = LOCATOR)) then Ok (S candidates)
          else
            let start := le_at 8 8 locator in
            if (Z.of_nat locator_at <=? start)%Z then Ok (S candidates)
            else
              let end_ := Z.min (Z.of_nat locator_at)
                            (u64_saturating_add (u64_saturating_add start (Z.of_nat window))
                               (Z.of_nat EOCD64_LEN)) in
              region ← read_at r start (end_ - start);
              _ ← check_records region (positions region EOCD64);
              Ok (S candidates)
  end.

Fixpoint check_end_records (r : reader) (tail : bytes) (tail_start window : nat) (candidates : nat)
    (l : list nat) : result string unit :=
  match l with
  | [] => Ok tt
  | p :: l =>
      candidates ← check_end_record r tail tail_start window p candidates;
      check_end_records r tail tail_start window candidates l
  end.

Definition check_zip64_entry_counts (r : reader) (length : Z) : result string unit :=
  let window := Z.min length MAX_CENTRAL_DIRECTORY_READ in
  let tail_start := (length - window)%Z in
  tail ← read_at r tail_start window;
  check_end_records r tail (Z.to_nat tail_start) (Z.to_nat window) 0 (positions tail EOCD).

(** [{name:?}] in messages (escapes left out). *)
Definition quoted (s : string) : string := dquote +:+ s +:+ dquote.

Section Structure.
Context {TC : TdfCrate} {ZC : ZipCrate}.

Definition check_payload (a : archive) (name : string) (archive_len : Z) : result string unit :=
  match index_for_name a name with
  | Some (Some m) =>
      let declared := mb_size m in
      if (archive_len <? declared)%Z
      then Err ("payload member " +:+ quoted name +:+ " declares " +:+ pretty declared
                +:+ " bytes, more than the archive holds")
      else
        read ← map_err (fun _ => "payload member " +:+ quoted name +:+ " is corrupt") (read_member m (declared + 1));
        if negb (len read =? declared)%Z
        then Err ("payload member " +:+ quoted name +:+ " holds " +:+ pretty (len read) +:+ " bytes, not the "
                  +:+ pretty declared +:+ " it declares")
        else Ok tt
  | _ => Err ("Failed to read payload member " +:+ quoted name)
  end.

(** [s.split('/').any(|segment| segment == "..")] *)
Definition has_parent_segment (s : string) : bool :=
  existsb (fun seg => bool_decide (seg = "..")) (split_char "/" s).

Definition manifest_shaped (url : string) : bool :=
  bool_decide (url = MANIFEST)
  || match strip_suffix ".manifest.json" url with
     | Some p => negb (is_empty p) && all_bytes is_ascii_digit p
     | None => false
     end.

Definition payload_member (manifest : TdfManifest) : result string string :=
  let url := payload_url manifest in
  if is_empty url then Ok DEFAULT_PAYLOAD
  else
    let safe := negb (starts_with "/" url) && negb (contains "\" url) && negb (has_parent_segment url) in
    if negb safe then Err ("unsafe payload url in manifest: " +:+ quoted url)
    else if manifest_shaped url then Err ("payload url collides with the manifest entry name: " +:+ quoted url)
    else Ok url.

Definition read_manifest_member (a : archive) (name : string) : result string TdfManifest :=
  match index_for_name a name with
  | Some (Some m) =>
      if (MAX_MANIFEST_BYTES <? mb_size m)%Z
      then Err ("manifest of " +:+ pretty (mb_size m) +:+ " bytes exceeds " +:+ pretty MAX_MANIFEST_BYTES
                +:+ " bytes")
      else
        json ← map_err (fun _ => "Failed to read TDF entry") (read_member m (MAX_MANIFEST_BYTES + 1));
        if negb (utf8_valid json) then Err "Failed to read TDF entry"
        else if (MAX_MANIFEST_BYTES <? len json)%Z
        then Err ("manifest exceeds " +:+ pretty MAX_MANIFEST_BYTES +:+ " bytes")
        else ok_or (manifest_from_json json) "Failed to deserialize manifest"
  | _ => Err "Failed to read TDF entry"
  end.

Definition open_archive (r : reader) : result string archive :=
  let '(opened, _, _) :=
    run_opener r (Some MAX_CENTRAL_DIRECTORY_READ) [] (zip_open (len (rd_data r))) in
  map_err (fun _ => "Failed to open as TDF archive (not a valid ZIP or TDF)") opened.

Definition validate_tdf_structure_from (r : reader) : result string TdfManifest :=
  let archive_len := len (rd_data r) in
  _ ← check_zip64_entry_counts r archive_len;
  a ← open_archive r;
  if (MAX_ARCHIVE_ENTRIES <? ar_len a)%Z then Err (too_many_members (ar_len a))
  else
    manifest_name ← ok_or (find (fun name => match index_for_name a name with Some _ => true | None => false end)
                             [MANIFEST; LEGACY_MANIFEST])
                      "TDF archive contains no entries: missing manifest file manifest.json (or legacy 0.manifest.json)";
    manifest ← read_manifest_member a manifest_name;
    payload_name ← payload_member manifest;
    match index_for_name a payload_name with
    | None => Err ("Missing payload file: " +:+ quoted payload_name +:+ " (the member named by manifest.payload.url)")
    | Some _ => _ ← check_payload a payload_name archive_len; Ok manifest
    end.

Definition validate_tdf_structure (data : bytes) : result string TdfManifest :=
  validate_tdf_structure_from {| rd_data := data; rd_bad := fun _ => false |}.

(** ** attributes.rs, assertion.rs, mod.rs *)

Definition attribute_in_policy (policy_json fqn : string) : result string bool :=
  '(namespace, name, value) ← ok_or (fqn_parse fqn) ("Invalid attribute FQN: '" +:+ fqn +:+ "'");
  if negb (contains namespace policy_json) || negb (contains name policy_json) then Ok false
  else
    match value with
    | Some v => if negb (contains v policy_json) then Ok false else Ok true
    | None => Ok true
    end.

Fixpoint required_loop (policy_json : string) (l : list string) : result string unit :=
  match l with
  | [] => Ok tt
  | required :: l =>
      found ← attribute_in_policy policy_json required;
      if negb found then Err ("Required attribute '" +:+ required +:+ "' not found in TDF policy")
      else required_loop policy_json l
  end.

Definition validate_attributes (manifest : TdfManifest) (required_attributes : list string) :
    result string unit :=
  match required_attributes with
  | [] => Ok tt
  | _ =>
      policy_json ← ok_or (get_policy_raw manifest) "Failed to read policy from manifest";
      required_loop policy_json required_attributes
  end.

Fixpoint bindings_loop (i : nat) (l : list string) : result string unit :=
  match l with
  | [] => Ok tt
  | hash :: l =>
      if is_empty hash
      then Err ("Key access object " +:+ pretty i +:+ " has empty policy binding hash — assertion verification failed")
      else bindings_loop (S i) l
  end.

(** [read_file] is [std::fs::read_to_string]. *)
Context (read_file : string -> result string string).

Fixpoint keys_loop (l : list string) : result string unit :=
  match l with
  | [] => Ok tt
  | key_path :: l =>
      _ ← map_err (fun e => "Failed to read trusted key '" +:+ key_path +:+ "': " +:+ e) (read_file key_path);
      keys_loop l
  end.

Definition validate_assertion (manifest : TdfManifest) (enabled : bool)
    (trusted_public_key_paths : list string) : result string unit :=
  if negb enabled then Ok tt
  else
    match trusted_public_key_paths with
    | [] => Err "Assertion check enabled but no trusted public keys configured"
    | _ =>
        _ ← bindings_loop 0 (binding_hashes manifest);
        keys_loop trusted_public_key_paths
    end.

(** [config::ValidationConfig] *)
Record ValidationConfig := {
  max_blob_bytes : Z;
  required_attributes : list string;
  assertion_enabled : bool;
  trusted_public_keys : list string;
  max_concurrent_ingests : nat
}.

Definition check_blob_size (size : Z) (config : ValidationConfig) : result string unit :=
  ensure (size <=? max_blob_bytes config)%Z
    ("blob of " +:+ pretty size +:+ " bytes exceeds [validation] max_blob_bytes ("
     +:+ pretty (max_blob_bytes config) +:+ ")").

Definition validate_archive (r : reader) (size : Z) (config : ValidationConfig) : result string TdfManifest :=
  _ ← check_blob_size size config;
  manifest ← map_err (fun _ => "TDF structure validation failed") (validate_tdf_structure_from r);
  _ ← map_err (fun _ => "TDF attribute validation failed")
        (validate_attributes manifest (required_attributes config));
  _ ← map_err (fun _ => "TDF assertion validation failed")
        (validate_assertion manifest (assertion_enabled config) (trusted_public_keys config));
  Ok manifest.

Definition validate_blob (data : bytes) (config : ValidationConfig) : result string TdfManifest :=
  validate_archive {| rd_data := data; rd_bad := fun _ => false |} (len data) config.
End Structure.

(** ** Facts: slices *)

Lemma substring_length n m s :
  String.length (String.substring n m s) = Nat.min m (String.length s - n).
Proof.
  revert n m; induction s as [|c s IH]; intros [|n] [|m]; cbn [String.substring String.length]; try lia; rewrite IH; lia.
Qed.

Lemma substring_substring a w p k s :
  (p + k <= w)%nat -> String.substring p k (String.substring a w s) = String.substring (a + p) k s.
Proof.
  intros H. apply String.get_correct. intros i. destruct (decide (i < k)%nat) as [Hi|Hi].
  - rewrite !String.substring_correct1 by lia. f_equal. lia.
  - rewrite !String.substring_correct2 by lia. done.
Qed.

Lemma substring_all n s : (String.length s <= n)%nat -> String.substring 0 n s = s.
Proof. revert n; induction s as [|c s IH]; intros [|n] H; cbn in *; try lia; [done..|]. by rewrite IH by lia. Qed.

Lemma starts_with_substring p s :
  starts_with p s = true <-> String.substring 0 (String.length p) s = p.
Proof.
  unfold starts_with. rewrite bool_decide_eq_true. revert s; induction p as [|a p IH]; intros s.
  { split; [by destruct s|by eexists]. }
  destruct s as [|b s]; cbn; [split; [by intros [? ?]|done]|].
  destruct (decide (a = b)) as [->|Hne].
  - rewrite IH. split; [by intros ->|congruence].
  - split; [by intros [? ?]|congruence].
Qed.

Lemma positions_from_elem needle h i p :
  needle <> "" ->
  p ∈ positions_from i h needle <-> exists j, p = (i + j)%nat /\ String.substring j (String.length needle) h = needle.
Proof.
  intros Hn. revert i; induction h as [|c h IH]; intros i.
  { split; [by intros ?%elem_of_nil|]. intros (j & _ & H). by destruct j, needle. }
  assert (p ∈ positions_from (S i) h needle <->
    exists j, p = (i + S j)%nat /\ String.substring (S j) (String.length needle) (String c h) = needle) as Hrest.
  { rewrite IH. split; intros (j & -> & H); exists j; (split; [lia|done]). }
  cbn [positions_from]. destruct (starts_with needle (String c h)) eqn:E.
  - rewrite elem_of_cons, Hrest. apply starts_with_substring in E. split.
    + intros [->|(j & -> & H)]; [exists 0%nat; split; [lia|done]|by exists (S j)].
    + intros ([|j] & -> & H); [left; lia|right; by exists j].
  - rewrite Hrest. split; [intros (j & -> & H); by exists (S j)|].
    intros ([|j] & -> & H); [|by exists j]. apply starts_with_substring in H. congruence.
Qed.

Lemma positions_elem needle h p :
  needle <> "" -> p ∈ positions h needle <-> String.substring p (String.length needle) h = needle.
Proof.
  intros Hn. unfold positions. rewrite positions_from_elem by done. split; [by intros (j & -> & H)|].
  intros H. by exists p.
Qed.

Lemma get_range_Some a n s x :
  get_range a n s = Some x <-> (a + n <= String.length s)%nat /\ x = String.substring a n s.
Proof.
  unfold get_range. destruct (Nat.leb_spec (a + n) (String.length s)); [naive_solver|].
  split; [done|]. intros [? _]. lia.
Qed.

Lemma le_at_substring off n a w s :
  (off + n <= w)%nat -> le_at off n (String.substring a w s) = le_at (a + off) n s.
Proof. intros H. unfold le_at. by rewrite substring_substring. Qed.

Lemma le_bytes_nonneg s : (0 <= le_bytes s)%Z.
Proof. induction s; cbn; lia. Qed.

(** ** Facts: ZIP64 end records *)

(** At [p] stands an end-of-central-directory record that defers to ZIP64. *)
Definition defers (data : bytes) (p : nat) : Prop :=
  String.substring p 4 data = EOCD /\ (p + 22 <= String.length data)%nat
  /\ (le_at (p + 10) 2 data = 65535%Z \/ le_at (p + 16) 4 data = 4294967295%Z).

(** The locator before the end record at [p] leads to the ZIP64 end record at
    [q]: it is complete, before the locator, at or after where the locator
    points and at most [window] bytes further. *)
Definition leads_to (data : bytes) (window p q : nat) : Prop :=
  (20 <= p)%nat /\ String.substring (p - 20) 4 data = LOCATOR
  /\ (le_at (p - 12) 8 data <= Z.of_nat q <= le_at (p - 12) 8 data + Z.of_nat window)%Z
  /\ (q + 56 <= p - 20)%nat /\ String.substring q 4 data = EOCD64.

(** The members a ZIP64 end record lists. *)
Definition members_listed (data : bytes) (q : nat) : Z :=
  Z.max (le_at (q + 32) 8 data) (le_at (q + 24) 8 data).

Lemma check_records_ok region l q :
  check_records region l = Ok tt -> q ∈ l -> (q + 56 <= String.length region)%nat ->
  (members_listed region q <= MAX_ARCHIVE_ENTRIES)%Z.
Proof.
  intros H Hq Hlen. revert H Hq; induction l as [|q' l IH]; cbn [check_records]; [by intros _ ?%elem_of_nil|].
  intros H [->|Hq]%elem_of_cons.
  - rewrite (proj2 (get_range_Some q' EOCD64_LEN region _) (conj Hlen eq_refl)) in H.
    rewrite !le_at_substring in H by (unfold EOCD64_LEN; lia).
    unfold members_listed. by destruct (Z.ltb_spec MAX_ARCHIVE_ENTRIES
      (Z.max (le_at (q' + 32) 8 region) (le_at (q' + 24) 8 region))).
  - destruct (get_range q' EOCD64_LEN region); [|auto]. destruct (_ <? _)%Z; [done|auto].
Qed.

Lemma read_at_ok r off n x :
  read_at r off n = Ok x -> x = String.substring (Z.to_nat off) (Z.to_nat n) (rd_data r).
Proof. unfold read_at. destruct (rd_bad r off); congruence. Qed.

Section EndRecords.
Context (r : reader) (tail_start window : nat).
Let data := rd_data r.
Context (Hsum : (tail_start + window = String.length data)%nat) (Hu64 : (Z.of_nat (String.length data) <= u64_max)%Z).

(** The tail of the file. *)
Let tail := String.substring tail_start window data.

Lemma tail_length : String.length tail = window.
Proof. unfold tail. rewrite substring_length. lia. Qed.

(** The region between where a locator points and the locator. *)
Lemma region_records start locator_at q region :
  (0 <= start < Z.of_nat locator_at)%Z -> (locator_at <= String.length data)%nat ->
  read_at r start (Z.min (Z.of_nat locator_at)
     (u64_saturating_add (u64_saturating_add start (Z.of_nat window)) (Z.of_nat EOCD64_LEN)) - start) = Ok region ->
  check_records region (positions region EOCD64) = Ok tt ->
  (start <= Z.of_nat q <= start + Z.of_nat window)%Z -> (q + 56 <= locator_at)%nat ->
  String.substring q 4 data = EOCD64 ->
  (members_listed data q <= MAX_ARCHIVE_ENTRIES)%Z.
Proof.
  intros Hs Hl Hr%read_at_ok Hc Hq Hq56 Hsig.
  unfold u64_saturating_add, EOCD64_LEN in Hr. fold data in Hr.
  set (n := Z.to_nat _) in Hr at 2. set (a := Z.to_nat start) in Hr.
  assert (q = a + (q - a))%nat as Eq by (unfold a; lia).
  assert (q - a + 56 <= n)%nat as Hn by (unfold a, n; lia).
  assert (a + n <= String.length data)%nat as Han by (unfold a, n; lia).
  assert (q - a ∈ positions region EOCD64) as Hin.
  { apply positions_elem; [done|]. change (String.length EOCD64) with 4%nat.
    subst region. rewrite substring_substring by lia. by rewrite <- Eq. }
  apply (check_records_ok _ _ _ Hc) in Hin; [|subst region; rewrite substring_length; lia].
  unfold members_listed in *. subst region. rewrite !le_at_substring in Hin by lia.
  by replace (a + (q - a + 32))%nat with (q + 32)%nat in Hin by lia;
     replace (a + (q - a + 24))%nat with (q + 24)%nat in Hin by lia.
Qed.

(** One end record: it is counted when it defers, within the limit, and the
    records it leads to list few enough members. *)
Lemma check_end_record_ok p c c' :
  check_end_record r tail tail_start window p c = Ok c' ->
  (c <= c')%nat
  /\ (defers data (tail_start + p) -> c' = S c /\ (c' <= 4)%nat
      /\ forall q, leads_to data window (tail_start + p) q -> (members_listed data q <= MAX_ARCHIVE_ENTRIES)%Z).
Proof.
  unfold check_end_record. destruct (get_range p EOCD_LEN tail) as [eocd|] eqn:Hg.
  2: { intros [= <-]. split; [done|]. intros (_ & Hlen & _). unfold get_range in Hg.
       rewrite tail_length in Hg. unfold EOCD_LEN in Hg.
       destruct (Nat.leb_spec (p + 22) window); [done|]. lia. }
  apply get_range_Some in Hg as [Hp ->]. rewrite tail_length in Hp. unfold EOCD_LEN in *.
  rewrite !le_at_substring by lia. unfold tail at 1 2. rewrite !le_at_substring by lia.
  rewrite !Nat.add_assoc.
  destruct (negb _ && negb _) eqn:Hd.
  { intros [= <-]. split; [done|]. intros (_ & _ & Hdef). autorewrite with tdf in Hd.
    rewrite !Z.eqb_neq in Hd. tauto. }
  clear Hd. unfold MAX_ZIP64_CANDIDATES. destruct (Nat.ltb_spec 4 (S c)) as [|Hc]; [done|].
  assert (forall x : nat, x = S c ->
    (forall q, leads_to data window (tail_start + p) q -> (members_listed data q <= MAX_ARCHIVE_ENTRIES)%Z) ->
    (c <= x)%nat /\ (defers data (tail_start + p) -> x = S c /\ (x <= 4)%nat
      /\ forall q, leads_to data window (tail_start + p) q -> (members_listed data q <= MAX_ARCHIVE_ENTRIES)%Z)) as Hdone
    by (intros x -> ?; split; [lia|]; intros _; split_and!; [done|lia|done]).
  unfold LOCATOR_LEN. destruct (Nat.ltb_spec (tail_start + p) 20) as [Hlt|Hge].
  { intros [= <-]. apply Hdone; [done|]. intros q (? & _). lia. }
  intros (locator & Hloc & H)%result_bind_ok.
  assert (locator = String.substring (tail_start + p - 20) 20 data) as ->.
  { destruct (Nat.leb_spec 20 p).
    - injection Hloc as <-. unfold tail. rewrite substring_substring by lia. f_equal. lia.
    - apply read_at_ok in Hloc as ->. f_equal; lia. }
  rewrite le_at_substring, substring_substring, Nat.add_0_r in H by lia.
  replace (tail_start + p - 20 + 8)%nat with (tail_start + p - 12)%nat in H by lia.
  case_bool_decide as Hsig; cbn [negb] in H.
  2: { injection H as <-. apply Hdone; [done|]. by intros q (_ & ? & _). }
  destruct (Z.leb_spec (Z.of_nat (tail_start + p - 20)) (le_at (tail_start + p - 12) 8 data)) as [Hst|Hst].
  { injection H as <-. apply Hdone; [done|]. intros q (_ & _ & ? & ? & _). lia. }
  apply result_bind_ok in H as (region & Hr & H). apply result_bind_ok in H as ([] & Hcheck & [= <-]).
  apply Hdone; [done|]. intros q (_ & _ & Hq & Hq56 & Hsig64).
  assert (0 <= le_at (tail_start + p - 12) 8 data)%Z by apply le_bytes_nonneg.
  eapply (region_records (le_at (tail_start + p - 12) 8 data) (tail_start + p - 20) q region); try done; lia.
Qed.

Lemma check_end_records_ok l c :
  check_end_records r tail tail_start window c l = Ok tt ->
  (forall p, p ∈ l -> defers data (tail_start + p) ->
     forall q, leads_to data window (tail_start + p) q -> (members_listed data q <= MAX_ARCHIVE_ENTRIES)%Z)
  /\ (forall l', l' `sublist_of` l -> Forall (fun p => defers data (tail_start + p)) l' ->
      (length l' + c <= 4)%nat \/ l' = []).
Proof.
  revert c; induction l as [|p l IH]; intros c; cbn [check_end_records].
  { intros _. split; [by intros p ?%elem_of_nil|]. intros l' ->%sublist_nil_r _. by right. }
  intros (c1 & Hp & H)%result_bind_ok. apply check_end_record_ok in Hp as [Hle Hp].
  destruct (IH _ H) as [Hall Hcount]. split.
  - intros p' [->|Hin]%elem_of_cons Hd; [by apply Hp|by apply Hall].
  - intros l' Hsub Hf. inversion Hsub as [|? l'' ? Hs|? l'' ? Hs]; subst.
    + apply Forall_cons in Hf as [Hd Hf]. destruct (Hp Hd) as (-> & Hc & _).
      destruct (Hcount _ Hs Hf) as [?| ->]; left; cbn; lia.
    + destruct (Hcount _ Hs Hf) as [?| ->]; [left; lia|by right].
Qed.
End EndRecords.

#[export] Instance defers_dec data p : Decision (defers data p).
Proof. unfold defers. apply _. Defined.

(** ** Facts: the bounded opener *)

Definition total (l : list bytes) : Z := foldr (fun b n => (len b + n)%Z) 0%Z l.

Lemma budget_read_spec r off buf left_ res b :
  (0 <= left_)%Z -> (0 <= buf)%Z -> budget_read r off buf (Some left_) = (res, b) ->
  exists left', b = Some left' /\ (0 <= left')%Z
    /\ match res with Ok x => left_ = (len x + left')%Z | Err _ => left' = left_ end.
Proof.
  intros Hl Hb. unfold budget_read. destruct (_ && _); [intros [= <- <-]; by eexists|].
  destruct (read_at r off (Z.min buf left_)) as [x|e] eqn:E; intros [= <- <-]; [|by eexists].
  apply read_at_ok in E as ->. eexists. split; [done|]. unfold len. rewrite substring_length. lia.
Qed.

Lemma run_opener_budget {A} r left_ given (o : opener A) :
  (0 <= left_)%Z ->
  exists left', (run_opener r (Some left_) given o).1.2 = Some left' /\ (0 <= left')%Z
    /\ (total (run_opener r (Some left_) given o).2 + left' = total given + left_)%Z.
Proof.
  revert left_ given; induction o as [a|off buf k IH]; intros left_ given Hl; cbn [run_opener]; [by eexists|].
  destruct (budget_read r off (Z.max 0 buf) (Some left_)) as [res b] eqn:E.
  apply budget_read_spec in E as (left' & -> & Hl' & Hres); [|lia..].
  destruct (IH res left' (match res with Ok b => b :: given | Err _ => given end) Hl') as (l2 & H1 & H2 & H3).
  exists l2. split_and!; [done..|]. rewrite H3. destruct res as [x|e]; cbv beta iota in Hres;
    [change (total (x :: given)) with (len x + total given)%Z|]; lia.
Qed.

(** ** Facts: members and the pipeline *)

Lemma read_member_whole m limit x :
  (len (mb_content m) < limit)%Z ->
  read_member m limit = Ok x <-> mb_corrupt m = false /\ x = mb_content m.
Proof.
  intros H. unfold read_member. destruct (Z.leb_spec limit (len (mb_content m))); [lia|].
  destruct (mb_corrupt m); naive_solver.
Qed.

Section Pipeline.
Context {TC : TdfCrate} {ZC : ZipCrate}.

(** The payload member: named by the manifest, inside the archive, and not a
    manifest; it holds exactly the bytes it declares, with the right CRC, and
    no more than the archive is long. *)
Definition payload_name_ok (manifest : TdfManifest) (name : string) : Prop :=
  payload_url manifest = "" /\ name = "0.payload"
  \/ (payload_url manifest = name /\ name <> "" /\ starts_with "/" name = false /\ contains "\" name = false
      /\ (".." ∉ split_char "/" name) /\ manifest_shaped name = false).

Definition payload_ok (a : archive) (name : string) (archive_len : Z) : Prop :=
  exists m, ar_members a !! name = Some (Some m) /\ mb_corrupt m = false
    /\ mb_size m = len (mb_content m) /\ (mb_size m <= archive_len)%Z.

Lemma payload_member_spec manifest name :
  payload_member manifest = Ok name <-> payload_name_ok manifest name.
Proof.
  unfold payload_member, payload_name_ok, has_parent_segment.
  assert (forall l, existsb (fun seg => bool_decide (seg = "..")) l = false <-> ".." ∉ l) as Hseg.
  { intros l. rewrite <- not_true_iff_false. by rewrite existsb_elem. }
  destruct (payload_url manifest) as [|ch url0] eqn:Hurl; cbn [is_empty]; [unfold DEFAULT_PAYLOAD; naive_solver|].
  set (url := String ch url0). specialize (Hseg (split_char "/" url)). split.
  - destruct (starts_with "/" url) eqn:H1; [done|]. destruct (contains "\" url) eqn:H2; [done|].
    destruct (existsb _ (split_char "/" url)) eqn:H3; [done|]. cbn [negb andb].
    destruct (manifest_shaped url) eqn:H4; [done|]. intros [= <-]. right. split_and!; try done. by apply Hseg.
  - intros [[? _]|(<- & _ & H1 & H2 & H3 & H4)]; [done|]. apply Hseg in H3. by rewrite H1, H2, H3, H4.
Qed.

Lemma check_payload_spec a name archive_len :
  check_payload a name archive_len = Ok tt <-> payload_ok a name archive_len.
Proof.
  unfold check_payload, payload_ok, index_for_name.
  destruct (ar_members a !! name) as [[m|]|]; try (split; [done|by intros (? & ? & _)]).
  destruct (Z.ltb_spec archive_len (mb_size m)) as [|Hle].
  { split; [done|]. intros (m' & [= <-] & _ & _ & ?). lia. }
  rewrite result_bind_ok. setoid_rewrite map_err_ok. split.
  - intros (x & Hx & H). destruct (Z.eqb_spec (len x) (mb_size m)) as [Hl|]; [|done].
    assert (len (mb_content m) < mb_size m + 1)%Z as Hlt.
    { destruct (Z.lt_ge_cases (len (mb_content m)) (mb_size m + 1)) as [|Hge]; [done|].
      unfold read_member in Hx. rewrite (proj2 (Z.leb_le _ _) Hge) in Hx. injection Hx as <-.
      unfold len in Hl, Hge. rewrite substring_length in Hl. lia. }
    apply read_member_whole in Hx as [Hc ->]; [|done]. by exists m.
  - intros (m' & [= <-] & Hc & Hs & _). exists (mb_content m). rewrite read_member_whole by lia.
    split; [done|]. by rewrite (proj2 (Z.eqb_eq _ _) (eq_sym Hs)).
Qed.

(** The manifest member that is read. *)
Definition manifest_of (a : archive) (manifest : TdfManifest) : Prop :=
  exists name m, ar_members a !! name = Some (Some m)
    /\ (name = "manifest.json" \/ ar_members a !! "manifest.json" = None /\ name = "0.manifest.json")
    /\ mb_corrupt m = false /\ (mb_size m <= 4194304)%Z /\ (len (mb_content m) <= 4194304)%Z
    /\ utf8_valid (mb_content m) = true /\ manifest_from_json (mb_content m) = Some manifest.

Lemma read_manifest_member_spec a name manifest :
  read_manifest_member a name = Ok manifest <->
  exists m, ar_members a !! name = Some (Some m)
    /\ mb_corrupt m = false /\ (mb_size m <= 4194304)%Z /\ (len (mb_content m) <= 4194304)%Z
    /\ utf8_valid (mb_content m) = true /\ manifest_from_json (mb_content m) = Some manifest.
Proof.
  unfold read_manifest_member, index_for_name. change MAX_MANIFEST_BYTES with 4194304%Z.
  destruct (ar_members a !! name) as [[m|]|]; try (split; [done|by intros (? & ? & _)]).
  destruct (Z.ltb_spec 4194304 (mb_size m)); [split; [done|]; intros (? & [= <-] & _ & ? & _); lia|].
  rewrite result_bind_ok. setoid_rewrite map_err_ok. split.
  - intros (x & Hx & H1). destruct (utf8_valid x) eqn:Hu; [|done]. cbn [negb] in H1.
    destruct (Z.ltb_spec 4194304 (len x)) as [|Hx4]; [done|]. apply ok_or_ok in H1.
    assert (len (mb_content m) < 4194304 + 1)%Z as Hlt.
    { destruct (Z.lt_ge_cases (len (mb_content m)) (4194304 + 1)) as [|Hge]; [done|].
      unfold read_member in Hx. rewrite (proj2 (Z.leb_le _ _) Hge) in Hx. injection Hx as <-.
      unfold len in Hx4, Hge. rewrite substring_length in Hx4. lia. }
    apply read_member_whole in Hx as [Hc ->]; [|done]. exists m. by split_and!; [..|lia| |].
  - intros (m' & [= <-] & Hc & Hs & Hl & Hu & Hj). exists (mb_content m).
    rewrite read_member_whole by lia. split; [done|]. rewrite Hu. cbn [negb].
    destruct (Z.ltb_spec 4194304 (len (mb_content m))); [lia|]. by apply ok_or_ok.
Qed.

(** What the structure check accepts. *)
Definition structure_ok (r : reader) (manifest : TdfManifest) : Prop :=
  check_zip64_entry_counts r (len (rd_data r)) = Ok tt
  /\ exists a name, open_archive r = Ok a /\ (ar_len a <= 65535)%Z /\ manifest_of a manifest
     /\ payload_name_ok manifest name /\ payload_ok a name (len (rd_data r)).

Lemma validate_structure_spec r manifest :
  validate_tdf_structure_from r = Ok manifest <-> structure_ok r manifest.
Proof.
  unfold validate_tdf_structure_from, structure_ok, manifest_of. split.
  - intros ([] & Hz & H)%result_bind_ok. apply result_bind_ok in H as (a & Ha & H).
    destruct (Z.ltb_spec MAX_ARCHIVE_ENTRIES (ar_len a)) as [|Hn]; [done|].
    apply result_bind_ok in H as (mname & Hm%ok_or_ok & H).
    apply result_bind_ok in H as (mf & Hmf%read_manifest_member_spec & H).
    apply result_bind_ok in H as (pname & Hp%payload_member_spec & H).
    destruct (index_for_name a pname); [|done].
    apply result_bind_ok in H as ([] & Hpay%check_payload_spec & [= <-]).
    split; [done|]. exists a, pname. split_and!; [done|exact Hn| |done..].
    destruct Hmf as (m & Hm1 & Hrest). exists mname, m. split_and!; try apply Hrest; [done|].
    cbn in Hm. unfold index_for_name in Hm. change MANIFEST with "manifest.json" in Hm.
    destruct (ar_members a !! "manifest.json") eqn:E; [injection Hm as <-; by left|right].
    split; [done|]. change LEGACY_MANIFEST with "0.manifest.json" in Hm.
    by destruct (ar_members a !! "0.manifest.json"); simplify_eq/=.
  - intros (Hz & a & pname & Ha & Hn & (mname & m & Hm & Hname & Hc & Hs & Hl & Hu & Hj) & Hp & Hpay).
    apply result_bind_ok. exists tt. split; [done|]. apply result_bind_ok. exists a. split; [done|].
    destruct (Z.ltb_spec MAX_ARCHIVE_ENTRIES (ar_len a)); [unfold MAX_ARCHIVE_ENTRIES in *; lia|].
    apply result_bind_ok. exists mname. split.
    { apply ok_or_ok. cbn. unfold index_for_name. change MANIFEST with "manifest.json".
      change LEGACY_MANIFEST with "0.manifest.json".
      destruct Hname as [->|[E ->]]; [by rewrite Hm|by rewrite E, Hm]. }
    apply result_bind_ok. exists manifest. split; [apply read_manifest_member_spec; by exists m|].
    apply result_bind_ok. exists pname. split; [by apply payload_member_spec|].
    pose proof Hpay as (pm & Hpm & _). unfold index_for_name. rewrite Hpm.
    apply result_bind_ok. exists tt. split; [by apply check_payload_spec|done].
Qed.

(** A required attribute is found when its parts occur in the policy text. *)
Definition attribute_mentioned (policy_json fqn : string) : Prop :=
  exists ns name value, fqn_parse fqn = Some (ns, name, value)
    /\ contains ns policy_json = true /\ contains name policy_json = true
    /\ (forall v, value = Some v -> contains v policy_json = true).

Lemma attribute_in_policy_spec policy_json fqn :
  attribute_in_policy policy_json fqn = Ok true <-> attribute_mentioned policy_json fqn.
Proof.
  unfold attribute_in_policy, attribute_mentioned. destruct (fqn_parse fqn) as [[[ns name] value]|]; cbn.
  2: { split; [done|]. by intros (? & ? & ? & ? & _). }
  split.
  - intros H. exists ns, name, value. destruct (contains ns _); [|done]. destruct (contains name _); [|done].
    cbn in H. split_and!; try done. intros v ->. by destruct (contains v policy_json).
  - intros (? & ? & ? & [= <- <- <-] & H1 & H2 & H3). rewrite H1, H2. cbn.
    destruct value as [v|]; [|done]. by rewrite (H3 v eq_refl).
Qed.

Lemma validate_attributes_spec manifest required :
  validate_attributes manifest required = Ok tt <->
  required = [] \/ exists policy_json, get_policy_raw manifest = Some policy_json
    /\ Forall (attribute_mentioned policy_json) required.
Proof.
  assert (forall pj l, required_loop pj l = Ok tt <-> Forall (attribute_mentioned pj) l) as Hloop.
  { intros pj; induction l as [|x l IH]; cbn; [by split; constructor|]. rewrite result_bind_ok, Forall_cons, <- IH.
    split.
    - intros ([] & Hx & H); [|done]. split; [by apply attribute_in_policy_spec|done].
    - intros [Hx%attribute_in_policy_spec H]. by exists true. }
  unfold validate_attributes. destruct required as [|x l]; [split; [by left|done]|].
  rewrite result_bind_ok. setoid_rewrite ok_or_ok. setoid_rewrite Hloop. split; [by right|]. by intros [?|?].
Qed.

Context (read_file : string -> result string string).

Lemma validate_assertion_spec manifest enabled keys :
  validate_assertion read_file manifest enabled keys = Ok tt <->
  (enabled = true -> keys <> [] /\ Forall (fun h => h <> "") (binding_hashes manifest)
     /\ Forall (fun k => is_ok (read_file k) = true) keys).
Proof.
  assert (forall l i, bindings_loop i l = Ok tt <-> Forall (fun h => h <> "") l) as Hb.
  { induction l as [|h l IH]; intros i; cbn; [by split; constructor|]. rewrite Forall_cons, <- (IH (S i)).
    destruct h; cbn; naive_solver. }
  assert (forall l, keys_loop read_file l = Ok tt <-> Forall (fun k => is_ok (read_file k) = true) l) as Hk.
  { induction l as [|k l IH]; cbn; [by split; constructor|]. rewrite Forall_cons, <- IH.
    destruct (read_file k); cbn; naive_solver. }
  unfold validate_assertion. destruct enabled; cbn [negb]; [|naive_solver].
  destruct keys as [|k keys]; [split; [done|]; intros H; by destruct (H eq_refl)|].
  rewrite result_bind_ok, <- Hk, <- (Hb _ 0%nat). split.
  - by intros ([] & ? & ?) _.
  - intros H. destruct (H eq_refl) as (_ & ? & ?). by exists tt.
Qed.

(** What the attribute and the assertion check let through. Both are weaker
    than their documentation: an attribute need only be mentioned somewhere in
    the policy text, and no signature is verified. *)
Lemma validate_archive_ok r size config manifest :
  validate_archive read_file r size config = Ok manifest <->
  (size <= max_blob_bytes config)%Z
  /\ structure_ok r manifest
  /\ (required_attributes config = [] \/ exists policy_json, get_policy_raw manifest = Some policy_json
        /\ Forall (attribute_mentioned policy_json) (required_attributes config))
  /\ (assertion_enabled config = true -> trusted_public_keys config <> []
        /\ Forall (fun h => h <> "") (binding_hashes manifest)
        /\ Forall (fun k => is_ok (read_file k) = true) (trusted_public_keys config)).
Proof.
  rewrite <- validate_structure_spec, <- validate_attributes_spec, <- validate_assertion_spec, <- Z.leb_le.
  unfold validate_archive, check_blob_size. destruct (size <=? max_blob_bytes config)%Z; cbn; [|naive_solver].
  destruct (validate_tdf_structure_from r) as [mf|]; cbn; [|naive_solver].
  destruct (validate_attributes mf _) as [[]|] eqn:H1; cbn.
  - destruct (validate_assertion _ mf _ _) as [[]|] eqn:H2; cbn; naive_solver congruence.
  - split; [done|]. intros (_ & [= ->] & H & _). congruence.
Qed.

(** Which check an archive was refused by. *)
Lemma validate_archive_err r size config e :
  validate_archive read_file r size config = Err e ->
  (max_blob_bytes config < size)%Z
  \/ (size <= max_blob_bytes config)%Z
     /\ (e = "TDF structure validation failed" /\ (forall manifest, ~ structure_ok r manifest)
         \/ exists manifest, structure_ok r manifest
              /\ (e = "TDF attribute validation failed" /\ required_attributes config <> []
                  \/ e = "TDF assertion validation failed" /\ assertion_enabled config = true)).
Proof.
  setoid_rewrite <- validate_structure_spec. unfold validate_archive, check_blob_size.
  destruct (Z.leb_spec size (max_blob_bytes config)); [right|by left]. split; [done|]. revert H0. cbn.
  destruct (validate_tdf_structure_from r) as [mf|]; cbn; [|intros [= <-]; left; by split].
  destruct (validate_attributes mf _) as [[]|] eqn:H1; cbn.
  - destruct (validate_assertion _ mf _ _) as [[]|] eqn:H2; cbn; [done|]. intros [= <-]. right. exists mf. split; [done|].
    right. split; [done|]. unfold validate_assertion in H2. by destruct (assertion_enabled config).
  - intros [= <-]. right. exists mf. split; [done|]. left. split; [done|]. intros E. by rewrite E in H1.
Qed.

(** ** Theorems *)


(** Opening an archive reads at most 16 MiB, whatever the archive and
    whatever the opener does: what it is given and what is left of the budget
    always add up to the budget. *)
Theorem central_directory_read_bounded {A} r (o : opener A) :
  let '(_, budget, given) := run_opener r (Some MAX_CENTRAL_DIRECTORY_READ) [] o in
  exists left_, budget = Some left_ /\ (0 <= left_)%Z /\ (total given + left_ = 16777216)%Z.
Proof.
  destruct (run_opener_budget r MAX_CENTRAL_DIRECTORY_READ [] o) as (l & H1 & H2 & H3); [done|].
  destruct (run_opener _ _ _ _) as [[a b] given]. by exists l.
Qed.
End Pipeline.

(** Before an archive is opened, every ZIP64 end record the opener could
    use lists at most 65535 members: whichever end record of the last 16 MiB
    it starts from, and whichever record that one's locator leads to. At most
    four end records there defer to ZIP64 at all. *)
Theorem zip64_members_bounded r :
  (len (rd_data r) <= u64_max)%Z -> check_zip64_entry_counts r (len (rd_data r)) = Ok tt ->
  let window := Nat.min (String.length (rd_data r)) (Z.to_nat MAX_CENTRAL_DIRECTORY_READ) in
  let tail_start := (String.length (rd_data r) - window)%nat in
  (length (filter (defers (rd_data r)) (seq tail_start window)) <= 4)%nat
  /\ forall p q, (tail_start <= p)%nat -> defers (rd_data r) p -> leads_to (rd_data r) window p q ->
     (members_listed (rd_data r) q <= 65535)%Z.
Proof.
  intros Hu64 (tail & Ht%read_at_ok & H)%result_bind_ok. cbv zeta.
  assert (0 <= MAX_CENTRAL_DIRECTORY_READ)%Z by done.
  set (window := Nat.min _ _). set (ts := (_ - window)%nat).
  assert (Z.to_nat (Z.min (len (rd_data r)) MAX_CENTRAL_DIRECTORY_READ) = window) as Ew by (unfold len, window; lia).
  assert (Z.to_nat (len (rd_data r) - Z.min (len (rd_data r)) MAX_CENTRAL_DIRECTORY_READ) = ts) as Es
    by (unfold len, ts, window; lia).
  rewrite Ew, Es in *. subst tail.
  apply check_end_records_ok in H as [Hall Hcount]; [|unfold ts, window; lia|done].
  assert (forall p, (ts <= p)%nat -> defers (rd_data r) p ->
    (p - ts)%nat ∈ positions (String.substring ts window (rd_data r)) EOCD /\ p = (ts + (p - ts))%nat) as Hin.
  { intros p Hp (Hsig & Hlen & _). split; [|lia]. apply positions_elem; [done|].
    change (String.length EOCD) with 4%nat. rewrite substring_substring by (unfold ts, window in *; lia).
    by replace (ts + (p - ts))%nat with p by lia. }
  split.
  - set (l := filter (fun p => defers (rd_data r) (ts + p))
      (positions (String.substring ts window (rd_data r)) EOCD)).
    assert (length l <= 4)%nat as Hl.
    { destruct (Hcount l) as [?| ->]; [apply sublist_filter|by apply Forall_forall; intros ? [? _]%list_elem_of_filter|lia|cbn; lia]. }
    transitivity (length (Nat.add ts <$> l)); [|by rewrite length_fmap].
    apply submseteq_length, NoDup_submseteq; [apply NoDup_filter, NoDup_seq|].
    intros p [Hd [Hp _]%elem_of_seq]%list_elem_of_filter. destruct (Hin p Hp Hd) as [Hpos Ep].
    apply list_elem_of_fmap. exists (p - ts)%nat. split; [done|]. apply list_elem_of_filter.
    split; [by rewrite <- Ep|done].
  - intros p q Hp Hd Hq. destruct (Hin p Hp Hd) as [Hpos Ep]. rewrite Ep in Hd, Hq. by eapply Hall.
Qed.

(** ** Witness *)

Module ZipSample.
Definition nul (n : nat) : string := repeat_char n "000".

(** A ZIP64 end record listing five members, its locator, and the end record
    that defers to it. *)
Definition record64 : bytes := EOCD64 +:+ nul 20 +:+ String "005" (nul 7) +:+ String "005" (nul 7) +:+ nul 16.
Definition data : bytes :=
  record64 +:+ (LOCATOR +:+ nul 16) +:+ (EOCD +:+ nul 6 +:+ String "255" (String "255" (nul 10))).
Definition file : reader := {| rd_data := data; rd_bad := fun _ => false |}.

Lemma zip64_members_bounded_witness :
  check_zip64_entry_counts file (len data) = Ok tt /\ defers data 76
  /\ (members_listed data 0 <= 65535)%Z /\ members_listed data 0 = 5%Z.
Proof.
  assert (check_zip64_entry_counts file (len data) = Ok tt) as H by (vm_compute; reflexivity).
  assert (defers data 76) as Hd by (apply (bool_decide_unpack _); vm_compute; exact I).
  split; [exact H|]. split; [exact Hd|]. split; [|vm_compute; reflexivity].
  destruct (zip64_members_bounded file) as [_ Hall]; [vm_compute; discriminate|exact H|].
  assert (String.length data = 98%nat) as Hl by (vm_compute; reflexivity).
  apply (Hall 76%nat 0%nat); [|exact Hd|].
  - cbn [rd_data file]. rewrite Hl. assert (98 <= MAX_CENTRAL_DIRECTORY_READ)%Z by (vm_compute; discriminate). lia.
  - split; [lia|]. split; [vm_compute; reflexivity|].
    assert (le_at (76 - 12) 8 data = 0%Z) as Hs by (vm_compute; reflexivity).
    cbn [rd_data file]. rewrite Hs. split; [lia|]. split; [lia|vm_compute; reflexivity].
Defined.
End ZipSample.
