(* ===== verification/Config.v ===== *)
(** * The node's configuration (src/config.rs)

    The sections of the TOML file, their defaults and [Config::from_file].
    The [toml] crate is a parameter: it reads a text into a document (tables
    with distinct keys, arrays, strings, numbers, booleans; a date is the
    table the crate presents to serde). The derived [Deserialize]
    implementations are definitions over that document. *)

From S2P Require Import Prelude Bytes Identifiers Json Net Auth Authz EntityChain PublishDecision CreatorCatalog CatalogV2 Validation.

Class TomlCrate := { toml_parse : string -> result string json }.

(** ** Reading fields

    A struct is a table, or an array read by position (elements past the last
    field are not looked at). Unknown keys are ignored in every section. *)
Definition toml_fields (fields : list string) (j : json) :
    result serde_error (list (string * json)) :=
  match j with
  | JObject l => object_fields fields false [] l
  | JArray l => Ok (zip fields l)
  | _ => Err (InvalidType "struct")
  end.

Definition de_u16 (k : string) (j : json) : result serde_error Z :=
  match j with
  | JInt n => if (0 <=? n)%Z && (n <? 65536)%Z then Ok n else Err (InvalidType k)
  | _ => Err (InvalidType k)
  end.

(** [NonZeroUsize], 64 bits wide. *)
Definition de_nonzero_usize (k : string) (j : json) : result serde_error Z :=
  n ← de_u64 k j; if (n =? 0)%Z then Err (InvalidType k) else Ok n.

Definition de_ip_addr (k : string) (j : json) : result serde_error IpAddr :=
  s ← de_string k j; ok_or (ip_parse s) (Custom "invalid IP address syntax").

Definition de_socket_addr (k : string) (j : json) : result serde_error SocketAddr :=
  s ← de_string k j; ok_or (socket_addr_parse s) (Custom "invalid socket address syntax").

(** ** [[publishing]] *)

Definition default_true : bool := true.
Definition default_publish_entitlement : string := DEFAULT_PUBLISH_ENTITLEMENT.
Definition default_publisher_audience : string := "arkavo".
Definition default_session_ttl_secs : Z := 900.
Definition default_moderation_refresh_secs : Z := 30.

Record PublishingConfig := {
  required : bool;
  pc_entitlement : string;
  pc_audience : string;
  session_ttl_secs : Z;
  operator_client_ids : list string;
  moderation_refresh_secs : Z;
  decisions : PublishDecisions
}.

Definition PublishingConfig_default : PublishingConfig :=
  {| required := true;
     pc_entitlement := default_publish_entitlement;
     pc_audience := default_publisher_audience;
     session_ttl_secs := default_session_ttl_secs;
     operator_client_ids := [];
     moderation_refresh_secs := default_moderation_refresh_secs;
     decisions := Local |}.

Definition decisions_name (s : string) : option PublishDecisions :=
  if decide (s = "local") then Some Local
  else if decide (s = "shadow") then Some Shadow
  else if decide (s = "pdp") then Some Pdp
  else None.

(** A unit variant is its name, or a table with that one key and nothing in
    it. *)
Definition de_decisions (k : string) (j : json) : result serde_error PublishDecisions :=
  match j with
  | JString s => ok_or (decisions_name s) (Custom "unknown variant")
  | JObject [(s, JObject [])] | JObject [(s, JArray [])] =>
      ok_or (decisions_name s) (Custom "unknown variant")
  | _ => Err (InvalidType k)
  end.

Definition publishing_fields : list string :=
  ["required"; "entitlement"; "audience"; "session_ttl_secs"; "operator_client_ids";
   "moderation_refresh_secs"; "decisions"].

Definition de_publishing (k : string) (j : json) : result serde_error PublishingConfig :=
  l ← toml_fields publishing_fields j;
  required ← field_or default_true de_bool "required" l;
  entitlement ← field_or default_publish_entitlement de_string "entitlement" l;
  audience ← field_or default_publisher_audience de_string "audience" l;
  session_ttl_secs ← field_or default_session_ttl_secs de_u64 "session_ttl_secs" l;
  operator_client_ids ← field_or [] (de_vec de_string) "operator_client_ids" l;
  moderation_refresh_secs ←
    field_or default_moderation_refresh_secs de_u64 "moderation_refresh_secs" l;
  decisions ← field_or Local de_decisions "decisions" l;
  Ok {| required := required; pc_entitlement := entitlement; pc_audience := audience;
        session_ttl_secs := session_ttl_secs; operator_client_ids := operator_client_ids;
        moderation_refresh_secs := moderation_refresh_secs; decisions := decisions |}.

(** ** [[catalog.authz]] *)

Definition default_authz_action : string := "read".
Definition default_authz_protocol : string := "authzen".
Definition default_authz_client_secret_param : string := "/tdf-iroh-s3/catalog-authz-client-secret".

Record AuthzConfig := {
  ac_endpoint : string;
  ac_action : string;
  ac_token_url : string;
  ac_client_id : string;
  ac_client_secret : string;
  ac_client_secret_param : string;
  ac_bearer_token : string;
  ac_environment_region : string;
  ac_entity_mode : string;
  ac_protocol : string
}.

Definition AuthzConfig_default : AuthzConfig :=
  {| ac_endpoint := "";
     ac_action := default_authz_action;
     ac_token_url := "";
     ac_client_id := "";
     ac_client_secret := "";
     ac_client_secret_param := default_authz_client_secret_param;
     ac_bearer_token := "";
     ac_environment_region := "";
     ac_entity_mode := "";
     ac_protocol := default_authz_protocol |}.

Definition authz_fields : list string :=
  ["endpoint"; "action"; "token_url"; "client_id"; "client_secret"; "client_secret_param";
   "bearer_token"; "environment_region"; "entity_mode"; "protocol"].

Definition de_authz (k : string) (j : json) : result serde_error AuthzConfig :=
  l ← toml_fields authz_fields j;
  endpoint ← field_or "" de_string "endpoint" l;
  action ← field_or default_authz_action de_string "action" l;
  token_url ← field_or "" de_string "token_url" l;
  client_id ← field_or "" de_string "client_id" l;
  client_secret ← field_or "" de_string "client_secret" l;
  client_secret_param ←
    field_or default_authz_client_secret_param de_string "client_secret_param" l;
  bearer_token ← field_or "" de_string "bearer_token" l;
  environment_region ← field_or "" de_string "environment_region" l;
  entity_mode ← field_or "" de_string "entity_mode" l;
  protocol ← field_or default_authz_protocol de_string "protocol" l;
  Ok {| ac_endpoint := endpoint; ac_action := action; ac_token_url := token_url;
        ac_client_id := client_id; ac_client_secret := client_secret;
        ac_client_secret_param := client_secret_param; ac_bearer_token := bearer_token;
        ac_environment_region := environment_region; ac_entity_mode := entity_mode;
        ac_protocol := protocol |}.

Record CatalogConfig := { authz : AuthzConfig }.

Definition CatalogConfig_default : CatalogConfig := {| authz := AuthzConfig_default |}.

Definition de_catalog (k : string) (j : json) : result serde_error CatalogConfig :=
  l ← toml_fields ["authz"] j;
  authz ← field_or AuthzConfig_default de_authz "authz" l;
  Ok {| authz := authz |}.

(** ** [[iroh]] *)

Definition default_gc_interval_secs : Z := 60.
Definition default_push_stall_secs : Z := 120.
Definition default_bind_port : Z := 11204.
Definition default_secret_key_param : string := "/tdf-iroh-s3/node-secret-key".
Definition default_data_dir : string := "/var/lib/tdf-iroh-s3/data".

Record IrohConfig := {
  ic_bind_port : Z;
  secret_key_param : string;
  data_dir : string;
  public_addresses : list SocketAddr;
  gc_interval_secs : Z;
  push_stall_secs : Z
}.

Definition IrohConfig_default : IrohConfig :=
  {| ic_bind_port := default_bind_port;
     secret_key_param := default_secret_key_param;
     data_dir := default_data_dir;
     public_addresses := [];
     gc_interval_secs := default_gc_interval_secs;
     push_stall_secs := default_push_stall_secs |}.

Definition iroh_fields : list string :=
  ["bind_port"; "secret_key_param"; "data_dir"; "public_addresses"; "gc_interval_secs";
   "push_stall_secs"].

Definition de_iroh (k : string) (j : json) : result serde_error IrohConfig :=
  l ← toml_fields iroh_fields j;
  bind_port ← field_or default_bind_port de_u16 "bind_port" l;
  secret_key_param ← field_or default_secret_key_param de_string "secret_key_param" l;
  data_dir ← field_or default_data_dir de_string "data_dir" l;
  public_addresses ← field_or [] (de_vec de_socket_addr) "public_addresses" l;
  gc_interval_secs ← field_or default_gc_interval_secs de_u64 "gc_interval_secs" l;
  push_stall_secs ← field_or default_push_stall_secs de_u64 "push_stall_secs" l;
  Ok {| ic_bind_port := bind_port; secret_key_param := secret_key_param; data_dir := data_dir;
        public_addresses := public_addresses; gc_interval_secs := gc_interval_secs;
        push_stall_secs := push_stall_secs |}.

(** ** [[s3]] *)

Record S3Config := {
  s3_bucket : string;
  s3_region : string;
  s3_prefix : string;
  endpoint_url : string;
  force_path_style : bool
}.

Definition s3_fields : list string :=
  ["bucket"; "region"; "prefix"; "endpoint_url"; "force_path_style"].

Definition de_s3 (k : string) (j : json) : result serde_error S3Config :=
  l ← toml_fields s3_fields j;
  bucket ← field de_string "bucket" l;
  region ← field de_string "region" l;
  prefix ← field_or "" de_string "prefix" l;
  endpoint_url ← field_or "" de_string "endpoint_url" l;
  force_path_style ← field_or false de_bool "force_path_style" l;
  Ok {| s3_bucket := bucket; s3_region := region; s3_prefix := prefix;
        endpoint_url := endpoint_url; force_path_style := force_path_style |}.

(** ** [[validation]] *)

Record AssertionConfig := { as_enabled : bool; as_trusted_public_keys : list string }.

Definition AssertionConfig_default : AssertionConfig :=
  {| as_enabled := false; as_trusted_public_keys := [] |}.

Definition de_assertion (k : string) (j : json) : result serde_error AssertionConfig :=
  l ← toml_fields ["enabled"; "trusted_public_keys"] j;
  enabled ← field_or false de_bool "enabled" l;
  trusted_public_keys ← field_or [] (de_vec de_string) "trusted_public_keys" l;
  Ok {| as_enabled := enabled; as_trusted_public_keys := trusted_public_keys |}.

Definition DEFAULT_MAX_BLOB_BYTES : Z := MAX_PAYLOAD_SIZE.
Definition default_max_blob_bytes : Z := DEFAULT_MAX_BLOB_BYTES.
Definition default_max_concurrent_ingests : Z := 1.

(** The [assertion] table is kept flat in [Validation.ValidationConfig]. *)
Definition validation_config (required_attributes : list string) (assertion : AssertionConfig)
    (max_blob_bytes max_concurrent_ingests : Z) : ValidationConfig :=
  {| Validation.max_blob_bytes := max_blob_bytes;
     Validation.required_attributes := required_attributes;
     assertion_enabled := as_enabled assertion;
     Validation.trusted_public_keys := as_trusted_public_keys assertion;
     Validation.max_concurrent_ingests := Z.to_nat max_concurrent_ingests |}.

Definition ValidationConfig_default : ValidationConfig :=
  validation_config [] AssertionConfig_default default_max_blob_bytes default_max_concurrent_ingests.

Definition validation_fields : list string :=
  ["required_attributes"; "assertion"; "max_blob_bytes"; "max_concurrent_ingests"].

Definition de_validation (k : string) (j : json) : result serde_error ValidationConfig :=
  l ← toml_fields validation_fields j;
  required_attributes ← field_or [] (de_vec de_string) "required_attributes" l;
  assertion ← field_or AssertionConfig_default de_assertion "assertion" l;
  max_blob_bytes ← field_or default_max_blob_bytes de_u64 "max_blob_bytes" l;
  max_concurrent_ingests ←
    field_or default_max_concurrent_ingests de_nonzero_usize "max_concurrent_ingests" l;
  Ok (validation_config required_attributes assertion max_blob_bytes max_concurrent_ingests).

(** ** [[http]] and [[http.tls]] *)

Definition default_https_bind_port : Z := 443.
Definition default_tls_reload_check_secs : Z := 60.
Definition default_passkey_rp_id : string := "identity.arkavo.net".
Definition default_passkey_status_url : string :=
  "https://identity.arkavo.net/passkeys/credentials/{credentialId}/status".
(** [Ipv4Addr::UNSPECIFIED] *)
Definition default_http_bind_address : IpAddr := V4 [0; 0; 0; 0]%Z.
Definition default_http_bind_port : Z := 8090.

Record TlsConfig := {
  tc_bind_port : Z;
  cert_path : string;
  key_path : string;
  acm_certificate_arn : string;
  reload_check_secs : Z
}.

Definition tls_fields : list string :=
  ["bind_port"; "cert_path"; "key_path"; "acm_certificate_arn"; "reload_check_secs"].

Definition de_tls (k : string) (j : json) : result serde_error TlsConfig :=
  l ← toml_fields tls_fields j;
  bind_port ← field_or default_https_bind_port de_u16 "bind_port" l;
  cert_path ← field de_string "cert_path" l;
  key_path ← field de_string "key_path" l;
  acm_certificate_arn ← field_or "" de_string "acm_certificate_arn" l;
  reload_check_secs ← field_or default_tls_reload_check_secs de_u64 "reload_check_secs" l;
  Ok {| tc_bind_port := bind_port; cert_path := cert_path; key_path := key_path;
        acm_certificate_arn := acm_certificate_arn; reload_check_secs := reload_check_secs |}.

Record HttpConfig := {
  hc_enabled : bool;
  bind_address : IpAddr;
  hc_bind_port : Z;
  hc_cose_keys_url : string;
  expected_issuer : string;
  hc_tls : option TlsConfig;
  passkey_rp_id : string;
  passkey_status_url : string
}.

Definition HttpConfig_default : HttpConfig :=
  {| hc_enabled := false;
     bind_address := default_http_bind_address;
     hc_bind_port := default_http_bind_port;
     hc_cose_keys_url := "";
     expected_issuer := "";
     hc_tls := None;
     passkey_rp_id := default_passkey_rp_id;
     passkey_status_url := default_passkey_status_url |}.

Definition http_fields : list string :=
  ["enabled"; "bind_address"; "bind_port"; "cose_keys_url"; "expected_issuer"; "tls";
   "passkey_rp_id"; "passkey_status_url"].

Definition de_http (k : string) (j : json) : result serde_error HttpConfig :=
  l ← toml_fields http_fields j;
  enabled ← field_or false de_bool "enabled" l;
  bind_address ← field_or default_http_bind_address de_ip_addr "bind_address" l;
  bind_port ← field_or default_http_bind_port de_u16 "bind_port" l;
  cose_keys_url ← field_or "" de_string "cose_keys_url" l;
  expected_issuer ← field_or "" de_string "expected_issuer" l;
  tls ← field_or None (de_option de_tls) "tls" l;
  passkey_rp_id ← field_or default_passkey_rp_id de_string "passkey_rp_id" l;
  passkey_status_url ← field_or default_passkey_status_url de_string "passkey_status_url" l;
  Ok {| hc_enabled := enabled; bind_address := bind_address; hc_bind_port := bind_port;
        hc_cose_keys_url := cose_keys_url; expected_issuer := expected_issuer; hc_tls := tls;
        passkey_rp_id := passkey_rp_id; passkey_status_url := passkey_status_url |}.

(** ** The file *)

Record Config := {
  cfg_iroh : IrohConfig;
  cfg_s3 : S3Config;
  cfg_validation : ValidationConfig;
  cfg_http : HttpConfig;
  cfg_catalog : CatalogConfig;
  cfg_publishing : PublishingConfig
}.

Definition config_fields : list string :=
  ["iroh"; "s3"; "validation"; "http"; "catalog"; "publishing"].

Definition de_config (k : string) (j : json) : result serde_error Config :=
  l ← toml_fields config_fields j;
  iroh ← field_or IrohConfig_default de_iroh "iroh" l;
  s3 ← field de_s3 "s3" l;
  validation ← field_or ValidationConfig_default de_validation "validation" l;
  http ← field_or HttpConfig_default de_http "http" l;
  catalog ← field_or CatalogConfig_default de_catalog "catalog" l;
  publishing ← field_or PublishingConfig_default de_publishing "publishing" l;
  Ok {| cfg_iroh := iroh; cfg_s3 := s3; cfg_validation := validation; cfg_http := http;
        cfg_catalog := catalog; cfg_publishing := publishing |}.

Section File.
Context {TC : TomlCrate} {SJ : Serde}.
(** [std::fs::read_to_string]: a missing, unreadable or non-UTF-8 file is an
    error. *)
Context (read_to_string : string -> result string string).

Definition from_file (path : string) : result string Config :=
  contents ← read_to_string path;
  doc ← toml_parse contents;
  map_err serde_display (de_config "" doc).
End File.

(** ** Writing the defaults out *)

Definition publishing_written : list (string * json) :=
  [("required", JBool true); ("entitlement", JString DEFAULT_PUBLISH_ENTITLEMENT);
   ("audience", JString "arkavo"); ("session_ttl_secs", JInt 900);
   ("operator_client_ids", JArray []); ("moderation_refresh_secs", JInt 30);
   ("decisions", JString "local")].

Definition authz_written : list (string * json) :=
  [("endpoint", JString ""); ("action", JString "read"); ("token_url", JString "");
   ("client_id", JString ""); ("client_secret", JString "");
   ("client_secret_param", JString "/tdf-iroh-s3/catalog-authz-client-secret");
   ("bearer_token", JString ""); ("environment_region", JString "");
   ("entity_mode", JString ""); ("protocol", JString "authzen")].

Definition catalog_written : list (string * json) := [("authz", JObject authz_written)].

Definition iroh_written : list (string * json) :=
  [("bind_port", JInt 11204); ("secret_key_param", JString "/tdf-iroh-s3/node-secret-key");
   ("data_dir", JString "/var/lib/tdf-iroh-s3/data"); ("public_addresses", JArray []);
   ("gc_interval_secs", JInt 60); ("push_stall_secs", JInt 120)].

Definition s3_written : list (string * json) :=
  [("prefix", JString ""); ("endpoint_url", JString ""); ("force_path_style", JBool false)].

Definition assertion_written : list (string * json) :=
  [("enabled", JBool false); ("trusted_public_keys", JArray [])].

Definition validation_written : list (string * json) :=
  [("required_attributes", JArray []); ("assertion", JObject assertion_written);
   ("max_blob_bytes", JInt 4294967295); ("max_concurrent_ingests", JInt 1)].

Definition tls_written : list (string * json) :=
  [("bind_port", JInt 443); ("acm_certificate_arn", JString ""); ("reload_check_secs", JInt 60)].

Definition http_written : list (string * json) :=
  [("enabled", JBool false); ("bind_address", JString "0.0.0.0"); ("bind_port", JInt 8090);
   ("cose_keys_url", JString ""); ("expected_issuer", JString "");
   ("passkey_rp_id", JString "identity.arkavo.net");
   ("passkey_status_url",
    JString "https://identity.arkavo.net/passkeys/credentials/{credentialId}/status")].

Definition config_written : list (string * json) :=
  [("iroh", JObject iroh_written); ("validation", JObject validation_written);
   ("http", JObject http_written); ("catalog", JObject catalog_written);
   ("publishing", JObject publishing_written)].

(** The table with the members of [defaults] it does not have. *)
Definition fill (defaults l : list (string * json)) : list (string * json) :=
  l ++ filter (fun kv : string * json => kv.1 ∉ l.*1) defaults.

(** ** Lemmas *)

Lemma object_fields_app fields deny acc l1 l2 :
  object_fields fields deny acc (l1 ++ l2) =
  (m ← object_fields fields deny acc l1; object_fields fields deny m l2).
Proof.
  revert acc; induction l1 as [|[k v] l1 IH]; intros acc; cbn; [done|].
  repeat (case_match; try done); apply IH.
Qed.

(** The members kept are those of the table whose key is a field. *)
Lemma object_fields_keys fields deny acc l m :
  object_fields fields deny acc l = Ok m ->
  forall k, k ∈ m.*1 -> k ∈ acc.*1 \/ k ∈ l.*1.
Proof.
  revert acc; induction l as [|[k v] l IH]; intros acc; cbn; [intros [= <-]; auto|].
  case_bool_decide; [destruct (assoc_get k acc) eqn:E; [done|]|destruct deny; [done|]];
    intros H' k' Hk'; destruct (IH _ H' _ Hk') as [Hl|Hl]; set_solver.
Qed.

Lemma assoc_get_app {A} k (l1 l2 : list (string * A)) :
  assoc_get k (l1 ++ l2) = match assoc_get k l1 with Some v => Some v | None => assoc_get k l2 end.
Proof. induction l1 as [|[k' v] l1 IH]; cbn; [done|]. by destruct (decide (k = k')). Qed.

Lemma object_fields_get fields deny acc l m k :
  object_fields fields deny acc l = Ok m -> k ∈ fields -> assoc_get k m = assoc_get k (acc ++ l).
Proof.
  intros H Hk. revert acc H; induction l as [|[k' v] l IH]; intros acc; cbn.
  { intros [= <-]. by rewrite app_nil_r. }
  case_bool_decide as Hf; [destruct (assoc_get k' acc) eqn:E; [done|]|destruct deny; [done|]]; intros H.
  - rewrite (IH _ H), <- app_assoc. done.
  - rewrite (IH _ H), !assoc_get_app. cbn. by rewrite (decide_False (P := k = k')) by congruence.
Qed.

Lemma object_fields_extra fields deny m extra :
  NoDup extra.*1 -> Forall (.∈ fields) extra.*1 -> Forall (.∉ m.*1) extra.*1 ->
  object_fields fields deny m extra = Ok (m ++ extra).
Proof.
  revert m; induction extra as [|[k v] extra IH]; intros m; cbn; [by rewrite app_nil_r|].
  rewrite NoDup_cons, !Forall_cons. intros [Hk Hnd] [Hf Hfs] [Hm Hms].
  rewrite (bool_decide_true _ Hf), (proj2 (assoc_get_None k m) Hm).
  rewrite IH; [by rewrite <- app_assoc|done|done|].
  rewrite Forall_forall in *. intros k' Hk'. rewrite fmap_app, elem_of_app.
  intros [?| ->%list_elem_of_singleton]; [by eapply Hms|done].
Qed.

Lemma fill_extra_keys defaults l k :
  k ∈ (filter (fun kv : string * json => kv.1 ∉ l.*1) defaults).*1 -> k ∈ defaults.*1 /\ k ∉ (l : list (string * json)).*1.
Proof.
  intros ([k' v] & -> & [Hne Hin]%list_elem_of_filter)%list_elem_of_fmap. split; [|done].
  by apply list_elem_of_fmap_2.
Qed.

Lemma fill_extra_NoDup (P : string * json -> Prop) `{!forall x, Decision (P x)} defaults :
  NoDup defaults.*1 -> NoDup (filter P defaults).*1.
Proof. intros Hnd. eapply sublist_NoDup; [done|]. apply fmap_sublist, sublist_filter. Qed.

(** Reading a filled table: the members kept, then those added. *)
Lemma object_fields_fill fields defaults l :
  exact_fields fields defaults.*1 = true ->
  object_fields fields false [] (fill defaults l) =
  (m ← object_fields fields false [] l; Ok (m ++ filter (fun kv : string * json => kv.1 ∉ l.*1) defaults)).
Proof.
  unfold exact_fields. rewrite andb_true_iff, !bool_decide_eq_true. intros [Hnd Hf].
  unfold fill. rewrite object_fields_app. destruct (object_fields fields false [] l) as [m|e] eqn:E; [|done].
  cbn. apply object_fields_extra.
  - by apply fill_extra_NoDup.
  - rewrite Forall_forall in *. intros k [Hk _]%fill_extra_keys. auto.
  - rewrite Forall_forall. intros k [_ Hk]%fill_extra_keys Hm.
    destruct (object_fields_keys _ _ _ _ _ E _ Hm); set_solver.
Qed.

Lemma fill_get defaults (l : list (string * json)) k :
  k ∉ l.*1 -> assoc_get k (filter (fun kv : string * json => kv.1 ∉ l.*1) defaults) = assoc_get k defaults.
Proof.
  intros Hk. induction defaults as [|[k' v] ds IH]; [done|]. rewrite filter_cons. cbn [fst].
  destruct (decide (k' ∉ l.*1)) as [Hin|Hin]; cbn; destruct (decide (k = k')) as [->|]; done.
Qed.

Section FillFields.
Context (fields : list string) (defaults l m : list (string * json)).
Context (Hm : object_fields fields false [] l = Ok m).

(** An omitted field read from the filled table is read as its default. *)
Lemma field_or_fill {A} (d : A) f k :
  bool_decide (k ∈ fields) = true ->
  (exists w, assoc_get k defaults = Some w /\ f k w = Ok d) ->
  field_or d f k (m ++ filter (fun kv : string * json => kv.1 ∉ l.*1) defaults) = field_or d f k m.
Proof.
  rewrite bool_decide_eq_true. intros Hk (w & Hw & Hd). unfold field_or. rewrite assoc_get_app.
  pose proof (object_fields_get _ _ _ _ _ _ Hm Hk) as Hg. cbn in Hg.
  destruct (assoc_get k m); [done|]. rewrite fill_get by by apply assoc_get_None.
  by rewrite Hw.
Qed.

(** A key with no written default is looked up as before. *)
Lemma fill_other k :
  assoc_get k defaults = None ->
  assoc_get k (m ++ filter (fun kv : string * json => kv.1 ∉ l.*1) defaults) = assoc_get k m.
Proof.
  intros Hd. rewrite assoc_get_app. destruct (assoc_get k m); [done|].
  apply assoc_get_None. intros [Hk _]%fill_extra_keys. by apply assoc_get_None in Hd.
Qed.

Lemma field_fill {A} (f : string -> json -> result serde_error A) k :
  assoc_get k defaults = None ->
  field f k (m ++ filter (fun kv : string * json => kv.1 ∉ l.*1) defaults) = field f k m.
Proof. intros Hd. unfold field. by rewrite fill_other. Qed.

Lemma field_or_no_fill {A} (d : A) (f : string -> json -> result serde_error A) k :
  assoc_get k defaults = None ->
  field_or d f k (m ++ filter (fun kv : string * json => kv.1 ∉ l.*1) defaults) = field_or d f k m.
Proof. intros Hd. unfold field_or. by rewrite fill_other. Qed.
End FillFields.

(** Compare the reading of a filled table with that of the table. *)
Ltac fill_struct :=
  cbn [toml_fields]; rewrite object_fields_fill by (vm_compute; reflexivity);
  match goal with |- context [object_fields ?fs false [] ?l] =>
    let Hm := fresh "Hm" in destruct (object_fields fs false [] l) as [m|e] eqn:Hm; [|reflexivity];
    cbn [mbind result_bind];
    repeat first
      [ rewrite (field_or_fill _ _ _ _ Hm) by (first [reflexivity | eexists; split; reflexivity])
      | rewrite field_or_no_fill by reflexivity | rewrite field_fill by reflexivity ];
    reflexivity
  end.

(** C34: An omitted setting is the documented default, in every section and
    at every level: the file is read exactly as if the settings it leaves out
    had been written with their default values (a missing section as a whole
    default section, so the [Default] implementations and the per-field
    defaults agree); [http.tls] alone has no default. *)
Theorem omitted_settings_default k l :
  de_config k (JObject (fill config_written l)) = de_config k (JObject l)
  /\ de_iroh k (JObject (fill iroh_written l)) = de_iroh k (JObject l)
  /\ de_s3 k (JObject (fill s3_written l)) = de_s3 k (JObject l)
  /\ de_validation k (JObject (fill validation_written l)) = de_validation k (JObject l)
  /\ de_assertion k (JObject (fill assertion_written l)) = de_assertion k (JObject l)
  /\ de_http k (JObject (fill http_written l)) = de_http k (JObject l)
  /\ de_tls k (JObject (fill tls_written l)) = de_tls k (JObject l)
  /\ de_catalog k (JObject (fill catalog_written l)) = de_catalog k (JObject l)
  /\ de_authz k (JObject (fill authz_written l)) = de_authz k (JObject l)
  /\ de_publishing k (JObject (fill publishing_written l)) = de_publishing k (JObject l).
Proof.
  split_and!.
  - unfold de_config. fill_struct.
  - unfold de_iroh. fill_struct.
  - unfold de_s3. fill_struct.
  - unfold de_validation. fill_struct.
  - unfold de_assertion. fill_struct.
  - unfold de_http. fill_struct.
  - unfold de_tls. fill_struct.
  - unfold de_catalog. fill_struct.
  - unfold de_authz. fill_struct.
  - unfold de_publishing. fill_struct.
Qed.

(** ** What a file that was read says *)

(** The value a section gives a field. *)
Definition setting (fields : list string) (k : string) (j : json) : option json :=
  match j with
  | JObject l => assoc_get k l
  | JArray l => assoc_get k (zip fields l)
  | _ => None
  end.

Lemma toml_fields_get fields j l k :
  toml_fields fields j = Ok l -> k ∈ fields -> assoc_get k l = setting fields k j.
Proof.
  destruct j; cbn; try done; [by intros [= <-]|]. intros H Hk.
  exact (object_fields_get _ _ _ _ _ _ H Hk).
Qed.

(** A field that is not its default was set. *)
Lemma field_or_set {A} (d : A) f fields j l k v :
  toml_fields fields j = Ok l -> field_or d f k l = Ok v -> bool_decide (k ∈ fields) = true ->
  v = d \/ exists w, setting fields k j = Some w /\ f k w = Ok v.
Proof.
  intros Hl H Hk%bool_decide_eq_true. revert H. unfold field_or.
  rewrite (toml_fields_get _ _ _ _ Hl Hk). destruct (setting fields k j); [|by intros [= <-]; left]. eauto.
Qed.

(** What holds of the default and of everything that reads holds of a field. *)
Lemma field_or_ok {A} (P : A -> Prop) (d : A) f k l v :
  P d -> (forall k w v, f k w = Ok v -> P v) -> field_or d f k l = Ok v -> P v.
Proof. unfold field_or. intros Hd Hf. destruct (assoc_get k l); [apply Hf|by intros [= <-]]. Qed.

Lemma de_u64_range k j n : de_u64 k j = Ok n -> (0 <= n <= u64_max)%Z.
Proof. unfold de_u64, in_u64. destruct j; try done. case_match eqn:E; [|done]. intros [= <-]. lia. Qed.

Lemma de_u16_range k j n : de_u16 k j = Ok n -> (0 <= n <= 65535)%Z.
Proof. unfold de_u16. destruct j; try done. case_match eqn:E; [|done]. intros [= <-]. lia. Qed.

Lemma de_nonzero_usize_range k j n : de_nonzero_usize k j = Ok n -> (1 <= n <= u64_max)%Z.
Proof.
  unfold de_nonzero_usize. intros H. inv_run. pose proof (de_u64_range _ _ _ H0).
  destruct (Z.eqb_spec x 0); [done|]. injection H as <-. lia.
Qed.

(** Every number of a configuration is in the range of its type. *)
Definition u16_typed (n : Z) : Prop := (0 <= n <= 65535)%Z.
Definition u64_typed (n : Z) : Prop := (0 <= n <= u64_max)%Z.
Definition iroh_typed (c : IrohConfig) : Prop :=
  u16_typed (ic_bind_port c) /\ u64_typed (gc_interval_secs c) /\ u64_typed (push_stall_secs c).
Definition tls_typed (c : TlsConfig) : Prop :=
  u16_typed (tc_bind_port c) /\ u64_typed (reload_check_secs c).
Definition http_typed (c : HttpConfig) : Prop :=
  u16_typed (hc_bind_port c) /\ (forall t, hc_tls c = Some t -> tls_typed t).
Definition validation_typed (c : ValidationConfig) : Prop :=
  u64_typed (Validation.max_blob_bytes c) /\ (1 <= Validation.max_concurrent_ingests c)%nat.
Definition publishing_typed (c : PublishingConfig) : Prop :=
  u64_typed (session_ttl_secs c) /\ u64_typed (moderation_refresh_secs c).
Definition config_typed (c : Config) : Prop :=
  iroh_typed (cfg_iroh c) /\ validation_typed (cfg_validation c) /\ http_typed (cfg_http c)
  /\ publishing_typed (cfg_publishing c).

(** The range of every number a section reads. *)
Ltac field_range P L :=
  repeat match goal with H : field_or _ _ _ _ = Ok _ |- _ =>
    apply (field_or_ok P) in H; [|vm_compute; intuition discriminate|exact L] end.
Ltac field_ranges :=
  field_range u64_typed de_u64_range; field_range u16_typed de_u16_range;
  field_range (fun n => 1 <= n <= u64_max)%Z de_nonzero_usize_range; cbn beta in *.

Lemma de_iroh_typed k j c : de_iroh k j = Ok c -> iroh_typed c.
Proof. unfold de_iroh. intros H. inv_run. injection H as <-. field_ranges. by split_and!. Qed.

Lemma de_tls_typed k j c : de_tls k j = Ok c -> tls_typed c.
Proof. unfold de_tls. intros H. inv_run. injection H as <-. field_ranges. by split. Qed.

Lemma de_validation_typed k j c : de_validation k j = Ok c -> validation_typed c.
Proof. unfold de_validation. intros H. inv_run. injection H as <-. field_ranges. split; cbn; [done|lia]. Qed.

Lemma de_publishing_typed k j c : de_publishing k j = Ok c -> publishing_typed c.
Proof. unfold de_publishing. intros H. inv_run. injection H as <-. field_ranges. by split. Qed.

Lemma de_http_typed k j c : de_http k j = Ok c -> http_typed c.
Proof.
  unfold de_http. intros H. inv_run. injection H as <-. field_ranges. split; [done|]. cbn. intros t ->.
  match goal with H : field_or None _ _ _ = _ |- _ => rename H into Ho end.
  refine (field_or_ok (fun o => forall t, o = Some t -> tls_typed t) _ _ _ _ _ _ _ Ho t eq_refl); [done|].
  intros k0 j0 v Ht t' ->. destruct j0; cbn [de_option] in Ht; try done; inv_run; simplify_eq; by eapply de_tls_typed.
Qed.

(** Reading a file gives only values of their types: ports below 65536, 64-bit
    counts and times, at least one ingest at a time. *)
Theorem from_file_typed {TC : TomlCrate} {SJ : Serde} read path c :
  from_file read path = Ok c -> config_typed c.
Proof.
  unfold from_file, de_config. intros H. inv_run. injection H as <-. split_and!; cbn.
  - eapply (field_or_ok iroh_typed); [|apply de_iroh_typed|done]. by apply (de_iroh_typed "" (JObject [])).
  - eapply (field_or_ok validation_typed); [|apply de_validation_typed|done].
    by apply (de_validation_typed "" (JObject [])).
  - eapply (field_or_ok http_typed); [|apply de_http_typed|done]. by apply (de_http_typed "" (JObject [])).
  - eapply (field_or_ok publishing_typed); [|apply de_publishing_typed|done].
    by apply (de_publishing_typed "" (JObject [])).
Qed.

(** What a section sets when it is read as unprotected. *)
Lemma de_string_set k w v : de_string k w = Ok v -> w = JString v.
Proof. destruct w; cbn; congruence. Qed.
Lemma de_bool_set k w v : de_bool k w = Ok v -> w = JBool v.
Proof. destruct w; cbn; congruence. Qed.
Lemma de_strings_set k w v : de_vec de_string k w = Ok v -> w = JArray (JString <$> v).
Proof.
  destruct w as [| | | | |l|]; try done. cbn. rewrite try_map_ok. intros H. f_equal.
  induction H as [|x y l v Hx Hl IH]; cbn; [done|]. by rewrite (de_string_set _ _ _ Hx), IH.
Qed.

Ltac field_set :=
  match goal with Hl : toml_fields _ _ = Ok _, H : field_or _ _ _ _ = Ok ?v |- context [?v] =>
    let w := fresh "w" in let Hw := fresh "Hw" in let Hf := fresh "Hf" in
    destruct (field_or_set _ _ _ _ _ _ _ Hl H eq_refl) as [->|(w & Hw & Hf)]; clear H;
      [try done|first [apply de_string_set in Hf | apply de_bool_set in Hf | apply de_strings_set in Hf]; subst]
  end.

Lemma de_publishing_set k s c : de_publishing k s = Ok c ->
  (required c = false -> setting publishing_fields "required" s = Some (JBool false))
  /\ (pc_entitlement c = "" -> setting publishing_fields "entitlement" s = Some (JString ""))
  /\ (pc_audience c = "" -> setting publishing_fields "audience" s = Some (JString ""))
  /\ (forall id, id ∈ operator_client_ids c ->
       exists ids, setting publishing_fields "operator_client_ids" s = Some (JArray ids) /\ JString id ∈ ids).
Proof.
  unfold de_publishing. intros H. inv_run. injection H as <-. cbn [required pc_entitlement pc_audience operator_client_ids].
  split_and!.
  - field_set. by intros ->.
  - field_set. by intros ->.
  - field_set. by intros ->.
  - intros id. field_set; [by intros ?%elem_of_nil|]. intros Hid. eexists. split; [done|].
    by apply list_elem_of_fmap_2.
Qed.

Lemma de_http_set k s c : de_http k s = Ok c ->
  passkey_status_url c = "" -> setting http_fields "passkey_status_url" s = Some (JString "").
Proof.
  unfold de_http. intros H. inv_run. injection H as <-. cbn [passkey_status_url]. field_set. by intros ->.
Qed.

(** Protection is never off by omission. Of a file that was read, pushes
    are open ([required = false]), the publisher's entitlement or audience is
    not asked for (empty), or a passkey's status is not looked up (empty URL)
    only when the file sets exactly that; and every client that may moderate
    is listed in the file. *)
Theorem unprotected_only_if_set {TC : TomlCrate} {SJ : Serde} read path c :
  from_file read path = Ok c ->
  exists text doc, read path = Ok text /\ toml_parse text = Ok doc
    /\ let set section fields k v :=
         exists s, setting config_fields section doc = Some s /\ setting fields k s = Some v in
       (required (cfg_publishing c) = false ->
          set "publishing" publishing_fields "required" (JBool false))
       /\ (pc_entitlement (cfg_publishing c) = "" ->
          set "publishing" publishing_fields "entitlement" (JString ""))
       /\ (pc_audience (cfg_publishing c) = "" ->
          set "publishing" publishing_fields "audience" (JString ""))
       /\ (passkey_status_url (cfg_http c) = "" ->
          set "http" http_fields "passkey_status_url" (JString ""))
       /\ (forall id, id ∈ operator_client_ids (cfg_publishing c) ->
          exists ids, set "publishing" publishing_fields "operator_client_ids" (JArray ids)
                      /\ JString id ∈ ids).
Proof.
  unfold from_file, de_config. intros H. inv_run. do 2 eexists. split; [done|]. split; [done|].
  injection H as <-. cbn [cfg_publishing cfg_http].
  match goal with Hl : toml_fields _ _ = Ok _, Hp : field_or _ de_publishing _ _ = _, Hh : field_or _ de_http _ _ = _ |- _ =>
    destruct (field_or_set _ _ _ _ _ _ _ Hl Hp eq_refl) as [->|(p & Hp1 & Hp2)];
    destruct (field_or_set _ _ _ _ _ _ _ Hl Hh eq_refl) as [->|(h & Hh1 & Hh2)]
  end;
  try (apply de_publishing_set in Hp2 as (R & E & A & O)); try (pose proof (de_http_set _ _ _ Hh2) as U);
  split_and!; try done; try (intros id Hid; first [by apply elem_of_nil in Hid | destruct (O id Hid) as (ids & ? & ?)]);
  eauto 10.
Qed.

Module ConfigSample.
(** A file that names only the bucket and opens the node for development. *)
Definition text : string := "required = false".
Definition doc : json :=
  JObject [("s3", JObject [("bucket", JString "tdf"); ("region", JString "us-east-1")]);
           ("publishing", JObject [("required", JBool false);
                                   ("operator_client_ids", JArray [JString "ops"])])].
Definition toml : TomlCrate :=
  {| toml_parse := fun t => if decide (t = text) then Ok doc else Err "expected key" |}.
Definition serde : Serde :=
  {| serde_parse := fun _ => Err (Syntax "eof"); serde_print := fun _ => ""; serde_display := fun _ => "" |}.
Definition read (path : string) : result string string :=
  if decide (path = "config.toml") then Ok text else Err "not found".
#[local] Existing Instance toml.
#[local] Existing Instance serde.

Definition config : Config :=
  {| cfg_iroh := IrohConfig_default;
     cfg_s3 := {| s3_bucket := "tdf"; s3_region := "us-east-1"; s3_prefix := ""; endpoint_url := "";
                  force_path_style := false |};
     cfg_validation := ValidationConfig_default; cfg_http := HttpConfig_default;
     cfg_catalog := CatalogConfig_default;
     cfg_publishing :=
       {| required := false; pc_entitlement := default_publish_entitlement;
          pc_audience := default_publisher_audience; session_ttl_secs := default_session_ttl_secs;
          operator_client_ids := ["ops"];
          moderation_refresh_secs := default_moderation_refresh_secs; decisions := Local |} |}.

Example config_read : from_file read "config.toml" = Ok config.
Proof. reflexivity. Qed.

Example config_refused :
  (is_ok (de_config "" (JObject [])),
   is_ok (de_validation "" (JObject [("max_concurrent_ingests", JInt 0)])),
   is_ok (de_http "" (JObject [("bind_port", JInt 65536)])),
   is_ok (de_http "" (JObject [("bind_address", JString "localhost")])),
   is_ok (de_publishing "" (JObject [("decisions", JString "PDP")])))
  = (false, false, false, false, false).
Proof. vm_compute. reflexivity. Qed.

Lemma unprotected_only_if_set_witness :
  exists s, setting config_fields "publishing" doc = Some s
            /\ setting publishing_fields "required" s = Some (JBool false).
Proof.
  destruct (unprotected_only_if_set read "config.toml" config config_read)
    as (t & d & Ht & Hd & R & _).
  vm_compute in Ht. injection Ht as <-. vm_compute in Hd. injection Hd as <-. by apply R.
Defined.
End ConfigSample.
