(* ===== verification/Secrets.v ===== *)
(** * Keys and secrets (src/secret_key.rs, src/ssm.rs, src/test_cli/iroh_client.rs)

    The node's identity is a key in SSM Parameter Store, made on the first
    start; the decision service's client secret is read from there and never
    made; the test client keeps its key in a file. The parameter store is a
    map that other processes may change between two requests, and a service
    that may refuse a request, apply it and lose the answer, or answer
    without a value. *)

From S2P Require Import Prelude Bytes Identifiers Extern Samples.

(** ** SSM Parameter Store *)

(** [SdkError]: an error the service answered, or none at all. *)
Inductive SdkError :=
| ParameterNotFound
| ParameterAlreadyExists
| OtherServiceError (why : string)
| NoServiceError (why : string).

Inductive SsmFault :=
| Works
| Refuses (why : string)
| LosesAnswer (why : string)
| AnswersWithoutValue.

Record Ssm := { ssm_params : gmap string string; ssm_calls : nat }.

Section ParameterStore.
(** How the service treats the [i]-th request, and what other processes did
    to the parameters before it. *)
Context (fault : nat -> SsmFault) (others : nat -> gmap string string -> gmap string string).

(** The parameters a request meets. *)
Definition ssm_met (s : Ssm) : gmap string string := others (ssm_calls s) (ssm_params s).

Definition ssm_after (params : gmap string string) (s : Ssm) : Ssm :=
  {| ssm_params := params; ssm_calls := S (ssm_calls s) |}.

(** [get_parameter().with_decryption(true)]: the value in the answer, if it
    carries one. *)
Definition get_parameter (name : string) : comp Ssm SdkError (option string) := fun s =>
  (match fault (ssm_calls s) with
   | Refuses why => Err (OtherServiceError why)
   | LosesAnswer why => Err (NoServiceError why)
   | f =>
       match ssm_met s !! name with
       | Some v => Ok (match f with AnswersWithoutValue => None | _ => Some v end)
       | None => Err ParameterNotFound
       end
   end, ssm_after (ssm_met s) s).

(** [put_parameter()] without [overwrite]: a parameter that exists is left
    alone. *)
Definition put_parameter (name value : string) : comp Ssm SdkError unit := fun s =>
  match fault (ssm_calls s) with
  | Refuses why => (Err (OtherServiceError why), ssm_after (ssm_met s) s)
  | f =>
      match ssm_met s !! name with
      | Some _ => (Err ParameterAlreadyExists, ssm_after (ssm_met s) s)
      | None =>
          (match f with LosesAnswer why => Err (NoServiceError why) | _ => Ok tt end,
           ssm_after (<[name := value]> (ssm_met s)) s)
      end
  end.

(** ** [secret_key::load_or_create] *)
Context {HX : Hex}.

Definition is_parameter_not_found (e : SdkError) : bool :=
  match e with ParameterNotFound => true | _ => false end.

(** [bytes.try_into::<[u8; 32]>()] *)
Definition key_bytes (b : bytes) : option bytes := if (len b =? 32)%Z then Some b else None.

(** [generated] is what [SecretKey::generate] returns. *)
Definition load_or_create (param_name : string) (generated : bytes) : comp Ssm string bytes :=
  answer ← attempt (get_parameter param_name);
  match answer with
  | Ok value =>
      lift (value ← ok_or value "SSM parameter has no value";
            b ← ok_or (hex_decode value) "SSM parameter is not valid hex";
            ok_or (key_bytes b) "Expected 32 bytes")
  | Err e =>
      if is_parameter_not_found e then
        _ ← comp_map_err (fun _ => "Failed to store secret key in SSM")
              (put_parameter param_name (hex_encode generated));
        mret generated
      else throw "Failed to get secret key from SSM"
  end.

(** ** [ssm::load_secret] *)
Definition load_secret (param_name : string) : comp Ssm string string :=
  value ← comp_map_err (fun _ => "failed to get SSM parameter " +:+ param_name) (get_parameter param_name);
  lift (ok_or value ("SSM parameter " +:+ param_name +:+ " has no value")).
End ParameterStore.

(** ** The test client's key file: [iroh_client::load_or_create_secret_key] *)

Section KeyFile.
Context {HX : Hex}.

(** What goes wrong in one run: reading fails for a reason other than a
    missing file; another process makes the file before this one does;
    creating it fails; writing stops after some bytes. *)
Record FileFaults := {
  ff_read : option string;
  ff_appears : option string;
  ff_create : option string;
  ff_write : option nat
}.

Definition load_or_create_secret_key (ff : FileFaults) (generated : bytes) (path : string) :
    comp (gmap string string) string bytes := fun fs =>
  match ff_read ff with
  | Some _ => (Err ("Failed to read " +:+ path), fs)
  | None =>
      match fs !! path with
      | Some text =>
          (ok_or (hex_decode (trim text) ≫= key_bytes) (path +:+ " must hold a 32-byte key as hex"), fs)
      | None =>
          (* [create_new(true)]: refused when the file is there by now. *)
          match ff_appears ff, ff_create ff with
          | Some other, _ => (Err ("Failed to create " +:+ path), <[path := other]> fs)
          | None, Some _ => (Err ("Failed to create " +:+ path), fs)
          | None, None =>
              match ff_write ff with
              | Some n => (Err ("Failed to write " +:+ path),
                           <[path := String.substring 0 n (hex_encode generated)]> fs)
              | None => (Ok generated, <[path := hex_encode generated]> fs)
              end
          end
      end
  end.
End KeyFile.

(** ** Lemmas *)

(** What is relied on of the hex crate: it reads back what it wrote, and
    writes lower-case hex digits. *)
Class HexLaws {HX : Hex} := {
  hex_read_back b : hex_decode (hex_encode b) = Some b;
  hex_lower b : all_bytes is_lower_hex (hex_encode b) = true
}.
Arguments HexLaws HX : clear implicits.

Lemma string_rev_app_rev s a b : string_rev_app (string_rev_app s a) b = string_rev_app a (s +:+ b).
Proof. revert a b; induction s as [|c s IH]; intros a b; [done|]. cbn. by rewrite IH. Qed.

Lemma string_rev_involutive s : string_rev (string_rev s) = s.
Proof. unfold string_rev. rewrite string_rev_app_rev. apply string_app_nil_r. Qed.

Lemma all_bytes_rev_app p s a : all_bytes p (string_rev_app s a) = all_bytes p s && all_bytes p a.
Proof.
  revert a; induction s as [|c s IH]; intros a; [done|]. cbn. rewrite IH. cbn.
  by destruct (p c), (all_bytes p s).
Qed.

(** A hex digit starts no white space. *)
Lemma hex_not_space a : is_lower_hex a = true ->
  ws1 a = false /\ (forall b, ws2 a b = false /\ ws2 b a = false) /\ (forall b c, ws3 a b c = false /\ ws3 c b a = false).
Proof.
  destruct a as [[] [] [] [] [] [] [] []]; try done; intros _;
    (split; [done|]; split; [split; [done|apply andb_false_r]|]);
    intros b c; (split; [done|]); unfold ws3; rewrite !andb_false_r; done.
Qed.

Lemma trim_hex s : all_bytes is_lower_hex s = true -> trim s = s.
Proof.
  intros Hs. unfold trim, trim_end.
  assert (trim_start s = s) as ->.
  { destruct s as [|a [|b [|c s]]]; [done|..]; cbn [all_bytes] in Hs; apply andb_true_iff in Hs as [Ha _];
      destruct (hex_not_space a Ha) as (H1 & H2 & H3); cbn [trim_start]; rewrite H1; [done|..];
      rewrite (proj1 (H2 b)); [done|]. by rewrite (proj1 (H3 b c)). }
  assert (trim_end_rev (string_rev s) = string_rev s) as ->; [|apply string_rev_involutive].
  assert (all_bytes is_lower_hex (string_rev s) = true) as Hr
    by (unfold string_rev; by rewrite all_bytes_rev_app, Hs).
  destruct (string_rev s) as [|a [|b [|c r]]]; [done|..]; cbn [all_bytes] in Hr;
    apply andb_true_iff in Hr as [Ha _]; destruct (hex_not_space a Ha) as (H1 & H2 & H3);
    cbn [trim_end_rev]; rewrite H1; [done|..]; rewrite (proj2 (H2 b)); [done|]. by rewrite (proj2 (H3 b c)).
Qed.

Section Laws.
Context {HX : Hex} {HL : HexLaws HX}.
Context (fault : nat -> SsmFault) (others : nat -> gmap string string -> gmap string string).

Lemma key_bytes_Some b k : key_bytes b = Some k <-> k = b /\ len b = 32%Z.
Proof. unfold key_bytes. destruct (Z.eqb_spec (len b) 32); naive_solver. Qed.

Lemma get_parameter_spec name s r s' :
  get_parameter fault others name s = (r, s') ->
  s' = ssm_after (ssm_met others s) s
  /\ (r = Err ParameterNotFound -> ssm_met others s !! name = None)
  /\ (forall v, r = Ok (Some v) -> ssm_met others s !! name = Some v).
Proof.
  unfold get_parameter. intros [= <- <-]. split; [done|].
  destruct (fault (ssm_calls s)), (ssm_met others s !! name); naive_solver.
Qed.

(** A parameter is only ever made, and then with the value given. *)
Lemma put_parameter_spec name value s r s' :
  put_parameter fault others name value s = (r, s') ->
  ssm_calls s' = S (ssm_calls s)
  /\ (ssm_params s' = ssm_met others s \/
      ssm_met others s !! name = None /\ ssm_params s' = <[name := value]> (ssm_met others s))
  /\ (r = Ok tt -> ssm_params s' !! name = Some value).
Proof.
  unfold put_parameter.
  destruct (fault (ssm_calls s)), (ssm_met others s !! name) eqn:E; intros [= <- <-]; cbn;
    rewrite ?lookup_insert_eq; naive_solver.
Qed.

(** A parameter that holds the key is what the next start reads. *)
Lemma load_or_create_loads name generated s v key :
  fault (ssm_calls s) = Works -> ssm_met others s !! name = Some v -> hex_decode v = Some key ->
  len key = 32%Z ->
  load_or_create fault others name generated s = (Ok key, ssm_after (ssm_met others s) s).
Proof.
  intros Hf Hv Hk Hl. unfold load_or_create, mbind, comp_bind, attempt, get_parameter.
  rewrite Hf, Hv. cbn. unfold lift. rewrite Hk. cbn. by rewrite (proj2 (key_bytes_Some key key)).
Qed.

(** The key a start runs with is in the parameter store. *)
Lemma load_or_create_stored name generated s key s' :
  load_or_create fault others name generated s = (Ok key, s') -> len generated = 32%Z ->
  len key = 32%Z /\ exists v, ssm_params s' !! name = Some v /\ hex_decode v = Some key.
Proof.
  unfold load_or_create. intros H Hg. apply comp_bind_ok in H as (a & s1 & Ha & H).
  unfold attempt in Ha. destruct (get_parameter fault others name s) as [r s0] eqn:Eg.
  injection Ha as <- <-. apply get_parameter_spec in Eg as (-> & Hn & Hv).
  destruct r as [value|e].
  - inv_run. apply key_bytes_Some in H as [-> Hl]. split; [done|]. exists x. cbn. auto.
  - destruct (is_parameter_not_found e) eqn:He; [|by apply throw_ok in H].
    apply comp_bind_ok in H as ([] & s1 & Hp%comp_map_err_ok & [= <- <-]). split; [done|].
    exists (hex_encode generated). split; [|apply hex_read_back].
    by apply put_parameter_spec in Hp as (_ & _ & Hput); apply Hput.
Qed.

Lemma load_or_create_keeps name generated s r s' k v :
  load_or_create fault others name generated s = (r, s') ->
  (forall i m, m !! k = Some v -> others i m !! k = Some v) ->
  ssm_params s !! k = Some v -> ssm_params s' !! k = Some v.
Proof.
  intros H Ho Hv. unfold load_or_create in H.
  apply comp_bind_state in H as [(a & s1 & Ha & H)|(e & Ha & _)]; unfold attempt in Ha;
    destruct (get_parameter fault others name s) as [r0 s0] eqn:Eg; [|done].
  injection Ha as <- <-. apply get_parameter_spec in Eg as (-> & Hn & _).
  destruct r0 as [value|e]; [injection H as _ <-; by apply Ho|].
  destruct (is_parameter_not_found e); [|injection H as _ <-; by apply Ho].
  assert (exists r1, put_parameter fault others name (hex_encode generated) (ssm_after (ssm_met others s) s) = (r1, s'))
    as [r1 Hp].
  { unfold mbind, comp_bind, comp_map_err in H. destruct (put_parameter _ _ _ _ _) as [[[]|] s1];
      injection H as _ <-; eauto. }
  apply put_parameter_spec in Hp as (_ & [->|[Hnone ->]] & _); [by apply Ho, Ho|].
  destruct (decide (name = k)) as [->|]; [|rewrite lookup_insert_ne by done; by apply Ho, Ho].
  unfold ssm_met in Hnone. cbn in Hnone. by rewrite (Ho _ _ (Ho _ _ Hv)) in Hnone.
Qed.
End Laws.

(** C32: A node keeps its identity. Whatever key a start runs with, loaded or
    made, is in the parameter store by then, so the next start that reads the
    parameter unchanged runs with the same key, without writing, whatever key
    it would have made; and no start, failed ones and lost answers included,
    changes a parameter that exists, even one made by another process in
    between. *)
Theorem node_identity_durable {HX : Hex} {HL : HexLaws HX} fault others name generated s r s' :
  load_or_create fault others name generated s = (r, s') -> len generated = 32%Z ->
  (forall key, r = Ok key ->
     forall fault' others' generated' t,
       fault' (ssm_calls t) = Works -> ssm_met others' t !! name = ssm_params s' !! name ->
       load_or_create fault' others' name generated' t = (Ok key, ssm_after (ssm_met others' t) t))
  /\ (forall k v, (forall i m, m !! k = Some v -> others i m !! k = Some v) ->
       ssm_params s !! k = Some v -> ssm_params s' !! k = Some v).
Proof.
  intros H Hg. split.
  - intros key -> fault' others' generated' t Hf Ht.
    destruct (load_or_create_stored _ _ _ _ _ _ _ H Hg) as (Hl & v & Hv & Hk).
    eapply load_or_create_loads; [done| |done|done]. by rewrite Ht.
  - intros k v. by eapply load_or_create_keeps.
Qed.

(** The client secret is read, never made: a missing parameter or one without
    a value is an error, and nothing is written. *)
Theorem load_secret_exact fault others name s :
  exists r, load_secret fault others name s = (r, ssm_after (ssm_met others s) s)
  /\ forall v, r = Ok v <-> fault (ssm_calls s) = Works /\ ssm_met others s !! name = Some v.
Proof.
  unfold load_secret, mbind, comp_bind, comp_map_err, get_parameter, lift.
  destruct (fault (ssm_calls s)), (ssm_met others s !! name); eexists; split; try done;
    split; naive_solver.
Qed.

(** The client's key file is written once: the key a run returns is the one
    every later run reads, and a file that exists is never written. *)
Theorem key_file_durable {HX : Hex} {HL : HexLaws HX} ff generated path fs r fs' :
  load_or_create_secret_key ff generated path fs = (r, fs') -> len generated = 32%Z ->
  (forall key ff' generated' , r = Ok key -> ff_read ff' = None ->
     load_or_create_secret_key ff' generated' path fs' = (Ok key, fs'))
  /\ (forall p text, fs !! p = Some text -> fs' !! p = Some text).
Proof.
  unfold load_or_create_secret_key. intros H Hg.
  destruct (ff_read ff); [by simplify_eq|]. destruct (fs !! path) as [text|] eqn:E.
  { injection H as <- <-. split; [|done]. intros key ff' g' Hk ->. by rewrite E, Hk. }
  assert (forall c p text, fs !! p = Some text -> (<[path := c]> fs) !! p = Some text) as Hkeep.
  { intros c p text Hp. rewrite lookup_insert_ne by congruence. done. }
  destruct (ff_appears ff), (ff_create ff), (ff_write ff); simplify_eq; try (split; [done|auto]).
  split; [|auto]. intros key ff' g' [= <-] ->. rewrite lookup_insert_eq, (trim_hex _ (hex_lower _)), hex_read_back. cbn.
  by rewrite (proj2 (key_bytes_Some generated generated)).
Qed.

Module SecretsSample.
(** Two starts with a working service: the first makes the key, the second,
    which would make another, loads it. *)
#[local] Existing Instance plain_hex.
Definition key : bytes := repeat_char 32 "k".
Definition works : nat -> SsmFault := fun _ => Works.
Definition alone : nat -> gmap string string -> gmap string string := fun _ m => m.
Definition empty : Ssm := {| ssm_params := ∅; ssm_calls := 0 |}.
Definition stored : Ssm := {| ssm_params := {[ "key" := encode_hex key ]}; ssm_calls := 2 |}.

Example first_start : load_or_create works alone "key" key empty = (Ok key, stored).
Proof. vm_compute. reflexivity. Qed.

#[local] Instance plain_hex_laws : HexLaws plain_hex.
Proof.
  split; [exact decode_encode_hex|]. intros b. cbn. induction b as [|c b IH]; [done|].
  cbn [encode_hex all_bytes]. rewrite IH. by destruct c as [[] [] [] [] [] [] [] []].
Qed.

Lemma node_identity_durable_witness :
  load_or_create works alone "key" (repeat_char 32 "z") stored
  = (Ok key, {| ssm_params := ssm_params stored; ssm_calls := 3 |}).
Proof.
  destruct (node_identity_durable works alone "key" key empty _ _ first_start eq_refl) as [H _].
  by apply (H key).
Defined.

Example key_file_appears :
  load_or_create_secret_key {| ff_read := None; ff_appears := None; ff_create := None; ff_write := Some 3%nat |}
    key "k" ∅ = (Err "Failed to write k", {[ "k" := "6b6" ]}).
Proof. vm_compute. reflexivity. Qed.

Example race_is_refused :
  fst (load_or_create works (fun i m => if decide (i = 1%nat) then <["key" := "other"]> m else m)
         "key" key empty) = Err "Failed to store secret key in SSM".
Proof. vm_compute. reflexivity. Qed.
End SecretsSample.
