(* ===== verification/Tls.v ===== *)
(** * The HTTPS listener's certificate (src/tls.rs)

    The node serves HTTPS from a certificate chain and a key on disk, which
    another job rewrites. Time is counted in moments: every look at the disk
    takes one, and the disk may be different at each, so a pair caught in the
    middle of a rewrite, or rewritten while it is being read, is a case of the
    model. rustls is a parameter. *)

From S2P Require Import Prelude Bytes Net Config.

(** ** rustls and its PEM reader *)
Class Rustls := {
  certificate : Type;
  private_key : Type;
  (** [CertificateDer::pem_slice_iter(..).collect()] *)
  pem_certs : bytes -> result string (list certificate);
  (** [PrivateKeyDer::from_pem_slice] *)
  pem_key : bytes -> result string private_key;
  (** [with_single_cert] refuses a key that is not the certificate's. *)
  check_single_cert : list certificate -> private_key -> result string unit
}.

Inductive protocol_version := TLS12 | TLS13.

Definition MAX_HEADER_LIST_BYTES : Z := 64 * 1024.
Definition LOAD_RETRY : Z := secs 10.

(** ** The disk *)

(** A file that is there has a modification time, also when reading it
    fails. *)
Inductive file_state :=
| Absent
| Unreadable (modified : Z)
| Contents (modified : Z) (data : bytes).

Definition modified (f : file_state) : option Z :=
  match f with Absent => None | Unreadable m | Contents m _ => Some m end.
Definition present (f : file_state) : bool := match f with Absent => false | _ => true end.

Definition Mtimes : Type := option Z * option Z.

Section Tls.
Context {RT : Rustls}.
(** The disk at every moment, and how long a sleep that starts at a moment
    takes. *)
Context (disk : nat -> string -> file_state) (nap : nat -> nat).

Record ServerConfig := {
  versions : list protocol_version;
  chain : list certificate;
  private : private_key;
  alpn_protocols : list string
}.

Definition server_config (cert_pem key_pem : bytes) : result string ServerConfig :=
  certs ← map_err (fun e => "certificate chain: " +:+ e) (pem_certs cert_pem);
  _ ← ensure (negb (bool_decide (length certs = 0))) "certificate chain: no certificates";
  key ← map_err (fun e => "private key: " +:+ e) (pem_key key_pem);
  _ ← check_single_cert certs key;
  Ok {| versions := [TLS13]; chain := certs; private := key; alpn_protocols := ["h2"; "http/1.1"] |}.

(** The state of a task is the moment it has reached. *)
Definition look {E} (path : string) : comp nat E file_state := fun i => (Ok (disk i path), S i).

Definition sleep {E} : comp nat E unit := fun i => (Ok tt, S (i + nap i)).

Definition mtimes {E} (cert key : string) : comp nat E Mtimes :=
  c ← look cert; k ← look key; mret (modified c, modified k).

Definition read_file (path : string) : comp nat string bytes :=
  f ← look path;
  match f with
  | Contents _ data => mret data
  | _ => throw (path +:+ ": read failed")
  end.

Definition load_pair (cert_path key_path : string) : comp nat string ServerConfig :=
  cert ← read_file cert_path;
  key ← read_file key_path;
  lift (server_config cert key).

(** One round of [load_when_ready]: the pair with the modification times read
    before it, or the error to wait out. *)
Definition load_round (cert_path key_path : string) : comp nat string (ServerConfig * Mtimes) :=
  before ← mtimes cert_path key_path;
  c ← look cert_path;
  there ← (if present c then k ← look key_path; mret (present k) else mret false);
  if (there : bool) then
    config ← load_pair cert_path key_path;
    mret (config, before)
  else throw "cert or key file missing".

(** The loop of [load_when_ready], for as many rounds as [rounds]: [None]
    when it is still waiting. It never fails. *)
Fixpoint load_when_ready (rounds : nat) (cert_path key_path : string) (i : nat) :
    option (ServerConfig * Mtimes) * nat :=
  match rounds with
  | O => (None, i)
  | S rounds =>
      match load_round cert_path key_path i with
      | (Ok loaded, i') => (Some loaded, i')
      | (Err _, i') => load_when_ready rounds cert_path key_path (sleep (E := string) i').2
      end
  end.

(** [reload_on_change]: the pair in service, the modification times it was
    loaded under and the moment. *)
Record Reloader := { in_service : ServerConfig; loaded : Mtimes; moment : nat }.

Definition reload_tick (cert_path key_path : string) (r : Reloader) : Reloader :=
  let i := (sleep (E := string) (moment r)).2 in
  match mtimes (E := string) cert_path key_path i with
  | (Ok now, i') =>
      if bool_decide (now = loaded r) then {| in_service := in_service r; loaded := loaded r; moment := i' |}
      else
        match load_pair cert_path key_path i' with
        | (Ok new, i'') => {| in_service := new; loaded := now; moment := i'' |}
        | (Err _, i'') => {| in_service := in_service r; loaded := loaded r; moment := i'' |}
        end
  | (Err _, i') => {| in_service := in_service r; loaded := loaded r; moment := i' |}
  end.

Fixpoint reload_on_change (ticks : nat) (cert_path key_path : string) (r : Reloader) : Reloader :=
  match ticks with
  | O => r
  | S ticks => reload_on_change ticks cert_path key_path (reload_tick cert_path key_path r)
  end.

(** ** [serve_https] *)

Record HttpsListener := {
  https_addr : SocketAddr;
  max_header_list_size : Z;
  reload_every : Z;
  reloader : Reloader
}.

(** The listener once the pair is loaded; it then serves what the reloader
    has in service. *)
Definition serve_https (rounds : nat) (cfg : TlsConfig) (i : nat) : option HttpsListener :=
  match load_when_ready rounds (cert_path cfg) (key_path cfg) i with
  | (Some (config, before), i') =>
      Some {| https_addr := {| sa_ip := V4 [0; 0; 0; 0]%Z; sa_scope := 0; sa_port := tc_bind_port cfg |};
              max_header_list_size := MAX_HEADER_LIST_BYTES;
              reload_every := secs (Z.max (reload_check_secs cfg) 1);
              reloader := {| in_service := config; loaded := before; moment := i' |} |}
  | (None, _) => None
  end.

(** ** Invariant *)

(** The pair in service was read from the two files at two moments, both
    after the modification times were, and checked. *)
Definition reloader_inv (cert key : string) (r : Reloader) : Prop :=
  exists ic ik jc jk mc mk cd kd,
    (ic < jc /\ ik < jk /\ jc < jk /\ jk < moment r)%nat
    /\ loaded r = (modified (disk ic cert), modified (disk ik key))
    /\ disk jc cert = Contents mc cd /\ disk jk key = Contents mk kd
    /\ server_config cd kd = Ok (in_service r).

Lemma read_file_ok path i data i' :
  read_file path i = (Ok data, i') -> i' = S i /\ exists m, disk i path = Contents m data.
Proof.
  unfold read_file, look, mbind, comp_bind. destruct (disk i path) eqn:E; try done.
  intros [= <- <-]. eauto.
Qed.

Lemma load_pair_ok cert key i c i' :
  load_pair cert key i = (Ok c, i') ->
  i' = S (S i) /\ exists mc cd mk kd,
    disk i cert = Contents mc cd /\ disk (S i) key = Contents mk kd /\ server_config cd kd = Ok c.
Proof.
  unfold load_pair. intros H. inv_run.
  match goal with H1 : read_file cert _ = _, H2 : read_file key _ = _ |- _ =>
    apply read_file_ok in H1 as (-> & mc & Hc); apply read_file_ok in H2 as (-> & mk & Hk) end.
  split; [done|]. eauto 10.
Qed.

Lemma load_pair_moment cert key i r i' : load_pair cert key i = (r, i') -> (i < i')%nat.
Proof.
  unfold load_pair, read_file, look, mbind, comp_bind, lift.
  destruct (disk i cert); [intros [= <- <-]; lia..|]. cbn.
  destruct (disk (S i) key); intros [= <- <-]; lia.
Qed.

Lemma load_round_ok cert key i c before i' :
  load_round cert key i = (Ok (c, before), i') ->
  reloader_inv cert key {| in_service := c; loaded := before; moment := i' |}.
Proof.
  unfold load_round, mtimes, look, mbind, comp_bind, mret, comp_ret, throw.
  destruct (present (disk (S (S i)) cert)); [|done]. destruct (present (disk (S (S (S i))) key)); [|done].
  destruct (load_pair cert key _) as [[c'|e] j] eqn:E; [|done]. intros [= <- <- <-].
  apply load_pair_ok in E as (-> & mc & cd & mk & kd & Hc & Hk & Hs).
  exists i, (S i), (S (S (S (S i)))), (S (S (S (S (S i))))), mc, mk, cd, kd. cbn. split_and!; try done; lia.
Qed.

Lemma load_when_ready_ok rounds cert key i c before i' :
  load_when_ready rounds cert key i = (Some (c, before), i') ->
  reloader_inv cert key {| in_service := c; loaded := before; moment := i' |}.
Proof.
  revert i; induction rounds as [|rounds IH]; intros i; cbn [load_when_ready]; [done|].
  destruct (load_round cert key i) as [[[c' b']|e] j] eqn:E; [|apply IH].
  intros [= -> -> ->]. by eapply load_round_ok.
Qed.

Lemma reloader_inv_later cert key r i : (moment r <= i)%nat ->
  reloader_inv cert key r ->
  reloader_inv cert key {| in_service := in_service r; loaded := loaded r; moment := i |}.
Proof.
  intros Hi (ic & ik & jc & jk & mc & mk & cd & kd & Hord & H). exists ic, ik, jc, jk, mc, mk, cd, kd.
  split; [cbn; lia|done].
Qed.

Lemma reload_tick_moment cert key r : (moment r < moment (reload_tick cert key r))%nat.
Proof.
  unfold reload_tick, sleep, mtimes, look, mbind, comp_bind, mret, comp_ret. cbn.
  case_bool_decide; cbn; [lia|].
  destruct (load_pair cert key _) as [[c|e] j] eqn:E; cbn; apply load_pair_moment in E; lia.
Qed.

Lemma reload_tick_inv cert key r : reloader_inv cert key r -> reloader_inv cert key (reload_tick cert key r).
Proof.
  intros Hr. pose proof (reload_tick_moment cert key r) as Hm. revert Hm.
  unfold reload_tick, sleep, mtimes, look, mbind, comp_bind, mret, comp_ret. cbn.
  case_bool_decide; cbn; intros Hm; [apply reloader_inv_later; [lia|done]|].
  destruct (load_pair cert key _) as [[c|e] j] eqn:E; cbn in *; [|apply reloader_inv_later; [lia|done]].
  apply load_pair_ok in E as (-> & mc & cd & mk & kd & Hc & Hk & Hs).
  eexists _, _, _, _, mc, mk, cd, kd. cbn. split_and!; [| | |constructor|reflexivity|done|done|done]; lia.
Qed.

Lemma reload_on_change_inv ticks cert key r :
  reloader_inv cert key r -> reloader_inv cert key (reload_on_change ticks cert key r).
Proof. revert r; induction ticks as [|n IH]; intros r H; cbn; [done|]. by apply IH, reload_tick_inv. Qed.

Lemma server_config_shape cd kd c :
  server_config cd kd = Ok c ->
  versions c = [TLS13] /\ chain c <> [] /\ alpn_protocols c = ["h2"; "http/1.1"]
  /\ pem_certs cd = Ok (chain c) /\ pem_key kd = Ok (private c)
  /\ check_single_cert (chain c) (private c) = Ok tt.
Proof.
  unfold server_config. intros H. inv_run. injection H as <-. cbn.
  repeat match goal with x : () |- _ => destruct x end.
  split_and!; try done. intros ->. done.
Qed.

(** ** Catching up *)

(** A rewrite changes the modification time: while it is the same, so is the
    file. *)
Definition mtimes_tell (path : string) : Prop :=
  forall i j k m, (i <= j <= k)%nat -> modified (disk i path) = Some m -> modified (disk k path) = Some m ->
    disk j path = disk k path.

Section Settled.
Context (cert key : string) (t : nat) (mc mk : Z) (cd kd : bytes) (c : ServerConfig).
Context (Hcert : forall i, (t <= i)%nat -> disk i cert = Contents mc cd).
Context (Hkey : forall i, (t <= i)%nat -> disk i key = Contents mk kd).
Context (Hc : server_config cd kd = Ok c).

Lemma settled_load i : (t <= i)%nat -> load_pair cert key i = (Ok c, S (S i)).
Proof.
  intros Hi. unfold load_pair, read_file, look, mbind, comp_bind, lift, mret, comp_ret.
  rewrite Hcert, Hkey by lia. by rewrite Hc.
Qed.

Lemma settled_round i : (t <= i)%nat -> exists r i', load_round cert key i = (Ok r, i').
Proof.
  intros Hi. unfold load_round, mtimes, look, mbind, comp_bind, mret, comp_ret.
  rewrite (Hcert (S (S i))) by lia. cbn. rewrite (Hkey (S (S (S i)))) by lia. cbn.
  rewrite settled_load by lia. eauto.
Qed.

Lemma load_round_moment i r i' : load_round cert key i = (r, i') -> (i < i')%nat.
Proof.
  unfold load_round, mtimes, look, mbind, comp_bind, mret, comp_ret, throw.
  destruct (present (disk (S (S i)) cert)); [|intros [= <- <-]; lia].
  destruct (present (disk (S (S (S i))) key)); [|intros [= <- <-]; lia].
  destruct (load_pair cert key _) as [[c'|e] j] eqn:E; apply load_pair_moment in E; intros [= <- <-]; lia.
Qed.

Lemma settled_ready rounds i : (t <= i + rounds)%nat ->
  exists r i', load_when_ready (S rounds) cert key i = (Some r, i').
Proof.
  revert i; induction rounds as [|rounds IH]; intros i Hi.
  - destruct (settled_round i) as (r & i' & E); [lia|]. cbn. rewrite E. eauto.
  - cbn [load_when_ready]. destruct (load_round cert key i) as [[r|e] i'] eqn:E; [eauto|].
    apply load_round_moment in E. apply IH. cbn. lia.
Qed.

Lemma settled_tick r :
  mtimes_tell cert -> mtimes_tell key -> reloader_inv cert key r -> (t <= moment r)%nat ->
  in_service (reload_tick cert key r) = c.
Proof.
  intros Tc Tk (ic & ik & jc & jk & mc' & mk' & cd' & kd' & Hord & Hl & Hjc & Hjk & Hs) Ht.
  unfold reload_tick, sleep, mtimes, look, mbind, comp_bind, mret, comp_ret. cbn.
  set (i := S (moment r + nap (moment r))).
  assert (disk i cert = Contents mc cd) as Ei by (apply Hcert; lia).
  assert (disk (S i) key = Contents mk kd) as Ek by (apply Hkey; lia).
  rewrite Ei, Ek. cbn. case_bool_decide as Hm; cbn.
  - rewrite Hl in Hm. injection Hm as Hm1 Hm2.
    pose proof (Tc ic jc i mc ltac:(lia) (eq_sym Hm1) ltac:(by rewrite Ei)) as E1.
    pose proof (Tk ik jk (S i) mk ltac:(lia) (eq_sym Hm2) ltac:(by rewrite Ek)) as E2.
    rewrite Hjc, Ei in E1. rewrite Hjk, Ek in E2. injection E1 as -> ->. injection E2 as -> ->.
    rewrite Hc in Hs. by injection Hs.
  - by rewrite settled_load by lia.
Qed.

Lemma settled_reloads ticks r :
  mtimes_tell cert -> mtimes_tell key -> reloader_inv cert key r -> (t <= moment r + ticks)%nat ->
  in_service (reload_on_change (S ticks) cert key r) = c.
Proof.
  intros Tc Tk. revert r; induction ticks as [|ticks IH]; intros r Hr Ht; [apply settled_tick; auto; lia|].
  change (in_service (reload_on_change (S ticks) cert key (reload_tick cert key r)) = c).
  apply IH; [by apply reload_tick_inv|]. pose proof (reload_tick_moment cert key r). lia.
Qed.
End Settled.
End Tls.

(** What HTTPS serves with is always a pair that loaded: at every moment
    after the listener is up, the chain and the key in service were read from
    the two files (the key after the chain), the chain is not empty, the key
    is the certificate's, TLS 1.3 is the only version offered and the
    protocols are h2 and HTTP/1.1. A pair that does not load never replaces
    one that did. *)
Theorem served_pair_loaded {RT : Rustls} disk nap rounds cfg i l ticks :
  serve_https disk nap rounds cfg i = Some l ->
  let r := reload_on_change disk nap ticks (cert_path cfg) (key_path cfg) (reloader l) in
  exists jc jk mc mk cd kd,
    (jc < jk < moment r)%nat
    /\ disk jc (cert_path cfg) = Contents mc cd /\ disk jk (key_path cfg) = Contents mk kd
    /\ pem_certs cd = Ok (chain (in_service r)) /\ pem_key kd = Ok (private (in_service r))
    /\ chain (in_service r) <> []
    /\ check_single_cert (chain (in_service r)) (private (in_service r)) = Ok tt
    /\ versions (in_service r) = [TLS13] /\ alpn_protocols (in_service r) = ["h2"; "http/1.1"].
Proof.
  unfold serve_https. intros H.
  destruct (load_when_ready disk nap rounds _ _ i) as [[[c b]|] i'] eqn:E; [|done]. injection H as <-. cbn [reloader].
  apply load_when_ready_ok, (reload_on_change_inv disk nap ticks) in E.
  destruct E as (ic & ik & jc & jk & mc & mk & cd & kd & Hord & _ & Hjc & Hjk & Hs).
  apply server_config_shape in Hs as (? & ? & ? & ? & ? & ?).
  exists jc, jk, mc, mk, cd, kd. split_and!; try done; lia.
Qed.

(** C33: HTTPS comes up and catches up. Once a pair that loads stays on disk
    from a moment [t] on (whatever the files went through before), the
    listener is up after at most [t + 1] rounds of waiting, and after at most
    [t + 1] looks the pair in service is that pair, provided a rewrite changes
    a file's modification time: a rewrite that races a reload is not missed,
    because the times are read before the files. *)
Theorem https_catches_up {RT : Rustls} disk nap cfg t mc mk cd kd c i :
  (forall j, (t <= j)%nat -> disk j (cert_path cfg) = Contents mc cd) ->
  (forall j, (t <= j)%nat -> disk j (key_path cfg) = Contents mk kd) ->
  server_config cd kd = Ok c ->
  mtimes_tell disk (cert_path cfg) -> mtimes_tell disk (key_path cfg) ->
  exists l, serve_https disk nap (S t) cfg i = Some l
    /\ forall rounds l' ticks, serve_https disk nap rounds cfg i = Some l' -> (t <= ticks)%nat ->
         in_service (reload_on_change disk nap (S ticks) (cert_path cfg) (key_path cfg) (reloader l')) = c.
Proof.
  intros Hcert Hkey Hc Tc Tk.
  destruct (settled_ready disk nap _ _ t mc mk cd kd c Hcert Hkey Hc t i) as ([c0 b] & i' & E); [lia|].
  unfold serve_https at 1. rewrite E. eexists. split; [done|].
  intros rounds l' ticks H Ht. unfold serve_https in H.
  destruct (load_when_ready disk nap rounds _ _ i) as [[[c1 b1]|] i1] eqn:E1; [|done]. injection H as <-. cbn [reloader].
  eapply settled_reloads; try done; [by eapply load_when_ready_ok|cbn; lia].
Qed.

Module TlsSample.
(** A certificate is its text; the key of a certificate is the same text.
    The files appear at moment 3, the key is rewritten at moment 12 and the
    certificate, with a new text, at moment 16. *)
Definition rustls : Rustls :=
  {| certificate := string; private_key := string;
     pem_certs := fun b => Ok [b]; pem_key := Ok;
     check_single_cert := fun c k => if decide (c = [k]) then Ok tt else Err "mismatch" |}.
#[local] Existing Instance rustls.

Definition disk (i : nat) (path : string) : file_state :=
  if bool_decide (i < 3)%nat then Absent
  else if bool_decide (path = "key.pem") then
    if bool_decide (i < 12)%nat then Contents 1 "old" else Contents 2 "new"
  else if bool_decide (i < 16)%nat then Contents 1 "old" else Contents 3 "new".
Definition nap (i : nat) : nat := 0.
Definition cfg : TlsConfig :=
  {| tc_bind_port := 443; cert_path := "cert.pem"; key_path := "key.pem"; acm_certificate_arn := "";
     reload_check_secs := 60 |}.

Definition new_pair : ServerConfig :=
  @Build_ServerConfig rustls [TLS13] ["new"] "new" ["h2"; "http/1.1"].

Lemma disk_tells path : mtimes_tell disk path.
Proof.
  intros i j k m Hij. unfold disk. repeat case_bool_decide; cbn; try done; lia || congruence.
Qed.

Lemma https_catches_up_witness :
  exists l, serve_https disk nap 17 cfg 0 = Some l
    /\ private (in_service (reload_on_change disk nap 17 "cert.pem" "key.pem" (reloader l))) = "new".
Proof.
  destruct (https_catches_up disk nap cfg 16 3 2 "new" "new"
    new_pair 0)
    as (l & Hl & H).
  - intros j Hj. unfold disk. by repeat case_bool_decide; try done; lia.
  - intros j Hj. unfold disk. by repeat case_bool_decide; try done; lia.
  - reflexivity.
  - apply disk_tells.
  - apply disk_tells.
  - exists l. split; [done|]. pose proof (H 17%nat l 16%nat Hl ltac:(lia)) as E. cbn [cert_path key_path cfg] in E.
    by rewrite E.
Defined.

Lemma served_pair_loaded_witness :
  exists l, serve_https disk nap 17 cfg 0 = Some l
    /\ chain (in_service (reload_on_change disk nap 1 "cert.pem" "key.pem" (reloader l))) <> [].
Proof.
  destruct (serve_https disk nap 17 cfg 0) as [l|] eqn:E; [|vm_compute in E; discriminate].
  exists l. split; [reflexivity|].
  destruct (served_pair_loaded disk nap 17 cfg 0 l 1 E) as (jc & jk & mc & mk & cd & kd & _ & _ & _ & _ & _ & H & _).
  exact H.
Defined.

(** Between the two rewrites the old pair stays in service. *)
Example mismatch_kept :
  (fun l => private (in_service (reload_on_change disk nap 1 "cert.pem" "key.pem" (reloader l))))
    <$> serve_https disk nap 17 cfg 0 = Some ("old" : private_key (Rustls := rustls)).
Proof. vm_compute. reflexivity. Qed.
End TlsSample.
