(* ===== verification/Routes.v ===== *)
(** * The HTTP routes (the routers of src/tags_api.rs, src/catalogs_api.rs,
      src/catalogs_v2_api.rs, src/node_api.rs and src/moderation.rs)

    A router is its table of templates, methods and handlers, and [merge] is
    their union. A request takes the template that matches its path, a
    literal segment being preferred to a captured one, and then the handler of
    its method: no template is 404, no handler for the method 405. Also the
    answer of [GET /node]. *)

From S2P Require Import Prelude Bytes Json Net Config.

Inductive method := GET | PUT | POST | DELETE.

#[export] Instance method_eq_dec : EqDecision method.
Proof. solve_decision. Defined.

(** The handlers, by the functions' names. *)
Module Handler.
Inductive handler :=
| healthz | get_catalog_document | get_blob | get_pointer | put_catalog | node_info
| open_session | list_suspensions | suspend | lift_suspension
| list_blocks | list_catalog_blocks | block_catalog | lift_catalog_block | block | lift_block.

#[export] Instance handler_eq_dec : EqDecision handler.
Proof. solve_decision. Defined.
End Handler.
Import Handler.

Definition route : Type := string * list (method * handler).

Definition tags_router : list route := [("/healthz", [(GET, healthz)])].

Definition catalogs_router : list route :=
  [("/catalog-documents/{hash}", [(GET, get_catalog_document)]); ("/blobs/{hash}", [(GET, get_blob)])].

Definition catalogs_v2_router : list route :=
  [("/v2/catalogs/{sub}", [(GET, get_pointer); (PUT, put_catalog)])].

Definition node_router : list route := [("/node", [(GET, node_info)])].

Definition moderation_router : list route :=
  [("/publish/sessions", [(POST, open_session)]);
   ("/moderation/suspensions", [(GET, list_suspensions)]);
   ("/moderation/suspensions/{subject}", [(PUT, suspend); (DELETE, lift_suspension)]);
   ("/moderation/blocks", [(GET, list_blocks)]);
   ("/moderation/blocks/catalogs", [(GET, list_catalog_blocks)]);
   ("/moderation/blocks/catalogs/{subject}", [(PUT, block_catalog); (DELETE, lift_catalog_block)]);
   ("/moderation/blocks/{hash}", [(PUT, block); (DELETE, lift_block)])].

(** ** Templates *)

Inductive segment := Literal (s : string) | Capture (name : string).

(** A segment in braces captures. *)
Definition segment_of (s : string) : segment :=
  match strip_prefix "{" s with
  | Some r => match strip_suffix "}" r with Some name => Capture name | None => Literal s end
  | None => Literal s
  end.

Definition template (path : string) : list segment := segment_of <$> split_char "/" path.

(** A capture takes one non-empty segment. *)
Definition segment_matches (t : segment) (s : string) : bool :=
  match t with Literal l => bool_decide (l = s) | Capture _ => negb (is_empty s) end.

Fixpoint template_matches (t : list segment) (path : list string) : bool :=
  match t, path with
  | [], [] => true
  | x :: t, s :: path => segment_matches x s && template_matches t path
  | _, _ => false
  end.

(** Which of two templates that match is taken: the first literal decides. *)
Fixpoint preferred (a b : list segment) : bool :=
  match a, b with
  | Literal _ :: a, Capture _ :: b => true
  | Capture _ :: a, Literal _ :: b => false
  | _ :: a, _ :: b => preferred a b
  | _, _ => true
  end.

Fixpoint best (routes : list route) (path : list string) : option route :=
  match routes with
  | [] => None
  | r :: routes =>
      if template_matches (template r.1) path then
        match best routes path with
        | Some r' => if preferred (template r'.1) (template r.1) then Some r' else Some r
        | None => Some r
        end
      else best routes path
  end.

Inductive dispatched := Handled (h : handler) (captures : list (string * string)) | NotFound | MethodNotAllowed.

Definition captures (t : list segment) (path : list string) : list (string * string) :=
  omap (fun '(x, s) => match x with Capture n => Some (n, s) | Literal _ => None end) (zip t path).

Definition dispatch (routes : list route) (m : method) (path : string) : dispatched :=
  match best routes (split_char "/" path) with
  | None => NotFound
  | Some r =>
      match list_find (fun mh => mh.1 = m) r.2 with
      | Some (_, (_, h)) => Handled h (captures (template r.1) (split_char "/" path))
      | None => MethodNotAllowed
      end
  end.

(** ** The node's router *)

(** The moderation routes exist on a gated node only. *)
Definition node_routes (gated : bool) : list route :=
  tags_router ++ catalogs_router ++ catalogs_v2_router ++ node_router
  ++ (if gated then moderation_router else []).

(** Two templates of the same shape: axum refuses to merge them. *)
Fixpoint same_shape (a b : list segment) : bool :=
  match a, b with
  | [], [] => true
  | Literal x :: a, Literal y :: b => bool_decide (x = y) && same_shape a b
  | Capture _ :: a, Capture _ :: b => same_shape a b
  | _, _ => false
  end.

Fixpoint mergeable (routes : list route) : bool :=
  match routes with
  | [] => true
  | r :: routes =>
      forallb (fun r' => negb (same_shape (template r.1) (template r'.1))) routes && mergeable routes
  end.

(** ** [GET /node] *)

Record NodeInfo := {
  endpoint_id : string;
  relay_url : option string;
  direct_addresses : list string;
  ni_max_blob_bytes : Z
}.

Definition ser_node_info (i : NodeInfo) : json :=
  JObject [("endpointId", JString (endpoint_id i));
           ("relayUrl", match relay_url i with Some u => JString u | None => JNull end);
           ("directAddresses", JArray (JString <$> direct_addresses i));
           ("maxBlobBytes", JInt (ni_max_blob_bytes i))].

(** What the endpoint says of itself at a request. *)
Record EndpointAddr := { ea_id : string; ea_relay_urls : list string }.

(** [SocketAddr]'s [Display] is a parameter here: nothing is read back. *)
Definition live (display : SocketAddr -> string) (public_addresses : list SocketAddr)
    (max_blob_bytes : Z) (addr : EndpointAddr) : NodeInfo :=
  {| endpoint_id := ea_id addr;
     relay_url := head (ea_relay_urls addr);
     direct_addresses := display <$> public_addresses;
     ni_max_blob_bytes := max_blob_bytes |}.

(** ** Facts *)

Lemma best_elem routes path r :
  best routes path = Some r -> r ∈ routes /\ template_matches (template r.1) path = true.
Proof.
  induction routes as [|x routes IH]; cbn; [done|].
  destruct (template_matches (template x.1) path) eqn:E.
  - destruct (best routes path) as [y|].
    + destruct (preferred _ _); intros [= <-]; [|by split; [left|]].
      destruct (IH eq_refl). split; [by right|done].
    + intros [= <-]. by split; [left|].
  - intros H. destruct (IH H). split; [by right|done].
Qed.

Lemma best_None routes path :
  best routes path = None <-> forall r, r ∈ routes -> template_matches (template r.1) path = false.
Proof.
  induction routes as [|x routes IH]; cbn; [by split; [intros _ r ?%elem_of_nil|]|].
  destruct (template_matches (template x.1) path) eqn:E.
  - split; [by repeat case_match|]. intros H. specialize (H x (list_elem_of_here _ _)). congruence.
  - rewrite IH. split; [intros H r [->|Hr]%elem_of_cons; auto|intros H r Hr; apply H; by right].
Qed.

(** Of two templates that match the same path and differ in shape, exactly one
    is preferred. *)
Lemma preferred_antisym a b path :
  template_matches a path = true -> template_matches b path = true ->
  preferred a b = true -> preferred b a = true -> same_shape a b = true.
Proof.
  revert b path; induction a as [|x a IH]; intros [|y b] [|s path]; cbn; try done; try (by destruct x); try (by destruct y).
  rewrite !andb_true_iff. intros [Hx Ha] [Hy Hb].
  destruct x, y; cbn in *; try done; intros H1 H2; [|by eapply IH].
  rewrite bool_decide_eq_true in Hx, Hy. subst. rewrite bool_decide_true by done. cbn. by eapply IH.
Qed.

Lemma same_shape_sym a b : same_shape a b = same_shape b a.
Proof.
  revert b; induction a as [|[] a IH]; intros [|[] b]; cbn; try done. rewrite IH. f_equal.
  apply bool_decide_ext. naive_solver.
Qed.

Lemma mergeable_unique routes r1 r2 :
  mergeable routes = true -> r1 ∈ routes -> r2 ∈ routes ->
  same_shape (template r1.1) (template r2.1) = true -> r1 = r2.
Proof.
  induction routes as [|r routes IH]; cbn; [by intros _ ?%elem_of_nil|].
  rewrite andb_true_iff, forallb_forall. intros [Hr Hm] H1 H2 Hs.
  apply elem_of_cons in H1 as [->|H1], H2 as [->|H2]; [done| | |by apply IH].
  - apply list_elem_of_In, Hr in H2. by rewrite Hs in H2.
  - apply list_elem_of_In, Hr in H1. by rewrite same_shape_sym, Hs in H1.
Qed.

(** A literal in which two templates differ, or their lengths, keeps them
    apart. *)
Fixpoint apart (a b : list segment) : bool :=
  match a, b with
  | [], [] => false
  | Literal x :: a, Literal y :: b => negb (bool_decide (x = y)) || apart a b
  | _ :: a, _ :: b => apart a b
  | _, _ => true
  end.

Lemma apart_no_match a b path :
  apart a b = true -> template_matches a path = true -> template_matches b path = false.
Proof.
  revert b path; induction a as [|x a IH]; intros [|y b] [|s path]; cbn; try done;
    try (by destruct x); try (by destruct y).
  rewrite andb_true_iff, andb_false_iff. intros Ha [Hx Hp].
  destruct x, y; try (right; by eapply IH). apply orb_true_iff in Ha as [Hne|Ha]; [left|right; by eapply IH].
  cbn in *. apply negb_true_iff, bool_decide_eq_false in Hne. apply bool_decide_eq_true in Hx as <-.
  by apply bool_decide_eq_false_2.
Qed.

Definition tables_apart (l1 l2 : list route) : bool :=
  forallb (fun r1 => forallb (fun r2 => apart (template r1.1) (template r2.1)) l2) l1.

Lemma tables_apart_best l1 l2 path r :
  tables_apart l1 l2 = true -> best l1 path = Some r -> best l2 path = None.
Proof.
  unfold tables_apart. rewrite forallb_forall. intros Ha [Hr Hm]%best_elem.
  apply list_elem_of_In, Ha in Hr. rewrite forallb_forall in Hr.
  apply best_None. intros r2 Hr2%list_elem_of_In%Hr. by eapply apart_no_match.
Qed.

Lemma best_app_l l1 l2 path : best l1 path = None -> best (l1 ++ l2) path = best l2 path.
Proof.
  induction l1 as [|r l1 IH]; [done|]. cbn. destruct (template_matches (template r.1) path); [by repeat case_match|apply IH].
Qed.

Lemma best_app_r l1 l2 path : best l2 path = None -> best (l1 ++ l2) path = best l1 path.
Proof. intros H2. induction l1 as [|r l1 IH]; [done|]. cbn. by rewrite IH. Qed.

Lemma dispatch_handled routes m path h c :
  dispatch routes m path = Handled h c -> exists r, r ∈ routes /\ (m, h) ∈ r.2.
Proof.
  unfold dispatch. destruct (best routes _) as [r|] eqn:E; [|done]. apply best_elem in E as [Hr _].
  destruct (list_find _ r.2) as [[i [m' h']]|] eqn:F; [|done]. intros [= <- <-].
  apply list_find_Some in F as (F & <- & _). apply list_elem_of_lookup_2 in F. eauto.
Qed.

(** The table of a node merges without a conflict, and of the templates that
    match a path at most one is preferred to all others. *)
Theorem routes_unambiguous gated path r1 r2 :
  r1 ∈ node_routes gated -> r2 ∈ node_routes gated ->
  template_matches (template r1.1) path = true -> template_matches (template r2.1) path = true ->
  preferred (template r1.1) (template r2.1) = true -> preferred (template r2.1) (template r1.1) = true ->
  r1 = r2.
Proof.
  intros H1 H2 M1 M2 P1 P2. apply (mergeable_unique (node_routes gated)); [by destruct gated|done|done|].
  by eapply preferred_antisym.
Qed.

(** The publishing gate only adds routes. On a gated node every path an
    ungated node answers is dispatched as it is there, and the rest as the
    moderation router says; on an ungated node no handler of sessions,
    suspensions or blocks can be reached, and the only write is the publish of
    a catalog. *)
Theorem gate_only_adds_routes m path :
  dispatch (node_routes true) m path =
    match dispatch (node_routes false) m path with
    | NotFound => dispatch moderation_router m path
    | d => d
    end
  /\ (forall h c, dispatch (node_routes false) m path = Handled h c ->
        h ∈ [healthz; get_catalog_document; get_blob; get_pointer; put_catalog; node_info]
        /\ (m <> GET -> m = PUT /\ h = put_catalog)).
Proof.
  split.
  - assert (node_routes true = node_routes false ++ moderation_router) as -> by reflexivity.
    unfold dispatch at 1 2. destruct (best (node_routes false) (split_char "/" path)) as [r|] eqn:E.
    + rewrite best_app_r, E by (eapply tables_apart_best; [|done]; reflexivity). by repeat case_match.
    + by rewrite best_app_l.
  - intros h c (r & Hr & Hh)%dispatch_handled.
    repeat (apply elem_of_cons in Hr as [->|Hr]; [cbn [snd] in Hh; repeat (apply elem_of_cons in Hh as [[= -> ->]|Hh];
      [split; [set_solver|naive_solver]|]); by apply elem_of_nil in Hh|]).
    by apply elem_of_nil in Hr.
Qed.

(** The literal [catalogs] is not taken for a hash. *)
Example blocks_catalogs :
  (dispatch (node_routes true) GET "/moderation/blocks/catalogs",
   dispatch (node_routes true) PUT "/moderation/blocks/catalogs",
   dispatch (node_routes true) PUT "/moderation/blocks/ab",
   dispatch (node_routes true) DELETE "/moderation/blocks/catalogs/alice",
   dispatch (node_routes false) POST "/publish/sessions",
   dispatch (node_routes false) GET "/blobs/")
  = (Handled list_catalog_blocks [], MethodNotAllowed, Handled block [("hash", "ab")],
     Handled lift_catalog_block [("subject", "alice")], NotFound, NotFound).
Proof. vm_compute. reflexivity. Qed.
