(* ===== verification/Ingest.v ===== *)
(** * Ingest: from a pushed blob to stored objects (src/ingest.rs)

    A complete blob is exported to a scratch file, validated from it, its
    outboard computed and checked against the hash, and then uploaded:
    outboard first, then the blob unless it is there, then the extracted
    manifest. The local store (iroh-blobs) and the BAO tree are parameters. *)

From S2P Require Import Prelude Bytes Identifiers Extern Samples S3Store Validation.

(** ** The local store and the BAO tree *)

Inductive export_result :=
| Exported (content : bytes) (size : Z)
| ExportFailed (partial : option bytes).

Class FsStore := {
  (** [observe]: the declared size and whether the blob is complete. *)
  fs_observe : bytes -> option (Z * bool);
  fs_export : bytes -> export_result;
  (** Offsets of a file at which a read fails. *)
  disk_bad : string -> Z -> bool
}.

Class BaoCrate := {
  (** [PreOrderOutboard::create_sized]: the root hash and the outboard of the
      first [size] bytes; [None] when they cannot be read. *)
  bao_create : bytes -> Z -> option (bytes * bytes)
}.

(** ** Scratch files *)

Record Scratch := { sc_next : N; sc_files : gmap string bytes }.

Definition scratch_path (dir hex : string) (n : N) : string :=
  dir +:+ "/" +:+ hex +:+ "." +:+ pretty n +:+ ".tdf".

(** [ScratchFile::new] *)
Definition scratch_new (dir hex : string) : comp Scratch string string := fun s =>
  (Ok (scratch_path dir hex (sc_next s)), {| sc_next := (sc_next s + 1)%N; sc_files := sc_files s |}).

(** [Drop for ScratchFile] *)
Definition scratch_drop (path : string) (s : Scratch) : Scratch :=
  {| sc_next := sc_next s; sc_files := delete path (sc_files s) |}.

Definition scratch_write (path : string) (content : bytes) (s : Scratch) : Scratch :=
  {| sc_next := sc_next s; sc_files := <[path := content]> (sc_files s) |}.

Inductive IngestError := Refused (why : string) | Failed (why : string).

Record IngestResult := { ir_hash_hex : string; ir_size : Z }.

Record Validated {TC : TdfCrate} := {
  vd_hash : bytes;
  vd_size : Z;
  vd_manifest : TdfManifest;
  vd_outboard : bytes;
  vd_path : string
}.

(** What ingest works on: the scratch directory and the bucket. *)
Record IngestState := { ig_scratch : Scratch; ig_bucket : Bucket }.

Definition set_scratch (s : Scratch) (g : IngestState) : IngestState :=
  {| ig_scratch := s; ig_bucket := ig_bucket g |}.
Definition set_bucket (b : Bucket) (g : IngestState) : IngestState :=
  {| ig_scratch := ig_scratch g; ig_bucket := b |}.

Section Ingest.
Context {TC : TdfCrate} {ZC : ZipCrate} {FS : FsStore} {BC : BaoCrate} {HX : Hex} {S3 : S3Service}.
Context (read_file : string -> result string string) (prefix scratch_dir : string) (config : ValidationConfig).

Definition compute_outboard (data : bytes) (size : Z) (expected : bytes) : result string bytes :=
  '(root, outboard) ← ok_or (bao_create data size) "Failed to compute the blob's outboard";
  if negb (bool_decide (root = expected))
  then Err ("the blob's bytes hash to " +:+ hex_encode root +:+ ", not " +:+ hex_encode expected
            +:+ "; refusing to store an outboard for it")
  else Ok outboard.

(** The two blocking tasks: both open the scratch file. *)
Definition validate_file (path : string) (size : Z) (files : gmap string bytes) : result string TdfManifest :=
  content ← ok_or (files !! path) ("Failed to open " +:+ path);
  validate_archive read_file {| rd_data := content; rd_bad := disk_bad path |} size config.

Definition outboard_file (path : string) (size : Z) (hash : bytes) (files : gmap string bytes) :
    result string bytes :=
  content ← ok_or (files !! path) ("Failed to open " +:+ path);
  compute_outboard content size hash.

(** [export] into the scratch file: the size exported. *)
Definition export_to (hash : bytes) (path : string) : comp Scratch IngestError Z := fun s =>
  match fs_export hash with
  | Exported content size => (Ok size, scratch_write path content s)
  | ExportFailed partial =>
      (Err (Failed ("Failed to export blob to " +:+ path)),
       match partial with Some c => scratch_write path c s | None => s end)
  end.

(** Everything after the scratch file was named; it is dropped on failure. *)
Definition validate_scratch (hash : bytes) (path : string) : comp Scratch IngestError Validated := fun s =>
  let body : comp Scratch IngestError Validated :=
    size ← export_to hash path;
    s ← get;
    manifest ← lift (map_err (fun _ => Refused "Blob rejected by TDF validation")
                       (validate_file path size (sc_files s)));
    outboard ← lift (map_err Failed (outboard_file path size hash (sc_files s)));
    mret {| vd_hash := hash; vd_size := size; vd_manifest := manifest; vd_outboard := outboard;
            vd_path := path |} in
  match body s with
  | (Ok v, s') => (Ok v, s')
  | (Err e, s') => (Err e, scratch_drop path s')
  end.

Definition validate_from_store (hash : bytes) : comp Scratch IngestError (option Validated) :=
  match fs_observe hash with
  | None => mret None
  | Some (size, complete) =>
      _ ← lift (map_err (fun _ => Refused "Blob refused before reading") (check_blob_size size config));
      if negb complete then mret None
      else
        path ← comp_map_err Failed (scratch_new scratch_dir (hex_encode hash));
        v ← validate_scratch hash path;
        mret (Some v)
  end.

Definition on_bucket {A} (f : string -> IngestError) (m : comp Bucket string A) : comp IngestState IngestError A :=
  comp_map_err f (zoom ig_bucket set_bucket m).

(** The blob, unless already present. *)
Definition upload_blob (v : Validated) : comp IngestState IngestError unit :=
  let hash_hex := hex_encode (vd_hash v) in
  present ← on_bucket Failed (blob_size prefix hash_hex);
  match present with
  | Some _ => mret tt
  | None =>
      g ← get;
      on_bucket (fun _ => Failed "Failed to upload blob to S3")
        (put_blob_file prefix hash_hex (sc_files (ig_scratch g) !! vd_path v) (vd_size v))
  end.

(** The extracted manifest, best-effort. *)
Definition upload_manifest (v : Validated) : comp IngestState IngestError unit :=
  match manifest_to_json (vd_manifest v) with
  | Some json =>
      _ ← attempt (F := IngestError) (on_bucket Failed (put_manifest prefix (hex_encode (vd_hash v)) json));
      mret tt
  | None => mret tt
  end.

Definition upload (v : Validated) : comp IngestState IngestError IngestResult :=
  let hash_hex := hex_encode (vd_hash v) in
  _ ← on_bucket (fun _ => Failed "Failed to upload outboard to S3") (put_outboard prefix hash_hex (vd_outboard v));
  _ ← upload_blob v;
  _ ← upload_manifest v;
  mret {| ir_hash_hex := hash_hex; ir_size := vd_size v |}.

(** The scratch file goes when [validated] is dropped. *)
Definition drop_validated (v : Validated) (g : IngestState) : IngestState :=
  set_scratch (scratch_drop (vd_path v) (ig_scratch g)) g.

Definition upload_and_drop (v : Validated) : comp IngestState IngestError IngestResult := fun g =>
  let '(r, g') := upload v g in (r, drop_validated v g').

Definition ingest_from_store (hash : bytes) : comp IngestState IngestError (option IngestResult) :=
  v ← zoom ig_scratch set_scratch (validate_from_store hash);
  match v with
  | Some v => r ← upload_and_drop v; mret (Some r)
  | None => mret None
  end.

(** [prepare_scratch_dir]: the directory is emptied and created; what
    [remove_dir_all] and [create_dir_all] answer is given. *)
Inductive remove_answer := Removed | NotThere | RemoveFailed.

Definition prepare_scratch_dir (data_dir : string) (removed : remove_answer) (created : bool) :
    comp Scratch string string :=
  let dir := data_dir +:+ "/ingest" in
  _ ← match removed with
      | Removed | NotThere => modify (fun s => {| sc_next := sc_next s; sc_files := ∅ |})
      | RemoveFailed => throw ("Failed to empty " +:+ dir)
      end;
  if created then mret dir else throw ("Failed to create " +:+ dir).

(** ** Facts: scratch files *)

(** No file has a name that is still to be given. *)
Definition fresh (s : Scratch) : Prop :=
  forall hex n, (sc_next s <= n)%N -> sc_files s !! scratch_path scratch_dir hex n = None.

Lemma validate_scratch_files hash path s r s' :
  sc_files s !! path = None -> validate_scratch hash path s = (r, s') ->
  sc_next s' = sc_next s /\
  match r with
  | Ok v => vd_path v = path /\ delete path (sc_files s') = sc_files s
  | Err _ => sc_files s' = sc_files s
  end.
Proof.
  intros Hp. unfold validate_scratch, export_to, mbind, comp_bind, get, lift, mret, comp_ret.
  assert (forall c, delete path (<[path := c]> (sc_files s)) = sc_files s) as Hd.
  { intros c. by rewrite delete_insert_id. }
  destruct (fs_export hash) as [content size|partial].
  2: { intros [= <- <-]. destruct partial as [c|]; cbn; (split; [done|]); [apply Hd|by rewrite delete_id]. }
  cbn [scratch_write sc_files].
  destruct (map_err _ (validate_file _ _ _)) as [mf|e]; [|intros [= <- <-]; split; [done|apply Hd]].
  destruct (map_err _ (outboard_file _ _ _ _)) as [ob|e]; [|intros [= <- <-]; split; [done|apply Hd]].
  intros [= <- <-]. cbn. split_and!; [done..|apply Hd].
Qed.

Lemma validate_from_store_files hash s r s' :
  fresh s -> validate_from_store hash s = (r, s') ->
  (sc_next s <= sc_next s')%N /\
  match r with
  | Ok (Some v) => delete (vd_path v) (sc_files s') = sc_files s
  | _ => sc_files s' = sc_files s
  end.
Proof.
  intros Hf. unfold validate_from_store. destruct (fs_observe hash) as [[size complete]|].
  2: { by intros [= <- <-]. }
  unfold mbind, comp_bind, lift. destruct (map_err _ (check_blob_size _ _)); [|by intros [= <- <-]].
  destruct complete; cbn [negb]; [|by intros [= <- <-]]. cbn.
  destruct (validate_scratch _ _ _) as [r1 s1] eqn:E. apply validate_scratch_files in E as [Hn Hr].
  2: { cbn. apply Hf. done. }
  cbn in Hn. destruct r1 as [v|e]; intros [= <- <-]; cbn in *; (split; [lia|]); [|done]. destruct Hr as [-> ?]. done.
Qed.

(** What a validated blob is: the exported bytes, which pass validation and
    hash to the pushed hash, are in its scratch file. *)
Lemma validate_from_store_ok hash s v s' :
  validate_from_store hash s = (Ok (Some v), s') ->
  exists content size outboard path manifest, fs_export hash = Exported content size
    /\ validate_archive read_file {| rd_data := content; rd_bad := disk_bad path |} size config = Ok manifest
    /\ bao_create content size = Some (hash, outboard) /\ sc_files s' !! path = Some content
    /\ v = {| vd_hash := hash; vd_size := size; vd_manifest := manifest; vd_outboard := outboard; vd_path := path |}.
Proof.
  intros E. unfold validate_from_store in E. destruct (fs_observe hash) as [[sz complete]|]; [|done]. inv_run.
  destruct complete; cbn [negb] in E; [|inv_run; done]. inv_run. simplify_eq.
  match goal with H : validate_scratch _ ?p ?s = _ |- _ =>
    unfold validate_scratch, export_to, mbind, comp_bind, get, lift, mret, comp_ret in H; rename H into Hvs; rename p into path end.
  destruct (fs_export hash) as [content size|] eqn:He; [|done]. cbn [scratch_write sc_files] in Hvs.
  destruct (validate_file _ _ _) as [mf|] eqn:Hvf; cbn [map_err] in Hvs; [|done].
  destruct (outboard_file _ _ _ _) as [ob|] eqn:Hof; cbn [map_err] in Hvs; [|done]. injection Hvs as <- <-.
  unfold validate_file, outboard_file in *. rewrite lookup_insert_eq in *. cbn in Hvf, Hof.
  unfold compute_outboard in Hof. inv_run. case_bool_decide as Hroot; [|done]. cbn in Hof. simplify_eq.
  eexists content, size, _, path, mf. split_and!; try done. cbn. apply lookup_insert_eq.
Qed.

(** ** Facts: objects *)

(** Every stored blob has its outboard. *)
Definition blobs_have_outboards (b : Bucket) : Prop :=
  forall hex, is_Some (objects b !! blob_key prefix hex) -> is_Some (objects b !! outboard_key prefix hex).

Lemma blob_outboard_ne h1 h2 : blob_key prefix h1 <> outboard_key prefix h2.
Proof. intros E. by apply (family_key_inj prefix Blobs Outboards h1 h2) in E as [? _]. Qed.
Lemma manifest_blob_ne h1 h2 : manifest_key prefix h1 <> blob_key prefix h2.
Proof. intros E. by apply (family_key_inj prefix Manifests Blobs h1 h2) in E as [? _]. Qed.
Lemma manifest_outboard_ne h1 h2 : manifest_key prefix h1 <> outboard_key prefix h2.
Proof. intros E. by apply (family_key_inj prefix Manifests Outboards h1 h2) in E as [? _]. Qed.
Lemma blob_key_inj h1 h2 : blob_key prefix h1 = blob_key prefix h2 -> h1 = h2.
Proof. intros E. by apply (family_key_inj prefix Blobs Blobs h1 h2) in E as [_ ?]. Qed.
Lemma outboard_key_inj h1 h2 : outboard_key prefix h1 = outboard_key prefix h2 -> h1 = h2.
Proof. intros E. by apply (family_key_inj prefix Outboards Outboards h1 h2) in E as [_ ?]. Qed.

(** The objects an operation on the bucket leaves. *)
Lemma on_bucket_run {A} f (m : comp Bucket string A) g r g' :
  on_bucket f m g = (r, g') ->
  exists r0, m (ig_bucket g) = (r0, ig_bucket g') /\ r = map_err f r0 /\ ig_scratch g' = ig_scratch g.
Proof.
  unfold on_bucket, comp_map_err, zoom. destruct (m (ig_bucket g)) as [r0 b]. intros [= <- <-]. by exists r0.
Qed.

Abbreviation objs g := (objects (ig_bucket g)).

(** The parts of an upload. *)
Definition stored_blob (v : Validated) (g : IngestState) (m : gmap string object) : Prop :=
  exists content, sc_files (ig_scratch g) !! vd_path v = Some content /\ (vd_size v <= len content)%Z
    /\ m = <[blob_key prefix (hex_encode (vd_hash v)) :=
             written (String.substring 0 (Z.to_nat (vd_size v)) content) None]> (objs g).

Lemma upload_blob_effect v g r g' :
  upload_blob v g = (r, g') ->
  ((objs g' = objs g /\ (r = Ok tt -> is_Some (objs g !! blob_key prefix (hex_encode (vd_hash v)))))
   \/ stored_blob v g (objs g')) /\ ig_scratch g' = ig_scratch g.
Proof.
  unfold upload_blob. intros H. apply comp_bind_state in H as [(present & g1 & Hp & H)|(e & Hp & ->)];
    apply on_bucket_run in Hp as (r0 & Hp & Hr & Hs);
    unfold blob_size, object_size, head_object in Hp; apply comp_bind_state in Hp as
      [(o & b1 & Ho & Hret)|(e' & Ho & ->)].
  - apply or_absent_spec in Ho as (r1 & Ho & Hr1). apply read_object_objects in Ho as [Ho Hx].
    unfold mret, comp_ret in Hret. injection Hret as <- Hb. rewrite Hb in *. cbn in Hr. injection Hr as ->.
    destruct o as [o|]; cbn in H.
    + unfold mret, comp_ret in H. injection H as <- <-. split; [left|done]. split; [congruence|].
      intros _. subst r1. rewrite (Hx o eq_refl). by eexists.
    + unfold mbind, comp_bind, get in H. apply on_bucket_run in H as (r2 & H & -> & Hs2).
      split; [|congruence]. apply put_blob_file_effect in H as [[Hsame Hne]|(content & Hc & Hl & Hins)].
      * left. split; [congruence|]. destruct r2 as [[]|]; done.
      * right. exists content. rewrite Hs in Hc. split_and!; [done..|]. rewrite Hins. congruence.
  - done.
  - unfold mret, comp_ret in Hret. injection Hret as <- _. done.
  - apply or_absent_spec in Ho as (r1 & Ho & Hr1). apply read_object_objects in Ho as [Ho Hx]. split; [left|done].
    split; [congruence|done].
Qed.

Lemma upload_manifest_effect v g r g' :
  upload_manifest v g = (r, g') ->
  r = Ok tt /\ ig_scratch g' = ig_scratch g
  /\ (objs g' = objs g \/ exists json, manifest_to_json (vd_manifest v) = Some json
      /\ objs g' = <[manifest_key prefix (hex_encode (vd_hash v)) := written json None]> (objs g)).
Proof.
  unfold upload_manifest. destruct (manifest_to_json _) as [json|]; [|intros [= <- <-]; by split_and!; [..|left]].
  unfold attempt, mbind, comp_bind. destruct (on_bucket _ _ g) as [x g1] eqn:E. intros [= <- <-].
  apply on_bucket_run in E as (r0 & E & _ & Hs). split_and!; [done..|].
  apply put_context_effect in E as [[? _]|?]; [by left|right; by exists json].
Qed.

(** Everything an upload may have done to the objects when it returns. *)
Lemma upload_effect v g r g' :
  upload v g = (r, g') ->
  ig_scratch g' = ig_scratch g
  /\ (objs g' = objs g /\ is_ok r = false
      \/ exists m1 m2, m1 = <[outboard_key prefix (hex_encode (vd_hash v)) := written (vd_outboard v) None]> (objs g)
         /\ (m2 = m1 /\ (is_ok r = true -> is_Some (objs g !! blob_key prefix (hex_encode (vd_hash v))))
             \/ exists content, sc_files (ig_scratch g) !! vd_path v = Some content /\ (vd_size v <= len content)%Z
                /\ m2 = <[blob_key prefix (hex_encode (vd_hash v)) :=
                         written (String.substring 0 (Z.to_nat (vd_size v)) content) None]> m1)
         /\ (objs g' = m2 \/ exists json, manifest_to_json (vd_manifest v) = Some json
             /\ objs g' = <[manifest_key prefix (hex_encode (vd_hash v)) := written json None]> m2)).
Proof.
  unfold upload. intros H. apply comp_bind_state in H as [([] & g1 & H1 & H)|(e & H1 & ->)];
    apply on_bucket_run in H1 as (r0 & H1 & Hr & Hs1); apply put_context_effect in H1.
  2: { split; [done|]. destruct H1 as [[Ho _]|Ho]; [left; split; [done|done]|right].
       eexists _, _. split; [reflexivity|]. split; [by left|by left]. }
  destruct r0 as [[]|]; [|done]. destruct H1 as [[_ ?]|Ho1]; [done|].
  assert (objs g1 !! blob_key prefix (hex_encode (vd_hash v)) = objs g !! blob_key prefix (hex_encode (vd_hash v))) as Hbl.
  { rewrite Ho1. apply lookup_insert_ne. intros E. symmetry in E. by apply blob_outboard_ne in E. }
  apply comp_bind_state in H as [([] & g2 & H2 & H)|(e & H2 & ->)]; apply upload_blob_effect in H2 as [H2 Hs2].
  2: { split; [congruence|right]. eexists _, (objs g'). split; [reflexivity|]. rewrite <- Ho1. split; [|by left].
       destruct H2 as [[? _]|(content & Hc & Hl & Hm)]; [by left|right]. exists content. rewrite <- Hs1. done. }
  apply comp_bind_state in H as [([] & g3 & H3 & H)|(e & H3 & ->)]; apply upload_manifest_effect in H3 as (Hr3 & Hs3 & H3);
    [|done].
  unfold mret, comp_ret in H. injection H as <- <-. split; [congruence|right].
  eexists _, (objs g2). split; [reflexivity|]. rewrite <- Ho1. split; [|done].
  destruct H2 as [[? Hpres]|(content & Hc & Hl & Hm)].
  - left. split; [done|]. intros _. rewrite <- Hbl. by apply Hpres.
  - right. exists content. rewrite <- Hs1. done.
Qed.

Lemma delete_object_effect key b r b' :
  delete_object key b = (r, b') ->
  (objects b' = objects b /\ r <> Ok tt) \/ objects b' = delete key (objects b).
Proof.
  unfold delete_object, begin_op, modify, throw, mbind, comp_bind.
  destruct (s3_fault _ _); intros; simplify_eq/=; auto.
Qed.

Lemma insert_outboard_keeps (m : gmap string object) hex x :
  (forall h, is_Some (m !! blob_key prefix h) -> is_Some (m !! outboard_key prefix h)) ->
  forall h, is_Some (<[outboard_key prefix hex := x]> m !! blob_key prefix h) ->
            is_Some (<[outboard_key prefix hex := x]> m !! outboard_key prefix h).
Proof.
  intros Hi h. rewrite lookup_insert_ne by (intros E; symmetry in E; by apply blob_outboard_ne in E).
  intros [o Ho]%Hi. destruct (decide (h = hex)) as [->|Hne]; [rewrite lookup_insert_eq; by eexists|].
  rewrite lookup_insert_ne; [by eexists|]. by intros E%outboard_key_inj.
Qed.

(** ** Theorems *)

(** A blob in the bucket always has its outboard, so it can be served: an
    ingest keeps this at whatever step it fails, and so does deleting a blob. *)
Theorem blobs_always_have_outboards g :
  blobs_have_outboards (ig_bucket g) ->
  (forall v r g', upload v g = (r, g') -> blobs_have_outboards (ig_bucket g'))
  /\ (forall hex r b', delete_blob prefix hex (ig_bucket g) = (r, b') -> blobs_have_outboards b').
Proof.
  intros Hi. split.
  - intros v r g' [_ [[Ho _]|(m1 & m2 & Hm1 & Hm2 & Ho)]]%upload_effect.
    { unfold blobs_have_outboards. by rewrite Ho. }
    assert (forall h, is_Some (m2 !! blob_key prefix h) -> is_Some (m2 !! outboard_key prefix h)) as H2.
    { assert (forall h, is_Some (m1 !! blob_key prefix h) -> is_Some (m1 !! outboard_key prefix h)) as H1
        by (subst m1; by apply insert_outboard_keeps).
      destruct Hm2 as [[-> _]|(content & _ & _ & ->)]; [done|]. intros h.
      rewrite (lookup_insert_ne _ _ (outboard_key _ _)) by apply blob_outboard_ne.
      destruct (decide (h = hex_encode (vd_hash v))) as [->|Hne].
      - intros _. subst m1. rewrite lookup_insert_eq. by eexists.
      - rewrite lookup_insert_ne by (by intros E%blob_key_inj). apply H1. }
    intros h. destruct Ho as [->|(json & _ & ->)]; [apply H2|].
    rewrite !lookup_insert_ne by (apply manifest_blob_ne || apply manifest_outboard_ne). apply H2.
  - intros hex r b' H. unfold delete_blob in H.
    apply comp_bind_state in H as [([] & b1 & H1 & H)|(e & H1 & ->)];
      apply context_spec in H1 as (r1 & H1 & Hr1); apply delete_object_effect in H1.
    + apply context_spec in H as (r2 & H & _). apply delete_object_effect in H. subst r1.
      destruct H1 as [[_ ?]|H1]; [done|]. intros h.
      assert (is_Some (objects b1 !! blob_key prefix h) -> h <> hex /\ is_Some (objects b1 !! outboard_key prefix h)) as Hb1.
      { rewrite H1. intros [o [Hne Ho]%lookup_delete_Some]. split; [by intros ->|].
        rewrite lookup_delete_ne by apply blob_outboard_ne. by apply Hi. }
      destruct H as [[-> _]| ->]; [by intros [_ ?]%Hb1|].
      rewrite lookup_delete_ne by (intros E; symmetry in E; by apply blob_outboard_ne in E).
      intros [Hne ?]%Hb1. rewrite lookup_delete_ne; [done|]. by intros E%outboard_key_inj.
    + intros h. destruct H1 as [[-> _]| ->]; [apply Hi|].
      rewrite (lookup_delete_ne _ (blob_key _ _) (outboard_key _ _)) by apply blob_outboard_ne.
      intros [o [_ Ho]%lookup_delete_Some]. by apply Hi.
Qed.

(** Ingest leaves no scratch file behind: whatever it returns, the files
    of the scratch directory are as before, names still to be given stay
    unused. *)
Theorem scratch_files_removed hash g r g' :
  fresh (ig_scratch g) -> ingest_from_store hash g = (r, g') ->
  sc_files (ig_scratch g') = sc_files (ig_scratch g) /\ fresh (ig_scratch g').
Proof.
  intros Hf H.
  assert (sc_files (ig_scratch g') = sc_files (ig_scratch g)
    /\ (sc_next (ig_scratch g) <= sc_next (ig_scratch g'))%N) as [Hfiles Hn].
  2: { split; [done|]. intros hex n Hle. rewrite Hfiles. apply Hf. lia. }
  unfold ingest_from_store, zoom, mbind, comp_bind in H.
  destruct (validate_from_store hash (ig_scratch g)) as [r1 s1] eqn:E.
  apply (validate_from_store_files _ _ _ _ Hf) in E as [Hn Hr].
  destruct r1 as [[v|]|e]; cbn in H; try (injection H as <- <-; by cbn).
  unfold upload_and_drop in H. destruct (upload v (set_scratch s1 g)) as [r2 g2] eqn:Eu.
  apply upload_effect in Eu as [Hs _]. cbn in Hs.
  destruct r2; injection H as <- <-; cbn; rewrite Hs; done.
Qed.

(** An ingest that succeeds stored what was pushed: the exported bytes are
    within the size limit and pass validation, they hash to the pushed hash,
    their outboard is stored, and the blob under that hash is either the one
    that was already there or exactly those bytes. *)
Theorem ingest_stores_valid hash g res g' :
  ingest_from_store hash g = (Ok (Some res), g') ->
  exists content size manifest outboard path,
    fs_export hash = Exported content size
    /\ validate_archive read_file {| rd_data := content; rd_bad := disk_bad path |} size config = Ok manifest
    /\ bao_create content size = Some (hash, outboard)
    /\ res = {| ir_hash_hex := hex_encode hash; ir_size := size |}
    /\ objs g' !! outboard_key prefix (hex_encode hash) = Some (written outboard None)
    /\ (is_Some (objs g !! blob_key prefix (hex_encode hash))
           /\ objs g' !! blob_key prefix (hex_encode hash) = objs g !! blob_key prefix (hex_encode hash)
        \/ objs g' !! blob_key prefix (hex_encode hash)
             = Some (written (String.substring 0 (Z.to_nat size) content) None)).
Proof.
  intros H. unfold ingest_from_store in H. inv_run.
  match goal with H : zoom _ _ _ _ = _ |- _ => unfold zoom in H; rename H into Hz end.
  destruct (validate_from_store hash (ig_scratch g)) as [r1 s1] eqn:E. injection Hz as -> <-.
  match goal with H : (match ?x with Some _ => _ | None => _ end) _ = _ |- _ => destruct x as [v|]; [|discriminate] end.
  inv_run. match goal with H : Some _ = Some _ |- _ => injection H as -> end.
  apply validate_from_store_ok in E as (content & size & outboard & path & manifest & He & Hv & Hb & Hc & ->).
  match goal with H : upload_and_drop _ _ = _ |- _ => unfold upload_and_drop in H; rename H into Hu end.
  destruct (upload _ _) as [r2 g2] eqn:Eu. injection Hu as -> <-. pose proof Eu as Eu'.
  apply upload_effect in Eu as [_ [[_ ?]|(m1 & m2 & Hm1 & Hm2 & Ho)]]; [done|]. cbn in Hm1, Hm2, Ho.
  exists content, size, manifest, outboard, path. split_and!; try done.
  { unfold upload in Eu'. inv_run. done. }
  - transitivity (m2 !! outboard_key prefix (hex_encode hash)).
    { cbn. destruct Ho as [->|(json & _ & ->)]; [done|]. apply lookup_insert_ne, manifest_outboard_ne. }
    transitivity (m1 !! outboard_key prefix (hex_encode hash)); [|rewrite Hm1; apply lookup_insert_eq].
    destruct Hm2 as [[-> _]|(c & _ & _ & ->)]; [done|]. apply lookup_insert_ne, blob_outboard_ne.
  - assert (objs g2 !! blob_key prefix (hex_encode hash) = m2 !! blob_key prefix (hex_encode hash)) as Hbl.
    { destruct Ho as [->|(json & _ & ->)]; [done|]. apply lookup_insert_ne, manifest_blob_ne. }
    cbn. rewrite Hbl. destruct Hm2 as [[-> Hpres]|(c & Hc' & _ & ->)].
    + left. split; [by apply Hpres|]. rewrite Hm1. apply lookup_insert_ne. intros Ek.
      symmetry in Ek. by apply blob_outboard_ne in Ek.
    + right. rewrite Hc in Hc'. simplify_eq. apply lookup_insert_eq.
Qed.
End Ingest.

(** ** Witnesses *)

Module IngestSample.
#[local] Existing Instance plain_hex.
#[local] Instance s3 : S3Service := {| s3_fault := fun _ _ => Healthy; etag_of := id; page_size := 2 |}.

(** A crate whose manifest is its text, and archives of one manifest and one
    payload. *)
#[local] Instance tdf : TdfCrate :=
  {| TdfManifest := string; manifest_from_json := Some; manifest_to_json := Some; payload_url := fun _ => "";
     get_policy_raw := fun _ => None; binding_hashes := fun _ => []; fqn_parse := fun _ => None |}.
#[local] Instance zip : ZipCrate :=
  {| zip_open := fun n => Opened (Ok {| ar_len := 2; ar_members :=
       {["manifest.json" := Some {| mb_size := 2; mb_content := "{}"; mb_corrupt := false |};
         "0.payload" := Some {| mb_size := 3; mb_content := "abc"; mb_corrupt := false |}]} |}) |}.
#[local] Instance store : FsStore :=
  {| fs_observe := fun _ => Some (7%Z, true); fs_export := fun _ => Exported "archive" 7; disk_bad := fun _ _ => false |}.
#[local] Instance bao : BaoCrate := {| bao_create := fun _ _ => Some ("h", "tree") |}.

Definition config : ValidationConfig :=
  {| max_blob_bytes := 100; required_attributes := []; assertion_enabled := false; trusted_public_keys := [];
     max_concurrent_ingests := 1 |}.
Definition no_files : string -> result string string := fun _ => Err "no such file".
Definition start : IngestState :=
  {| ig_scratch := {| sc_next := 0; sc_files := ∅ |}; ig_bucket := {| objects := ∅; s3_log := [] |} |}.

Lemma ingest_stores_valid_witness :
  exists res g', ingest_from_store no_files "" "/scratch" config "h" start = (Ok (Some res), g')
    /\ is_Some (objects (ig_bucket g') !! outboard_key "" (hex_encode "h")).
Proof.
  destruct (ingest_from_store no_files "" "/scratch" config "h" start) as [[[res|]|e] g'] eqn:E;
    [|vm_compute in E; discriminate E..].
  destruct (ingest_stores_valid no_files "" "/scratch" config "h" start res g' E)
    as (c & z & m & o & p & _ & _ & _ & _ & Ho & _).
  exists res, g'. split; [reflexivity|]. rewrite Ho. eexists. reflexivity.
Defined.

Lemma scratch_files_removed_witness :
  sc_files (ig_scratch (ingest_from_store no_files "" "/scratch" config "h" start).2) = ∅.
Proof.
  destruct (ingest_from_store no_files "" "/scratch" config "h" start) as [r g'] eqn:E.
  destruct (scratch_files_removed no_files "" "/scratch" config "h" start r g') as [H _]; [|exact E|exact H].
  intros hex n _. reflexivity.
Defined.

Lemma blobs_always_have_outboards_witness :
  blobs_have_outboards "" (delete_blob "" "h" (ig_bucket start)).2.
Proof.
  destruct (blobs_always_have_outboards "" start) as [_ H]; [intros hex [o Ho]; discriminate Ho|].
  destruct (delete_blob "" "h" (ig_bucket start)) as [r b'] eqn:E. exact (H "h" r b' E).
Defined.
End IngestSample.
