(* ===== verification/CatalogsApi.v ===== *)
(** * Catalog routes and the checks they share (src/tags_api.rs, src/catalogs_api.rs)

    The store the catalog APIs use ([TagStore], implemented by the bucket),
    the token checks for publishing and for reading a catalog, the publish
    checks on a catalog's recordings, and the two public reads. On an ungated
    node nothing is blocked or hidden.

    The lookups of one upload run at most 16 at a time, in order; they only
    read, so they are modelled one after the other. *)

From S2P Require Import Prelude Bytes Identifiers Json Extern Samples S3Store Auth Authz EntityChain PublishDecision Moderation PublishGate ModerationApi CatalogMetadata CreatorCatalog.

Definition UNSUPPORTED_MEDIA_TYPE : Z := 415.
Definition PAYLOAD_TOO_LARGE : Z := 413.
Definition UNPROCESSABLE_ENTITY : Z := 422.
Definition PRECONDITION_FAILED : Z := 412.
Definition NOT_MODIFIED : Z := 304.
Definition HTTP_OK : Z := 200.

Record StoredPointer := { sp_body : bytes; sp_etag : string }.
Record StoredDocument := { sd_body : bytes; sd_owner : option string }.
Record DocumentHead := { dh_owner : option string }.

(** The trait [TagStore]. *)
Class TagStore (St : Type) := {
  ts_blob_size : string -> comp St string (option Z);
  ts_get_manifest : string -> comp St string (option bytes);
  ts_get_catalog_document : string -> comp St string (option StoredDocument);
  ts_head_catalog_document : string -> comp St string (option DocumentHead);
  ts_put_catalog_document : string -> bytes -> string -> comp St string unit;
  ts_put_catalog_outboard : string -> bytes -> comp St string unit;
  ts_put_catalog_index : string -> bytes -> comp St string unit;
  ts_get_catalog_index : string -> comp St string (option bytes);
  ts_get_catalog_pointer : string -> comp St string (option StoredPointer);
  ts_put_catalog_pointer : string -> bytes -> option string -> comp St string bool
}.

(** [impl TagStore for S3Client] *)
Definition s3_tag_store {S3 : S3Service} (prefix : string) : TagStore Bucket := {|
  ts_blob_size := blob_size prefix;
  ts_get_manifest := get_manifest prefix;
  ts_get_catalog_document hash :=
    o ← get_catalog_document prefix hash;
    mret ((fun d => {| sd_body := d.1; sd_owner := d.2 |}) <$> o);
  ts_head_catalog_document hash :=
    o ← head_catalog_document prefix hash; mret ((fun w => {| dh_owner := w |}) <$> o);
  ts_put_catalog_document := put_catalog_document prefix;
  ts_put_catalog_outboard := put_catalog_outboard prefix;
  ts_put_catalog_index := put_catalog_index prefix;
  ts_get_catalog_index := get_catalog_index prefix;
  ts_get_catalog_pointer sub :=
    o ← get_catalog_pointer prefix sub;
    mret ((fun p => {| sp_body := p.1; sp_etag := p.2 |}) <$> o);
  ts_put_catalog_pointer := put_catalog_pointer prefix
|}.

Record TagPublishing := { tp_policy : PublishPolicy; tp_moderation : Moderation }.

(** [ApiState] without its store, which is the state of the operations. *)
Record ApiState := { st_verifier : CwtVerifier; st_publishing : option TagPublishing }.

Definition tag_is_blocked (api : ApiState) (hash : string) : bool :=
  match st_publishing api with Some p => is_blocked (tp_moderation p) hash | None => false end.

Definition owner_hidden (api : ApiState) (owner : option string) : bool :=
  match st_publishing api, owner with
  | Some p, Some o => catalog_hidden (tp_moderation p) o
  | _, _ => false
  end.

(** ** Tokens *)

Section Tokens.
Context {B64 : Base64} {CB : Ciborium} {CO : Coset} {EC : P256} {HC : HttpCrate}.
Context {Sp : Type} {P : DecisionProvider Sp}.
Context (http_get : string -> http_answer).

Definition authorize_catalog_reader (verifier : CwtVerifier) (headers : HeaderMap) (t : Clocks) :
    comp KeyCache refusal VerifiedClaims :=
  match bearer headers with
  | None => throw (UNAUTHORIZED, "token required")
  | Some token =>
      comp_map_err (fun e => match e with
                             | KeySet _ => (BAD_GATEWAY, "key set unavailable")
                             | _ => (UNAUTHORIZED, "invalid token")
                             end)
        (verify http_get verifier token (now_secs t 0) (inst t 0))
  end.

Definition authorize_publisher (api : ApiState) (headers : HeaderMap) (t : Clocks) :
    comp PolicyState refusal VerifiedClaims :=
  match st_publishing api with
  | Some p => publisher http_get (tp_policy p) (st_verifier api) (tp_moderation p) headers t
  | None =>
      token ← lift (ok_or (bearer headers) (UNAUTHORIZED, "missing bearer token"));
      comp_map_err auth_status (on_keys (verify http_get (st_verifier api) token (now_secs t 0) (inst t 0)))
  end.
End Tokens.

(** ** The recordings a catalog lists *)

Definition HEADER_CONTENT_TYPE : string := "content-type".
Definition storage_unavailable : refusal := (BAD_GATEWAY, "storage unavailable").

(** [filter(|h| seen.insert(h))] *)
Fixpoint hashes_loop (seen : gset string) (entries : list CreatorCatalogEntry) : list string :=
  match entries with
  | [] => []
  | e :: entries =>
      if bool_decide (payload_hash e ∈ seen) then hashes_loop seen entries
      else payload_hash e :: hashes_loop ({[payload_hash e]} ∪ seen) entries
  end.
Definition hashes (entries : list CreatorCatalogEntry) : list string := hashes_loop ∅ entries.

Record Response := { rs_status : Z; rs_headers : list (string * string); rs_body : bytes }.

Definition CATALOG_DOCUMENT_CACHE_CONTROL : string := "public, max-age=300".

Section Catalogs.
Context {SJ : Serde} {B64 : Base64} {OT : OpenTdf} {HC : HttpCrate} {St : Type} {TS : TagStore St}.

Fixpoint look_up_loop {A} (f : string -> comp St refusal A) (found : gmap string A) (hs : list string) :
    comp St refusal (gmap string A) :=
  match hs with
  | [] => mret found
  | hash :: hs => x ← f hash; look_up_loop f (<[hash := x]> found) hs
  end.
Definition look_up {A} (hs : list string) (f : string -> comp St refusal A) : comp St refusal (gmap string A) :=
  look_up_loop f ∅ hs.

Definition size_lookup (hash : string) : comp St refusal Z :=
  o ← comp_map_err (fun _ => storage_unavailable) (ts_blob_size hash);
  lift (ok_or o (UNPROCESSABLE_ENTITY, "payload " +:+ hash +:+ " is not ingested")).

Definition manifest_lookup (hash : string) : comp St refusal ManifestPolicy :=
  o ← comp_map_err (fun _ => storage_unavailable) (ts_get_manifest hash);
  b ← lift (ok_or o (UNPROCESSABLE_ENTITY, "payload " +:+ hash +:+ " manifest is not stored"));
  lift (ok_or (read_manifest b) (UNPROCESSABLE_ENTITY, "payload " +:+ hash +:+ " manifest is unreadable")).

Definition check_payloads (api : ApiState) (entries : list CreatorCatalogEntry) (attribute : string) :
    comp St refusal unit :=
  if existsb (fun e => tag_is_blocked api (payload_hash e)) entries
  then throw (FORBIDDEN, "content is blocked")
  else
    sizes ← look_up (hashes entries) size_lookup;
    match find (fun e => negb (bool_decide (sizes !! payload_hash e = Some (payload_size e)))) entries with
    | Some e => throw (UNPROCESSABLE_ENTITY, "payload " +:+ payload_hash e +:+ " size does not match")
    | None =>
        manifests ← look_up (hashes entries) manifest_lookup;
        match find (fun e => negb (match manifests !! payload_hash e with
                                   | Some p => has_attribute p attribute
                                   | None => false
                                   end)) entries with
        | Some e => throw (UNPROCESSABLE_ENTITY,
                           "entry " +:+ content_id e +:+ " policy does not include the catalog attribute")
        | None => mret tt
        end
    end.

Definition media_type (headers : HeaderMap) : option string :=
  v ← head (get_all HEADER_CONTENT_TYPE headers);
  s ← header_to_str v;
  head (split_char ";" s).

Definition is_json (headers : HeaderMap) : bool :=
  match media_type headers with
  | Some m => eq_ignore_ascii_case (trim m) "application/json"
  | None => false
  end.

(** [t.strip_prefix("W/").unwrap_or(t)] *)
Definition strong_form (t : string) : string := default t (strip_prefix "W/" t).

Definition if_none_match (headers : HeaderMap) (etag : string) : bool :=
  existsb (fun t => bool_decide (t = "*") || bool_decide (strong_form t = etag))
    (trim <$> mbind (split_char ",") (omap header_to_str (get_all "if-none-match" headers))).

Definition catalog_not_found : refusal := (NOT_FOUND, "catalog not found").

Definition route_catalog_document (api : ApiState) (hash : string) (headers : HeaderMap) :
    comp St refusal Response :=
  if negb (is_lower_hex_hash hash) then throw (BAD_REQUEST, "invalid hash")
  else if tag_is_blocked api hash then throw catalog_not_found
  else
    let etag := dquote +:+ hash +:+ dquote in
    let cache_headers := [("etag", etag); ("cache-control", CATALOG_DOCUMENT_CACHE_CONTROL)] in
    if if_none_match headers etag then
      o ← comp_map_err (fun _ => storage_unavailable) (ts_head_catalog_document hash);
      h ← lift (ok_or o catalog_not_found);
      if owner_hidden api (dh_owner h) then throw catalog_not_found
      else mret {| rs_status := NOT_MODIFIED; rs_headers := cache_headers; rs_body := "" |}
    else
      o ← comp_map_err (fun _ => storage_unavailable) (ts_get_catalog_document hash);
      doc ← lift (ok_or o catalog_not_found);
      if owner_hidden api (sd_owner doc) then throw catalog_not_found
      else mret {| rs_status := HTTP_OK; rs_headers := cache_headers ++ [(HEADER_CONTENT_TYPE, "application/zip")];
                   rs_body := sd_body doc |}.

Definition route_blob (api : ApiState) (hash : string) : comp St refusal json :=
  if negb (is_lower_hex_hash hash) then throw (BAD_REQUEST, "invalid hash")
  else if tag_is_blocked api hash then throw (NOT_FOUND, "blob not found")
  else
    o ← comp_map_err (fun _ => storage_unavailable) (ts_blob_size hash);
    size ← lift (ok_or o (NOT_FOUND, "blob not found"));
    mret (JObject [("hash", JString hash); ("size", JInt size)]).
End Catalogs.

(** ** Facts: lookups on the bucket *)

Section BucketFacts.
Context {SJ : Serde} {B64 : Base64} {OT : OpenTdf} {HC : HttpCrate} {S3 : S3Service} (prefix : string).
#[local] Instance bucket_tags : TagStore Bucket := s3_tag_store prefix.

(** [reads m f v]: on the objects [m], [f h] only reads, a success is [v h],
    and on a service without faults [f h] is [v h]. *)
Definition reads {A} (m : gmap string object) (f : string -> comp Bucket refusal A) (v : string -> option A) : Prop :=
  forall h b, objects b = m ->
  exists r b', f h b = (r, b') /\ objects b' = m
    /\ (forall x, r = Ok x -> v h = Some x)
    /\ ((forall log o, s3_fault log o = Healthy) -> forall x, v h = Some x -> r = Ok x).

Lemma read_object_reads o key b :
  exists r b', read_object o key b = (r, b') /\ objects b' = objects b
    /\ (forall x, r = Ok x -> objects b !! key = Some x)
    /\ (r = Err NoSuchKey -> objects b !! key = None)
    /\ ((forall log o, s3_fault log o = Healthy) -> forall x, objects b !! key = Some x -> r = Ok x).
Proof.
  destruct (read_object o key b) as [r b'] eqn:E. exists r, b'. split; [done|].
  pose proof E as [Ho Hx]%read_object_objects. split_and!; [done..| |].
  - intros ->. by eapply read_object_absent.
  - intros Hh x Hl. unfold read_object, begin_op, get, throw, lift, mbind, comp_bind in E.
    rewrite Hh in E. cbn [log_op objects] in E. rewrite Hl in E. by injection E as <- _.
Qed.

Lemma or_absent_reads what o key b :
  exists r b', or_absent what (read_object o key) b = (r, b') /\ objects b' = objects b
    /\ (forall x, r = Ok x -> objects b !! key = x)
    /\ ((forall log o, s3_fault log o = Healthy) -> forall x, objects b !! key = Some x -> r = Ok (Some x)).
Proof.
  destruct (read_object_reads o key b) as (r & b' & E & Ho & Hx & Hn & Hh). unfold or_absent. rewrite E.
  destruct r as [x|[| |]].
  - exists (Ok (Some x)), b'. split_and!; [done..| |].
    + intros y [= <-]. by apply Hx.
    + intros H y Hy. by injection (Hh H y Hy) as ->.
  - exists (Ok None), b'. split_and!; [done..| |].
    + intros y [= <-]. by apply Hn.
    + intros H y Hy. by specialize (Hh H y Hy).
  - exists (Err what), b'. split_and!; [done..| |]; [done|]. intros H y Hy. by specialize (Hh H y Hy).
  - exists (Err what), b'. split_and!; [done..| |]; [done|]. intros H y Hy. by specialize (Hh H y Hy).
Qed.

Definition stored_size (m : gmap string object) (hash : string) : option Z :=
  (fun o => len (obj_body o)) <$> m !! blob_key prefix hash.
Definition stored_policy (m : gmap string object) (hash : string) : option ManifestPolicy :=
  o ← m !! manifest_key prefix hash; read_manifest (obj_body o).

Lemma size_lookup_reads m : reads m size_lookup (stored_size m).
Proof.
  intros h b Hb. unfold size_lookup, ts_blob_size, bucket_tags, s3_tag_store, blob_size, object_size, head_object.
  destruct (or_absent_reads "Failed to HEAD blob in S3" (OpHead (blob_key prefix h)) (blob_key prefix h) b)
    as (r & b' & E & Ho & Hx & Hh).
  unfold comp_map_err, lift, mbind, comp_bind, mret, comp_ret. cbn [s3_tag_store] in *.
  change ("Failed to HEAD " +:+ "blob" +:+ " in S3") with "Failed to HEAD blob in S3". rewrite E. subst m.
  destruct r as [[x|]|e]; cbn; eexists _, _; (split; [reflexivity|]); split_and!; try done; unfold stored_size.
  - intros y [= <-]. by rewrite (Hx _ eq_refl).
  - intros _ y Hy. rewrite (Hx _ eq_refl) in Hy. injection Hy as <-. done.
  - intros H y Hy. by rewrite (Hx _ eq_refl) in Hy.
  - intros H y Hy. destruct (objects b !! blob_key prefix h) eqn:Eo; [|done]. by specialize (Hh H _ eq_refl).
Qed.

Lemma manifest_lookup_reads m : reads m manifest_lookup (stored_policy m).
Proof.
  intros h b Hb. unfold manifest_lookup, ts_get_manifest, bucket_tags, s3_tag_store, get_manifest, get_object.
  destruct (or_absent_reads "Failed to GET manifest from S3" (OpGet (manifest_key prefix h))
    (manifest_key prefix h) b) as (r & b' & E & Ho & Hx & Hh).
  unfold comp_map_err, lift, mbind, comp_bind, mret, comp_ret. rewrite E. subst m.
  destruct r as [[x|]|e]; cbn; eexists _, _; (split; [reflexivity|]); split_and!; try done; unfold stored_policy.
  - intros y Hy. rewrite (Hx _ eq_refl). cbn. by apply ok_or_ok in Hy.
  - intros _ y Hy. rewrite (Hx _ eq_refl) in Hy. cbn in Hy. by rewrite Hy.
  - intros H y Hy. by rewrite (Hx _ eq_refl) in Hy.
  - intros H y Hy. destruct (objects b !! manifest_key prefix h) eqn:Eo; [|done]. by specialize (Hh H _ eq_refl).
Qed.

Lemma look_up_loop_reads {A} m f (v : string -> option A) hs found b :
  reads m f v -> objects b = m ->
  exists r b', look_up_loop f found hs b = (r, b') /\ objects b' = m
    /\ (forall res, r = Ok res -> (forall h, h ∈ hs -> res !! h = v h /\ is_Some (v h))
          /\ forall h, h ∉ hs -> res !! h = found !! h)
    /\ ((forall log o, s3_fault log o = Healthy) -> Forall (fun h => is_Some (v h)) hs -> exists res, r = Ok res).
Proof.
  intros Hf. revert found b; induction hs as [|h hs IH]; intros found b Hb; cbn [look_up_loop].
  { eexists _, b. split_and!; [done..| |by eexists]. intros res [= <-]. split; [by intros h ?%elem_of_nil|done]. }
  destruct (Hf h b Hb) as (r & b1 & E & Ho & Hx & Hh). unfold mbind, comp_bind. rewrite E.
  destruct r as [x|e].
  2: { eexists _, b1. split_and!; [done..|]. intros H [[x Hx1] _]%Forall_cons. by specialize (Hh H x Hx1). }
  destruct (IH (<[h := x]> found) b1 Ho) as (r2 & b2 & E2 & Ho2 & Hres & Hok). exists r2, b2.
  split_and!; [done..| |].
  - intros res ->. destruct (Hres res eq_refl) as [Hin Hout]. specialize (Hx x eq_refl).
    assert (forall h', h' ∈ h :: hs -> res !! h' = v h' /\ is_Some (v h')) as Hall.
    { intros h' Hh'. destruct (decide (h' ∈ hs)) as [|Hn]; [by apply Hin|].
      apply elem_of_cons in Hh' as [->|]; [|done]. rewrite (Hout _ Hn), lookup_insert_eq. by rewrite Hx. }
    split; [done|]. intros h' [Hne Hn]%not_elem_of_cons. rewrite (Hout _ Hn). by rewrite lookup_insert_ne.
  - intros H [_ Hall]%Forall_cons. by apply Hok.
Qed.

Lemma hashes_loop_elem seen entries h :
  h ∈ hashes_loop seen entries <-> (h ∉ seen) /\ h ∈ (payload_hash <$> entries).
Proof.
  revert seen; induction entries as [|e entries IH]; intros seen; cbn; [set_solver|].
  case_bool_decide as Hs; rewrite ?elem_of_cons, IH; [set_solver|].
  destruct (decide (h = payload_hash e)); set_solver.
Qed.

Lemma hashes_elem entries h : h ∈ hashes entries <-> h ∈ (payload_hash <$> entries).
Proof. unfold hashes. rewrite hashes_loop_elem. set_solver. Qed.

Lemma find_none_Forall {A} (p : A -> bool) l : find (fun x => negb (p x)) l = None <-> Forall (fun x => p x = true) l.
Proof.
  induction l as [|x l IH]; cbn; [by split; constructor|]. rewrite Forall_cons, <- IH.
  destruct (p x); cbn; naive_solver.
Qed.

(** A recording a catalog may list: not blocked, ingested at the size the
    entry says, and with a stored manifest whose policy names the attribute. *)
Definition listable (api : ApiState) (attribute : string) (m : gmap string object) (e : CreatorCatalogEntry) : Prop :=
  tag_is_blocked api (payload_hash e) = false
  /\ stored_size m (payload_hash e) = Some (payload_size e)
  /\ exists p, stored_policy m (payload_hash e) = Some p /\ has_attribute p attribute = true.

Lemma existsb_false_Forall {A} (p : A -> bool) l : existsb p l = false <-> Forall (fun x => p x = false) l.
Proof.
  induction l as [|x l IH]; cbn; [by split; constructor|]. rewrite Forall_cons, <- IH, orb_false_iff. done.
Qed.

Lemma check_payloads_reads api entries attribute b :
  exists r b', check_payloads api entries attribute b = (r, b') /\ objects b' = objects b
    /\ (r = Ok tt -> Forall (listable api attribute (objects b)) entries)
    /\ ((forall log o, s3_fault log o = Healthy) -> Forall (listable api attribute (objects b)) entries -> r = Ok tt).
Proof.
  unfold check_payloads, look_up. destruct (existsb _ entries) eqn:Hb.
  { eexists _, b. split_and!; [done..|]. intros _ Hl. exfalso. apply not_false_iff_true in Hb. apply Hb.
    apply existsb_false_Forall. eapply Forall_impl; [exact Hl|]. by intros e (? & _). }
  apply existsb_false_Forall in Hb. unfold mbind, comp_bind.
  destruct (look_up_loop_reads (objects b) _ _ (hashes entries) ∅ b (size_lookup_reads _) eq_refl)
    as (r1 & b1 & E1 & Ho1 & Hs & Hok1). rewrite E1. destruct r1 as [sizes|e].
  2: { eexists _, b1. split_and!; [done..|]. intros H Hl. exfalso. destruct (Hok1 H) as [res Hres]; [|done].
       apply Forall_forall. intros h (e' & -> & He)%hashes_elem%list_elem_of_fmap.
       rewrite Forall_forall in Hl. destruct (Hl e' He) as (_ & Hsz & _). by eexists. }
  destruct (Hs sizes eq_refl) as [Hsizes _].
  assert (forall e, e ∈ entries -> sizes !! payload_hash e = stored_size (objects b) (payload_hash e)) as Hsz.
  { intros e He. apply Hsizes, hashes_elem, list_elem_of_fmap. by exists e. }
  destruct (find _ entries) as [e|] eqn:Hf1.
  { eexists _, b1. split_and!; [done..|]. intros _ Hl. exfalso. apply find_some in Hf1 as [He%list_elem_of_In Hf1].
    rewrite Forall_forall in Hl. destruct (Hl e He) as (_ & Hsize & _). rewrite (Hsz e He), Hsize in Hf1.
    by rewrite bool_decide_true in Hf1. }
  apply find_none_Forall in Hf1.
  destruct (look_up_loop_reads (objects b) _ _ (hashes entries) ∅ b1 (manifest_lookup_reads _) Ho1)
    as (r2 & b2 & E2 & Ho2 & Hm & Hok2). rewrite E2. destruct r2 as [manifests|e].
  2: { eexists _, b2. split_and!; [done..|]. intros H Hl. exfalso. destruct (Hok2 H) as [res Hres]; [|done].
       apply Forall_forall. intros h (e' & -> & He)%hashes_elem%list_elem_of_fmap.
       rewrite Forall_forall in Hl. destruct (Hl e' He) as (_ & _ & p & Hp & _). by eexists. }
  destruct (Hm manifests eq_refl) as [Hmanifests _].
  assert (forall e, e ∈ entries -> manifests !! payload_hash e = stored_policy (objects b) (payload_hash e)) as Hpol.
  { intros e He. apply Hmanifests, hashes_elem, list_elem_of_fmap. by exists e. }
  destruct (find _ entries) as [e|] eqn:Hf2.
  - eexists _, b2. split_and!; [done..|]. intros _ Hl. exfalso. apply find_some in Hf2 as [He%list_elem_of_In Hf2].
    rewrite Forall_forall in Hl. destruct (Hl e He) as (_ & _ & p & Hp & Ha). rewrite (Hpol e He), Hp in Hf2.
    by rewrite Ha in Hf2.
  - eexists _, b2. split_and!; [done..| |done]. intros _. apply find_none_Forall in Hf2.
    rewrite Forall_forall in *. intros e He. split; [by apply Hb|]. split.
    + rewrite <- (Hsz e He). specialize (Hf1 e He). by apply bool_decide_eq_true in Hf1.
    + specialize (Hf2 e He). rewrite (Hpol e He) in Hf2. destruct (stored_policy _ _) as [p|]; [|done]. by exists p.
Qed.

(** ** Theorems *)

(** A catalog lists only recordings its viewers may have: the check passes
    only when every entry is unblocked, stored at exactly the size the entry
    gives, and stored with a readable manifest whose policy names the
    catalog's attribute; it never writes; and on a store without faults it
    passes for every such list. *)
Theorem check_payloads_exact api entries attribute b :
  (forall r b', check_payloads api entries attribute b = (r, b') ->
     objects b' = objects b /\ (r = Ok tt -> Forall (listable api attribute (objects b)) entries))
  /\ ((forall log o, s3_fault log o = Healthy) -> Forall (listable api attribute (objects b)) entries ->
      exists b', check_payloads api entries attribute b = (Ok tt, b')).
Proof.
  destruct (check_payloads_reads api entries attribute b) as (r & b' & E & Ho & Hs & Hh). split.
  - intros r1 b1 E1. rewrite E in E1. injection E1 as <- <-. done.
  - intros H Hl. exists b'. by rewrite E, (Hh H Hl).
Qed.

(** The public read of a catalog document serves only a stored document
    whose hash is not blocked and whose recorded owner is not hidden, also
    when the client only revalidates; it returns exactly the stored bytes, or
    304 without a body when the client named this version. *)
Theorem documents_moderated api hash headers b resp b' :
  route_catalog_document api hash headers b = (Ok resp, b') ->
  is_lower_hex_hash hash = true /\ tag_is_blocked api hash = false /\ objects b' = objects b
  /\ exists o, objects b !! catalog_document_key prefix hash = Some o
     /\ owner_hidden api (obj_owner o) = false
     /\ (rs_status resp = 200%Z /\ rs_body resp = obj_body o
         \/ rs_status resp = 304%Z /\ rs_body resp = "" /\ if_none_match headers (dquote +:+ hash +:+ dquote) = true).
Proof.
  unfold route_catalog_document. intros H.
  destruct (is_lower_hex_hash hash) eqn:Hh; cbn [negb] in H; [|by apply throw_ok in H].
  destruct (tag_is_blocked api hash) eqn:Hb; [by apply throw_ok in H|].
  destruct (if_none_match headers _) eqn:Hi; inv_run.
  - destruct (owner_hidden api _) eqn:Hw; inv_run. cbn in *. inv_run.
    match goal with H : head_catalog_document _ _ _ = _ |- _ => unfold head_catalog_document in H end. inv_run.
    destruct (or_absent_reads "Failed to HEAD catalog document in S3" (OpHead (catalog_document_key prefix hash))
      (catalog_document_key prefix hash) b) as (r1 & b1 & E & Ho & Hx & _).
    unfold head_object in *. match goal with H : or_absent _ _ _ = (Ok ?x, _) |- _ =>
      rewrite E in H; injection H as -> ->; specialize (Hx x eq_refl); destruct x as [o|] end; simplify_eq/=.
    split_and!; try done. exists o. split_and!; try done. by right.
  - destruct (owner_hidden api _) eqn:Hw; inv_run. cbn in *. inv_run.
    match goal with H : get_catalog_document _ _ _ = _ |- _ => unfold get_catalog_document in H end. inv_run.
    destruct (or_absent_reads "Failed to GET catalog document from S3" (OpGet (catalog_document_key prefix hash))
      (catalog_document_key prefix hash) b) as (r1 & b1 & E & Ho & Hx & _).
    unfold get_object in *. match goal with H : or_absent _ _ _ = (Ok ?x, _) |- _ =>
      rewrite E in H; injection H as -> ->; specialize (Hx x eq_refl); destruct x as [o|] end; simplify_eq/=.
    split_and!; try done. exists o. split_and!; try done. by left.
Qed.
End BucketFacts.

(** ** Witness *)

Module CatalogsSample.
#[local] Instance header_plain : HttpCrate := {| header_to_str := Some |}.
#[local] Instance s3 : S3Service := {| s3_fault := fun _ _ => Healthy; etag_of := id; page_size := 2 |}.
#[local] Instance tags : TagStore Bucket := s3_tag_store "".

Definition hash : string := repeat_char 64 "a".
Definition bucket : Bucket :=
  {| objects := {[ catalog_document_key "" hash := written "zip" (Some "alice") ]}; s3_log := [] |}.
Definition ungated : ApiState := {| st_verifier := AuthSample.verifier; st_publishing := None |}.

Lemma documents_moderated_witness :
  exists resp b', route_catalog_document ungated hash [] bucket = (Ok resp, b') /\ is_lower_hex_hash hash = true.
Proof.
  succeeds (route_catalog_document ungated hash [] bucket) resp b' E.
  destruct (documents_moderated "" ungated hash [] bucket resp b' E) as (Hh & _).
  exists resp, b'. split; [reflexivity|exact Hh].
Defined.
End CatalogsSample.
