(* ===== verification/CatalogsV2Api.v ===== *)
(** * Publishing and resolving a catalog (src/catalogs_v2_api.rs)

    [PUT /v2/catalogs/{sub}] stores a signed catalog: the document, its
    outboard and its index, and then the pointer, conditionally on the pointer
    read before. [GET /v2/catalogs/{sub}] serves the stored pointer to a reader
    the decision service permits. *)

From S2P Require Import Prelude Bytes Identifiers Json Extern Samples S3Store Auth Authz EntityChain PublishDecision Moderation PublishGate ModerationApi CatalogMetadata CreatorCatalog CatalogV2 Validation Ingest CatalogsApi.

Definition CATALOG_POINTER_CACHE_CONTROL : string := "private, max-age=300".
Definition MAX_PUT_BYTES : Z := 10 * 1024 * 1024.
Definition ATTRIBUTE_CACHE_CAPACITY : Z := 100000.

(** ** The credential status *)

Inductive StatusRefusal := SRefused (why : string) | SUnavailable.

(** [IdpCredentialStatus] and [NoCredentialStatus]. *)
Inductive CredentialStatus := IdpCredentialStatus (url_template : string) | NoCredentialStatus.

(** [s.replace(pat, by)]: [skip] bytes of a match are still to be dropped. *)
Fixpoint replace_from (pat by_ : string) (skip : nat) (s : string) : string :=
  match s with
  | "" => ""
  | String c rest =>
      match skip with
      | S skip => replace_from pat by_ skip rest
      | O => if starts_with pat s then by_ +:+ replace_from pat by_ (String.length pat - 1) rest
             else String c (replace_from pat by_ 0 rest)
      end
  end.
Definition replace (pat by_ s : string) : string := replace_from pat by_ 0 s.

Definition de_status (j : json) : result serde_error (string * bool) :=
  l ← struct_fields ["sub"; "revoked"] false j;
  s ← field de_string "sub" l;
  r ← field de_bool "revoked" l;
  Ok (s, r).

Section Status.
Context {SJ : Serde} {B64 : Base64} (status_get : string -> http_answer).

Definition check_status (service : CredentialStatus) (credential_id : bytes) (sub : string) :
    result StatusRefusal unit :=
  match service with
  | NoCredentialStatus => Ok tt
  | IdpCredentialStatus url_template =>
      match status_get (replace "{credentialId}" (b64url_encode credential_id) url_template) with
      | NoAnswer _ => Err SUnavailable
      | Answer status body =>
          if (status =? 200)%Z then
            '(owner, revoked) ← map_err (fun _ => SUnavailable)
              (b ← map_err Syntax body; j ← serde_parse b; de_status j);
            if (revoked : bool) then Err (SRefused "passkey credential revoked")
            else if negb (bool_decide (owner = sub))
            then Err (SRefused "passkey credential belongs to another subject")
            else Ok tt
          else if (status =? 404)%Z then Err (SRefused "passkey credential unknown")
          else Err SUnavailable
      end
  end.
End Status.

(** ** State *)

Record Readers := { rd_provider : bool; rd_action : string; rd_environment : option json }.

Record IndexRecord := { ix_owner : string; ix_attribute : string; ix_entries : json }.

Definition ser_index_record (r : IndexRecord) : json :=
  JObject [("owner", JString (ix_owner r)); ("attribute", JString (ix_attribute r)); ("entries", ix_entries r)].

Definition de_index_record (j : json) : result serde_error IndexRecord :=
  l ← struct_fields ["owner"; "attribute"; "entries"] false j;
  o ← field de_string "owner" l;
  a ← field de_string "attribute" l;
  e ← field de_value "entries" l;
  Ok {| ix_owner := o; ix_attribute := a; ix_entries := e |}.

(** What the handlers change: the key cache, the store, the decision
    provider's state, and the attributes read from index records. *)
Record V2 {EC : P256} {St Sp : Type} := {
  v_keys : KeyCache;
  v_store : St;
  v_provider : Sp;
  v_attributes : gmap string string
}.
Arguments V2 {EC} St Sp.

(** Their configuration. *)
Record V2State := {
  v_api : ApiState;
  v_passkeys : Passkeys;
  v_status : CredentialStatus;
  v_readers : Readers
}.

Record PutRequest := { rq_document : string; rq_bundle : Bundle; rq_index : json }.

Definition de_put_request (j : json) : result serde_error PutRequest :=
  l ← struct_fields ["document"; "bundle"; "index"] true j;
  d ← field de_string "document" l;
  b ← field de_bundle "bundle" l;
  i ← field de_value "index" l;
  Ok {| rq_document := d; rq_bundle := b; rq_index := i |}.

(** A request body: its bytes, or a stream that breaks off. *)
Inductive http_body := Whole (b : bytes) | Broken.

(** A publish whose checks passed. *)
Record Publish := {
  pb_document : bytes;
  pb_hash : string;
  pb_attribute : string;
  pb_index : json;
  pb_entries : list CreatorCatalogEntry;
  pb_bundle : Bundle;
  pb_pointer : Pointer
}.

(** ** Pure parts *)

Section Pure.
Context {SJ : Serde} {B64 : Base64} {HC : HttpCrate} {TC : TdfCrate} {ZC : ZipCrate}.

Definition stored_seq (body : bytes) : result string (Z * string) :=
  bundle ← map_err serde_display (j ← serde_parse body; de_bundle "" j);
  b ← ok_or (b64url_decode (bd_pointer bundle)) "invalid base64";
  pointer ← parse_pointer b;
  Ok (pt_seq pointer, pt_catalog_hash pointer).

Definition pointer_etag (seq : Z) : string := dquote +:+ pretty seq +:+ dquote.

(** The lines of a header as tags: [None] when one is not visible ASCII. *)
Fixpoint tag_lines (values : list bytes) : option (list string) :=
  match values with
  | [] => Some []
  | v :: values =>
      s ← header_to_str v;
      rest ← tag_lines values;
      Some ((trim <$> split_char "," s) ++ rest)
  end.

(** [None] without the header. *)
Definition entity_tags (headers : HeaderMap) (name : string) : option (option (list string)) :=
  match get_all name headers with
  | [] => None
  | values => Some (tag_lines values)
  end.

Definition if_match_holds (headers : HeaderMap) (served : option string) : bool :=
  match entity_tags headers "if-match" with
  | None => true
  | Some None => false
  | Some (Some tags) =>
      match served with
      | Some etag => existsb (fun t => bool_decide (t = "*") || bool_decide (t = etag)) tags
      | None => false
      end
  end.

Definition if_none_match_holds (headers : HeaderMap) (served : option string) : bool :=
  match entity_tags headers "if-none-match" with
  | None => true
  | Some None => false
  | Some (Some tags) =>
      match served with
      | Some etag =>
          negb (existsb (fun t => bool_decide (t = "*") || bool_decide (strong_form t = etag)) tags)
      | None => true
      end
  end.

Definition preconditions_hold (headers : HeaderMap) (served : option string) : bool :=
  if negb (if_match_holds headers served) then false else if_none_match_holds headers served.

Definition invalid_request (e : serde_error) : refusal := (BAD_REQUEST, "invalid request: " +:+ serde_display e).

(** [to_bytes], the duplicate-key pass and the typed parse. *)
Definition read_request (body : http_body) : result refusal PutRequest :=
  b ← match body with
      | Broken => Err (BAD_REQUEST, "unreadable request body")
      | Whole b => if (MAX_PUT_BYTES <? len b)%Z then Err (PAYLOAD_TOO_LARGE, "request too large") else Ok b
      end;
  j ← map_err invalid_request (serde_parse b);
  if negb (no_duplicate_keys j) then Err (invalid_request (Custom "duplicate key"))
  else map_err invalid_request (de_put_request j).

Definition decode_document (document : string) : result refusal bytes :=
  ok_or (d ← b64url_decode document;
         if negb (is_empty d) && (len d <=? MAX_CATALOG_BYTES)%Z then Some d else None)
    (UNPROCESSABLE_ENTITY,
     "invalid request: document must be 1-4194304 bytes of unpadded base64url").

Definition envelope_refusal (why : EnvelopeRefusal) : string :=
  match why with
  | NotCatalog => "document is not a catalog"
  | NoPolicyId => "catalog policy has no uuid"
  | Policy => "catalog policy must be one campaign or the creator attribute"
  end.

Definition envelope_attribute (document : bytes) (sub : string) : result string string :=
  let not_tdf := "document is not a TDF" in
  manifest ← map_err (fun _ => not_tdf) (validate_tdf_structure document);
  json ← ok_or (manifest_to_json manifest) not_tdf;
  policy ← ok_or (read_manifest json) not_tdf;
  map_err envelope_refusal (check_envelope policy sub).

Definition owns_campaign (claims : VerifiedClaims) (id : string) : bool :=
  match arkavo_patreon claims with
  | Some p => bool_decide (get_str "role" p = Some "creator") && bool_decide (get_str "campaign_id" p = Some id)
  | None => false
  end.

Definition is_operator (api : ApiState) (claims : VerifiedClaims) : bool :=
  match st_publishing api with
  | None => false
  | Some publishing =>
      match strip_prefix "client:" (sub claims) with
      | Some client =>
          negb (is_empty client)
          && bool_decide (client ∈ pp_operator_client_ids (tp_policy publishing))
          && aud_contains (aud claims) client
          && match arkavo_roles claims with
             | Some r => existsb (fun x => bool_decide (x = "service-account")) r
             | None => false
             end
      | None => false
      end
  end.
End Pure.

(** ** Handlers *)

Section Handlers.
Context {SJ : Serde} {B64 : Base64} {HX : Hex} {B3 : Blake3} {SH : Sha2} {CB : Ciborium} {CO : Coset} {EC : P256}.
Context {HC : HttpCrate} {OT : OpenTdf} {TC : TdfCrate} {ZC : ZipCrate} {BC : BaoCrate}.
Context {St Sp : Type} {TS : TagStore St} {P : DecisionProvider Sp}.
Context (http_get status_get : string -> http_answer) (state : V2State).

Abbreviation v2 := (V2 St Sp).

Definition set_v_keys (k : KeyCache) (s : v2) : v2 :=
  {| v_keys := k; v_store := v_store s; v_provider := v_provider s; v_attributes := v_attributes s |}.
Definition set_v_policy (p : PolicyState) (s : v2) : v2 :=
  {| v_keys := p.1; v_store := v_store s; v_provider := p.2; v_attributes := v_attributes s |}.
Definition set_v_store (st : St) (s : v2) : v2 :=
  {| v_keys := v_keys s; v_store := st; v_provider := v_provider s; v_attributes := v_attributes s |}.
Definition set_v_provider (p : Sp) (s : v2) : v2 :=
  {| v_keys := v_keys s; v_store := v_store s; v_provider := p; v_attributes := v_attributes s |}.
Definition set_v_attributes (a : gmap string string) (s : v2) : v2 :=
  {| v_keys := v_keys s; v_store := v_store s; v_provider := v_provider s; v_attributes := a |}.

Definition v_on_store {A} (m : comp St refusal A) : comp v2 refusal A := zoom v_store set_v_store m.
Definition v_on_keys {A} (m : comp KeyCache refusal A) : comp v2 refusal A := zoom v_keys set_v_keys m.

Definition bundle_refusal (e : BundleError) : refusal :=
  match e with
  | Invalid why => (UNPROCESSABLE_ENTITY, "invalid bundle: " +:+ why)
  | BKeySet _ => (BAD_GATEWAY, "key set unavailable")
  end.

Definition status_refusal (r : StatusRefusal) : refusal :=
  match r with
  | SRefused why => (FORBIDDEN, why)
  | SUnavailable => (BAD_GATEWAY, "credential status unavailable")
  end.

(** Steps 1 to 6: everything that is checked before the store is consulted
    for the pointer. *)
Definition prepare_publish (sub_ : string) (headers : HeaderMap) (body : http_body) (t : Clocks) :
    comp v2 refusal Publish :=
  let api := v_api state in
  claims ← zoom (fun s => (v_keys s, v_provider s)) set_v_policy (authorize_publisher http_get api headers t);
  if negb (bool_decide (sub_ = sub claims)) then throw (FORBIDDEN, "catalog does not match token subject")
  else if negb (is_json headers) then throw (UNSUPPORTED_MEDIA_TYPE, "content type must be application/json")
  else
    req ← lift (read_request body);
    document ← lift (decode_document (rq_document req));
    verified ← v_on_keys (comp_map_err bundle_refusal
                 (verify_bundle http_get (rq_bundle req) sub_ (st_verifier api) (v_passkeys state)
                    (now_secs t 2) (inst t 9)));
    let pointer := vb_pointer verified in
    let hash := hex_encode (blake3_hash document) in
    if negb (bool_decide (hash = pt_catalog_hash pointer)) || negb (len document =? pt_catalog_size pointer)%Z
    then throw (UNPROCESSABLE_ENTITY, "invalid bundle: catalogHash or catalogSize does not match the document")
    else
      attribute ← lift (map_err (fun why => (UNPROCESSABLE_ENTITY, why)) (envelope_attribute document sub_));
      if match strip_prefix CAMPAIGN_FQN_PREFIX attribute with
         | Some id => negb (owns_campaign claims id)
         | None => false
         end
      then throw (FORBIDDEN, "catalog campaign is not the publisher's")
      else
        entries ← lift (map_err (fun why => (UNPROCESSABLE_ENTITY, "invalid index: " +:+ why))
                          (parse_index (rq_index req)));
        if tag_is_blocked api hash then throw (FORBIDDEN, "content is blocked")
        else
          _ ← v_on_store (check_payloads api entries attribute);
          _ ← lift (map_err status_refusal
                (check_status status_get (v_status state) (vb_credential_id verified) sub_));
          mret {| pb_document := document; pb_hash := hash; pb_attribute := attribute;
                  pb_index := rq_index req; pb_entries := entries; pb_bundle := rq_bundle req;
                  pb_pointer := pointer |}.

(** Step 7, the reads: the stored pointer with its sequence number and
    catalog, and whether that catalog has an index record. *)
Definition read_current (sub_ : string) : comp St refusal (option (StoredPointer * (Z * string)) * bool) :=
  stored ← comp_map_err (fun _ => storage_unavailable) (ts_get_catalog_pointer sub_);
  current ← lift (match stored with
                  | None => Ok None
                  | Some p => map_err (fun _ => storage_unavailable)
                                (parsed ← stored_seq (sp_body p); Ok (Some (p, parsed)))
                  end);
  live ← match current with
         | Some (_, (_, hash)) =>
             o ← comp_map_err (fun _ => storage_unavailable) (ts_get_catalog_index hash);
             mret (bool_decide (is_Some o))
         | None => mret false
         end;
  mret (current, live).

(** Step 7, the conditions. *)
Definition check_base (headers : HeaderMap) (seq : Z) (current : option (StoredPointer * (Z * string)))
    (live : bool) : result refusal unit :=
  let current_seq := '(_, (n, _)) ← current; if live then Some n else None in
  let served_seq := '(_, (n, hash)) ← current;
    if live && negb (tag_is_blocked (v_api state) hash) then Some n else None in
  if negb (preconditions_hold headers (pointer_etag <$> served_seq))
  then Err (PRECONDITION_FAILED, "catalog changed since it was read")
  else
    match current_seq with
    | Some n => if (seq <=? n)%Z then Err (CONFLICT, "seq must be greater than " +:+ pretty n) else Ok tt
    | None => Ok tt
    end.

(** Step 8: the document, its outboard and its index, then the pointer. *)
Definition store_publish (sub_ : string) (p : Publish) (outboard : bytes) (expected : option string) :
    comp St refusal unit :=
  let fault {A} : comp St string A -> comp St refusal A := comp_map_err (fun _ => storage_unavailable) in
  _ ← fault (ts_put_catalog_document (pb_hash p) (pb_document p) sub_);
  _ ← fault (ts_put_catalog_outboard (pb_hash p) outboard);
  _ ← fault (ts_put_catalog_index (pb_hash p)
        (serde_print (ser_index_record {| ix_owner := sub_; ix_attribute := pb_attribute p;
                                          ix_entries := pb_index p |})));
  written ← fault (ts_put_catalog_pointer sub_ (serde_print (ser_bundle (pb_bundle p))) expected);
  if negb written
  then throw (CONFLICT, "seq must be greater than the stored seq: another publish won")
  else mret tt.

Definition put_catalog (sub_ : string) (headers : HeaderMap) (body : http_body) (t : Clocks) :
    comp v2 refusal json :=
  p ← prepare_publish sub_ headers body t;
  '(current, live) ← v_on_store (read_current sub_);
  _ ← lift (check_base headers (pt_seq (pb_pointer p)) current live);
  let expected := (fun c => sp_etag c.1) <$> current in
  outboard ← lift (map_err (fun _ => storage_unavailable)
               (compute_outboard (pb_document p) (len (pb_document p)) (blake3_hash (pb_document p))));
  _ ← v_on_store (store_publish sub_ p outboard expected);
  mret (JObject [("owner", JString sub_); ("seq", JInt (pt_seq (pb_pointer p)));
                 ("hash", JString (pb_hash p)); ("size", JInt (len (pb_document p)))]).

(** ** Reading *)

Definition catalog_attribute (hash : string) : comp v2 refusal (option string) :=
  s ← get;
  match v_attributes s !! hash with
  | Some attribute => mret (Some attribute)
  | None =>
      o ← v_on_store (comp_map_err (fun _ => storage_unavailable) (ts_get_catalog_index hash));
      match o with
      | None => mret None
      | Some body =>
          record ← lift (map_err (fun _ => storage_unavailable) (j ← serde_parse body; de_index_record j));
          _ ← modify (fun s =>
                let known := if (ATTRIBUTE_CACHE_CAPACITY <=? Z.of_nat (size (v_attributes s)))%Z
                             then ∅ else v_attributes s in
                set_v_attributes (<[hash := ix_attribute record]> known) s);
          mret (Some (ix_attribute record))
      end
  end.

Definition decision_unavailable : refusal := (BAD_GATEWAY, "decision unavailable").

Definition reader_request (chain : list ChainEntity) (hash attribute : string) : DecisionRequest :=
  {| dr_chain := chain; dr_action := rd_action (v_readers state); dr_resource_type := CatalogItem;
     dr_resources := [(hash, [attribute])] |}.

Definition decide_reader (claims : VerifiedClaims) (headers : HeaderMap) (hash attribute : string) (t : Clocks) :
    comp v2 refusal unit :=
  if negb (rd_provider (v_readers state)) then throw decision_unavailable
  else
    let token := default "" (bearer headers) in
    chain ← v_on_keys (person_chain http_get (st_verifier (v_api state)) claims token headers
              (rd_environment (v_readers state)) (now_secs t 1) (fun i => inst t (S i)));
    verdicts ← attempt (zoom v_provider set_v_provider (decide_dyn (reader_request chain hash attribute)));
    match verdicts with
    | Ok verdicts =>
        if bool_decide (verdicts !! hash = Some true) then mret tt
        else throw (FORBIDDEN, "not entitled to catalog")
    | Err _ => throw decision_unavailable
    end.

Definition get_pointer (sub_ : string) (headers : HeaderMap) (t : Clocks) : comp v2 refusal Response :=
  let api := v_api state in
  claims ← v_on_keys (authorize_catalog_reader http_get (st_verifier api) headers t);
  if negb (valid_identifier sub_ MAX_OWNER_BYTES) then throw (BAD_REQUEST, "invalid subject")
  else if owner_hidden api (Some sub_) then throw catalog_not_found
  else
    o ← v_on_store (comp_map_err (fun _ => storage_unavailable) (ts_get_catalog_pointer sub_));
    stored ← lift (ok_or o catalog_not_found);
    '(seq, catalog_hash) ← lift (map_err (fun _ => storage_unavailable) (stored_seq (sp_body stored)));
    if tag_is_blocked api catalog_hash then throw catalog_not_found
    else
      a ← catalog_attribute catalog_hash;
      attribute ← lift (ok_or a catalog_not_found);
      _ ← (if negb (is_operator api claims)
           then decide_reader claims headers catalog_hash attribute t else mret tt);
      mret {| rs_status := HTTP_OK;
              rs_headers := [(HEADER_CONTENT_TYPE, "application/json");
                             ("cache-control", CATALOG_POINTER_CACHE_CONTROL);
                             ("etag", pointer_etag seq)];
              rs_body := sp_body stored |}.
End Handlers.

(** [state]: an empty status URL disables the credential check. *)
Definition v2_state (api : ApiState) (rp_id status_url : string) (readers : Readers) : V2State :=
  {| v_api := api; v_passkeys := for_rp rp_id;
     v_status := if is_empty status_url then NoCredentialStatus else IdpCredentialStatus status_url;
     v_readers := readers |}.

(** ** Facts *)

Section Facts.
Context {SJ : Serde} {B64 : Base64} {HX : Hex} {B3 : Blake3} {SH : Sha2} {CB : Ciborium} {CO : Coset} {EC : P256}.
Context {HC : HttpCrate} {OT : OpenTdf} {TC : TdfCrate} {ZC : ZipCrate} {BC : BaoCrate} {S3 : S3Service}.
Context {Sp : Type} {P : DecisionProvider Sp}.
Context (http_get status_get : string -> http_answer) (state : V2State) (prefix : string).

#[local] Instance bucket_tags : TagStore Bucket := s3_tag_store prefix.
Abbreviation api := (v_api state).

(** The publisher's token, as far as every node checks it. *)
Definition publisher_token (headers : HeaderMap) (t : Clocks) (k : KeyCache) (claims : VerifiedClaims) : Prop :=
  exists token aud_ k', bearer headers = Some token
    /\ verify_with http_get (st_verifier api) token (now_secs t 0) (inst t 0) {| expected_aud := aud_ |} k = (Ok claims, k')
    /\ match st_publishing api with
       | Some p => aud_ = pp_audience (tp_policy p) /\ starts_with "client:" (sub claims) = false
                   /\ is_suspended (tp_moderation p) (sub claims) = false
       | None => aud_ = None
       end.

Lemma authorize_publisher_ok headers t (s : PolicyState) claims s' :
  authorize_publisher http_get api headers t s = (Ok claims, s') -> publisher_token headers t s.1 claims.
Proof.
  unfold authorize_publisher, publisher_token. destruct (st_publishing api) as [p|].
  - unfold publisher. intros ([cl0 ch] & s1 & H & [-> _]%comp_ret_ok)%comp_bind_ok.
    unfold publisher_with_chain in H. inv_run.
    match goal with H : on_keys _ _ = _ |- _ => apply zoom_ok in H as (c & Hv & ->) end.
    match goal with H : context [starts_with "client:" (sub ?x)] |- _ =>
      destruct (starts_with "client:" (sub x)) eqn:Hcl; [by apply throw_ok in H|]; rename x into cl end.
    assert (cl0 = cl /\ is_suspended (tp_moderation p) (sub cl) = false) as [-> Hs].
    { destruct (is_suspended _ _) eqn:Hsus; cbn [andb] in *.
      - case_bool_decide as Hm; cbn [negb] in *; [|inv_run]. rewrite Hm in *. inv_run. unfold local_answer in *. done.
      - destruct (pd_mode _); inv_run; simplify_eq; try done.
        match goal with H : (match ?v with Permit => _ | Deny => _ | Unavailable => _ end) _ = _ |- _ =>
          destruct v; inv_run end; simplify_eq; done. }
    eexists _, _, _. split_and!; done.
  - unfold verify. intros H. inv_run.
    match goal with H : on_keys _ _ = _ |- _ => apply zoom_ok in H as (c & Hv & ->) end.
    eexists _, None, _. split_and!; done.
Qed.

(** ** Publishing a catalog *)

(** Everything a publish is checked for before the stored pointer is read:
    the token is a publisher's and names the catalog's subject; the request is
    JSON of the three members; the bundle, signed and attested for that
    subject, names exactly the document by hash and size; the document is a
    TDF envelope of that subject's catalog under the one attribute, owned by
    the publisher when it is a campaign; every recording the index lists may
    be listed; neither the document nor a recording is blocked; and the
    identity provider still vouches for the passkey. *)
Definition publishable (sub_ : string) (headers : HeaderMap) (body : http_body) (t : Clocks) (s : V2 Bucket Sp)
    (p : Publish) : Prop :=
  exists claims k sp req vb k',
    authorize_publisher http_get api headers t (v_keys s, v_provider s) = (Ok claims, (k, sp)) /\ sub claims = sub_
    /\ is_json headers = true /\ read_request body = Ok req /\ decode_document (rq_document req) = Ok (pb_document p)
    /\ pb_bundle p = rq_bundle req /\ pb_index p = rq_index req
    /\ verify_bundle http_get (pb_bundle p) sub_ (st_verifier api) (v_passkeys state) (now_secs t 2) (inst t 9) k = (Ok vb, k')
    /\ pb_pointer p = vb_pointer vb
    /\ pb_hash p = hex_encode (blake3_hash (pb_document p))
    /\ pt_catalog_hash (pb_pointer p) = pb_hash p /\ pt_catalog_size (pb_pointer p) = len (pb_document p)
    /\ envelope_attribute (pb_document p) sub_ = Ok (pb_attribute p)
    /\ (forall id, strip_prefix CAMPAIGN_FQN_PREFIX (pb_attribute p) = Some id -> owns_campaign claims id = true)
    /\ parse_index (pb_index p) = Ok (pb_entries p)
    /\ tag_is_blocked api (pb_hash p) = false
    /\ Forall (listable prefix api (pb_attribute p) (objects (v_store s))) (pb_entries p)
    /\ check_status status_get (v_status state) (vb_credential_id vb) sub_ = Ok tt.

Lemma publishable_token sub_ headers body t s p :
  publishable sub_ headers body t s p -> exists claims, publisher_token headers t (v_keys s) claims /\ sub claims = sub_.
Proof.
  intros (claims & k & sp & req & vb & k' & Ha & Hs & _). exists claims. split; [|done]. exact (authorize_publisher_ok _ _ _ _ _ Ha).
Qed.

Lemma prepare_publish_ok sub_ headers body t (s : V2 Bucket Sp) p s' :
  prepare_publish http_get status_get state sub_ headers body t s = (Ok p, s') ->
  publishable sub_ headers body t s p /\ objects (v_store s') = objects (v_store s).
Proof.
  unfold prepare_publish. intros H. inv_run.
  match goal with H : zoom _ _ _ _ = _ |- _ => apply zoom_ok in H as ([k sp] & Ha & ->) end.
  case_bool_decide as Hsub; cbn [negb] in H; [|by apply throw_ok in H].
  destruct (is_json headers) eqn:Hj; cbn [negb] in H; [|by apply throw_ok in H]. inv_run.
  match goal with H : v_on_keys _ _ = _ |- _ => apply zoom_ok in H as (c' & Hv & ->) end. inv_run.
  case_bool_decide as Hh; cbn [negb orb] in H; [|by apply throw_ok in H].
  match type of H with context [(?a =? ?b)%Z] => destruct (Z.eqb_spec a b) as [Hz|] end;
    cbn [negb] in H; [|by apply throw_ok in H]. inv_run.
  match type of H with (if ?b then _ else _) _ = _ => destruct b eqn:Hcamp end; [by apply throw_ok in H|]. inv_run.
  match type of H with (if ?b then _ else _) _ = _ => destruct b eqn:Hblk end; [by apply throw_ok in H|]. inv_run.
  match goal with H : v_on_store _ _ = _ |- _ => apply zoom_ok in H as (st & Hp & ->) end.
  match goal with u : unit |- _ => destruct u end. match goal with u : unit |- _ => destruct u end.
  cbn [v_store set_v_store set_v_keys set_v_policy] in *.
  match type of Hp with check_payloads _ ?e ?a ?b = _ =>
    destruct (check_payloads_reads prefix api e a b) as (r & b' & E & Ho & Hl & _) end.
  pose proof (eq_trans (eq_sym E) Hp) as Heq. injection Heq as -> ->. split; [|done].
  eexists _, _, _, _, _, _. split_and!; try done; try reflexivity.
  - intros id Hid. cbn [pb_attribute] in Hid. rewrite Hid in Hcamp. by apply negb_false_iff in Hcamp.
  - by apply Hl.
Qed.

(** On a store that answers, such a publish passes. *)
Lemma prepare_publish_passes sub_ headers body t (s : V2 Bucket Sp) p :
  (forall log o, s3_fault log o = Healthy) -> publishable sub_ headers body t s p ->
  exists s', prepare_publish http_get status_get state sub_ headers body t s = (Ok p, s') /\ objects (v_store s') = objects (v_store s).
Proof.
  intros Hhl (claims & k & sp & req & vb & k' & Ha & Hs & Hj & Hr & Hd & Hb & Hix & Hv & Hpt & Hh & Hch & Hcs & He & Hc & Hi & Hbl & Hl & Hst).
  unfold prepare_publish, v_on_keys, v_on_store, zoom, comp_map_err, lift, mbind, comp_bind. cbv zeta. rewrite Ha. cbn [set_v_policy fst snd].
  rewrite bool_decide_true by done. cbn [negb]. rewrite Hj. cbn [negb]. rewrite Hr, Hd. cbn [v_keys set_v_policy fst]. rewrite <- Hb, Hv. cbn [map_err].
  rewrite <- Hpt, <- Hh. rewrite bool_decide_true by done. rewrite Hcs, Z.eqb_refl. cbn [negb orb]. rewrite He. cbn [map_err].
  assert (match strip_prefix CAMPAIGN_FQN_PREFIX (pb_attribute p) with Some id => negb (owns_campaign claims id) | None => false end = false) as ->.
  { destruct (strip_prefix _ _) as [id|]; [|done]. by rewrite (Hc id eq_refl). }
  rewrite <- Hix, Hi. cbn [map_err]. rewrite Hbl.
  destruct (check_payloads_reads prefix api (pb_entries p) (pb_attribute p) (v_store s)) as (r & b' & E & Ho & _ & Hok).
  match goal with |- context [check_payloads api ?e ?a ?b] =>
    replace (check_payloads api e a b) with (r, b') by (symmetry; exact E) end. rewrite (Hok Hhl Hl), Hst. cbn [map_err]. eexists. split; [by destruct p|exact Ho].
Qed.

(** ** Reading a catalog *)

(** The attribute in the index record of the catalog [hash]. *)
Definition recorded_attribute (b : Bucket) (hash attribute : string) : Prop :=
  exists o j r, objects b !! catalog_index_key prefix hash = Some o
    /\ serde_parse (obj_body o) = Ok j /\ de_index_record j = Ok r /\ ix_attribute r = attribute.

(** What is remembered is what the index records say. *)
Definition cache_true (s : V2 Bucket Sp) : Prop :=
  forall hash attribute, v_attributes s !! hash = Some attribute -> recorded_attribute (v_store s) hash attribute.

Lemma get_catalog_index_ok hash (b : Bucket) o b' :
  get_catalog_index prefix hash b = (Ok o, b') ->
  objects b' = objects b /\ (forall x, o = Some x -> exists obj, objects b !! catalog_index_key prefix hash = Some obj /\ obj_body obj = x).
Proof.
  unfold get_catalog_index, get_object. intros H. inv_run.
  destruct (or_absent_reads "Failed to GET catalog index from S3" (OpGet (catalog_index_key prefix hash))
    (catalog_index_key prefix hash) b) as (r & b1 & E & Ho & Hx & _).
  match goal with H : or_absent _ _ _ = (Ok ?y, _) |- _ => rewrite E in H; injection H as -> ->;
    specialize (Hx y eq_refl); destruct y as [obj|] end; (split; [done|]); [|done].
  intros x [= <-]. by exists obj.
Qed.

Lemma catalog_attribute_ok hash (s : V2 Bucket Sp) a s' :
  catalog_attribute hash s = (Ok a, s') ->
  objects (v_store s') = objects (v_store s) /\ v_keys s' = v_keys s /\ v_provider s' = v_provider s
  /\ (forall x, a = Some x ->
        v_attributes s' !! hash = Some x
        /\ (v_attributes s !! hash = Some x \/ v_attributes s !! hash = None /\ recorded_attribute (v_store s) hash x))
  /\ (forall h x, v_attributes s' !! h = Some x -> v_attributes s !! h = Some x \/ recorded_attribute (v_store s) h x)
  /\ ((size (v_attributes s) <= Z.to_nat ATTRIBUTE_CACHE_CAPACITY)%nat ->
      (size (v_attributes s') <= Z.to_nat ATTRIBUTE_CACHE_CAPACITY)%nat).
Proof.
  unfold catalog_attribute. intros H. apply comp_bind_ok in H as (s0 & s1 & Hget & H).
  unfold get in Hget. injection Hget as <- <-. destruct (v_attributes s !! hash) as [x|] eqn:Hc.
  { inv_run. split_and!; try done; [intros y [= <-]; split; [done|by left]|by left]. }
  inv_run. match goal with H : v_on_store _ _ = _ |- _ => apply zoom_ok in H as (b & Hb & ->) end. inv_run.
  match goal with H : ts_get_catalog_index _ _ = _ |- _ => apply get_catalog_index_ok in H as [Ho Hx] end.
  match goal with H : (match ?o with Some _ => _ | None => _ end) _ = _ |- _ => destruct o as [body|] end; inv_run;
    [|by split_and!; try done; left].
  match goal with H : modify _ _ = _ |- _ => unfold modify in H; injection H as _ <- end.
  destruct (Hx _ eq_refl) as (obj & Hobj & <-). cbn [v_store v_keys v_provider v_attributes set_v_attributes set_v_store].
  match goal with |- context [ix_attribute ?record] => assert (recorded_attribute (v_store s) hash (ix_attribute record)) as Hrec
    by (eexists _, _, _; by split_and!) end.
  split_and!; try done.
  - intros y [= <-]. split; [by rewrite lookup_insert_eq|by right].
  - intros h y. rewrite lookup_insert_Some. intros [[<- <-]|[_ Hy]]; [by right|left].
    by destruct (ATTRIBUTE_CACHE_CAPACITY <=? _)%Z.
  - intros Hs. rewrite map_size_insert. destruct (Z.leb_spec ATTRIBUTE_CACHE_CAPACITY (Z.of_nat (size (v_attributes s)))).
    + rewrite lookup_empty, map_size_empty. unfold ATTRIBUTE_CACHE_CAPACITY; lia.
    + rewrite Hc. lia.
Qed.

Lemma decide_reader_ok `{!EvidencedProvider Sp} claims headers hash attribute t (s : V2 Bucket Sp) s' :
  decide_reader http_get state claims headers hash attribute t s = (Ok tt, s') ->
  v_store s' = v_store s /\ v_attributes s' = v_attributes s
  /\ exists rest sp sp', evidence sp sp'
       (reader_request state (subject_entity claims (Some (default "" (bearer headers))) :: rest) hash attribute) hash.
Proof.
  unfold decide_reader. intros H. destruct (rd_provider _); cbn [negb] in H; [|by apply throw_ok in H]. inv_run.
  match goal with H : v_on_keys _ _ = _ |- _ => apply zoom_ok in H as (k & Hk & ->) end.
  match goal with H : attempt _ _ = _ |- _ => unfold attempt, zoom in H; rename H into Ha end.
  destruct (decide_dyn _ _) as [r sp'] eqn:Ed. injection Ha as <- <-.
  destruct r as [verdicts|]; [|by apply throw_ok in H]. case_bool_decide as Hv; [|by apply throw_ok in H]. inv_run.
  split_and!; try done. unfold person_chain in Hk. inv_run. eexists _, _, _. by eapply decide_granted.
Qed.

(** C14: A catalog pointer is served only to a reader who may open it: one with
    a verified token, for a subject that is not hidden and a catalog that is
    not blocked, who is an operator or whom the decision service permitted for
    exactly this catalog under its attribute, asked about the reader's own
    chain. The attribute is the one remembered for the catalog or, when none
    is, the one in its index record, which is then remembered; nothing else is
    remembered anew. So as long as what is remembered is what the index records
    say, as it is on a node that starts, the reader is decided on the recorded
    attribute and it stays so. The body is the stored bundle and the entity tag
    its sequence number; nothing is written, and at most 100000 attributes are
    remembered. *)
Theorem catalog_reads_decided `{!EvidencedProvider Sp} sub_ headers t (s : V2 Bucket Sp) resp s' :
  get_pointer http_get state sub_ headers t s = (Ok resp, s') ->
  exists token claims o seq hash attribute,
    bearer headers = Some token
    /\ verifies http_get (st_verifier api) token None (now_secs t 0) (inst t 0) (v_keys s) claims
    /\ valid_identifier sub_ 248 = true /\ owner_hidden api (Some sub_) = false
    /\ objects (v_store s) !! catalog_pointer_key prefix sub_ = Some o /\ rs_body resp = obj_body o
    /\ stored_seq (obj_body o) = Ok (seq, hash) /\ ("etag", pointer_etag seq) ∈ rs_headers resp
    /\ tag_is_blocked api hash = false
    /\ (v_attributes s !! hash = Some attribute
        \/ v_attributes s !! hash = None /\ recorded_attribute (v_store s) hash attribute)
    /\ (cache_true s -> recorded_attribute (v_store s) hash attribute /\ cache_true s')
    /\ v_attributes s' !! hash = Some attribute
    /\ (forall h x, v_attributes s' !! h = Some x -> v_attributes s !! h = Some x \/ recorded_attribute (v_store s) h x)
    /\ (is_operator api claims = true
        \/ exists rest sp sp', evidence sp sp'
             (reader_request state (subject_entity claims (Some token) :: rest) hash attribute) hash)
    /\ objects (v_store s') = objects (v_store s)
    /\ ((size (v_attributes s) <= Z.to_nat 100000)%nat -> (size (v_attributes s') <= Z.to_nat 100000)%nat).
Proof.
  unfold get_pointer. intros H. inv_run.
  match goal with H : v_on_keys _ _ = _ |- _ => apply zoom_ok in H as (k & Hk & ->) end.
  unfold authorize_catalog_reader in Hk. destruct (bearer headers) as [token|] eqn:Hbear; [|by apply throw_ok in Hk]. inv_run.
  destruct (valid_identifier _ _) eqn:Hid; cbn [negb] in H; [|by apply throw_ok in H].
  destruct (owner_hidden _ _) eqn:Hhid; [by apply throw_ok in H|]. inv_run.
  match goal with H : v_on_store _ _ = _ |- _ => apply zoom_ok in H as (b & Hb & ->) end. inv_run.
  match goal with H : (if ?b then _ else _) _ = _ |- _ => destruct b eqn:Hblk end; [by apply throw_ok in H|]. inv_run.
  match goal with H : ts_get_catalog_pointer _ _ = _ |- _ => cbn in H; unfold get_catalog_pointer, get_object in H end. inv_run.
  match goal with H : or_absent _ (read_object ?o ?key) ?b = (Ok ?y, _) |- _ =>
    destruct (or_absent_reads "Failed to GET catalog pointer from S3" o key b) as (r0 & b1 & E & Ho & Hx & _);
    rewrite E in H; injection H as -> ->; specialize (Hx y eq_refl); destruct y as [obj|] end; [|done].
  match goal with H : Some _ = _ <$> _ |- _ => cbn in H; injection H as -> end. cbn [sp_body] in *.
  match goal with H : catalog_attribute _ _ = _ |- _ => apply catalog_attribute_ok in H as (Ho2 & Hk2 & _ & Ha & Hnew & Hsz) end.
  cbn [v_store set_v_store v_keys v_attributes set_v_keys] in *.
  match goal with H : stored_seq _ = Ok (?n, ?h), H2 : (if negb (is_operator _ ?cl) then _ else _) ?s1 = (Ok ?u, ?s2) |- _ =>
    destruct u; destruct (Ha _ eq_refl) as [Hin Hknown]; rename H2 into Hd;
    assert (v_attributes s2 = v_attributes s1 /\ objects (v_store s2) = objects (v_store s1)) as [Hat Hobj];
    [destruct (is_operator _ cl); cbn [negb] in Hd; [by injection Hd as <-|apply decide_reader_ok in Hd as (-> & -> & _); done]|];
    exists token, cl, obj, n, h end.
  unfold recorded_attribute in Hnew, Hknown. rewrite Ho in Hnew, Hknown. rewrite <- Hat in Hin, Hnew, Hsz.
  eexists. split_and!; try done.
  - by eexists.
  - cbn. right. right. left.
  - intros Ht. split; [destruct Hknown as [Hc|[_ ?]]; [by apply Ht|done]|]. intros h y Hy.
    unfold recorded_attribute. rewrite Hobj, Ho2, Ho. destruct (Hnew h y Hy); [by apply Ht|done].
  - destruct (is_operator _ _) eqn:Hop; [by left|right]. cbn [negb] in Hd.
    apply decide_reader_ok in Hd as (_ & _ & rest & sp & sp' & He). rewrite Hbear in He. eauto.
  - congruence.
Qed.

(** The catalog API and the moderation API have the same operators: a
    reader whose verified token makes it an operator here, and so reads
    catalogs without a decision, is exactly one the operator check accepts. *)
Theorem operators_agree p headers t c token claims c' :
  st_publishing api = Some p -> bearer headers = Some token ->
  verify http_get (st_verifier api) token (now_secs t 0) (inst t 0) c = (Ok claims, c') ->
  is_operator api claims = true <->
  exists by_ c1, operator http_get (tp_policy p) (st_verifier api) headers t c = (Ok by_, c1).
Proof.
  clear status_get. intros Hp Hb Hv. unfold is_operator, operator. rewrite Hp, Hb.
  destruct (decide (pp_operator_client_ids (tp_policy p) = ∅)) as [He|Hne].
  { rewrite (bool_decide_true (_ = ∅)) by done. split; [|by intros (? & ? & ?%throw_ok)].
    destruct (strip_prefix _ _) as [client|]; [|done]. rewrite (bool_decide_false (client ∈ _)) by set_solver.
    by rewrite andb_false_r. }
  rewrite (bool_decide_false (_ = ∅)) by done.
  unfold mbind, comp_bind, lift, comp_map_err. cbn [ok_or]. rewrite Hv. cbn [map_err].
  destruct (strip_prefix "client:" (sub claims)) as [client|]; cbn [ok_or]; [|split; [done|by intros (? & ? & ?)]].
  destruct (is_empty client); cbn [negb andb ok_or]; [split; [done|by intros (? & ? & ?)]|].
  destruct (aud_contains (aud claims) client), (match arkavo_roles claims with Some r => _ | None => _ end);
    cbn [negb orb]; rewrite ?andb_true_r, ?andb_false_r; [|split; [done|by intros (? & ? & ?)]..].
  case_bool_decide; cbn [negb]; [split; [|done]|split; [done|by intros (? & ? & ?)]].
  intros _. by eexists _, _.
Qed.
End Facts.

(** ** Witnesses *)

Module PublishSample.
Definition me : string := "00000000-0000-0000-0000-000000000001".

Definition claims_map : list (cbor * cbor) :=
  [(CInteger 1, CText "https://idp"); (CInteger 2, CText me); (CInteger 3, CText "arkavo");
   (CInteger 4, CInteger 2000); (CInteger 6, CInteger 1000); (CInteger 7, CBytes "id-1")].
Definition credential_map : cbor :=
  CMap [(CText "typ", CText PASSKEY_CREDENTIAL_TYP); (CText "iss", CText "https://idp");
        (CText "sub", CText me); (CText "credentialId", CBytes "cred");
        (CText "publicKey", CMap []); (CText "rpId", CText "identity.arkavo.net"); (CText "iat", CInteger 1000)].

Definition doc_hash : string := encode_hex (repeat_char 32 "h").
Definition pointer_doc : json :=
  JObject [("schema", JString POINTER_SCHEMA); ("owner", JString me); ("seq", JInt 1);
           ("catalogHash", JString doc_hash); ("catalogSize", JInt 8);
           ("issuedAt", JString "2026-01-01T00:00:00Z")].

(** Another creator's pointer. *)
Definition bobs_hash : string := repeat_char 64 "b".
Definition bobs_doc : json :=
  JObject [("schema", JString POINTER_SCHEMA); ("owner", JString "bob"); ("seq", JInt 7);
           ("catalogHash", JString bobs_hash); ("catalogSize", JInt 5);
           ("issuedAt", JString "2026-01-01T00:00:00Z")].

Definition serde : Serde :=
  named_serde [("pointer", pointer_doc); ("client", BundleSample.client_doc); ("bobs", bobs_doc)].
Definition cbor_table : Ciborium := table_ciborium [("claims", CMap claims_map); ("credential", credential_map)].
Definition cose_table : Coset :=
  {| sign1_from_slice := fun b =>
       assoc_get b [("message", AuthSample.message); ("attestation", BundleSample.attestation_message)];
     sign1_from_tagged_slice := fun _ => None;
     sign1_tbs := fun s => default "" (cs_payload s);
     key_from_cbor := fun _ =>
       Some {| ck_kty := KtyEC2; ck_key_id := "p"; ck_params := BundleSample.coordinates |} |}.
Definition header_plain : HttpCrate := {| header_to_str := Some |}.
Definition no_policies : OpenTdf := {| attribute_policy_from_value := fun _ => None |}.

Definition policy_doc : json :=
  JObject [("uuid", JString "p1");
           ("body", JObject [("dataAttributes", JArray [JObject [("attribute", JString (CREATOR_FQN_PREFIX +:+ me))]])])].
Definition manifest_doc : json :=
  JObject [("payload", JObject [("mimeType", JString CATALOG_MIME_TYPE)]);
           ("encryptionInformation", JObject [("policy", JString (serde_print (Serde := serde) policy_doc));
                                              ("keyAccess", JArray [])])].
Definition zip : ZipCrate :=
  {| zip_open := fun n => Opened (Ok {| ar_len := 2; ar_members :=
       {["manifest.json" := Some {| mb_size := 2; mb_content := serde_print (Serde := serde) manifest_doc;
                                    mb_corrupt := false |};
         "0.payload" := Some {| mb_size := 3; mb_content := "abc"; mb_corrupt := false |}]} |}) |}.
Definition bao : BaoCrate := {| bao_create := fun _ _ => Some (repeat_char 32 "h", "tree") |}.
Definition s3 : S3Service := {| s3_fault := fun _ _ => Healthy; etag_of := id; page_size := 2 |}.

(** A decision service that permits what it is asked about. *)
Definition permits : DecisionProvider unit := fun req s =>
  (Ok (list_to_map ((fun r => (r.1, true)) <$> dr_resources req)), s).

#[local] Existing Instance plain_base64.
#[local] Existing Instance plain_hex.
#[local] Existing Instance toy_blake3.
#[local] Existing Instance BundleSample.sha.
#[local] Existing Instance BundleSample.p256.
#[local] Existing Instance IngestSample.tdf.
#[local] Existing Instance serde.
#[local] Existing Instance cbor_table.
#[local] Existing Instance cose_table.
#[local] Existing Instance header_plain.
#[local] Existing Instance no_policies.
#[local] Existing Instance zip.
#[local] Existing Instance bao.
#[local] Existing Instance s3.
#[local] Existing Instance permits.

#[local] Instance asked : EvidencedProvider unit.
Proof.
  refine {| evidence := fun _ _ req id => exists fqns, (id, fqns) ∈ dr_resources req |}.
  intros req s d s' id [= <- <-] H. apply elem_of_list_to_map_2, list_elem_of_fmap in H as ([i f] & [= ->] & Hin).
  by exists f.
Defined.

Definition headers : HeaderMap :=
  [("authorization", "Bearer " +:+ CWT_TAG_PREFIX +:+ "message"); ("content-type", "application/json; charset=utf-8")].
Definition body : http_body :=
  Whole (serde_print (JObject [("document", JString "document"); ("bundle", ser_bundle BundleSample.bundle);
                               ("index", JArray [])])).
Definition clocks : Clocks := {| now_secs := fun _ => 1500%Z; inst := fun _ => 0%Z; nanos := 0 |}.
Definition offline : string -> http_answer := fun _ => NoAnswer "offline".

Definition operators : TagPublishing :=
  {| tp_policy := {| pp_entitlement := None; pp_audience := None; pp_session_ttl_secs := 60;
                     pp_operator_client_ids := {["ops"]}; pp_decider := decider_default |};
     tp_moderation := moderation_default |}.
Definition state : V2State :=
  v2_state {| st_verifier := AuthSample.verifier; st_publishing := Some operators |} "identity.arkavo.net" ""
    {| rd_provider := true; rd_action := "read"; rd_environment := None |}.

Definition keys : KeyCache := {| keys := {["k1" := "key1"]}; last_fetch := None; gets := [] |}.
Definition empty_bucket : Bucket := {| objects := ∅; s3_log := [] |}.
Definition start {St} (store : St) : V2 St unit :=
  {| v_keys := keys; v_store := store; v_provider := tt; v_attributes := ∅ |}.

#[local] Instance bucket_tags : TagStore Bucket := s3_tag_store "".

(** The bucket after a publish. *)
Definition after : Bucket := v_store (put_catalog offline offline state me headers body clocks (start empty_bucket)).2.

Lemma catalog_reads_decided_witness :
  exists resp s' hash attribute, get_pointer offline state me headers clocks (start after) = (Ok resp, s')
    /\ recorded_attribute "" after hash attribute /\ v_attributes s' !! hash = Some attribute.
Proof.
  succeeds (get_pointer offline state me headers clocks (start after)) resp s' E.
  destruct (catalog_reads_decided offline state "" me headers clocks (start after) resp s' E)
    as (tok & cl & o & n & h & a & _ & _ & _ & _ & _ & _ & _ & _ & _ & _ & Hrec & Hin & _).
  exists resp, s', h, a. split; [reflexivity|]. split; [|exact Hin].
  assert (cache_true "" (start after)) as Ht.
  { intros h' a' Hno. unfold start in Hno. cbn [v_attributes] in Hno. rewrite lookup_empty in Hno. discriminate Hno. }
  destruct (Hrec Ht) as [Hr _]. unfold start in Hr. cbn [v_store] in Hr. exact Hr.
Defined.

Lemma operators_agree_witness :
  exists claims, is_operator (v_api state) claims = false
    /\ ~ exists by_ c1, operator offline (tp_policy operators) AuthSample.verifier headers clocks keys = (Ok by_, c1).
Proof.
  succeeds (verify offline AuthSample.verifier (CWT_TAG_PREFIX +:+ "message") 1500 0 keys) cl c' E.
  assert (is_operator (v_api state) cl = false) as Hn.
  { transitivity (match (verify offline AuthSample.verifier (CWT_TAG_PREFIX +:+ "message") 1500 0 keys).1 with
                  | Ok cl => is_operator (v_api state) cl | Err _ => false end); [rewrite E; reflexivity|].
    vm_compute. reflexivity. }
  exists cl. split; [exact Hn|]. intros H.
  apply (operators_agree offline state operators headers clocks keys (CWT_TAG_PREFIX +:+ "message") cl c')
    in H; [|reflexivity|vm_compute; reflexivity|exact E].
  rewrite Hn in H. discriminate H.
Defined.
End PublishSample.
