(* ===== verification/CatalogPublish.v ===== *)
(** * Exactly which catalogs are published (src/catalogs_v2_api.rs)

    What [PUT /v2/catalogs/{sub}] does on a store that answers, in terms of
    the objects of the bucket alone: when a publish succeeds and what it
    leaves. *)

From S2P Require Import Prelude Bytes Identifiers Json Extern Samples S3Store Auth Authz EntityChain PublishDecision Moderation PublishGate ModerationApi CatalogMetadata CreatorCatalog CatalogV2 Validation Ingest CatalogsApi CatalogsV2Api.

(** ** Requests that are answered *)

Section Answered.
Context {S3 : S3Service} (Hhealthy : forall log o, s3_fault log o = Healthy).

Lemma or_absent_healthy what o key b :
  exists b', or_absent what (read_object o key) b = (Ok (objects b !! key), b') /\ objects b' = objects b.
Proof.
  unfold or_absent, read_object, begin_op, get, lift, mbind, comp_bind. rewrite Hhealthy. cbn.
  destruct (objects b !! key) as [x|]; cbn; by eexists.
Qed.

Lemma put_object_healthy key body owner cond b :
  holds cond (objects b !! key) = true ->
  exists b', put_object key body owner cond b = (Ok tt, b') /\ objects b' = <[key := written body owner]> (objects b).
Proof.
  intros H. unfold put_object, begin_op, get, modify, mbind, comp_bind. rewrite Hhealthy. cbn. rewrite H. by eexists.
Qed.

Lemma put_always_healthy what key body owner b :
  exists b', context what (put_object key body owner Always) b = (Ok tt, b')
    /\ objects b' = <[key := written body owner]> (objects b).
Proof.
  destruct (put_object_healthy key body owner Always b) as (b' & E & Ho); [by destruct (objects b !! key)|].
  exists b'. unfold context, comp_map_err. by rewrite E.
Qed.
End Answered.

(** ** The pointer a publish replaces *)

Section Publish.
Context {SJ : Serde} {B64 : Base64} {HX : Hex} {B3 : Blake3} {SH : Sha2} {CB : Ciborium} {CO : Coset} {EC : P256}.
Context {HC : HttpCrate} {OT : OpenTdf} {TC : TdfCrate} {ZC : ZipCrate} {BC : BaoCrate} {S3 : S3Service}.
Context {Sp : Type} {P : DecisionProvider Sp}.
Context (http_get status_get : string -> http_answer) (state : V2State) (prefix : string).

#[local] Instance publish_store : TagStore Bucket := s3_tag_store prefix.

(** The stored pointer as a publish finds it: its sequence number and catalog,
    and whether that catalog has an index record. *)
Definition current_base (m : gmap string object) (sub_ : string) :
    result refusal (option (StoredPointer * (Z * string)) * bool) :=
  match m !! catalog_pointer_key prefix sub_ with
  | None => Ok (None, false)
  | Some o =>
      match stored_seq (obj_body o) with
      | Ok (n, hash) => Ok (Some ({| sp_body := obj_body o; sp_etag := obj_etag o |}, (n, hash)),
                            bool_decide (is_Some (m !! catalog_index_key prefix hash)))
      | Err _ => Err storage_unavailable
      end
  end.

(** The publish is newer than what is stored, and made from what is served:
    the preconditions of the request hold for the entity tag [GET] serves, and
    the sequence number grows past that of a catalog that is live. A pointer
    whose catalog has no index record counts as none, one whose catalog is
    blocked is served as none, and one that cannot be read lets nothing by. *)
Definition newer (m : gmap string object) (sub_ : string) (headers : HeaderMap) (seq : Z) : Prop :=
  match m !! catalog_pointer_key prefix sub_ with
  | None => preconditions_hold headers None = true
  | Some o =>
      exists n hash, stored_seq (obj_body o) = Ok (n, hash)
      /\ let live := is_Some (m !! catalog_index_key prefix hash) in
         (live -> (n < seq)%Z)
         /\ (live /\ tag_is_blocked (v_api state) hash = false -> preconditions_hold headers (Some (pointer_etag n)) = true)
         /\ (~ (live /\ tag_is_blocked (v_api state) hash = false) -> preconditions_hold headers None = true)
  end.

Lemma check_base_newer m sub_ headers seq :
  newer m sub_ headers seq <->
  exists current live, current_base m sub_ = Ok (current, live) /\ check_base state headers seq current live = Ok tt.
Proof.
  unfold newer, current_base. destruct (m !! catalog_pointer_key prefix sub_) as [o|].
  2: { split; [intros H; exists None, false; unfold check_base; cbn; by rewrite H|].
       intros (c & l & [= <- <-] & H). unfold check_base in H. cbn in H. by destruct (preconditions_hold _ _). }
  destruct (stored_seq (obj_body o)) as [[n hash]|e]; [|split; [by intros (? & ? & ? & _)|by intros (? & ? & ? & _)]].
  split.
  - intros (n' & h' & [= <- <-] & Hn & Hs & Hu). eexists _, _. split; [done|]. unfold check_base. cbn.
    case_bool_decide as Hl; cbn.
    + destruct (tag_is_blocked (v_api state) hash); cbn; [rewrite Hu by (intros [_ ?]; done)|rewrite Hs by done]; cbn;
        destruct (Z.leb_spec seq n); [specialize (Hn Hl); lia|done|specialize (Hn Hl); lia|done].
    + rewrite Hu by (intros [? _]; done). done.
  - intros (c & l & [= <- <-] & H). exists n, hash. split; [done|]. unfold check_base in H. cbn in H.
    destruct (bool_decide (is_Some (m !! catalog_index_key prefix hash))) eqn:Hl; cbn in H.
    + apply bool_decide_eq_true in Hl. destruct (tag_is_blocked (v_api state) hash) eqn:Hb; cbn in H;
        destruct (preconditions_hold _ _) eqn:Hpre; cbn in H; try done;
        (destruct (Z.leb_spec seq n); [done|]); split_and!; naive_solver.
    + apply bool_decide_eq_false in Hl. destruct (preconditions_hold _ _) eqn:Hpre; cbn in H; [|done].
      split_and!; naive_solver.
Qed.

Context (Hhealthy : forall log o, s3_fault log o = Healthy).

Lemma read_current_healthy sub_ b :
  exists b', read_current sub_ b = (current_base (objects b) sub_, b') /\ objects b' = objects b.
Proof.
  unfold read_current, current_base, comp_map_err, lift, mbind, comp_bind.
  unfold ts_get_catalog_pointer, ts_get_catalog_index, publish_store, s3_tag_store, get_catalog_pointer, get_catalog_index, get_object.
  destruct (or_absent_healthy Hhealthy "Failed to GET catalog pointer from S3" (OpGet (catalog_pointer_key prefix sub_))
    (catalog_pointer_key prefix sub_) b) as (b1 & E1 & Ho1). unfold mbind, comp_bind. rewrite E1.
  destruct (objects b !! catalog_pointer_key prefix sub_) as [o|]; cbn; [|by exists b1].
  destruct (stored_seq (obj_body o)) as [[n hash]|e]; cbn; [|by exists b1].
  destruct (or_absent_healthy Hhealthy "Failed to GET catalog index from S3" (OpGet (catalog_index_key prefix hash))
    (catalog_index_key prefix hash) b1) as (b2 & E2 & Ho2). rewrite E2, Ho1. exists b2. split; [|congruence].
  by destruct (objects b !! catalog_index_key prefix hash).
Qed.

(** ** What a publish leaves *)

Abbreviation index_record sub_ p :=
  (serde_print (ser_index_record {| ix_owner := sub_; ix_attribute := pb_attribute p; ix_entries := pb_index p |})).

Definition stored_publish (sub_ : string) (p : Publish) (outboard : bytes) (m : gmap string object) : gmap string object :=
  <[catalog_pointer_key prefix sub_ := written (serde_print (ser_bundle (pb_bundle p))) None]>
  (<[catalog_index_key prefix (pb_hash p) := written (index_record sub_ p) None]>
  (<[catalog_outboard_key prefix (pb_hash p) := written outboard None]>
  (<[catalog_document_key prefix (pb_hash p) := written (pb_document p) (Some sub_)]> m))).

(** The objects of a published catalog its readers are served from. *)
Definition in_bucket (sub_ : string) (p : Publish) (m : gmap string object) : Prop :=
  m !! catalog_document_key prefix (pb_hash p) = Some (written (pb_document p) (Some sub_))
  /\ m !! catalog_index_key prefix (pb_hash p)
     = Some (written (serde_print (ser_index_record {| ix_owner := sub_; ix_attribute := pb_attribute p;
                                                       ix_entries := pb_index p |})) None)
  /\ m !! catalog_pointer_key prefix sub_ = Some (written (serde_print (ser_bundle (pb_bundle p))) None).

Lemma stored_publish_has sub_ p outboard m : in_bucket sub_ p (stored_publish sub_ p outboard m).
Proof.
  assert (forall f1 f2 i1 i2, f1 <> f2 -> family_ok f1 -> family_ok f2 ->
    family_key prefix f1 i1 <> family_key prefix f2 i2) as Hne.
  { intros f1 f2 i1 i2 Hf H1' H2' Ek. by apply family_key_inj in Ek as [? _]. }
  unfold in_bucket, stored_publish. split_and!.
  - rewrite lookup_insert_ne by (by apply (Hne CatalogPointers CatalogDocuments)).
    rewrite lookup_insert_ne by (by apply (Hne CatalogIndexes CatalogDocuments)).
    rewrite lookup_insert_ne by (by apply (Hne CatalogOutboards CatalogDocuments)). apply lookup_insert_eq.
  - rewrite lookup_insert_ne by (by apply (Hne CatalogPointers CatalogIndexes)). apply lookup_insert_eq.
  - apply lookup_insert_eq.
Qed.

(** The objects written before the pointer are not the pointer. *)
Lemma pointer_apart sub_ hash k (m : gmap string object) x :
  k ∈ [catalog_document_key prefix hash; catalog_outboard_key prefix hash; catalog_index_key prefix hash] ->
  <[k := x]> m !! catalog_pointer_key prefix sub_ = m !! catalog_pointer_key prefix sub_.
Proof.
  intros Hk. apply lookup_insert_ne. intros ->.
  assert (forall f, family_ok f -> f <> CatalogPointers -> catalog_pointer_key prefix sub_ <> family_key prefix f hash) as Hne.
  { intros f Hf Hn E. by apply (family_key_inj prefix CatalogPointers f) in E as [? _]. }
  repeat (apply elem_of_cons in Hk as [Hk|Hk]); [by apply (Hne CatalogDocuments) in Hk|by apply (Hne CatalogOutboards) in Hk
    |by apply (Hne CatalogIndexes) in Hk|by apply elem_of_nil in Hk].
Qed.

Lemma store_publish_healthy sub_ p outboard current live b :
  current_base (objects b) sub_ = Ok (current, live) ->
  exists b', store_publish sub_ p outboard ((fun c => sp_etag c.1) <$> current) b = (Ok tt, b')
    /\ objects b' = stored_publish sub_ p outboard (objects b).
Proof.
  intros Hcur. unfold store_publish, comp_map_err, mbind, comp_bind. cbv zeta.
  unfold ts_put_catalog_document, ts_put_catalog_outboard, ts_put_catalog_index, ts_put_catalog_pointer, publish_store, s3_tag_store.
  unfold put_catalog_document, put_catalog_outboard, put_catalog_index, put_catalog_pointer.
  edestruct (put_always_healthy Hhealthy "Failed to PUT catalog document to S3") as (b1 & -> & H1).
  edestruct (put_always_healthy Hhealthy "Failed to PUT catalog outboard to S3") as (b2 & -> & H2).
  edestruct (put_always_healthy Hhealthy "Failed to PUT catalog index to S3") as (b3 & -> & H3). cbn [map_err].
  edestruct (put_object_healthy Hhealthy (catalog_pointer_key prefix sub_)) as (b4 & -> & H4).
  2: { exists b4. split; [done|]. by rewrite H4, H3, H2, H1. }
  rewrite H3, H2, H1.
  rewrite !(pointer_apart sub_ (pb_hash p)) by set_solver.
  unfold current_base in Hcur. destruct (objects b !! catalog_pointer_key prefix sub_) as [o|]; [|by injection Hcur as <- <-].
  destruct (stored_seq _) as [[n h]|]; [|done]. injection Hcur as <- <-. cbn. by apply bool_decide_eq_true.
Qed.

(** After the checks, the rest is decided by the bucket. *)
Definition answer (sub_ : string) (p : Publish) : json :=
  JObject [("owner", JString sub_); ("seq", JInt (pt_seq (pb_pointer p)));
           ("hash", JString (pb_hash p)); ("size", JInt (len (pb_document p)))].

Definition completes (sub_ : string) (headers : HeaderMap) (p : Publish) (m m' : gmap string object) : Prop :=
  newer m sub_ headers (pt_seq (pb_pointer p))
  /\ exists outboard,
    Ingest.compute_outboard (pb_document p) (len (pb_document p)) (blake3_hash (pb_document p)) = Ok outboard
    /\ m' = stored_publish sub_ p outboard m.

Lemma put_after_checks sub_ headers body t s j m' p s1 :
  prepare_publish http_get status_get state sub_ headers body t s = (Ok p, s1) ->
  objects (v_store s1) = objects (v_store s) ->
  (exists s', put_catalog http_get status_get state sub_ headers body t s = (Ok j, s') /\ objects (v_store s') = m') <->
  completes sub_ headers p (objects (v_store s)) m' /\ j = answer sub_ p.
Proof.
  intros Hp Hm. unfold completes, put_catalog, v_on_store, zoom, lift, mbind, comp_bind. rewrite Hp.
  destruct (read_current_healthy sub_ (v_store s1)) as (b1 & -> & Ho1). rewrite Hm in *. rewrite check_base_newer.
  destruct (current_base (objects (v_store s)) sub_) as [[current live]|e] eqn:Ec;
    [|split; [by intros (? & ? & _)|by intros [[(? & ? & ? & _) _] _]]].
  destruct (check_base state headers _ current live) as [[]|e] eqn:Eb;
    [|split; [by intros (? & ? & _)|intros [[(? & ? & [= <- <-] & ?) _] _]; congruence]].
  destruct (Ingest.compute_outboard _ _ _) as [outboard|e]; cbn [map_err];
    [|split; [by intros (? & ? & _)|by intros [[_ (? & ? & _)] _]]].
  destruct (store_publish_healthy sub_ p outboard current live b1) as (b2 & E & Ho2); [by rewrite Ho1|].
  cbn [v_store set_v_store]. rewrite E. rewrite Ho1 in Ho2. cbn. split.
  - intros (s' & [= <- <-] & <-). split; [|done]. split; [by eexists _, _|]. exists outboard. by rewrite <- Ho2.
  - intros [[_ (ob & [= <-] & ->)] ->]. by eexists.
Qed.

(** ** The theorem *)

(** C13: Exactly which catalogs are published, on a store that answers, and
    what is stored then. [PUT /v2/catalogs/{sub}] succeeds if and only if
    everything about the catalog checks out ([publishable]), it is newer than
    the catalog that is stored and made from the one that is served
    ([newer]), and the outboard of the document can be computed; it is
    answered with the subject, the sequence number, the hash and the size of
    the document. The bucket then has the document with its owner, its
    outboard and its index record, and the bundle as the subject's pointer,
    and is otherwise as it was. *)
Theorem publish_exact sub_ headers body t s j m' :
  (exists s', put_catalog http_get status_get state sub_ headers body t s = (Ok j, s') /\ objects (v_store s') = m') <->
  exists p, publishable http_get status_get state prefix sub_ headers body t s p
    /\ completes sub_ headers p (objects (v_store s)) m' /\ j = answer sub_ p.
Proof.
  split.
  - intros H. destruct (prepare_publish http_get status_get state sub_ headers body t s) as [[p|e] s1] eqn:Hp.
    + destruct (prepare_publish_ok _ _ _ prefix _ _ _ _ _ _ _ Hp) as [Hpub Hm]. exists p.
      split; [done|]. by apply (put_after_checks _ _ _ _ _ _ _ _ _ Hp Hm).
    + destruct H as (s' & H & _). unfold put_catalog, mbind, comp_bind in H. by rewrite Hp in H.
  - intros (p & Hpub & Hc).
    destruct (prepare_publish_passes _ _ _ prefix _ _ _ _ _ _ Hhealthy Hpub) as (s1 & Hp & Hm).
    by apply (put_after_checks _ _ _ _ _ _ _ _ _ Hp Hm).
Qed.
End Publish.

(** ** Witness *)

Module PublishExactSample.
#[local] Existing Instance plain_base64.
#[local] Existing Instance plain_hex.
#[local] Existing Instance toy_blake3.
#[local] Existing Instance BundleSample.sha.
#[local] Existing Instance BundleSample.p256.
#[local] Existing Instance IngestSample.tdf.
#[local] Existing Instance PublishSample.serde.
#[local] Existing Instance PublishSample.cbor_table.
#[local] Existing Instance PublishSample.cose_table.
#[local] Existing Instance PublishSample.header_plain.
#[local] Existing Instance PublishSample.no_policies.
#[local] Existing Instance PublishSample.zip.
#[local] Existing Instance PublishSample.bao.
#[local] Existing Instance PublishSample.s3.
#[local] Existing Instance PublishSample.permits.
#[local] Instance sample_store : TagStore Bucket := s3_tag_store "".

Definition start : V2 Bucket unit := PublishSample.start PublishSample.empty_bucket.
Definition run : result refusal json * V2 Bucket unit :=
  put_catalog PublishSample.offline PublishSample.offline PublishSample.state PublishSample.me
    PublishSample.headers PublishSample.body PublishSample.clocks start.

Lemma publish_exact_witness :
  exists p, publishable PublishSample.offline PublishSample.offline PublishSample.state "" PublishSample.me
      PublishSample.headers PublishSample.body PublishSample.clocks start p
    /\ is_Some (objects (v_store run.2) !! catalog_document_key "" (pb_hash p)).
Proof.
  succeeds run j s' E.
  assert (exists s1, run = (Ok j, s1) /\ objects (v_store s1) = objects (v_store s')) as H by (exists s'; split; [exact E|reflexivity]).
  apply (publish_exact (S3 := PublishSample.s3) PublishSample.offline PublishSample.offline PublishSample.state ""
    (fun _ _ => eq_refl)) in H as (p & Hp & (_ & ob & _ & Hm) & _).
  exists p. split; [exact Hp|]. cbn [snd]. rewrite Hm. destruct (stored_publish_has "" PublishSample.me p ob (objects (v_store start))) as [-> _].
  by eexists.
Defined.
End PublishExactSample.
