(* ===== verification/CatalogConcurrency.v ===== *)
(** * Concurrent publishes (src/catalogs_v2_api.rs with src/store/s3.rs)

    Several requests, on this node and on others, share the bucket: between
    two of its requests to the store a publish may find anything changed that
    other publishes may change. The shared store runs an arbitrary environment
    before each operation and records what the operation itself did, so the
    handler of [CatalogsV2Api] runs on it unchanged. What the environment may
    do is what every publish does ([publish_step]), so the result holds for any
    number of concurrent publishes. *)

From S2P Require Import Prelude Bytes Identifiers Json Extern Samples S3Store Auth Authz EntityChain PublishDecision Moderation PublishGate ModerationApi CatalogMetadata CreatorCatalog CatalogV2 Validation Ingest CatalogsApi CatalogsV2Api.

Abbreviation Objects := (gmap string object).

(** The bucket, and the steps taken on it by this request, newest first. *)
Record Shared := { sh_bucket : Bucket; sh_steps : list (Objects * Objects) }.

Definition sh_objects (s : Shared) : Objects := objects (sh_bucket s).

Section SharedStore.
Context {S3 : S3Service} (prefix : string) (interfere : list s3_op -> Objects -> Objects).

(** One operation: first the others move, then the operation runs. *)
Definition shared {E A} (m : comp Bucket E A) : comp Shared E A := fun s =>
  let b0 := set_objects (interfere (s3_log (sh_bucket s)) (sh_objects s)) (sh_bucket s) in
  let '(r, b1) := m b0 in
  (r, {| sh_bucket := b1; sh_steps := (objects b0, objects b1) :: sh_steps s |}).

Definition shared_store : TagStore Shared :=
  let tags := s3_tag_store prefix in {|
  ts_blob_size h := shared (ts_blob_size (TagStore := tags) h);
  ts_get_manifest h := shared (ts_get_manifest (TagStore := tags) h);
  ts_get_catalog_document h := shared (ts_get_catalog_document (TagStore := tags) h);
  ts_head_catalog_document h := shared (ts_head_catalog_document (TagStore := tags) h);
  ts_put_catalog_document h b o := shared (ts_put_catalog_document (TagStore := tags) h b o);
  ts_put_catalog_outboard h b := shared (ts_put_catalog_outboard (TagStore := tags) h b);
  ts_put_catalog_index h b := shared (ts_put_catalog_index (TagStore := tags) h b);
  ts_get_catalog_index h := shared (ts_get_catalog_index (TagStore := tags) h);
  ts_get_catalog_pointer sub := shared (ts_get_catalog_pointer (TagStore := tags) sub);
  ts_put_catalog_pointer sub b e := shared (ts_put_catalog_pointer (TagStore := tags) sub b e)
|}.
End SharedStore.

(** ** What a publish does to the bucket *)

Section Steps.
Context {SJ : Serde} {B64 : Base64} {S3 : S3Service} (prefix : string).

(** The catalog [hash] can be served and decided. *)
Definition complete (m : Objects) (hash : string) : Prop :=
  is_Some (m !! catalog_document_key prefix hash)
  /\ is_Some (m !! catalog_outboard_key prefix hash)
  /\ is_Some (m !! catalog_index_key prefix hash).

(** The stored pointer [o] names the complete catalog [hash] at [seq]. *)
Definition names (m : Objects) (o : object) (seq : Z) (hash : string) : Prop :=
  obj_etag o = etag_of (obj_body o) /\ stored_seq (obj_body o) = Ok (seq, hash) /\ complete m hash.

(** No pointer dangles. *)
Definition sound_pointers (m : Objects) : Prop :=
  forall sub o, m !! catalog_pointer_key prefix sub = Some o -> exists seq hash, names m o seq hash.

(** Catalog objects stay, and a pointer is only replaced by a pointer to a
    complete catalog with a greater sequence number. *)
Definition publish_step (m m' : Objects) : Prop :=
  (forall h, is_Some (m !! catalog_document_key prefix h) -> is_Some (m' !! catalog_document_key prefix h))
  /\ (forall h, is_Some (m !! catalog_outboard_key prefix h) -> is_Some (m' !! catalog_outboard_key prefix h))
  /\ (forall h, is_Some (m !! catalog_index_key prefix h) -> is_Some (m' !! catalog_index_key prefix h))
  /\ forall sub, m' !! catalog_pointer_key prefix sub = m !! catalog_pointer_key prefix sub
     \/ exists o' seq' hash', m' !! catalog_pointer_key prefix sub = Some o' /\ names m' o' seq' hash'
        /\ forall o seq hash, m !! catalog_pointer_key prefix sub = Some o ->
             stored_seq (obj_body o) = Ok (seq, hash) -> (seq < seq')%Z.

Lemma complete_step m m' h : publish_step m m' -> complete m h -> complete m' h.
Proof. intros (H1 & H2 & H3 & _) (? & ? & ?). split_and!; auto. Qed.

Lemma names_step m m' o seq h : publish_step m m' -> names m o seq h -> names m' o seq h.
Proof. intros Hs (? & ? & ?). split_and!; try done. by eapply complete_step. Qed.

Lemma sound_step m m' : publish_step m m' -> sound_pointers m -> sound_pointers m'.
Proof.
  intros Hs Hm sub o Ho. pose proof Hs as (_ & _ & _ & Hp). destruct (Hp sub) as [E|(o' & seq & h & E & Hn & _)].
  - rewrite E in Ho. destruct (Hm _ _ Ho) as (seq & h & Hn). exists seq, h. by eapply names_step.
  - rewrite E in Ho. injection Ho as ->. by exists seq, h.
Qed.

Lemma publish_step_refl m : publish_step m m.
Proof. split_and!; auto. Qed.

(** Steps compose: many publishes of others are one move of the environment. *)
Lemma publish_step_trans m1 m2 m3 : publish_step m1 m2 -> publish_step m2 m3 -> publish_step m1 m3.
Proof.
  intros H12 H23. pose proof H12 as (A1 & A2 & A3 & A4). pose proof H23 as (B1 & B2 & B3 & B4).
  split_and!; auto. intros sub.
  destruct (B4 sub) as [E3|(o3 & s3 & h3 & E3 & Hn3 & Hlt3)];
    destruct (A4 sub) as [E2|(o2 & s2 & h2 & E2 & Hn2 & Hlt2)].
  - left. congruence.
  - right. exists o2, s2, h2. split_and!; [congruence|by eapply names_step|done].
  - right. exists o3, s3, h3. split_and!; [done..|]. intros o seq h Ho. apply Hlt3. congruence.
  - right. exists o3, s3, h3. split_and!; [done..|]. intros o seq h Ho Hs.
    pose proof (Hlt2 _ _ _ Ho Hs). destruct Hn2 as (_ & Hs2 & _). pose proof (Hlt3 _ _ _ E2 Hs2). lia.
Qed.

(** ** Single writes *)

Lemma key_ne f1 f2 i1 i2 :
  family_ok f1 -> family_ok f2 -> f1 <> f2 -> family_key prefix f1 i1 <> family_key prefix f2 i2.
Proof. intros H1 H2 Hne E. by apply family_key_inj in E as [? _]. Qed.

(** Writing a catalog document, outboard or index. *)
Lemma insert_catalog_step m f id x :
  (f = CatalogDocuments \/ f = CatalogOutboards \/ f = CatalogIndexes) ->
  publish_step m (<[family_key prefix f id := x]> m).
Proof.
  intros Hf.
  assert (forall k, is_Some (m !! k) -> is_Some (<[family_key prefix f id := x]> m !! k)) as Hkeep.
  { intros k Hk. destruct (decide (family_key prefix f id = k)) as [<-|Hne];
      [rewrite lookup_insert_eq; by eexists|by rewrite lookup_insert_ne]. }
  split_and!; [by intros; apply Hkeep..|]. intros sub. left. apply lookup_insert_ne.
  apply (key_ne f CatalogPointers); destruct Hf as [->|[->| ->]]; done.
Qed.
End Steps.

(** ** What a publish checks

    The checks before the pointer is looked at only read the store: they keep
    whatever the two reads they make keep. *)

Section Reading.
Context {SJ : Serde} {B64 : Base64} {HX : Hex} {B3 : Blake3} {SH : Sha2} {CB : Ciborium} {CO : Coset} {EC : P256}.
Context {HC : HttpCrate} {OT : OpenTdf} {TC : TdfCrate} {ZC : ZipCrate} {BC : BaoCrate}.
Context {St Sp : Type} {TS : TagStore St} {P : DecisionProvider Sp}.
Context (http_get status_get : string -> http_answer) (state : V2State).
Context (sub_ : string) (headers : HeaderMap).
Context (I : St -> Prop) (Hsize : forall h, stable I (ts_blob_size h) (fun _ => True)).
Context (Hmanifest : forall h, stable I (ts_get_manifest h) (fun _ => True)).

Lemma stable_size_lookup h : stable I (size_lookup h) (fun _ => True).
Proof.
  unfold size_lookup. eapply stable_bind; [apply stable_map_err, Hsize|by intros; apply stable_lift].
Qed.

Lemma stable_manifest_lookup h : stable I (manifest_lookup h) (fun _ => True).
Proof.
  unfold manifest_lookup. eapply stable_bind; [apply stable_map_err, Hmanifest|].
  intros o _. eapply (stable_bind _ _ _ (fun _ => True)); [by apply stable_lift|]. intros x _. by apply stable_lift.
Qed.

Lemma stable_look_up {A} (f : string -> comp St refusal A) found hs :
  (forall h, stable I (f h) (fun _ => True)) -> stable I (look_up_loop f found hs) (fun _ => True).
Proof.
  intros Hf. revert found; induction hs as [|h hs IH]; intros found; cbn; [by apply stable_ret|].
  eapply stable_bind; [apply Hf|]. intros x _. apply IH.
Qed.

Lemma stable_check_payloads entries attribute :
  stable I (check_payloads (v_api state) entries attribute) (fun _ => True).
Proof.
  unfold check_payloads, look_up. destruct (existsb _ _); [apply stable_throw|].
  eapply stable_bind; [apply stable_look_up, stable_size_lookup|]. intros sizes _.
  destruct (find _ _); [apply stable_throw|].
  eapply stable_bind; [apply stable_look_up, stable_manifest_lookup|]. intros manifests _.
  destruct (find _ _); [apply stable_throw|by apply stable_ret].
Qed.

(** An operation that does not touch the store. *)
Lemma stable_aside {T E A} (proj : V2 St Sp -> T) put (m : comp T E A) :
  (forall t s, v_store (put t s) = v_store s) -> stable (fun s => I (v_store s)) (zoom proj put m) (fun _ => True).
Proof.
  intros Hp s r s' H Hs. unfold zoom in H. destruct (m (proj s)) as [r0 t]. injection H as <- <-.
  by rewrite Hp.
Qed.

(** What the store relies on of an accepted publish: the bundle it stores
    reads back as its pointer, which names the document. *)
Definition publish_ok (p : Publish) : Prop :=
  exists pb, b64url_decode (bd_pointer (pb_bundle p)) = Some pb /\ parse_pointer pb = Ok (pb_pointer p)
    /\ pt_catalog_hash (pb_pointer p) = pb_hash p.

Lemma verify_bundle_pointer bundle owner verifier pk now inst_ c vb c' :
  verify_bundle http_get bundle owner verifier pk now inst_ c = (Ok vb, c') ->
  exists pb, b64url_decode (bd_pointer bundle) = Some pb /\ parse_pointer pb = Ok (vb_pointer vb)
    /\ pt_owner (vb_pointer vb) = owner.
Proof.
  unfold verify_bundle. intros H. inv_run.
  case_bool_decide; cbn [negb] in H; [|by apply throw_ok in H]. inv_run.
  case_bool_decide; cbn [negb] in H; [|by apply throw_ok in H]. inv_run.
  match goal with H : b64 "pointer" _ _ = Ok ?b |- _ => apply b64_ok in H as (_ & ? & _); by exists b end.
Qed.

Lemma stable_prepare body t :
  stable (fun s => I (v_store s)) (prepare_publish http_get status_get state sub_ headers body t) publish_ok.
Proof.
  unfold prepare_publish.
  eapply stable_bind; [by apply stable_aside|]. intros claims _.
  destruct (negb _); [apply stable_throw|]. destruct (negb _); [apply stable_throw|].
  eapply (stable_bind _ _ _ (fun _ => True)); [by apply stable_lift|]. intros req _.
  eapply (stable_bind _ _ _ (fun _ => True)); [by apply stable_lift|]. intros document _.
  eapply (stable_bind _ _ _ (fun vb => exists pb, b64url_decode (bd_pointer (rq_bundle req)) = Some pb
    /\ parse_pointer pb = Ok (vb_pointer vb))).
  { intros s r s' H Hs. unfold v_on_keys, zoom, comp_map_err in H.
    destruct (verify_bundle _ _ _ _ _ _ _ (v_keys s)) as [[vb|e] c'] eqn:E; injection H as <- <-; (split; [done|]); [|done].
    intros a [= <-]. apply verify_bundle_pointer in E as (pb & Hd & Hp & _). by exists pb. }
  intros vb (pb & Hd & Hp). case_bool_decide as Hh; cbn [negb orb]; [|apply stable_throw].
  destruct (negb _); [apply stable_throw|].
  eapply (stable_bind _ _ _ (fun _ => True)); [by apply stable_lift|]. intros attribute _.
  destruct (match strip_prefix _ _ with Some _ => _ | None => _ end); [apply stable_throw|].
  eapply (stable_bind _ _ _ (fun _ => True)); [by apply stable_lift|]. intros entries _.
  destruct (tag_is_blocked _ _); [apply stable_throw|].
  eapply stable_bind; [by apply (stable_zoom I), stable_check_payloads|]. intros _ _.
  eapply (stable_bind _ _ _ (fun _ => True)); [by apply stable_lift|]. intros _ _.
  apply stable_ret. by exists pb.
Qed.

End Reading.

(** ** A publish among others *)

Section Publishing.
Context {SJ : Serde} {B64 : Base64} {HX : Hex} {B3 : Blake3} {SH : Sha2} {CB : Ciborium} {CO : Coset} {EC : P256}.
Context {HC : HttpCrate} {OT : OpenTdf} {TC : TdfCrate} {ZC : ZipCrate} {BC : BaoCrate} {S3 : S3Service}.
Context {Sp : Type} {P : DecisionProvider Sp}.
Context (http_get status_get : string -> http_answer) (state : V2State).
Context (prefix : string) (interfere : list s3_op -> Objects -> Objects).
Context (sub_ : string) (headers : HeaderMap).

#[local] Instance shared_tags : TagStore Shared := shared_store prefix interfere.

Abbreviation pointer_key := (catalog_pointer_key prefix).

(** The entity tag [GET] would serve of the subject's pointer. *)
Definition served_tag (m : Objects) : option string :=
  o ← m !! pointer_key sub_;
  match stored_seq (obj_body o) with
  | Ok (n, hash) => if tag_is_blocked (v_api state) hash then None else Some (pointer_etag n)
  | Err _ => None
  end.

(** A step of this request: a publish step that moves no other pointer, and
    moves its own only from a pointer the request's preconditions hold for. *)
Definition own_step (m m' : Objects) : Prop :=
  publish_step prefix m m'
  /\ (forall s, s <> sub_ -> m' !! pointer_key s = m !! pointer_key s)
  /\ (m' !! pointer_key sub_ <> m !! pointer_key sub_ -> preconditions_hold headers (served_tag m) = true).

Lemma own_step_keep m m' :
  publish_step prefix m m' -> (forall s, m' !! pointer_key s = m !! pointer_key s) -> own_step m m'.
Proof. intros Hs Hk. split_and!; [done|by intros; apply Hk|]. intros Hne. by destruct (Hne (Hk sub_)). Qed.

Definition good (s : Shared) : Prop :=
  sound_pointers prefix (sh_objects s) /\ Forall (fun st => own_step st.1 st.2) (sh_steps s).

(** What others may do. *)
Definition well_behaved : Prop :=
  forall log m, sound_pointers prefix m -> publish_step prefix m (interfere log m).
Context (Henv : well_behaved).

(** Facts about the objects that no publish undoes. *)
Definition lasting (I : Objects -> Prop) : Prop := forall m m', publish_step prefix m m' -> I m -> I m'.

Lemma triple_shared {A} (I : Objects -> Prop) (m : comp Bucket string A) (Q : A -> Objects -> Prop) :
  lasting I ->
  (forall b r b', m b = (r, b') -> sound_pointers prefix (objects b) -> I (objects b) ->
     own_step (objects b) (objects b') /\ match r with Ok a => Q a (objects b') | Err _ => True end) ->
  triple (fun s => good s /\ I (sh_objects s)) (shared interfere m) (fun a s => good s /\ Q a (sh_objects s)) good.
Proof.
  intros HI Hm s r s' H ((Hsound & Hsteps) & Hi). unfold shared in H.
  set (b0 := set_objects _ _) in H. destruct (m b0) as [r0 b1] eqn:Em. injection H as <- <-.
  pose proof (Henv (s3_log (sh_bucket s)) _ Hsound) as He.
  destruct (Hm _ _ _ Em) as [Hown HQ].
  { by apply (sound_step prefix (sh_objects s)). }
  { by apply (HI (sh_objects s)). }
  assert (good {| sh_bucket := b1; sh_steps := (objects b0, objects b1) :: sh_steps s |}) as Hg.
  { split; [|by constructor]. apply (sound_step prefix (objects b0)); [apply Hown|].
    by apply (sound_step prefix (sh_objects s)). }
  destruct r0; [by split|done].
Qed.

Lemma lasting_true : lasting (fun _ => True).
Proof. done. Qed.
Lemma lasting_and I J : lasting I -> lasting J -> lasting (fun m => I m /\ J m).
Proof. intros HI HJ m m' Hs [? ?]. split; [by eapply HI|by eapply HJ]. Qed.
Lemma lasting_doc h : lasting (fun m => is_Some (m !! catalog_document_key prefix h)).
Proof. intros m m' (? & _) ?. auto. Qed.
Lemma lasting_outboard h : lasting (fun m => is_Some (m !! catalog_outboard_key prefix h)).
Proof. intros m m' (_ & ? & _) ?. auto. Qed.
Lemma lasting_index h : lasting (fun m => is_Some (m !! catalog_index_key prefix h)).
Proof. intros m m' (_ & _ & ? & _) ?. auto. Qed.

(** Reads are steps that change nothing. *)
Lemma own_step_same m m' : m' = m -> own_step m m'.
Proof. intros ->. apply own_step_keep; [apply publish_step_refl|done]. Qed.

Lemma shared_read_stable {A} (m : comp Bucket string A) :
  (forall b r b', m b = (r, b') -> objects b' = objects b) ->
  stable good (shared interfere m) (fun _ => True).
Proof.
  intros Hm. apply stable_triple.
  eapply triple_weaken; [apply (triple_shared (fun _ => True) m (fun _ _ => True) lasting_true)|..].
  - intros b r b' E _ _. split; [by apply own_step_same, Hm with r|by destruct r].
  - by intros s Hs.
  - by intros a s Hs.
  - done.
Qed.

Lemma keeps_objects_or_absent what o key b r b' :
  or_absent what (read_object o key) b = (r, b') -> objects b' = objects b.
Proof. intros (r0 & H & _)%or_absent_spec. by apply read_object_objects in H as [? _]. Qed.

Lemma keeps_bind_ret {A B} (m : comp Bucket string A) (f : A -> B) b r b' :
  (forall b r b', m b = (r, b') -> objects b' = objects b) ->
  (m ≫= fun x => mret (f x)) b = (r, b') -> objects b' = objects b.
Proof.
  intros Hm H. apply comp_bind_state in H as [(a & b1 & H1 & H2)|(e & H1 & _)]; [|by eapply Hm].
  injection H2 as <- <-. by eapply Hm.
Qed.

Lemma shared_size_stable h : stable good (ts_blob_size h) (fun _ => True).
Proof. apply shared_read_stable. intros b r b'. cbn. apply keeps_bind_ret, keeps_objects_or_absent. Qed.

Lemma shared_manifest_stable h : stable good (ts_get_manifest h) (fun _ => True).
Proof. apply shared_read_stable. intros b r b'. cbn. apply keeps_bind_ret, keeps_objects_or_absent. Qed.

(** ** The base a publish replaces *)

(** What a request knows of the pointer it read. *)
Definition known_base (current : option (StoredPointer * (Z * string))) : Prop :=
  forall sp n h, current = Some (sp, (n, h)) ->
    sp_etag sp = etag_of (sp_body sp) /\ stored_seq (sp_body sp) = Ok (n, h).

Lemma triple_pointer_read :
  triple good (ts_get_catalog_pointer sub_)
    (fun o s => good s /\ forall sp, o = Some sp -> exists n h, sp_etag sp = etag_of (sp_body sp)
       /\ stored_seq (sp_body sp) = Ok (n, h) /\ is_Some (sh_objects s !! catalog_index_key prefix h)) good.
Proof.
  eapply triple_weaken; [apply (triple_shared (fun _ => True) (ts_get_catalog_pointer (TagStore := s3_tag_store prefix) sub_)
    (fun o m => forall sp, o = Some sp -> exists n h, sp_etag sp = etag_of (sp_body sp)
       /\ stored_seq (sp_body sp) = Ok (n, h) /\ is_Some (m !! catalog_index_key prefix h)) lasting_true)|..];
    [|by intros|by intros|done].
  intros b r b' H Hsound _. cbn in H. unfold get_catalog_pointer, get_object in H.
  assert (objects b' = objects b) as Ho.
  { revert H. apply keeps_bind_ret. intros b1 r1 b1'. apply keeps_bind_ret, keeps_objects_or_absent. }
  split; [by apply own_step_same|]. destruct r as [o|]; [|done]. inv_run.
  match goal with H : or_absent _ _ _ = _ |- _ => apply or_absent_spec in H as (r0 & H & Hr) end.
  match goal with H : read_object _ _ _ = _ |- _ => apply read_object_objects in H as [_ Hx] end.
  intros sp Hsp. match goal with H : context [_ <$> (_ <$> ?x)] |- _ => destruct x as [obj|] end; [|done].
  cbn in Hsp. injection Hsp as <-. cbn. subst r0. specialize (Hx obj eq_refl).
  destruct (Hsound _ _ Hx) as (n & h & He & Hs & _ & _ & Hi). exists n, h. by rewrite Ho.
Qed.

(** The index of a pointer that was read is still there. *)
Lemma triple_index_read h :
  triple (fun s => good s /\ is_Some (sh_objects s !! catalog_index_key prefix h)) (ts_get_catalog_index h)
    (fun o s => good s /\ is_Some o) good.
Proof.
  eapply triple_weaken; [apply (triple_shared _ (ts_get_catalog_index (TagStore := s3_tag_store prefix) h)
    (fun o _ => is_Some o) (lasting_index h))|..]; [|by intros|by intros|done].
  intros b r b' H _ Hi. cbn in H. unfold get_catalog_index, get_object in H.
  split; [apply own_step_same; revert H; apply keeps_bind_ret, keeps_objects_or_absent|].
  destruct r as [o|]; [|done]. inv_run.
  match goal with H : or_absent _ _ _ = _ |- _ => apply or_absent_spec in H as (r0 & H & Hr) end.
  match goal with |- is_Some (_ <$> ?x) => destruct x as [obj|]; [by eexists|] end. subst r0.
  match goal with H : read_object _ _ _ = _ |- _ => apply read_object_absent in H as Hn end.
  rewrite Hn in Hi. by destruct Hi.
Qed.

Lemma triple_read_current :
  triple good (read_current sub_)
    (fun c s => good s /\ known_base c.1 /\ (c.1 <> None -> c.2 = true)) good.
Proof.
  unfold read_current. eapply triple_bind; [apply triple_map_err, triple_pointer_read|]. intros stored.
  eapply (triple_bind _ _ _ (fun current s => good s /\ known_base current
    /\ forall sp n h, current = Some (sp, (n, h)) -> is_Some (sh_objects s !! catalog_index_key prefix h))).
  { apply triple_lift; [|by intros s [? _]]. intros current s Hc [Hg Hp]. split; [done|].
    destruct stored as [sp|]; [|injection Hc as <-; split; intros ?; done].
    destruct (Hp sp eq_refl) as (n & h & He & Hs & Hi). rewrite Hs in Hc. cbn in Hc. injection Hc as <-.
    split; [|by intros ? ? ? [= <- <- <-]]. by intros ? ? ? [= <- <- <-]. }
  intros current. destruct current as [[sp [n h]]|].
  - eapply (triple_bind _ _ _ (fun live s => good s /\ known_base (Some (sp, (n, h))) /\ live = true)).
    + intros s r s' H (Hg & Hk & Hi). specialize (Hi sp n h eq_refl).
      assert (triple (fun s => good s /\ is_Some (sh_objects s !! catalog_index_key prefix h))
        (o ← comp_map_err (fun _ => storage_unavailable) (ts_get_catalog_index h); mret (bool_decide (is_Some o)))
        (fun live s => good s /\ live = true) good) as Ht.
      { eapply triple_bind; [apply triple_map_err, triple_index_read|]. intros o. apply triple_ret.
        intros s1 [? ?]. split; [done|]. by apply bool_decide_true. }
      specialize (Ht _ _ _ H (conj Hg Hi)). destruct r as [live|]; [|done]. destruct Ht. by split_and!.
    + intros live. apply triple_ret. intros s (? & ? & ->). by split_and!.
  - eapply (triple_bind _ _ _ (fun live s => good s)); [apply triple_ret; by intros s (? & _)|].
    intros live. apply triple_ret. intros s Hs. split_and!; [done| |done]. by intros ? ? ? ?.
Qed.

(** The conditions under which the pointer is replaced. *)
Definition base_ok (seq : Z) (current : option (StoredPointer * (Z * string))) : Prop :=
  match current with
  | None => preconditions_hold headers None = true
  | Some (_, (n, h)) =>
      (n < seq)%Z
      /\ preconditions_hold headers (if tag_is_blocked (v_api state) h then None else Some (pointer_etag n)) = true
  end.

Lemma check_base_ok seq current live :
  (current <> None -> live = true) -> check_base state headers seq current live = Ok tt -> base_ok seq current.
Proof.
  intros Hlive. unfold check_base, base_ok. destruct current as [[sp [n h]]|].
  - rewrite Hlive by done. cbn. destruct (tag_is_blocked _ h); cbn;
      destruct (preconditions_hold headers _); try done; cbn; destruct (Z.leb_spec seq n); by intros.
  - cbn. by destruct (preconditions_hold headers None).
Qed.

(** ** The writes *)

(** A PUT of a catalog object, whatever its answer. *)
Lemma put_catalog_effect f id what body owner b r b' :
  (f = CatalogDocuments \/ f = CatalogOutboards \/ f = CatalogIndexes) ->
  context what (put_object (family_key prefix f id) body owner Always) b = (r, b') ->
  own_step (objects b) (objects b')
  /\ match r with Ok _ => is_Some (objects b' !! family_key prefix f id) | Err _ => True end.
Proof.
  intros Hf [[Ho Hr]|Ho]%put_context_effect.
  - split; [by apply own_step_same|]. by destruct r as [[]|].
  - rewrite Ho. split.
    + apply own_step_keep; [by apply insert_catalog_step|]. intros s. apply lookup_insert_ne.
      apply (key_ne prefix f CatalogPointers); destruct Hf as [->|[->| ->]]; done.
    + destruct r; [|done]. rewrite lookup_insert_eq. by eexists.
Qed.

Lemma triple_put_document I h body owner :
  lasting I ->
  triple (fun s => good s /\ I (sh_objects s)) (ts_put_catalog_document h body owner)
    (fun _ s => good s /\ (I (sh_objects s) /\ is_Some (sh_objects s !! catalog_document_key prefix h))) good.
Proof.
  intros HI. apply (triple_shared I _ (fun _ m => I m /\ is_Some (m !! catalog_document_key prefix h))); [done|].
  intros b r b' H _ Hi. apply (put_catalog_effect CatalogDocuments) in H as [Hs Hr]; [|by left].
  split; [done|]. destruct r; [|done]. split; [|done]. by eapply HI; [apply Hs|].
Qed.

Lemma triple_put_outboard I h body :
  lasting I ->
  triple (fun s => good s /\ I (sh_objects s)) (ts_put_catalog_outboard h body)
    (fun _ s => good s /\ (I (sh_objects s) /\ is_Some (sh_objects s !! catalog_outboard_key prefix h))) good.
Proof.
  intros HI. apply (triple_shared I _ (fun _ m => I m /\ is_Some (m !! catalog_outboard_key prefix h))); [done|].
  intros b r b' H _ Hi. apply (put_catalog_effect CatalogOutboards) in H as [Hs Hr]; [|right; by left].
  split; [done|]. destruct r; [|done]. split; [|done]. by eapply HI; [apply Hs|].
Qed.

Lemma triple_put_index I h body :
  lasting I ->
  triple (fun s => good s /\ I (sh_objects s)) (ts_put_catalog_index h body)
    (fun _ s => good s /\ (I (sh_objects s) /\ is_Some (sh_objects s !! catalog_index_key prefix h))) good.
Proof.
  intros HI. apply (triple_shared I _ (fun _ m => I m /\ is_Some (m !! catalog_index_key prefix h))); [done|].
  intros b r b' H _ Hi. apply (put_catalog_effect CatalogIndexes) in H as [Hs Hr]; [|right; by right].
  split; [done|]. destruct r; [|done]. split; [|done]. by eapply HI; [apply Hs|].
Qed.

(** The stored bundle reads back. *)
Lemma stored_seq_bundle {RT : SerdeRoundTrip SJ} p :
  publish_ok p -> stored_seq (serde_print (ser_bundle (pb_bundle p))) = Ok (pt_seq (pb_pointer p), pb_hash p).
Proof.
  intros (pb & Hd & Hp & Hh). unfold stored_seq. rewrite parse_print by reflexivity. cbn [mbind result_bind].
  assert (de_bundle "" (ser_bundle (pb_bundle p)) = Ok (pb_bundle p)) as ->.
  { destruct (pb_bundle p) as [x [a1 a2 a3 a4] y]. unfold ser_bundle. cbn [bd_pointer bd_assertion bd_credential
      as_credential_id as_authenticator_data as_client_data_json as_signature].
    unfold de_bundle. read_struct. cbn [de_string mbind result_bind]. unfold de_assertion. read_struct.
    reflexivity. }
  cbn. rewrite Hd. cbn. rewrite Hp. cbn. by rewrite Hh.
Qed.

(** The conditional PUT of the pointer. *)
Lemma pointer_put_step {RT : SerdeRoundTrip SJ} {Hinj : Inj eq eq etag_of} p current b r b' :
  publish_ok p -> known_base current -> base_ok (pt_seq (pb_pointer p)) current ->
  sound_pointers prefix (objects b) -> complete prefix (objects b) (pb_hash p) ->
  put_catalog_pointer prefix sub_ (serde_print (ser_bundle (pb_bundle p))) ((fun c => sp_etag c.1) <$> current) b = (r, b') ->
  own_step (objects b) (objects b').
Proof.
  intros Hp Hk Hbase Hsound Hc. unfold put_catalog_pointer.
  destruct (put_object _ _ _ _ b) as [r0 b0] eqn:E. intros H.
  assert (b0 = b') as -> by (destruct r0 as [|[]]; congruence). clear H.
  apply put_object_effect in E as [[Ho _]|[Hh Ho]]; [by apply own_step_same|].
  set (new := written _ _) in Ho.
  assert (forall k, k <> pointer_key sub_ -> objects b' !! k = objects b !! k) as Hother
    by (intros k Hne; rewrite Ho; by apply lookup_insert_ne).
  assert (forall f id, f <> CatalogPointers -> family_ok f ->
    objects b' !! family_key prefix f id = objects b !! family_key prefix f id) as Hfam.
  { intros f id Hne Hok. apply Hother. by apply (key_ne prefix f CatalogPointers). }
  assert (forall h, objects b' !! catalog_document_key prefix h = objects b !! catalog_document_key prefix h) as Hd
    by (intros h; by apply (Hfam CatalogDocuments)).
  assert (forall h, objects b' !! catalog_outboard_key prefix h = objects b !! catalog_outboard_key prefix h) as Hob
    by (intros h; by apply (Hfam CatalogOutboards)).
  assert (forall h, objects b' !! catalog_index_key prefix h = objects b !! catalog_index_key prefix h) as Hix
    by (intros h; by apply (Hfam CatalogIndexes)).
  (* what the condition says of the pointer being replaced *)
  assert ((forall o n h, objects b !! pointer_key sub_ = Some o -> stored_seq (obj_body o) = Ok (n, h) ->
             (n < pt_seq (pb_pointer p))%Z)
    /\ preconditions_hold headers (served_tag (objects b)) = true) as [Hlt Hpre].
  { unfold served_tag. destruct current as [[sp [n h]]|]; cbn in Hh.
    - destruct (objects b !! pointer_key sub_) as [o|] eqn:Eo; [|done].
      apply bool_decide_eq_true in Hh. destruct (Hk sp n h eq_refl) as [He Hs].
      destruct (Hsound _ _ Eo) as (n' & h' & He' & Hs' & _).
      assert (obj_body o = sp_body sp) as Hbody by (apply Hinj; congruence).
      destruct Hbase as [Hn Hpre]. rewrite Hbody, Hs in Hs'. injection Hs' as <- <-.
      split; [|cbn; by rewrite Hbody, Hs].
      intros o2 n2 h2 [= <-] Hs2. rewrite Hbody, Hs in Hs2. by injection Hs2 as <- <-.
    - destruct (objects b !! pointer_key sub_) as [o|] eqn:Eo; [done|]. split; [by intros|done]. }
  split; [|split; [|done]].
  - split; [intros h; by rewrite Hd|]. split; [intros h; by rewrite Hob|]. split; [intros h; by rewrite Hix|].
    intros s. destruct (decide (s = sub_)) as [->|Hne].
    + right. exists new, (pt_seq (pb_pointer p)), (pb_hash p). split; [rewrite Ho; apply lookup_insert_eq|].
      split; [|done]. split_and!; [done|by apply stored_seq_bundle|].
      destruct Hc as (H1 & H2 & H3). split_and!; [by rewrite Hd|by rewrite Hob|by rewrite Hix].
    + left. apply Hother. intros E. apply (family_key_inj prefix CatalogPointers CatalogPointers) in E as [_ ?]; done.
  - intros s Hne. apply Hother. intros E.
    apply (family_key_inj prefix CatalogPointers CatalogPointers) in E as [_ ?]; done.
Qed.

(** The pointer of the subject is this publish's. *)
Definition published (p : Publish) (m : Objects) : Prop :=
  exists o, m !! pointer_key sub_ = Some o /\ obj_body o = serde_print (ser_bundle (pb_bundle p)).

Lemma pointer_put_published p expected b b' :
  put_catalog_pointer prefix sub_ (serde_print (ser_bundle (pb_bundle p))) expected b = (Ok true, b') ->
  published p (objects b').
Proof.
  unfold put_catalog_pointer. destruct (put_object _ _ _ _ b) as [[[]|[]] b0] eqn:E; intros H; try discriminate H. injection H as <-.
  apply put_object_ok in E as [_ ->]. eexists. by rewrite lookup_insert_eq.
Qed.

Lemma triple_store_publish {RT : SerdeRoundTrip SJ} {Hinj : Inj eq eq etag_of} p outboard current :
  publish_ok p -> known_base current -> base_ok (pt_seq (pb_pointer p)) current ->
  triple good (store_publish sub_ p outboard ((fun c => sp_etag c.1) <$> current))
    (fun _ s => good s /\ published p (sh_objects s)) good.
Proof.
  intros Hp Hk Hb. unfold store_publish.
  eapply triple_weaken; [|intros s Hs; exact (conj Hs I)|intros a s Hs; exact Hs|done].
  eapply triple_bind; [apply triple_map_err, (triple_put_document (fun _ => True)), lasting_true|]. intros ?.
  eapply triple_bind; [apply triple_map_err, (triple_put_outboard (fun m => True /\
    is_Some (m !! catalog_document_key prefix (pb_hash p)))), lasting_and; [apply lasting_true|apply lasting_doc]|].
  intros ?.
  eapply triple_bind; [apply triple_map_err, (triple_put_index (fun m =>
    (True /\ is_Some (m !! catalog_document_key prefix (pb_hash p)))
    /\ is_Some (m !! catalog_outboard_key prefix (pb_hash p)))), lasting_and;
    [apply lasting_and; [apply lasting_true|apply lasting_doc]|apply lasting_outboard]|]. intros ?.
  eapply (triple_bind _ _ _ (fun w s => good s /\ (w = true -> published p (sh_objects s)))).
  - apply triple_map_err. apply (triple_shared
      (fun m => ((True /\ is_Some (m !! catalog_document_key prefix (pb_hash p)))
                 /\ is_Some (m !! catalog_outboard_key prefix (pb_hash p)))
                /\ is_Some (m !! catalog_index_key prefix (pb_hash p)))
      _ (fun w m => w = true -> published p m)).
    { apply lasting_and; [apply lasting_and; [apply lasting_and; [apply lasting_true|apply lasting_doc]
        |apply lasting_outboard]|apply lasting_index]. }
    intros b r b' H Hsound [[[_ H1] H2] H3]. split.
    + by eapply pointer_put_step.
    + destruct r as [w|]; [|done]. intros ->. exact (pointer_put_published _ _ _ _ H).
  - intros w. destruct w; cbn [negb]; [apply triple_ret|apply triple_throw]; intros s [? ?]; auto.
Qed.

(** ** Theorem *)

(** C4: Publishes to one bucket may run at the same time, here and on other
    nodes, with requests refused, lost or answered twice, and still: every
    write of a publish keeps each stored pointer naming a catalog whose
    document, outboard and index are stored; it moves no other creator's
    pointer; it replaces its own creator's pointer only by one with a greater
    sequence number, and only when the request's [If-Match] and
    [If-None-Match] hold for the pointer it replaces, so no update is lost.
    A publish that succeeds leaves its own bundle stored. This needs of S3
    that an entity tag identifies the stored bytes, and of serde_json that it
    reads back what it wrote. *)
Theorem concurrent_publishes_sound {RT : SerdeRoundTrip SJ} {Hinj : Inj eq eq etag_of} body t s r s' :
  sound_pointers prefix (sh_objects (v_store s)) -> sh_steps (v_store s) = [] ->
  put_catalog http_get status_get state sub_ headers body t s = (r, s') ->
  sound_pointers prefix (sh_objects (v_store s'))
  /\ Forall (fun st => own_step st.1 st.2) (sh_steps (v_store s'))
  /\ (is_ok r = true -> exists p, publish_ok p /\ published p (sh_objects (v_store s'))).
Proof.
  intros Hsound Hsteps H.
  assert (triple (fun s : V2 Shared Sp => good (v_store s))
    (put_catalog http_get status_get state sub_ headers body t)
    (fun _ s => good (v_store s) /\ exists p, publish_ok p /\ published p (sh_objects (v_store s)))
    (fun s => good (v_store s))) as Ht.
  { unfold put_catalog. eapply triple_bind; [apply stable_triple, (stable_prepare _ _ _ _ _ good shared_size_stable shared_manifest_stable)|]. intros p.
    eapply (triple_bind _ _ _ (fun c s => publish_ok p /\ good (v_store s) /\ known_base c.1
      /\ (c.1 <> None -> c.2 = true))).
    { intros s1 r1 s1' E [Hg Hp].
      pose proof (triple_zoom v_store set_v_store _ _ _ _ ltac:(done) triple_read_current _ _ _ E Hg) as Hc.
      cbn in Hc. destruct r1; [by split|done]. }
    intros [current live].
    eapply (triple_bind _ _ _ (fun _ s => publish_ok p /\ good (v_store s) /\ known_base current
      /\ base_ok (pt_seq (pb_pointer p)) current)).
    { apply triple_lift; [|by intros s1 (_ & ? & _)]. intros [] s1 Hc (Hp & Hg & Hk & Hl). split_and!; try done.
      by eapply check_base_ok. }
    intros ?. eapply (triple_bind _ _ _ (fun _ s => publish_ok p /\ good (v_store s) /\ known_base current
      /\ base_ok (pt_seq (pb_pointer p)) current)).
    { apply triple_lift; [by intros|]. by intros s1 (_ & ? & _). }
    intros outboard. eapply (triple_bind _ _ _ (fun _ s => good (v_store s) /\ exists p, publish_ok p
      /\ published p (sh_objects (v_store s)))).
    { intros s1 r1 s1' E (Hp & Hg & Hk & Hb).
      pose proof (triple_zoom v_store set_v_store _ _ _ _ ltac:(done)
        (triple_store_publish p outboard current Hp Hk Hb) _ _ _ E Hg) as Hc.
      cbn in Hc. destruct r1; [|done]. destruct Hc. split; [done|]. by exists p. }
    intros ?. by apply triple_ret. }
  specialize (Ht _ _ _ H). destruct r as [j|e]; cbn in Ht.
  - destruct Ht as [[? ?] Hp]; [split; [done|rewrite Hsteps; constructor]|]. by split_and!.
  - destruct Ht as [? ?]; [split; [done|rewrite Hsteps; constructor]|]. by split_and!.
Qed.
End Publishing.

(** ** Witness *)

Module ConcurrencySample.
#[local] Existing Instance plain_base64.
#[local] Existing Instance plain_hex.
#[local] Existing Instance toy_blake3.
#[local] Existing Instance BundleSample.sha.
#[local] Existing Instance BundleSample.p256.
#[local] Existing Instance IngestSample.tdf.
#[local] Existing Instance PublishSample.serde.
#[local] Existing Instance PublishSample.cbor_table.
#[local] Existing Instance PublishSample.cose_table.
#[local] Existing Instance PublishSample.header_plain.
#[local] Existing Instance PublishSample.no_policies.
#[local] Existing Instance PublishSample.zip.
#[local] Existing Instance PublishSample.bao.
#[local] Existing Instance PublishSample.s3.
#[local] Existing Instance PublishSample.permits.

(** The environment publishes another creator's catalog, once. *)
Definition bobs_bundle : Bundle :=
  {| bd_pointer := "bobs"; bd_credential := "c";
     bd_assertion := {| as_credential_id := "c"; as_authenticator_data := "a"; as_client_data_json := "d";
                        as_signature := "s" |} |}.
Definition bobs_pointer : object := written (serde_print (ser_bundle bobs_bundle)) None.
Definition piece : object := written "piece" None.

Definition catalog_written (m : Objects) : Objects :=
  <[family_key "" CatalogIndexes PublishSample.bobs_hash := piece]>
    (<[family_key "" CatalogOutboards PublishSample.bobs_hash := piece]>
       (<[family_key "" CatalogDocuments PublishSample.bobs_hash := piece]> m)).
Definition bob (_ : list s3_op) (m : Objects) : Objects :=
  match m !! catalog_pointer_key "" "bob" with
  | Some _ => m
  | None => <[catalog_pointer_key "" "bob" := bobs_pointer]> (catalog_written m)
  end.

Lemma bobs_seq : stored_seq (obj_body bobs_pointer) = Ok (7%Z, PublishSample.bobs_hash).
Proof. vm_compute. reflexivity. Qed.

Lemma bob_well_behaved : well_behaved "" bob.
Proof.
  intros log m _. unfold bob. destruct (m !! catalog_pointer_key "" "bob") eqn:E; [apply publish_step_refl|].
  apply (publish_step_trans "" m (catalog_written m)).
  { unfold catalog_written. eapply publish_step_trans; [|apply insert_catalog_step; right; by right].
    eapply publish_step_trans; [|apply insert_catalog_step; right; by left]. apply insert_catalog_step. by left. }
  assert (forall sub, catalog_written m !! catalog_pointer_key "" sub = m !! catalog_pointer_key "" sub) as Hp.
  { intros sub. unfold catalog_written. change (catalog_pointer_key "" sub) with (family_key "" CatalogPointers sub).
    by rewrite !lookup_insert_ne by (by apply key_ne). }
  assert (forall f id, f <> CatalogPointers -> family_ok f ->
    <[catalog_pointer_key "" "bob" := bobs_pointer]> (catalog_written m) !! family_key "" f id
    = catalog_written m !! family_key "" f id) as Hf.
  { intros f id Hne Hok. apply lookup_insert_ne. change (catalog_pointer_key "" "bob") with (family_key "" CatalogPointers "bob").
    apply key_ne; done. }
  assert (forall h, <[catalog_pointer_key "" "bob" := bobs_pointer]> (catalog_written m) !! catalog_document_key "" h
    = catalog_written m !! catalog_document_key "" h) as Hd by (intros h; by apply (Hf CatalogDocuments)).
  assert (forall h, <[catalog_pointer_key "" "bob" := bobs_pointer]> (catalog_written m) !! catalog_outboard_key "" h
    = catalog_written m !! catalog_outboard_key "" h) as Ho by (intros h; by apply (Hf CatalogOutboards)).
  assert (forall h, <[catalog_pointer_key "" "bob" := bobs_pointer]> (catalog_written m) !! catalog_index_key "" h
    = catalog_written m !! catalog_index_key "" h) as Hi by (intros h; by apply (Hf CatalogIndexes)).
  split; [intros h; by rewrite Hd|]. split; [intros h; by rewrite Ho|]. split; [intros h; by rewrite Hi|].
  intros sub. destruct (decide (sub = "bob")) as [->|Hne].
  - right. exists bobs_pointer, 7%Z, PublishSample.bobs_hash. split; [apply lookup_insert_eq|]. split.
    + split; [done|]. split; [apply bobs_seq|]. unfold complete. rewrite Hd, Ho, Hi. unfold catalog_written.
      change (catalog_document_key "" PublishSample.bobs_hash) with (family_key "" CatalogDocuments PublishSample.bobs_hash).
      change (catalog_outboard_key "" PublishSample.bobs_hash) with (family_key "" CatalogOutboards PublishSample.bobs_hash).
      change (catalog_index_key "" PublishSample.bobs_hash) with (family_key "" CatalogIndexes PublishSample.bobs_hash).
      rewrite lookup_insert_eq. rewrite (lookup_insert_ne _ _ (family_key "" CatalogOutboards _)) by (by apply key_ne).
      rewrite lookup_insert_eq. rewrite !(lookup_insert_ne _ _ (family_key "" CatalogDocuments _)) by (by apply key_ne).
      rewrite lookup_insert_eq. split_and!; by eexists.
    + intros o seq h Hl. rewrite Hp, E in Hl. done.
  - left. apply lookup_insert_ne. intros Ek.
    apply (family_key_inj "" CatalogPointers CatalogPointers) in Ek as [_ ?]; done.
Qed.

Definition empty_store : Shared := {| sh_bucket := PublishSample.empty_bucket; sh_steps := [] |}.

#[local] Instance round_trip : SerdeRoundTrip PublishSample.serde.
Proof. apply named_serde_round_trip. vm_compute. reflexivity. Qed.
#[local] Instance etag_inj : Inj eq eq (etag_of (S3Service := PublishSample.s3)).
Proof. intros x y H. exact H. Qed.

Definition run : result refusal json * V2 Shared unit :=
  put_catalog (TS := shared_tags "" bob) PublishSample.offline PublishSample.offline PublishSample.state PublishSample.me
    PublishSample.headers PublishSample.body PublishSample.clocks (PublishSample.start empty_store).

(** A publish of ours while bob publishes: both pointers are stored. *)
Lemma concurrent_publishes_sound_witness :
  is_ok run.1 = true /\ sound_pointers "" (sh_objects (v_store run.2)).
Proof.
  split; [vm_compute; reflexivity|].
  pose proof (concurrent_publishes_sound PublishSample.offline PublishSample.offline PublishSample.state "" bob
    PublishSample.me PublishSample.headers bob_well_behaved PublishSample.body
    PublishSample.clocks (PublishSample.start empty_store) run.1 run.2) as H.
  apply H; [intros sub o Ho; discriminate Ho|reflexivity|]. unfold run. apply surjective_pairing.
Defined.
End ConcurrencySample.
