(* ===== verification/S3Reader.v ===== *)
(** * Reading an object through one open GET (src/s3_serve.rs, [S3Reader])

    The reader that serves ranges of one S3 object: it keeps a GET open, reads
    on from where it stands, skips small gaps and opens a new GET for any
    other jump. How the bytes of a body arrive, and when reading fails, is a
    parameter. *)

From S2P Require Import Prelude Bytes Identifiers Extern Samples S3Store Validation.

(** ** The range reader *)

Definition SKIP_LIMIT : Z := 256 * 1024.
Definition SKIP_BUFFER : Z := 64 * 1024.

(** A body being received: where it stands, the bytes still to come, and how
    they will arrive, one entry for each [body.read]: the most bytes it
    brings, or [None] for one that fails or stalls. Past the entries every
    read brings all it asks for. *)
Record OpenGet := { og_pos : Z; og_rest : bytes; og_plan : list (option positive) }.

Class Transport := {
  (** How the body of a GET arrives, given the requests so far. *)
  body_plan : list s3_op -> list (option positive);
  (** A write to the fetcher, given what was written before: [Some n] when it
      fails after [n] bytes. *)
  peer_fails : bytes -> bytes -> option nat
}.

Record S3Reader := { rs_key : string; rs_size : Z; rs_open : option OpenGet }.

Definition reader_new (key : string) (size : Z) : S3Reader :=
  {| rs_key := key; rs_size := size; rs_open := None |}.

(** The bytes from [n] on. *)
Definition skip (n : nat) (s : bytes) : bytes := String.substring n (String.length s - n) s.

(** [body.read(&mut buf)] with room for [want] bytes. *)
Definition body_read (want : nat) : comp OpenGet string bytes := fun o =>
  let give (n : nat) (plan : list (option positive)) : result string bytes * OpenGet :=
    (Ok (String.substring 0 n (og_rest o)),
     {| og_pos := og_pos o; og_rest := skip n (og_rest o); og_plan := plan |}) in
  match og_plan o with
  | None :: plan => (Err "S3 GET stalled", {| og_pos := og_pos o; og_rest := og_rest o; og_plan := plan |})
  | Some n :: plan => give (Nat.min (Pos.to_nat n) want) plan
  | [] => give want []
  end.

(** Every read brings a byte or ends the loop, so [want] is enough fuel. *)
Fixpoint read_exact_loop (fuel want : nat) : comp OpenGet string bytes :=
  if (want =? 0)%nat then mret ""
  else
    match fuel with
    | O => throw "out of fuel"
    | S fuel =>
        b ← body_read want;
        if (String.length b =? 0)%nat then throw "unexpected end of file"
        else
          rest ← read_exact_loop fuel (want - String.length b);
          mret (b +:+ rest)
    end.

Definition read_exact (want : nat) : comp OpenGet string bytes := read_exact_loop want want.

Definition advance (n : Z) (o : OpenGet) : OpenGet :=
  {| og_pos := (og_pos o + n)%Z; og_rest := og_rest o; og_plan := og_plan o |}.

(** The skipping loop of [open_at]. *)
Fixpoint skip_to (fuel : nat) (offset : Z) : comp OpenGet string unit :=
  o ← get;
  if (og_pos o <? offset)%Z then
    match fuel with
    | O => throw "out of fuel"
    | S fuel =>
        let n := Z.min (offset - og_pos o) SKIP_BUFFER in
        _ ← read_exact (Z.to_nat n);
        _ ← modify (advance n);
        skip_to fuel offset
    end
  else mret tt.

(** At most [SKIP_LIMIT / SKIP_BUFFER] rounds. *)
Definition SKIP_ROUNDS : nat := 4.

Section Reader.
Context {S3 : S3Service} {TR : Transport}.

(** A reader and the bucket it reads. *)
Record ReaderState := { rg_reader : S3Reader; rg_bucket : Bucket }.

Definition set_open (o : option OpenGet) (g : ReaderState) : ReaderState :=
  {| rg_reader := {| rs_key := rs_key (rg_reader g); rs_size := rs_size (rg_reader g); rs_open := o |};
     rg_bucket := rg_bucket g |}.
Definition set_reading_bucket (b : Bucket) (g : ReaderState) : ReaderState :=
  {| rg_reader := rg_reader g; rg_bucket := b |}.

(** An operation on the open body. *)
Definition on_open {A} (m : comp OpenGet string A) : comp ReaderState string A := fun g =>
  match rs_open (rg_reader g) with
  | None => (Err "opened above", g)
  | Some o => let '(r, o') := m o in (r, set_open (Some o') g)
  end.

Definition reusable (o : option OpenGet) (offset : Z) : bool :=
  match o with
  | Some o => (og_pos o <=? offset)%Z && (offset - og_pos o <=? SKIP_LIMIT)%Z
  | None => false
  end.

(** The new GET of [open_at], when the open one cannot be used. *)
Definition reopen (offset : Z) : comp ReaderState string unit :=
  _ ← modify (set_open None);
  g ← get;
  let key := rs_key (rg_reader g) in
  found ← zoom rg_bucket set_reading_bucket (get_object_from key offset);
  body ← lift (ok_or found (key +:+ " is not in S3"));
  g ← get;
  modify (set_open (Some {| og_pos := offset; og_rest := body;
                            og_plan := body_plan (s3_log (rg_bucket g)) |})).

Definition open_at (offset : Z) : comp ReaderState string unit :=
  g ← get;
  _ ← (if reusable (rs_open (rg_reader g)) offset then mret tt else reopen offset);
  on_open (skip_to SKIP_ROUNDS offset).

(** The inner block of [read_at]. *)
Definition read_range (offset : Z) (n : nat) : comp ReaderState string bytes :=
  _ ← open_at offset;
  on_open (buf ← read_exact n; _ ← modify (advance (Z.of_nat n)); mret buf).

(** [S3Reader::read_at]; a failed read forgets the body. *)
Definition reader_read_at (offset : Z) (n : nat) : comp ReaderState string bytes := fun g =>
  let size := rs_size (rg_reader g) in
  if (size <=? offset)%Z || (n =? 0)%nat then (Ok "", g)
  else
    let n := Nat.min n (Z.to_nat (size - offset)) in
    match read_range offset n g with
    | (Ok b, g') => (Ok b, g')
    | (Err e, g') => (Err e, set_open None g')
    end.
End Reader.

(** ** Facts: what a read returns *)

Lemma skip_0 s : skip 0 s = s.
Proof. unfold skip. apply substring_all. lia. Qed.

Lemma skip_cons n c s : skip (S n) (String c s) = skip n s.
Proof. done. Qed.

Lemma skip_nil n : skip n "" = "".
Proof. by destruct n. Qed.

Lemma skip_skip a b s : skip a (skip b s) = skip (b + a) s.
Proof.
  revert b; induction s as [|c s IH]; intros [|b]; rewrite ?skip_nil, ?skip_0; try done.
  cbn [Nat.add]. rewrite !skip_cons. apply IH.
Qed.

Lemma skip_length n s : String.length (skip n s) = (String.length s - n)%nat.
Proof. unfold skip. rewrite substring_length. lia. Qed.

Lemma substring_nil a n : String.substring a n "" = "".
Proof. by destruct a, n. Qed.

Lemma substring_skip k n s : String.substring 0 n (skip k s) = String.substring k n s.
Proof.
  revert k; induction s as [|c s IH]; intros [|k]; rewrite ?skip_nil, ?skip_0, ?substring_nil; try done.
  rewrite skip_cons. apply IH.
Qed.

Lemma substring_split k m s :
  String.substring 0 k s +:+ String.substring 0 m (skip k s) = String.substring 0 (k + m) s.
Proof.
  rewrite substring_skip. revert k; induction s as [|c s IH]; intros [|k].
  - by destruct m.
  - by destruct m.
  - done.
  - cbn [Nat.add String.substring]. rewrite <- IH. done.
Qed.

Lemma body_read_ok want o b o' :
  body_read want o = (Ok b, o') ->
  exists k, (k <= want)%nat /\ b = String.substring 0 k (og_rest o)
    /\ og_rest o' = skip k (og_rest o) /\ og_pos o' = og_pos o.
Proof.
  unfold body_read. destruct (og_plan o) as [|[n|] plan]; intros [= <- <-].
  - by exists want.
  - exists (Nat.min (Pos.to_nat n) want). split; [lia|done].
Qed.

(** A filled buffer holds the next bytes of the body. *)
Lemma read_exact_loop_ok fuel want o b o' :
  read_exact_loop fuel want o = (Ok b, o') ->
  (want <= String.length (og_rest o))%nat /\ b = String.substring 0 want (og_rest o)
  /\ og_rest o' = skip want (og_rest o) /\ og_pos o' = og_pos o.
Proof.
  revert want o b; induction fuel as [|fuel IH]; intros want o b H; cbn in H;
    destruct (Nat.eqb_spec want 0) as [->|Hw].
  1,3: unfold mret, comp_ret in H; injection H as <- <-;
    split_and!; [lia|by destruct (og_rest o)|by rewrite skip_0|done].
  - done.
  - inv_run. apply body_read_ok in H0 as (k & Hk & -> & Hr & Hp).
    destruct (Nat.eqb_spec (String.length (String.substring 0 k (og_rest o))) 0) as [|Hne]; inv_run.
    rewrite substring_length, Nat.sub_0_r in *.
    assert (k <= String.length (og_rest o))%nat as Hl.
    { destruct (Nat.le_gt_cases k (String.length (og_rest o))); [done|].
      apply IH in H0 as (H0 & _). rewrite Hr, skip_length in H0. lia. }
    rewrite Nat.min_l in * by done.
    apply IH in H0 as (Hw' & -> & Hr' & Hp'). rewrite Hr, skip_length in *. split_and!; [lia| | |congruence].
    + rewrite substring_split. f_equal. lia.
    + rewrite Hr', skip_skip. f_equal. lia.
Qed.

(** The open body continues [data] where it stands. *)
Definition continues (data : bytes) (o : OpenGet) : Prop :=
  (0 <= og_pos o)%Z /\ og_rest o = skip (Z.to_nat (og_pos o)) data.

Lemma read_advance data n o b o' :
  continues data o -> read_exact n o = (Ok b, o') ->
  (Z.to_nat (og_pos o) + n <= String.length data \/ n = 0)%nat
  /\ b = String.substring (Z.to_nat (og_pos o)) n data /\ continues data (advance (Z.of_nat n) o').
Proof.
  intros [Hp Hr] (Hl & -> & Hr' & Hp')%read_exact_loop_ok. rewrite Hr, skip_length in *. split_and!.
  - lia.
  - apply substring_skip.
  - split; cbn [advance og_pos og_rest]; rewrite Hp'; [lia|].
    rewrite Hr', skip_skip. f_equal. lia.
Qed.

Lemma get_bind {S E A} (f : S -> comp S E A) s : (get ≫= f) s = f s s.
Proof. done. Qed.
Lemma modify_bind {S E A} (h : S -> S) (f : unit -> comp S E A) s : (modify h ≫= f) s = f tt (h s).
Proof. done. Qed.

Lemma skip_to_ok data fuel offset o o' :
  continues data o -> skip_to fuel offset o = (Ok tt, o') ->
  continues data o' /\ og_pos o' = Z.max (og_pos o) offset.
Proof.
  revert o; induction fuel as [|fuel IH]; intros o Hc H; cbn [skip_to] in H; rewrite get_bind in H;
    destruct (Z.ltb_spec (og_pos o) offset) as [Hlt|?]; inv_run; try (split; [done|lia]).
  injection H1 as <- <-. rename H0 into Hread.
  pose proof (read_exact_loop_ok _ _ _ _ _ Hread) as (_ & _ & _ & Hp).
  apply (read_advance data) in Hread as (_ & _ & Hread); [|done].
  rewrite Z2Nat.id in Hread by (unfold SKIP_BUFFER; lia).
  apply IH in H as [? Hp']; [|done].
  split; [done|]. rewrite Hp'. cbn [advance og_pos]. rewrite Hp. unfold SKIP_BUFFER. lia.
Qed.

(** What a reader of [size] bytes promises for the range, from [data]. *)
Definition slice (data : bytes) (size offset : Z) (n : nat) : bytes :=
  if (size <=? offset)%Z || (n =? 0)%nat then ""
  else String.substring (Z.to_nat offset) (Nat.min n (Z.to_nat (size - offset))) data.

(** Where the body stands after the range was read. *)
Definition read_end (size pos offset : Z) (n : nat) : Z :=
  if (size <=? offset)%Z || (n =? 0)%nat then pos
  else (offset + Z.of_nat (Nat.min n (Z.to_nat (size - offset))))%Z.

Section ReaderFacts.
Context {S3 : S3Service} {TR : Transport}.

Definition body_at (key : string) (m : gmap string object) : bytes :=
  match m !! key with Some o => obj_body o | None => "" end.

(** The reader of [key] over the objects [m]. *)
Definition reads (m : gmap string object) (key : string) (size : Z) (g : ReaderState) : Prop :=
  rs_key (rg_reader g) = key /\ rs_size (rg_reader g) = size /\ objects (rg_bucket g) = m
  /\ (forall o, rs_open (rg_reader g) = Some o -> continues (body_at key m) o).

Lemma read_object_log o key b r b' :
  read_object o key b = (r, b') -> s3_log b' = o :: s3_log b.
Proof.
  unfold read_object, begin_op, get, throw, lift, mbind, comp_bind.
  destruct (s3_fault _ _); intros; simplify_eq/=; done.
Qed.

Lemma get_object_from_spec key start b r b' :
  get_object_from key start b = (r, b') ->
  objects b' = objects b /\ s3_log b' = OpGetFrom key start :: s3_log b
  /\ (forall body, r = Ok (Some body) -> body = skip (Z.to_nat start) (body_at key (objects b))).
Proof.
  unfold get_object_from. intros H.
  apply comp_bind_state in H as [(found & b1 & H1 & H)|(e & H1 & ->)];
    apply or_absent_spec in H1 as (r0 & H1 & Hr0);
    pose proof (read_object_log _ _ _ _ _ H1) as Hl; apply read_object_objects in H1 as [Ho Hx]; [|done].
  destruct found as [o|]; [|by injection H as <- <-].
  destruct ((0 <? start)%Z && _); injection H as <- <-; split_and!; try done.
  intros body [= <-]. unfold body_at. by rewrite (Hx o Hr0).
Qed.

Lemma reopen_spec m key size offset g r g' :
  reads m key size g -> (0 <= offset)%Z -> reopen offset g = (r, g') ->
  reads m key size g' /\ s3_log (rg_bucket g') = OpGetFrom key offset :: s3_log (rg_bucket g)
  /\ (r = Ok tt -> exists o, rs_open (rg_reader g') = Some o /\ og_pos o = offset).
Proof.
  intros (Hk & Hs & Ho & _) Hoff. unfold reopen. rewrite modify_bind, get_bind. cbn [set_open rg_reader rs_key].
  rewrite Hk. unfold mbind at 1, comp_bind at 1, zoom at 1. cbn [set_open rg_bucket].
  destruct (get_object_from key offset (rg_bucket g)) as [r0 b1] eqn:E.
  apply get_object_from_spec in E as (Hob & Hl & Hbody).
  assert (reads m key size (set_open None (set_reading_bucket b1 g))) as Hr.
  { split_and!; [done..|cbn; congruence|done]. }
  destruct r0 as [[body|]|e]; cbn; intros [= <- <-]; [|done..].
  split_and!; try done; [|intros _; by eexists].
  split_and!; try done; [cbn; congruence|]. intros o [= <-]. split; [done|]. cbn. by rewrite (Hbody body eq_refl), Ho.
Qed.

(** The body the reader continues with, and the request it cost. *)
Lemma open_at_spec m key size offset g r g' :
  reads m key size g -> (0 <= offset)%Z -> open_at offset g = (r, g') ->
  reads m key size (match r with Ok _ => g' | Err _ => set_open None g' end)
  /\ s3_log (rg_bucket g') = (if reusable (rs_open (rg_reader g)) offset then s3_log (rg_bucket g)
                              else OpGetFrom key offset :: s3_log (rg_bucket g))
  /\ (r = Ok tt -> exists o, rs_open (rg_reader g') = Some o /\ og_pos o = offset).
Proof.
  intros Hr Hoff H. unfold open_at in H. rewrite get_bind in H.
  set (log := if reusable _ _ then s3_log _ else _).
  apply comp_bind_state in H as [([] & g1 & H1 & H)|(e & H1 & ->)].
  2: { destruct (reusable _ _); [done|]. apply (reopen_spec m key size) in H1 as ((? & ? & ? & _) & Hl & _); [|done..].
       split_and!; [by split_and!|exact Hl|done]. }
  assert (reads m key size g1 /\ s3_log (rg_bucket g1) = log
    /\ forall o, rs_open (rg_reader g1) = Some o -> (og_pos o <= offset)%Z) as (Hr1 & Hl1 & Hp1).
  { subst log. destruct (reusable (rs_open (rg_reader g)) offset) eqn:Eu.
    - injection H1 as <-. split_and!; [done..|]. intros o Eo. rewrite Eo in Eu. unfold reusable in Eu. lia.
    - apply (reopen_spec m key size) in H1 as (? & ? & Hp); [|done..]. split_and!; [done..|].
      destruct (Hp eq_refl) as (o & Eo & <-). intros o'. rewrite Eo. by intros [= <-]. }
  destruct Hr1 as (Hk & Hs & Ho & Hc). unfold on_open in H.
  destruct (rs_open (rg_reader g1)) as [o|] eqn:Eo; [|by injection H as <- <-].
  destruct (skip_to _ _ o) as [r0 o1] eqn:Es. injection H as <- <-. destruct r0 as [[]|e]; [|done].
  apply (skip_to_ok (body_at key m)) in Es as [Hc1 Hpos]; [|by apply Hc].
  split_and!; [|exact Hl1|].
  - split_and!; [done..|]. by intros ? [= <-].
  - intros _. exists o1. split; [done|]. specialize (Hp1 o eq_refl). lia.
Qed.

Lemma read_range_spec m key size offset n g r g' :
  reads m key size g -> (0 <= offset)%Z -> read_range offset n g = (r, g') ->
  reads m key size (match r with Ok _ => g' | Err _ => set_open None g' end)
  /\ s3_log (rg_bucket g') = (if reusable (rs_open (rg_reader g)) offset then s3_log (rg_bucket g)
                              else OpGetFrom key offset :: s3_log (rg_bucket g))
  /\ (forall b, r = Ok b -> b = String.substring (Z.to_nat offset) n (body_at key m)
      /\ exists o, rs_open (rg_reader g') = Some o /\ og_pos o = (offset + Z.of_nat n)%Z).
Proof.
  intros Hr Hoff E. unfold read_range in E.
  apply comp_bind_state in E as [([] & g1 & H1 & H2)|(e & H1 & ->)];
    apply (open_at_spec m key size) in H1 as (Hr1 & Hl1 & Ho1); try done.
  destruct (Ho1 eq_refl) as (o & Eo & Hpos). unfold on_open in H2. rewrite Eo in H2.
  destruct Hr1 as (Hk1 & Hs1 & Hob1 & Hc1). specialize (Hc1 o Eo).
  unfold mbind, comp_bind in H2. destruct (read_exact n o) as [[buf|e] o1] eqn:Er;
    injection H2 as <- <-; [|by split_and!].
  pose proof (read_exact_loop_ok _ _ _ _ _ Er) as (_ & _ & _ & Hpos').
  apply (read_advance (body_at key m)) in Er as (_ & -> & Hcont); [|done]. rewrite Hpos.
  split_and!; [split_and!; [done..|by intros ? [= <-]]|exact Hl1|].
  intros b [= <-]. split; [done|]. eexists. split; [done|]. cbn [advance og_pos]. congruence.
Qed.

(** A read that succeeds returns the range of the object, clipped to the
    declared size; whatever happens the reader stays one of that object, and
    it costs a GET exactly when the open body cannot be used. *)
Lemma reader_read_at_spec m key size offset n g r g' :
  reads m key size g -> (0 <= offset)%Z -> reader_read_at offset n g = (r, g') ->
  reads m key size g'
  /\ s3_log (rg_bucket g') = (if (size <=? offset)%Z || (n =? 0)%nat || reusable (rs_open (rg_reader g)) offset
                              then s3_log (rg_bucket g) else OpGetFrom key offset :: s3_log (rg_bucket g))
  /\ (forall b, r = Ok b -> b = slice (body_at key m) size offset n
      /\ (forall pos, og_pos <$> rs_open (rg_reader g) = Some pos \/ (size <=? offset)%Z || (n =? 0)%nat = false ->
          og_pos <$> rs_open (rg_reader g') = Some (read_end size pos offset n))).
Proof.
  intros Hr Hoff. pose proof Hr as (Hk & Hs & Ho & Hc). unfold reader_read_at, slice, read_end. rewrite Hs.
  destruct ((size <=? offset)%Z || (n =? 0)%nat) eqn:Edge.
  { intros [= <- <-]. split_and!; try done. intros b [= <-]. split; [done|]. by intros pos [Hp|?]. }
  cbn [orb]. destruct (read_range _ _ g) as [r0 g0] eqn:E.
  apply (read_range_spec m key size) in E as (Hr1 & Hl1 & Hb); [|done..].
  destruct r0 as [b|e]; intros [= <- <-]; [|by split_and!].
  split_and!; [done..|]. intros b' [= <-]. destruct (Hb b eq_refl) as (-> & o & -> & <-). by split.
Qed.

(** ** Facts: reads succeed on a store without faults *)

Definition steady (o : OpenGet) : Prop := Forall is_Some (og_plan o).

Lemma body_read_live want o :
  steady o -> exists k o', (Nat.min 1 want <= k <= want)%nat /\ steady o'
    /\ body_read want o = (Ok (String.substring 0 k (og_rest o)), o').
Proof.
  unfold steady, body_read. intros Hs. destruct (og_plan o) as [|[n|] plan]; [|inversion_clear Hs..].
  - eexists want, _. split_and!; [lia..| |done]. constructor.
  - eexists (Nat.min (Pos.to_nat n) want), _. by split_and!; [lia..| |done].
  - by destruct H.
Qed.

Lemma read_exact_live fuel want o :
  steady o -> (want <= fuel)%nat -> (want <= String.length (og_rest o))%nat ->
  exists b o', read_exact_loop fuel want o = (Ok b, o') /\ steady o'.
Proof.
  revert want o; induction fuel as [|fuel IH]; intros want o Hs Hf Hl; cbn [read_exact_loop];
    destruct (Nat.eqb_spec want 0) as [->|Hw]; try (eexists _, _; by split); [lia|].
  destruct (body_read_live want o Hs) as (k & o1 & Hk & Hs1 & E).
  pose proof (body_read_ok _ _ _ _ E) as (k' & Hk' & Hb & Hr & _).
  unfold mbind, comp_bind. rewrite E.
  assert (String.length (String.substring 0 k (og_rest o)) = k) as Hlen by (rewrite substring_length; lia).
  rewrite Hlen. destruct (Nat.eqb_spec k 0); [lia|].
  assert (k' = k) as ->. { rewrite Hb, substring_length in Hlen. lia. }
  destruct (IH (want - k)%nat o1) as (b & o2 & -> & Hs2); [done|lia|rewrite Hr, skip_length; lia|].
  by eexists _, _.
Qed.

Lemma skip_to_live data fuel offset o :
  continues data o -> steady o -> (offset <= len data)%Z ->
  (offset - og_pos o <= Z.of_nat fuel * SKIP_BUFFER)%Z ->
  exists o', skip_to fuel offset o = (Ok tt, o') /\ steady o'.
Proof.
  revert o; induction fuel as [|fuel IH]; intros o Hc Hs Hl Hf; cbn [skip_to]; rewrite get_bind;
    destruct (Z.ltb_spec (og_pos o) offset); try (by exists o); [lia|].
  set (n := (Z.min (offset - og_pos o) SKIP_BUFFER)%Z). pose proof Hc as [Hp Hr].
  assert (0 < SKIP_BUFFER)%Z by done.
  destruct (read_exact_live (Z.to_nat n) (Z.to_nat n) o) as (b & o1 & E & Hs1); [done..| |].
  { rewrite Hr, skip_length. unfold len in Hl. lia. }
  unfold mbind at 1, comp_bind at 1, read_exact at 1. rewrite E, modify_bind.
  pose proof (read_exact_loop_ok _ _ _ _ _ E) as (_ & _ & _ & Hpos).
  apply (read_advance data) in E as (_ & _ & Hc1); [|done]. rewrite Z2Nat.id in Hc1 by lia.
  apply IH; [done..|]. cbn [advance og_pos]. rewrite Hpos. lia.
Qed.

(** A service that refuses no request and whose bodies arrive. *)
Definition faultless : Prop :=
  (forall log o, s3_fault log o = Healthy) /\ (forall log, Forall is_Some (body_plan log)).

Definition steady_reader (g : ReaderState) : Prop := forall o, rs_open (rg_reader g) = Some o -> steady o.

Lemma reopen_live m key size offset g obj :
  faultless -> reads m key size g -> m !! key = Some obj -> (0 <= offset < len (obj_body obj))%Z ->
  exists g', reopen offset g = (Ok tt, g') /\ steady_reader g'.
Proof.
  intros [Hf Hp] (Hk & _ & Ho & _) Hobj Hoff. unfold reopen. rewrite modify_bind, get_bind.
  cbn [set_open rg_reader rs_key]. rewrite Hk. unfold mbind at 1, comp_bind at 1, zoom at 1. cbn [set_open rg_bucket].
  unfold get_object_from, or_absent, read_object, begin_op, mbind, comp_bind, get, lift.
  rewrite Hf. cbn [log_op objects]. rewrite Ho, Hobj. cbn [ok_or].
  replace ((0 <? offset)%Z && (len (obj_body obj) <=? offset)%Z) with false by lia.
  cbn. eexists. split; [done|]. intros o [= <-]. apply Hp.
Qed.

Lemma read_range_live m key size offset n g obj :
  faultless -> reads m key size g -> steady_reader g -> m !! key = Some obj ->
  (0 <= offset < len (obj_body obj))%Z -> (offset + Z.of_nat n <= len (obj_body obj))%Z ->
  exists b g', read_range offset n g = (Ok b, g') /\ steady_reader g'.
Proof.
  intros Hf Hr Hst Hobj Hoff Hn.
  assert (body_at key m = obj_body obj) as Hbody by (unfold body_at; by rewrite Hobj).
  assert (exists g1, open_at offset g = (Ok tt, g1) /\ steady_reader g1) as (g1 & E1 & Hst1).
  { unfold open_at. rewrite get_bind.
    assert (exists g1 o, (if reusable (rs_open (rg_reader g)) offset then mret tt else reopen offset) g = (Ok tt, g1)
      /\ rs_open (rg_reader g1) = Some o /\ continues (obj_body obj) o /\ steady o
      /\ (offset - og_pos o <= SKIP_LIMIT)%Z) as (g1 & o & E & Eo & Hc & Hs & Hskip).
    { destruct (reusable (rs_open (rg_reader g)) offset) eqn:Eu.
      - destruct (rs_open (rg_reader g)) as [o|] eqn:Eo; [|done]. exists g, o. destruct Hr as (_ & _ & _ & Hc).
        rewrite Hbody in Hc. split_and!; auto. unfold reusable in Eu. lia.
      - destruct (reopen_live m key size offset g obj) as (g1 & E & Hs); [done..|].
        pose proof (reopen_spec m key size offset g _ _ Hr (proj1 Hoff) E) as ((_ & _ & _ & Hc) & _ & Ho).
        destruct (Ho eq_refl) as (o & Eo & Hpos). rewrite Hbody in Hc. exists g1, o. split_and!; auto.
        rewrite Hpos. unfold SKIP_LIMIT. lia. }
    unfold mbind, comp_bind. rewrite E. unfold on_open. rewrite Eo.
    destruct (skip_to_live (obj_body obj) SKIP_ROUNDS offset o) as (o1 & -> & Hs1); [done..|lia| |].
    { unfold SKIP_ROUNDS, SKIP_BUFFER, SKIP_LIMIT in *. lia. }
    eexists. split; [done|]. by intros o' [= <-]. }
  destruct (open_at_spec m key size offset g _ _ Hr (proj1 Hoff) E1) as ((_ & _ & _ & Hc) & _ & Ho).
  destruct (Ho eq_refl) as (o & Eo & Hpos). unfold read_range, mbind, comp_bind. rewrite E1.
  unfold on_open. rewrite Eo. unfold read_exact.
  destruct (read_exact_live n n o) as (b & o1 & -> & Hs1); [by apply Hst1|done| |].
  { destruct (Hc o Eo) as [_ ->]. rewrite Hbody, skip_length, Hpos. unfold len in Hn. lia. }
  cbn. eexists _, _. split; [done|]. by intros o' [= <-].
Qed.

(** The object is there, at its full size. *)
Definition complete (m : gmap string object) (key : string) (size : Z) : Prop :=
  (0 < size)%Z -> exists obj, m !! key = Some obj /\ (size <= len (obj_body obj))%Z.

Lemma reader_read_at_live m key size offset n g :
  faultless -> reads m key size g -> steady_reader g -> (0 <= offset)%Z -> complete m key size ->
  exists b g', reader_read_at offset n g = (Ok b, g') /\ steady_reader g'.
Proof.
  intros Hf Hr Hst Hoff Hobj. unfold reader_read_at. pose proof Hr as (Hk & Hs & Ho & Hc). rewrite Hs.
  destruct (Z.leb_spec size offset); [by eexists _, _|]. destruct (Nat.eqb_spec n 0); [by eexists _, _|]. cbn [orb].
  destruct Hobj as (obj & Hobj & Hlen); [lia|].
  destruct (read_range_live m key size offset (Nat.min n (Z.to_nat (size - offset))) g obj) as (b & g' & -> & ?);
    [done..|lia|lia|]. by eexists _, _.
Qed.

(** ** Sequences of reads *)

(** The ranges a reader is asked for, one after the other, until one fails. *)
Fixpoint read_all (l : list (Z * nat)) : comp ReaderState string (list bytes) :=
  match l with
  | [] => mret []
  | (offset, n) :: l =>
      b ← reader_read_at offset n;
      bs ← read_all l;
      mret (b :: bs)
  end.

(** Ranges in order, each at most [SKIP_LIMIT] past the end of the last. *)
Fixpoint ascending (size pos : Z) (l : list (Z * nat)) : Prop :=
  match l with
  | [] => True
  | (offset, n) :: l =>
      (0 <= pos <= offset)%Z /\ (offset - pos <= SKIP_LIMIT)%Z /\ ascending size (read_end size pos offset n) l
  end.

Definition nonneg (l : list (Z * nat)) : Prop := Forall (fun x => (0 <= x.1)%Z) l.

Lemma read_all_ok m key size l g bs g' :
  reads m key size g -> nonneg l -> read_all l g = (Ok bs, g') ->
  bs = (fun x => slice (body_at key m) size x.1 x.2) <$> l.
Proof.
  intros Hr Hl. revert g bs Hr; induction Hl as [|[offset n] l Hoff _ IH]; intros g bs Hr H; cbn in H; inv_run; [done|].
  apply (reader_read_at_spec m key size) in H0 as (Hr1 & _ & Hb); [|done..].
  destruct (Hb _ eq_refl) as [-> _]. by rewrite (IH _ _ Hr1 H1).
Qed.

Lemma read_all_reused m key size pos l g bs g' :
  reads m key size g -> nonneg l -> og_pos <$> rs_open (rg_reader g) = Some pos -> ascending size pos l ->
  read_all l g = (Ok bs, g') -> s3_log (rg_bucket g') = s3_log (rg_bucket g).
Proof.
  intros Hr Hl. revert g bs pos Hr; induction Hl as [|[offset n] l Hoff _ IH]; intros g bs pos Hr Hp Ha H;
    cbn in H; inv_run; [done|].
  destruct Ha as (Hpos & Hskip & Ha).
  apply (reader_read_at_spec m key size) in H0 as (Hr1 & Hlog & Hb); [|done..].
  destruct (Hb _ eq_refl) as [_ Hend]. rewrite (IH _ _ _ Hr1 (Hend pos (or_introl Hp)) Ha H1), Hlog.
  destruct (rs_open (rg_reader g)) as [o|]; [|done]. injection Hp as Hp.
  replace (reusable (Some o) offset) with true by (unfold reusable; lia). by rewrite orb_true_r.
Qed.

Lemma read_all_one_get m key size pos l g bs g' :
  reads m key size g -> nonneg l -> rs_open (rg_reader g) = None -> ascending size pos l ->
  read_all l g = (Ok bs, g') ->
  s3_log (rg_bucket g') = s3_log (rg_bucket g)
  \/ exists offset, s3_log (rg_bucket g') = OpGetFrom key offset :: s3_log (rg_bucket g).
Proof.
  intros Hr Hl. revert g bs pos Hr; induction Hl as [|[offset n] l Hoff Hl IH]; intros g bs pos Hr Hp Ha H;
    cbn in H; inv_run; [by left|].
  destruct Ha as (Hpos & Hskip & Ha).
  destruct ((size <=? offset)%Z || (n =? 0)%nat) eqn:Edge.
  { unfold reader_read_at in H0. pose proof Hr as (_ & Hs & _). rewrite Hs, Edge in H0. injection H0 as <- <-.
    unfold read_end in Ha. rewrite Edge in Ha. by eapply IH. }
  apply (reader_read_at_spec m key size) in H0 as (Hr1 & Hlog & Hb); [|done..].
  destruct (Hb _ eq_refl) as [_ Hend].
  rewrite (read_all_reused m key size _ l _ _ _ Hr1 Hl (Hend pos (or_intror Edge)) Ha H1), Hlog, Edge, Hp.
  right. by exists offset.
Qed.

Lemma read_all_live m key size l g :
  faultless -> reads m key size g -> steady_reader g -> nonneg l -> complete m key size ->
  exists bs g', read_all l g = (Ok bs, g').
Proof.
  intros Hf Hr Hst Hl Hobj. revert g Hr Hst; induction Hl as [|[offset n] l Hoff Hl IH]; intros g Hr Hst; cbn.
  { by eexists _, _. }
  destruct (reader_read_at_live m key size offset n g) as (b & g1 & E & Hst1); [done..|].
  pose proof (reader_read_at_spec m key size offset n g _ _ Hr Hoff E) as (Hr1 & _).
  destruct (IH g1 Hr1 Hst1) as (bs & g2 & E2). unfold mbind, comp_bind. rewrite E, E2. by eexists _, _.
Qed.

Lemma reader_new_reads m key size b :
  objects b = m -> reads m key size {| rg_reader := reader_new key size; rg_bucket := b |}.
Proof. intros <-. by split_and!. Qed.

(** C27: A reader of an object returns exactly the ranges asked for. However
    the body arrives, whatever S3 refuses and wherever the reads jump, every
    read that succeeds returns the object's bytes of that range, clipped to
    the declared size. Ranges read in order, with gaps of at most 256 KiB,
    cost at most one GET; and on a store without faults that holds the whole
    object every read succeeds. *)
Theorem range_reads_exact key size b l r g' :
  nonneg l ->
  read_all l {| rg_reader := reader_new key size; rg_bucket := b |} = (r, g') ->
  (forall bs, r = Ok bs -> bs = (fun x => slice (body_at key (objects b)) size x.1 x.2) <$> l)
  /\ (forall bs, r = Ok bs -> ascending size 0 l ->
      s3_log (rg_bucket g') = s3_log b \/ exists offset, s3_log (rg_bucket g') = OpGetFrom key offset :: s3_log b)
  /\ (faultless -> complete (objects b) key size -> is_ok r = true).
Proof.
  intros Hl H. pose proof (reader_new_reads (objects b) key size b eq_refl) as Hr. split_and!.
  - intros bs ->. by eapply read_all_ok.
  - intros bs -> Ha. by eapply (read_all_one_get (objects b) key size 0 l _ _ _ Hr Hl eq_refl Ha).
  - intros Hf Ho. destruct (read_all_live (objects b) key size l _ Hf Hr) as (bs & g1 & E); try done.
    rewrite H in E. by injection E as -> _.
Qed.
End ReaderFacts.

(** ** Witness *)

Module ReaderSample.
#[local] Existing Instance plain_hex.
#[local] Instance s3 : S3Service := {| s3_fault := fun _ _ => Healthy; etag_of := id; page_size := 2 |}.
(** Bodies arrive a byte, then three bytes at a time. *)
#[local] Instance transport : Transport :=
  {| body_plan := fun _ => [Some 1%positive; Some 3%positive; Some 3%positive]; peer_fails := fun _ _ => None |}.

Definition bucket : Bucket :=
  {| objects := {[blob_key "" (hex_encode "abcdef") := written "abcdef" None]}; s3_log := [] |}.

Lemma range_reads_exact_witness :
  fst (read_all [(0, 2%nat); (2, 3%nat); (5, 9%nat)]%Z
    {| rg_reader := reader_new (blob_key "" (hex_encode "abcdef")) 6; rg_bucket := bucket |})
  = Ok ["ab"; "cde"; "f"].
Proof.
  destruct (read_all _ _) as [[bs|e] g'] eqn:E; [|vm_compute in E; discriminate E].
  destruct (range_reads_exact _ _ _ _ _ _
    (ltac:(repeat constructor; discriminate) : nonneg [(0, 2%nat); (2, 3%nat); (5, 9%nat)]%Z) E) as [H _].
  rewrite (H bs eq_refl). vm_compute. reflexivity.
Defined.
End ReaderSample.
