(* ===== verification/S3Serve.v ===== *)
(** * Serving fetches from S3 (src/s3_serve.rs)

    The server's check of a hash with what it remembers, the outboard computed
    for a blob that lacks one, and the sending of a blob's BAO encoding.
    bao-tree's encoder and its outboard computation are parameters: any
    programs over reads and writes that end at the first failure. *)

From S2P Require Import Prelude Bytes Identifiers Extern Samples S3Store Auth Validation S3Reader.

(** ** bao-tree *)

Inductive EncodeError :=
| LeafHashMismatch (chunk : Z)
| ParentHashMismatch (node : Z)
| EncodeIo (why : string).

(** A program over the data, the outboard and the fetcher's stream. *)
Inductive encoder : Type :=
| Encoded (r : result EncodeError unit)
| ReadData (offset : Z) (n : nat) (k : result string bytes -> encoder)
| ReadOutboard (offset : Z) (n : nat) (k : result string bytes -> encoder)
| WriteBytes (b : bytes) (k : result string unit -> encoder).

Class BaoServe := {
  ChunkRanges : Type;
  (** [ranges.is_empty()] *)
  ranges_empty : ChunkRanges -> bool;
  (** [BaoTree::new(size, IROH_BLOCK_SIZE).outboard_size()] *)
  tree_outboard_size : Z -> Z;
  (** [PreOrderOutboard::create] over a reader of the given size: the root
      and the outboard. *)
  create_outboard : Z -> opener (bytes * bytes);
  (** [encode_ranges_validated] for a root, a size and ranges. *)
  encode_ranges_validated : bytes -> Z -> ChunkRanges -> encoder
}.

(** A failed read or write ends the program with that error, never with a
    hash mismatch. *)
Fixpoint create_propagates {A} (o : opener A) : Prop :=
  match o with
  | Opened _ => True
  | Reading offset n k => (0 <= offset)%Z /\ (forall b, create_propagates (k (Ok b)))
      /\ forall e, exists e', k (Err e) = Opened (Err e')
  end.

Fixpoint encode_propagates (o : encoder) : Prop :=
  match o with
  | Encoded _ => True
  | ReadData offset n k | ReadOutboard offset n k =>
      (0 <= offset)%Z /\ (forall b, encode_propagates (k (Ok b)))
      /\ forall e, exists e', k (Err e) = Encoded (Err (EncodeIo e'))
  | WriteBytes b k =>
      encode_propagates (k (Ok tt)) /\ forall e, exists e', k (Err e) = Encoded (Err (EncodeIo e'))
  end.

Class BaoServeLaws {BS : BaoServe} := {
  create_law : forall size, create_propagates (create_outboard size);
  encode_law : forall root size ranges, encode_propagates (encode_ranges_validated root size ranges)
}.

(** ** The server *)

Definition BACKFILL_COOLDOWN : Z := secs 600.
Definition BAD_CAPACITY : nat := Z.to_nat 10000.
Definition BACKFILLS : nat := 2.
Definition SIZES_CAPACITY : nat := Z.to_nat 100000.

Inductive Refusal := Gone | Busy.

Inductive Object := Blob | CatalogDocument (owner : option string).

#[export] Instance Object_eq_dec : EqDecision Object.
Proof. solve_decision. Defined.

Record Servable := { sv_size : Z; sv_object : Object }.

(** A spawned outboard computation. *)
Record Backfill := { bf_hash : bytes; bf_size : Z; bf_object : Object }.

(** [backfills] counts the free permits; [tasks] are the spawned
    computations that have not ended. *)
Record S3Server := {
  servable : gmap bytes Servable;
  backfilling : gset bytes;
  backfills : nat;
  corrupt : gset bytes;
  backfill_failed : gmap bytes Z;
  tasks : list Backfill
}.

Definition server_new : S3Server :=
  {| servable := ∅; backfilling := ∅; backfills := BACKFILLS; corrupt := ∅; backfill_failed := ∅; tasks := [] |}.

Definition set_servable (x : gmap bytes Servable) (s : S3Server) : S3Server :=
  {| servable := x; backfilling := backfilling s; backfills := backfills s; corrupt := corrupt s;
     backfill_failed := backfill_failed s; tasks := tasks s |}.
Definition set_corrupt (x : gset bytes) (s : S3Server) : S3Server :=
  {| servable := servable s; backfilling := backfilling s; backfills := backfills s; corrupt := x;
     backfill_failed := backfill_failed s; tasks := tasks s |}.
Definition set_failed (x : gmap bytes Z) (s : S3Server) : S3Server :=
  {| servable := servable s; backfilling := backfilling s; backfills := backfills s; corrupt := corrupt s;
     backfill_failed := x; tasks := tasks s |}.

Definition mark_corrupt (hash : bytes) (s : S3Server) : S3Server :=
  let c := if (BAD_CAPACITY <=? size (corrupt s))%nat then ∅ else corrupt s in
  set_servable (delete hash (servable s)) (set_corrupt ({[hash]} ∪ c) s).

Lemma mark_corrupt_in hash s : hash ∈ corrupt (mark_corrupt hash s).
Proof. apply elem_of_union_l, elem_of_singleton_2. reflexivity. Qed.

Definition forget (hash : bytes) (s : S3Server) : S3Server :=
  set_servable (delete hash (servable s)) s.

(** The permit is given back when the hash is already being computed. *)
Definition backfill (hash : bytes) (size : Z) (object : Object) (now : Z) (s : S3Server) : S3Server :=
  let cooling := match backfill_failed s !! hash with
                 | Some at_ => (elapsed now at_ <? BACKFILL_COOLDOWN)%Z
                 | None => false
                 end in
  if cooling then s
  else if (backfills s =? 0)%nat then s
  else if bool_decide (hash ∈ backfilling s) then s
  else {| servable := servable s; backfilling := {[hash]} ∪ backfilling s; backfills := pred (backfills s);
          corrupt := corrupt s; backfill_failed := backfill_failed s;
          tasks := {| bf_hash := hash; bf_size := size; bf_object := object |} :: tasks s |}.

(** The server and the bucket it serves from. *)
Record Serving := { sg_server : S3Server; sg_bucket : Bucket }.

Definition set_server (s : S3Server) (g : Serving) : Serving :=
  {| sg_server := s; sg_bucket := sg_bucket g |}.
Definition set_serving_bucket (b : Bucket) (g : Serving) : Serving :=
  {| sg_server := sg_server g; sg_bucket := b |}.

Section Server.
Context {S3 : S3Service} {TR : Transport} {BS : BaoServe} {HX : Hex} (prefix : string).

Definition data_key (o : Object) (hex : string) : string :=
  match o with
  | Blob => blob_key prefix hex
  | CatalogDocument _ => catalog_document_key prefix hex
  end.

Definition object_outboard_key (o : Object) (hex : string) : string :=
  match o with
  | Blob => outboard_key prefix hex
  | CatalogDocument _ => catalog_outboard_key prefix hex
  end.

(** [head]: a timeout is one of the errors. *)
Definition head {A} (m : comp Bucket string (option A)) : comp Serving Refusal (option A) :=
  comp_map_err (fun _ => Busy) (zoom sg_bucket set_serving_bucket m).

(** What [hash] is in S3. *)
Definition find_object (hex : string) : comp Serving Refusal (Z * Object) :=
  found ← head (blob_size prefix hex);
  match found with
  | Some size => mret (size, Blob)
  | None =>
      found ← head (catalog_document_size prefix hex);
      match found with
      | Some (size, owner) => mret (size, CatalogDocument owner)
      | None => throw Gone
      end
  end.

(** Whether the outboard is there, with the size it must have. *)
Definition check_outboard (hash : bytes) (size : Z) (object : Object) (now : Z) : comp Serving Refusal unit :=
  let hex := hex_encode hash in
  let expected := tree_outboard_size size in
  if (0 <? expected)%Z then
    found ← head (match object with
                  | Blob => outboard_size prefix hex
                  | CatalogDocument _ => catalog_outboard_size prefix hex
                  end);
    if bool_decide (found = Some expected) then mret tt
    else
      _ ← modify (fun g => set_server (backfill hash size object now (sg_server g)) g);
      throw Busy
  else mret tt.

Definition remember (hash : bytes) (sv : Servable) (s : S3Server) : S3Server :=
  let known := if (SIZES_CAPACITY <=? size (servable s))%nat then ∅ else servable s in
  set_servable (<[hash := sv]> known) s.

Definition check (hash : bytes) (now : Z) : comp Serving Refusal Servable :=
  g ← get;
  if bool_decide (hash ∈ corrupt (sg_server g)) then throw Gone
  else
    match servable (sg_server g) !! hash with
    | Some sv => mret sv
    | None =>
        '(size, object) ← find_object (hex_encode hash);
        _ ← check_outboard hash size object now;
        let sv := {| sv_size := size; sv_object := object |} in
        _ ← modify (fun g => set_server (remember hash sv (sg_server g)) g);
        mret sv
    end.

(** ** Computing an outboard *)

Definition on_reader {A} (r : S3Reader) (m : comp ReaderState string A) : comp Bucket string A := fun b =>
  let '(x, g) := m {| rg_reader := r; rg_bucket := b |} in (x, rg_bucket g).

Fixpoint run_create {A} (o : opener A) : comp ReaderState string A :=
  match o with
  | Opened r => lift r
  | Reading offset n k => fun g =>
      let '(b, g') := reader_read_at offset (Z.to_nat n) g in run_create (k b) g'
  end.

(** [Some] when the object hashes to something else; nothing is stored then. *)
Definition compute_outboard (hash : bytes) (size : Z) (object : Object) : comp Bucket string (option bytes) :=
  let hex := hex_encode hash in
  '(actual, outboard) ← on_reader (reader_new (data_key object hex) size) (run_create (create_outboard size));
  if negb (bool_decide (actual = hash)) then mret (Some actual)
  else
    _ ← match object with
        | Blob => put_outboard prefix hex outboard
        | CatalogDocument _ => put_catalog_outboard prefix hex outboard
        end;
    mret None.

Definition remember_failed (hash : bytes) (now : Z) (s : S3Server) : S3Server :=
  let failed := if (BAD_CAPACITY <=? size (backfill_failed s))%nat
                then filter (fun kv => (elapsed now kv.2 < BACKFILL_COOLDOWN)%Z) (backfill_failed s)
                else backfill_failed s in
  set_failed (<[hash := now]> failed) s.

(** The end of the task: its hash and its permit are given back. *)
Definition end_task (t : Backfill) (s : S3Server) : S3Server :=
  {| servable := servable s; backfilling := backfilling s ∖ {[bf_hash t]}; backfills := S (backfills s);
     corrupt := corrupt s; backfill_failed := backfill_failed s;
     tasks := filter (fun t' => bf_hash t' <> bf_hash t) (tasks s) |}.

(** The spawned task. *)
Definition run_task (t : Backfill) (now : Z) (g : Serving) : Serving :=
  let '(r, b) := compute_outboard (bf_hash t) (bf_size t) (bf_object t) (sg_bucket g) in
  let s := sg_server g in
  let s := match r with
           | Ok None => s
           | Ok (Some _) => mark_corrupt (bf_hash t) s
           | Err _ => remember_failed (bf_hash t) now s
           end in
  {| sg_server := end_task t s; sg_bucket := b |}.

(** ** Sending *)

(** [n] bytes of [z], least significant first. *)
Fixpoint to_le_bytes (n : nat) (z : Z) : bytes :=
  match n with
  | O => ""
  | S n => String (ascii_of_N (Z.to_N (z mod 256))) (to_le_bytes n (z / 256))
  end.

(** One response: the two readers, the bucket and what was written. *)
Record Sending := { sd_data : S3Reader; sd_outboard : S3Reader; sd_bucket : Bucket; sd_sent : bytes }.

(** [peer_write] on the stream; a stall is a failure. *)
Definition peer_write (b : bytes) : comp Sending string unit := fun s =>
  let sent b := {| sd_data := sd_data s; sd_outboard := sd_outboard s; sd_bucket := sd_bucket s;
                   sd_sent := sd_sent s +:+ b |} in
  match peer_fails (sd_sent s) b with
  | None => (Ok tt, sent b)
  | Some n => (Err "fetcher stopped reading", sent (String.substring 0 n b))
  end.

Definition read_data (offset : Z) (n : nat) : comp Sending string bytes := fun s =>
  let '(r, g) := reader_read_at offset n {| rg_reader := sd_data s; rg_bucket := sd_bucket s |} in
  (r, {| sd_data := rg_reader g; sd_outboard := sd_outboard s; sd_bucket := rg_bucket g; sd_sent := sd_sent s |}).

Definition read_outboard (offset : Z) (n : nat) : comp Sending string bytes := fun s =>
  let '(r, g) := reader_read_at offset n {| rg_reader := sd_outboard s; rg_bucket := sd_bucket s |} in
  (r, {| sd_data := sd_data s; sd_outboard := rg_reader g; sd_bucket := rg_bucket g; sd_sent := sd_sent s |}).

Fixpoint run_encoder (e : encoder) : comp Sending EncodeError unit := fun s =>
  match e with
  | Encoded r => (r, s)
  | ReadData offset n k => let '(b, s') := read_data offset n s in run_encoder (k b) s'
  | ReadOutboard offset n k => let '(b, s') := read_outboard offset n s in run_encoder (k b) s'
  | WriteBytes b k => let '(r, s') := peer_write b s in run_encoder (k r) s'
  end.

(** The size, then the encoding. *)
Definition respond (hash : bytes) (size : Z) (ranges : ChunkRanges) : comp Sending EncodeError unit :=
  _ ← comp_map_err EncodeIo (peer_write (to_le_bytes 8 size));
  run_encoder (encode_ranges_validated hash size ranges).

Definition hash_mismatch {A} (r : result EncodeError A) : bool :=
  match r with Err (LeafHashMismatch _ | ParentHashMismatch _) => true | _ => false end.

(** [out] is what the stream has carried. *)
Definition send (hash : bytes) (sv : Servable) (ranges : ChunkRanges) (out : bytes) (g : Serving) :
    result EncodeError unit * bytes * Serving :=
  let hex := hex_encode hash in
  let '(r, s) := respond hash (sv_size sv) ranges
    {| sd_data := reader_new (data_key (sv_object sv) hex) (sv_size sv);
       sd_outboard := reader_new (object_outboard_key (sv_object sv) hex) (tree_outboard_size (sv_size sv));
       sd_bucket := sg_bucket g; sd_sent := out |} in
  let server := if hash_mismatch r then mark_corrupt hash (sg_server g) else sg_server g in
  (r, sd_sent s, {| sg_server := server; sg_bucket := sd_bucket s |}).
End Server.

(** ** Facts: what is sent *)

(** The same programs over bytes in memory. *)
Fixpoint memory_create {A} (data : bytes) (size : Z) (o : opener A) : result string A :=
  match o with
  | Opened r => r
  | Reading offset n k => memory_create data size (k (Ok (slice data size offset (Z.to_nat n))))
  end.

Fixpoint memory_encode (data : bytes) (size : Z) (outboard : bytes) (osize : Z) (e : encoder) :
    result EncodeError unit * bytes :=
  match e with
  | Encoded r => (r, "")
  | ReadData offset n k => memory_encode data size outboard osize (k (Ok (slice data size offset n)))
  | ReadOutboard offset n k => memory_encode data size outboard osize (k (Ok (slice outboard osize offset n)))
  | WriteBytes b k => let '(r, out) := memory_encode data size outboard osize (k (Ok tt)) in (r, b +:+ out)
  end.

Section SendFacts.
Context {S3 : S3Service} {TR : Transport} {BS : BaoServe} {HX : Hex} (prefix : string).

Lemma run_create_ok {A} m key size (o : opener A) g r g' :
  create_propagates o -> reads m key size g -> run_create o g = (r, g') ->
  reads m key size g' /\ (forall a, r = Ok a -> memory_create (body_at key m) size o = Ok a).
Proof.
  revert g; induction o as [r0|offset n k IH]; intros g Hp Hr H; cbn in H.
  { injection H as <- <-. done. }
  destruct Hp as (Hoff & Hok & Herr). destruct (reader_read_at _ _ g) as [[b|e] g1] eqn:E;
    apply (reader_read_at_spec m key size) in E as (Hr1 & _ & Hb); try done.
  - destruct (Hb b eq_refl) as [-> _]. by eapply IH.
  - destruct (Herr e) as [e' He]. rewrite He in H. injection H as <- <-. done.
Qed.

(** The readers of a response are over the objects [m]. *)
Definition sending (m : gmap string object) (dk : string) (ds : Z) (ok : string) (os : Z) (s : Sending) : Prop :=
  reads m dk ds {| rg_reader := sd_data s; rg_bucket := sd_bucket s |}
  /\ reads m ok os {| rg_reader := sd_outboard s; rg_bucket := sd_bucket s |}.

(** [p], sent, is a beginning of [out]; all of it unless an I/O error broke
    the response off. *)
Definition sent_of (r rm : result EncodeError unit) (p out : bytes) : Prop :=
  (exists q, out = p +:+ q)
  /\ match r with Err (EncodeIo _) => True | _ => p = out /\ rm = r end.

Lemma sent_of_app r rm b p out : sent_of r rm p out -> sent_of r rm (b +:+ p) (b +:+ out).
Proof.
  intros [[q Hq] H]. split; [exists q; by rewrite string_app_assoc, Hq|].
  destruct r as [[]|[]]; try done; by destruct H as [-> ->].
Qed.

Lemma sent_of_broken why rm p q : sent_of (Err (EncodeIo why)) rm p (p +:+ q).
Proof. split; [by exists q|done]. Qed.

Lemma read_data_spec m dk ds ok os offset n s r s' :
  sending m dk ds ok os s -> (0 <= offset)%Z -> read_data offset n s = (r, s') ->
  sending m dk ds ok os s' /\ sd_sent s' = sd_sent s /\ (forall b, r = Ok b -> b = slice (body_at dk m) ds offset n).
Proof.
  intros [Hd Ho] Hoff H. unfold read_data in H. destruct (reader_read_at _ _ _) as [r0 g] eqn:E. injection H as <- <-.
  apply (reader_read_at_spec m dk ds) in E as (Hr & _ & Hb); [|done..].
  split_and!; [|done|by intros b [-> _]%Hb]. destruct g as [rd b]. split; [done|].
  destruct Ho as (? & ? & _ & ?), Hr as (_ & _ & ? & _). by split_and!.
Qed.

Lemma read_outboard_spec m dk ds ok os offset n s r s' :
  sending m dk ds ok os s -> (0 <= offset)%Z -> read_outboard offset n s = (r, s') ->
  sending m dk ds ok os s' /\ sd_sent s' = sd_sent s /\ (forall b, r = Ok b -> b = slice (body_at ok m) os offset n).
Proof.
  intros [Hd Ho] Hoff H. unfold read_outboard in H. destruct (reader_read_at _ _ _) as [r0 g] eqn:E. injection H as <- <-.
  apply (reader_read_at_spec m ok os) in E as (Hr & _ & Hb); [|done..].
  split_and!; [|done|by intros b [-> _]%Hb]. destruct g as [rd b]. split; [|done].
  destruct Hd as (? & ? & _ & ?), Hr as (_ & _ & ? & _). by split_and!.
Qed.

Lemma peer_write_spec m dk ds ok os b s r s' :
  sending m dk ds ok os s -> peer_write b s = (r, s') ->
  sending m dk ds ok os s'
  /\ match r with
     | Ok _ => sd_sent s' = sd_sent s +:+ b
     | Err _ => exists p q, b = p +:+ q /\ sd_sent s' = sd_sent s +:+ p
     end.
Proof.
  intros Hs H. unfold peer_write in H. destruct (peer_fails _ _) as [n|]; injection H as <- <-; [|done].
  split; [done|]. exists (String.substring 0 n b), (skip n b). split; [|done].
  rewrite <- (substring_all (String.length (skip n b)) (skip n b)) at 1 by lia.
  rewrite substring_split, substring_all; [done|]. rewrite skip_length. lia.
Qed.

Lemma run_encoder_sent m dk ds ok os e s r s' :
  encode_propagates e -> sending m dk ds ok os s -> run_encoder e s = (r, s') ->
  let '(rm, out) := memory_encode (body_at dk m) ds (body_at ok m) os e in
  sending m dk ds ok os s' /\ exists p, sd_sent s' = sd_sent s +:+ p /\ sent_of r rm p out.
Proof.
  revert s; induction e as [r0|offset n k IH|offset n k IH|b k IH]; intros s Hp Hs H; cbn in H |- *.
  - injection H as <- <-. split; [done|]. exists "". split; [by rewrite string_app_nil_r|].
    split; [by exists ""|]. by destruct r0 as [[]|[]].
  - destruct Hp as (Hoff & Hok & Herr). destruct (read_data _ _ s) as [[b|e] s1] eqn:E;
      apply (read_data_spec m dk ds ok os) in E as (Hs1 & Hsent & Hb); try done.
    + rewrite (Hb b eq_refl) in H. rewrite <- Hsent. by apply IH.
    + destruct (Herr e) as [e' He]. rewrite He in H. injection H as <- <-.
      destruct (memory_encode _ _ _ _ _) as [rm out]. split; [done|]. exists "".
      rewrite Hsent, string_app_nil_r. split; [done|]. by apply (sent_of_broken _ _ "").
  - destruct Hp as (Hoff & Hok & Herr). destruct (read_outboard _ _ s) as [[b|e] s1] eqn:E;
      apply (read_outboard_spec m dk ds ok os) in E as (Hs1 & Hsent & Hb); try done.
    + rewrite (Hb b eq_refl) in H. rewrite <- Hsent. by apply IH.
    + destruct (Herr e) as [e' He]. rewrite He in H. injection H as <- <-.
      destruct (memory_encode _ _ _ _ _) as [rm out]. split; [done|]. exists "".
      rewrite Hsent, string_app_nil_r. split; [done|]. by apply (sent_of_broken _ _ "").
  - destruct Hp as (Hok & Herr). destruct (peer_write b s) as [[[]|e] s1] eqn:E;
      apply (peer_write_spec m dk ds ok os) in E as (Hs1 & Hsent); try done.
    + specialize (IH (Ok tt) s1 Hok Hs1 H). destruct (memory_encode _ _ _ _ _) as [rm out].
      destruct IH as (Hs' & p & Hp & Hof). split; [done|]. exists (b +:+ p).
      split; [by rewrite Hp, Hsent, string_app_assoc|by apply sent_of_app].
    + destruct (Herr e) as [e' He]. rewrite He in H. injection H as <- <-.
      destruct (memory_encode _ _ _ _ _) as [rm out]. split; [done|].
      destruct Hsent as (p & q & -> & Hsent). exists p. split; [done|]. rewrite string_app_assoc. apply sent_of_broken.
Qed.

(** Without faults the response is the whole encoding. *)
Lemma run_encoder_live m dk ds ok os e s :
  faultless -> (forall a b, peer_fails a b = None) -> complete m dk ds -> complete m ok os ->
  encode_propagates e -> sending m dk ds ok os s ->
  steady_reader {| rg_reader := sd_data s; rg_bucket := sd_bucket s |} ->
  steady_reader {| rg_reader := sd_outboard s; rg_bucket := sd_bucket s |} ->
  let '(rm, out) := memory_encode (body_at dk m) ds (body_at ok m) os e in
  exists s', run_encoder e s = (rm, s') /\ sd_sent s' = sd_sent s +:+ out.
Proof.
  intros Hf Hpeer Hd Ho. revert s; induction e as [r0|offset n k IH|offset n k IH|b k IH];
    intros s Hp Hs Hst1 Hst2; cbn.
  - exists s. by rewrite string_app_nil_r.
  - destruct Hp as (Hoff & Hok & _).
    destruct (reader_read_at_live m dk ds offset n _ Hf (proj1 Hs) Hst1 Hoff Hd) as (b & [rd bk] & E & Hst).
    assert (read_data offset n s = (Ok b, {| sd_data := rd; sd_outboard := sd_outboard s; sd_bucket := bk; sd_sent := sd_sent s |}))
      as E' by (unfold read_data; by rewrite E).
    rewrite E'. apply (read_data_spec m dk ds ok os) in E' as (Hs1 & Hsent & Hb); [|done..].
    rewrite (Hb b eq_refl). by apply (IH (Ok _) {| sd_sent := _ |}); auto.
  - destruct Hp as (Hoff & Hok & _).
    destruct (reader_read_at_live m ok os offset n _ Hf (proj2 Hs) Hst2 Hoff Ho) as (b & [rd bk] & E & Hst).
    assert (read_outboard offset n s = (Ok b, {| sd_data := sd_data s; sd_outboard := rd; sd_bucket := bk; sd_sent := sd_sent s |}))
      as E' by (unfold read_outboard; by rewrite E).
    rewrite E'. apply (read_outboard_spec m dk ds ok os) in E' as (Hs1 & Hsent & Hb); [|done..].
    rewrite (Hb b eq_refl). by apply (IH (Ok _) {| sd_sent := _ |}); auto.
  - destruct Hp as (Hok & _). unfold peer_write. rewrite Hpeer.
    specialize (IH (Ok tt) {| sd_data := sd_data s; sd_outboard := sd_outboard s; sd_bucket := sd_bucket s;
      sd_sent := sd_sent s +:+ b |} Hok Hs Hst1 Hst2).
    destruct (memory_encode _ _ _ _ _) as [rm out]. destruct IH as (s' & -> & Hsent).
    exists s'. by rewrite Hsent, <- string_app_assoc.
Qed.

(** The encoding of a servable hash, from the objects in memory. *)
Definition encoding (m : gmap string object) (hash : bytes) (sv : Servable) (ranges : ChunkRanges) :
    result EncodeError unit * bytes :=
  let hex := hex_encode hash in
  memory_encode (body_at (data_key prefix (sv_object sv) hex) m) (sv_size sv)
    (body_at (object_outboard_key prefix (sv_object sv) hex) m) (tree_outboard_size (sv_size sv))
    (encode_ranges_validated hash (sv_size sv) ranges).

(** The object and its outboard are there. *)
Definition stored_whole (m : gmap string object) (hash : bytes) (sv : Servable) : Prop :=
  complete m (data_key prefix (sv_object sv) (hex_encode hash)) (sv_size sv)
  /\ complete m (object_outboard_key prefix (sv_object sv) (hex_encode hash)) (tree_outboard_size (sv_size sv)).

Lemma send_sent {BL : BaoServeLaws} hash sv ranges out g r out' g' :
  send prefix hash sv ranges out g = (r, out', g') ->
  let '(rm, enc) := encoding (objects (sg_bucket g)) hash sv ranges in
  objects (sg_bucket g') = objects (sg_bucket g)
  /\ sg_server g' = (if hash_mismatch r then mark_corrupt hash (sg_server g) else sg_server g)
  /\ exists p, out' = out +:+ p /\ sent_of r rm p (to_le_bytes 8 (sv_size sv) +:+ enc).
Proof.
  unfold send, encoding, respond, mbind, comp_bind, comp_map_err. set (m := objects (sg_bucket g)).
  set (dk := data_key _ _ _). set (ok := object_outboard_key _ _ _). set (s0 := {| sd_sent := out |}).
  assert (sending m dk (sv_size sv) ok (tree_outboard_size (sv_size sv)) s0) as Hs0 by (split; by apply reader_new_reads).
  pose proof (run_encoder_sent m dk (sv_size sv) ok (tree_outboard_size (sv_size sv)) (encode_ranges_validated hash (sv_size sv) ranges)) as Henc.
  destruct (memory_encode _ _ _ _ _) as [rm enc].
  destruct (peer_write _ s0) as [r1 s1] eqn:Ew. apply (peer_write_spec m dk (sv_size sv) ok (tree_outboard_size (sv_size sv))) in Ew as [Hs1 Hw]; [|done].
  destruct r1 as [[]|e]; cbn [map_err].
  - destruct (run_encoder _ s1) as [r2 s2] eqn:Ee.
    destruct (Henc s1 r2 s2 (encode_law _ _ _) Hs1 Ee) as [Hs2 (p & Hp & Hof)].
    intros [= <- <- <-]. split; [apply Hs2|]. split; [done|]. eexists.
    split; [by rewrite Hp, Hw, string_app_assoc|]. by apply sent_of_app.
  - intros [= <- <- <-]. split; [apply Hs1|]. split; [done|]. destruct Hw as (p & q & Hpq & Hw).
    exists p. split; [done|]. rewrite Hpq, string_app_assoc. apply sent_of_broken.
Qed.

Lemma send_live {BL : BaoServeLaws} hash sv ranges out g r out' g' :
  send prefix hash sv ranges out g = (r, out', g') ->
  let '(rm, enc) := encoding (objects (sg_bucket g)) hash sv ranges in
  faultless -> (forall a b, peer_fails a b = None) -> stored_whole (objects (sg_bucket g)) hash sv ->
    r = rm /\ out' = out +:+ (to_le_bytes 8 (sv_size sv) +:+ enc).
Proof.
  unfold send, encoding, respond, mbind, comp_bind, comp_map_err, peer_write. set (m := objects (sg_bucket g)).
  set (dk := data_key _ _ _). set (ok := object_outboard_key _ _ _). cbn [sd_sent].
  pose proof (run_encoder_live m dk (sv_size sv) ok (tree_outboard_size (sv_size sv))
    (encode_ranges_validated hash (sv_size sv) ranges)) as Hlive.
  destruct (memory_encode _ _ _ _ _) as [rm enc]. generalize (to_le_bytes 8 (sv_size sv)) as head_.
  intros head_ H Hf Hpeer [Hd Ho]. rewrite Hpeer in H. cbn in H.
  destruct (Hlive {| sd_data := reader_new dk (sv_size sv); sd_outboard := reader_new ok (tree_outboard_size (sv_size sv));
    sd_bucket := sg_bucket g; sd_sent := out +:+ head_ |}) as (s' & E & Hsent);
    try done; [apply encode_law|].
  rewrite E in H. injection H as <- <- <-. split; [done|].
  rewrite Hsent. apply string_app_assoc.
Qed.
End SendFacts.

(** ** Facts: the check *)

Section CheckFacts.
Context {S3 : S3Service} {TR : Transport} {BS : BaoServe} {HX : Hex} (prefix : string).

(** What the objects hold for a hash, and whether its outboard is there. *)
Definition located (m : gmap string object) (hash : bytes) : option Servable :=
  match m !! blob_key prefix (hex_encode hash) with
  | Some o => Some {| sv_size := len (obj_body o); sv_object := Blob |}
  | None =>
      (fun o => {| sv_size := len (obj_body o); sv_object := CatalogDocument (obj_owner o) |})
      <$> m !! catalog_document_key prefix (hex_encode hash)
  end.

Definition outboard_len (m : gmap string object) (hash : bytes) (o : Object) : option Z :=
  (fun x => len (obj_body x)) <$> m !! object_outboard_key prefix o (hex_encode hash).

Definition ready (m : gmap string object) (hash : bytes) (sv : Servable) : Prop :=
  (0 < tree_outboard_size (sv_size sv))%Z ->
  outboard_len m hash (sv_object sv) = Some (tree_outboard_size (sv_size sv)).

Definition healthy : Prop := forall log o, s3_fault log o = Healthy.

Lemma or_absent_read what o key b r b' :
  or_absent what (read_object o key) b = (r, b') ->
  objects b' = objects b /\ (forall x, r = Ok x -> x = objects b !! key) /\ (healthy -> r = Ok (objects b !! key)).
Proof.
  unfold healthy, or_absent, read_object, begin_op, get, throw, lift, mbind, comp_bind. cbn [log_op objects].
  intros H. destruct (s3_fault (s3_log b) o) eqn:Ef; destruct (objects b !! key); simplify_eq/=; split_and!; try done;
    intros Hh; (by rewrite Hh in Ef) || by intros [= <-].
Qed.

Lemma head_spec {A} (m : comp Bucket string (option A)) g r g' :
  head m g = (r, g') ->
  exists r0, m (sg_bucket g) = (r0, sg_bucket g') /\ sg_server g' = sg_server g /\ r = map_err (fun _ => Busy) r0.
Proof.
  unfold head, comp_map_err, zoom. destruct (m (sg_bucket g)) as [r0 b]. intros [= <- <-]. by exists r0.
Qed.

(** A HEAD whose answer is read off the object. *)
Lemma head_object_spec {A} (f : object -> A) what key (m : comp Bucket string (option A)) g r g' :
  m = (o ← or_absent what (head_object key); mret (f <$> o)) ->
  head m g = (r, g') ->
  objects (sg_bucket g') = objects (sg_bucket g) /\ sg_server g' = sg_server g
  /\ (forall x, r = Ok x -> x = f <$> objects (sg_bucket g) !! key) /\ r <> Err Gone
  /\ (healthy -> r = Ok (f <$> objects (sg_bucket g) !! key)).
Proof.
  intros -> (r0 & H & Hs & ->)%head_spec. unfold mbind, comp_bind, head_object in H.
  destruct (or_absent _ _ _) as [r1 b1] eqn:E. apply or_absent_read in E as (Ho & Hx & Hh).
  destruct r1 as [x|e]; injection H as <- <-; split_and!; try done; cbn.
  - intros ? [= <-]. by rewrite (Hx x eq_refl).
  - intros Hhe. specialize (Hh Hhe). by injection Hh as ->.
  - intros Hhe. by specialize (Hh Hhe).
Qed.

Lemma find_object_spec hash g r g' :
  find_object prefix (hex_encode hash) g = (r, g') ->
  objects (sg_bucket g') = objects (sg_bucket g) /\ sg_server g' = sg_server g
  /\ match r with
     | Ok (size, object) => located (objects (sg_bucket g)) hash = Some {| sv_size := size; sv_object := object |}
     | Err Gone => located (objects (sg_bucket g)) hash = None
     | Err Busy => ~ healthy
     end.
Proof.
  unfold find_object, located. intros H. apply comp_bind_state in H as [(found & g1 & H1 & H)|(e & H1 & ->)];
    eapply (head_object_spec (fun o => len (obj_body o))) in H1 as (Ho1 & Hs1 & Hf & Hne & Hh); try reflexivity.
  2: { split_and!; [done..|]. destruct e; [done|]. by intros ?%Hh. }
  rewrite (Hf found eq_refl) in H.
  destruct (objects (sg_bucket g) !! blob_key prefix (hex_encode hash)) as [o|].
  { injection H as <- <-. done. }
  cbn in H. apply comp_bind_state in H as [(found2 & g2 & H2 & H)|(e & H2 & ->)];
    eapply (head_object_spec (fun o => (len (obj_body o), obj_owner o))) in H2 as (Ho2 & Hs2 & Hf2 & Hne2 & Hh2);
    try reflexivity.
  2: { split_and!; [congruence..|]. destruct e; [done|]. by intros ?%Hh2. }
  rewrite Ho1 in Hf2. rewrite (Hf2 found2 eq_refl) in H.
  destruct (objects (sg_bucket g) !! catalog_document_key prefix (hex_encode hash)) as [o|];
    injection H as <- <-; split_and!; congruence || done.
Qed.

Lemma check_outboard_spec hash sv now g r g' :
  check_outboard prefix hash (sv_size sv) (sv_object sv) now g = (r, g') ->
  objects (sg_bucket g') = objects (sg_bucket g)
  /\ match r with
     | Ok _ => sg_server g' = sg_server g /\ ready (objects (sg_bucket g)) hash sv
     | Err Gone => False
     | Err Busy =>
         sg_server g' = sg_server g /\ ~ healthy
         \/ sg_server g' = backfill hash (sv_size sv) (sv_object sv) now (sg_server g)
            /\ ~ ready (objects (sg_bucket g)) hash sv
     end.
Proof.
  unfold check_outboard, ready, outboard_len. destruct (Z.ltb_spec 0 (tree_outboard_size (sv_size sv))) as [Hpos|Hpos].
  2: { intros [= <- <-]. split_and!; [done..|lia]. }
  intros H. apply comp_bind_state in H as [(found & g1 & H1 & H)|(e & H1 & ->)];
    destruct (sv_object sv);
    eapply (head_object_spec (fun o => len (obj_body o))) in H1 as (Ho1 & Hs1 & Hf & Hne & Hh); try reflexivity.
  3,4: split_and!; [done|]; destruct e; [done|]; left; split; [done|]; by intros ?%Hh.
  all: specialize (Hf found eq_refl); destruct (decide (found = Some (tree_outboard_size (sv_size sv)))) as [He|He];
    [rewrite bool_decide_true in H by done | rewrite bool_decide_false in H by done];
    injection H as <- <-; cbn; rewrite ?Ho1, ?Hs1; (split; [done|]);
    [split; [done|intros _; cbn; congruence]|right; split; [done|]; intros Hr; apply He; rewrite Hf; by apply Hr].
Qed.
End CheckFacts.

(** ** Facts: what the server keeps *)

Section ServerFacts.
Context {S3 : S3Service} {TR : Transport} {BS : BaoServe} {HX : Hex} (prefix : string).

(** The steps of the server, in any order; the bucket may change under it at
    any time. *)
Inductive server_step : Serving -> Serving -> Prop :=
| StepCheck g hash now r g' : check prefix hash now g = (r, g') -> server_step g g'
| StepSend g hash sv ranges out r out' g' : send prefix hash sv ranges out g = (r, out', g') -> server_step g g'
| StepForget g hash : server_step g (set_server (forget hash (sg_server g)) g)
| StepTask g t now : t ∈ tasks (sg_server g) -> server_step g (run_task prefix t now g)
| StepBucket g b : server_step g (set_serving_bucket b g).

Inductive server_reachable : Serving -> Prop :=
| reach_server_new b : server_reachable {| sg_server := server_new; sg_bucket := b |}
| reach_server_step g g' : server_reachable g -> server_step g g' -> server_reachable g'.

Definition server_bounded (s : S3Server) : Prop :=
  (size (servable s) <= SIZES_CAPACITY)%nat
  /\ (size (corrupt s) <= BAD_CAPACITY)%nat
  /\ (backfills s + length (tasks s) = BACKFILLS)%nat
  /\ NoDup (bf_hash <$> tasks s)
  /\ (forall h, h ∈ backfilling s <-> h ∈ bf_hash <$> tasks s).

Lemma capacities_positive : (0 < SIZES_CAPACITY)%nat /\ (0 < BAD_CAPACITY)%nat.
Proof. unfold SIZES_CAPACITY, BAD_CAPACITY. lia. Qed.

Lemma forget_bounded hash s : server_bounded s -> server_bounded (forget hash s).
Proof.
  intros (Hs & H). split; [|done]. cbn. pose proof (map_size_delete hash (servable s)).
  destruct (servable s !! hash); cbn in *; lia.
Qed.

Lemma mark_corrupt_bounded hash s : server_bounded s -> server_bounded (mark_corrupt hash s).
Proof.
  intros Hb. pose proof (forget_bounded hash s Hb) as (Hs & _). destruct Hb as (_ & Hc & H).
  split_and!; [done| |apply H..]. cbn [mark_corrupt set_servable set_corrupt corrupt].
  pose proof capacities_positive as [_ ?].
  set (c := if _ : bool then _ else _). assert (size c < BAD_CAPACITY)%nat.
  { subst c. destruct (Nat.leb_spec BAD_CAPACITY (size (corrupt s))); [by rewrite size_empty|done]. }
  rewrite size_union_alt, size_singleton.
  assert (size (c ∖ {[hash]}) <= size c)%nat by (apply subseteq_size, subseteq_difference_l; reflexivity). lia.
Qed.

Lemma remember_bounded hash sv s : server_bounded s -> server_bounded (remember hash sv s).
Proof.
  intros (Hs & H). split; [|done]. cbn. pose proof capacities_positive as [? _].
  destruct (Nat.leb_spec SIZES_CAPACITY (size (servable s))); rewrite map_size_insert.
  - rewrite lookup_empty, map_size_empty. cbn. lia.
  - destruct (servable s !! hash); cbn; lia.
Qed.

Lemma backfill_bounded hash size_ object now s : server_bounded s -> server_bounded (backfill hash size_ object now s).
Proof.
  intros (Hs & Hc & Hp & Hn & Hb). unfold backfill.
  destruct (match backfill_failed s !! hash with Some _ => _ | None => _ end); [done|].
  destruct (Nat.eqb_spec (backfills s) 0); [done|].
  case_bool_decide as Hin; [done|]. split_and!; cbn; try done.
  - lia.
  - constructor; [|done]. by rewrite <- Hb.
  - intros h. rewrite elem_of_union, elem_of_singleton, elem_of_cons, Hb. done.
Qed.

Lemma filter_other_hashes t (l : list Backfill) :
  bf_hash t ∉ bf_hash <$> l -> filter (fun t' => bf_hash t' <> bf_hash t) l = l.
Proof.
  induction l as [|x l IH]; [done|]. cbn [fmap list_fmap]. rewrite not_elem_of_cons. intros [Hne Hin].
  rewrite filter_cons_True by done. by rewrite IH.
Qed.

Lemma filter_hash_length t (l : list Backfill) :
  NoDup (bf_hash <$> l) -> t ∈ l -> S (length (filter (fun t' => bf_hash t' <> bf_hash t) l)) = length l.
Proof.
  intros Hn (l1 & l2 & ->)%list_elem_of_split. rewrite fmap_app in Hn.
  apply NoDup_app in Hn as (_ & H1 & (H2 & _)%NoDup_cons).
  rewrite filter_app, filter_cons_False by (intros H; by apply H).
  rewrite !filter_other_hashes; [rewrite !length_app; cbn; lia|done|].
  intros Hin. apply (H1 _ Hin). left.
Qed.

Lemma end_task_bounded t s : t ∈ tasks s -> server_bounded s -> server_bounded (end_task t s).
Proof.
  intros Ht (Hs & Hc & Hp & Hn & Hb). split_and!; cbn; try done.
  - pose proof (filter_hash_length t _ Hn Ht). lia.
  - apply (sublist_NoDup _ (bf_hash <$> tasks s)); [done|]. apply (fmap_sublist bf_hash), sublist_filter.
  - intros h. rewrite elem_of_difference, elem_of_singleton, Hb, !list_elem_of_fmap.
    setoid_rewrite list_elem_of_filter. split.
    + intros [(t' & -> & Ht') Hne]. by exists t'.
    + intros (t' & -> & Hne & Ht'). split; [by exists t'|done].
Qed.

Lemma check_server hash now g r g' :
  check prefix hash now g = (r, g') ->
  sg_server g' = sg_server g \/ (exists sv, sg_server g' = remember hash sv (sg_server g))
  \/ (exists size_ object, sg_server g' = backfill hash size_ object now (sg_server g)).
Proof.
  unfold check. rewrite get_bind. case_bool_decide as Hc; [intros [= <- <-]; by left|].
  destruct (servable (sg_server g) !! hash); [intros [= <- <-]; by left|].
  intros H. apply comp_bind_state in H as [([size_ object] & g1 & H1 & H)|(e & H1 & ->)];
    apply find_object_spec in H1 as (_ & Hs1 & _); [|by left].
  apply comp_bind_state in H as [([] & g2 & H2 & H)|(e & H2 & ->)];
    apply (check_outboard_spec prefix hash {| sv_size := size_; sv_object := object |}) in H2 as [_ H2].
  - injection H as <- <-. right. left. eexists. cbn. destruct H2 as [-> _]. by rewrite Hs1.
  - destruct e; [done|]. destruct H2 as [[-> _]|[-> _]]; rewrite Hs1; [by left|]. right. right. by eexists _, _.
Qed.

Lemma server_step_bounded g g' :
  server_step g g' -> server_bounded (sg_server g) -> server_bounded (sg_server g').
Proof.
  intros H Hb. destruct H as [g hash now r g' H|g hash sv ranges out r out' g' H|g hash|g t now Ht|g b].
  - apply check_server in H as [->|[(sv & ->)|(size_ & object & ->)]];
      [done|by apply remember_bounded|by apply backfill_bounded].
  - unfold send in H. destruct (respond _ _ _ _) as [r0 s]. injection H as <- <- <-. cbn.
    destruct (hash_mismatch r0); [by apply mark_corrupt_bounded|done].
  - by apply forget_bounded.
  - unfold run_task. destruct (compute_outboard _ _ _ _ _) as [r b]. cbn [sg_server].
    destruct r as [[actual|]|e]; apply end_task_bounded; try done. by apply mark_corrupt_bounded.
  - done.
Qed.
End ServerFacts.

(** ** Facts: an outboard computed from S3 *)

Section RepairFacts.
Context {S3 : S3Service} {TR : Transport} {BS : BaoServe} {HX : Hex} (prefix : string).

Lemma check_spec hash now g r g' :
  check prefix hash now g = (r, g') ->
  let s := sg_server g in let m := objects (sg_bucket g) in
  objects (sg_bucket g') = m /\
  match r with
  | Ok sv => (hash ∉ corrupt s)
      /\ (servable s !! hash = Some sv /\ g' = g
          \/ servable s !! hash = None /\ located prefix m hash = Some sv /\ ready prefix m hash sv
             /\ sg_server g' = remember hash sv s)
  | Err Gone => sg_server g' = s
      /\ (hash ∈ corrupt s \/ (hash ∉ corrupt s) /\ servable s !! hash = None /\ located prefix m hash = None)
  | Err Busy => (hash ∉ corrupt s) /\ servable s !! hash = None
      /\ (sg_server g' = s /\ ~ healthy
          \/ exists sv, located prefix m hash = Some sv /\ ~ ready prefix m hash sv
             /\ sg_server g' = backfill hash (sv_size sv) (sv_object sv) now s)
  end.
Proof.
  unfold check. rewrite get_bind. case_bool_decide as Hc; [intros [= <- <-]; by auto|].
  destruct (servable (sg_server g) !! hash) as [sv|] eqn:Es; [intros [= <- <-]; by auto|].
  intros H. apply comp_bind_state in H as [([size_ object] & g1 & H1 & H)|(e & H1 & ->)];
    apply find_object_spec in H1 as (Ho1 & Hs1 & Hl).
  2: { destruct e; split_and!; auto. }
  apply comp_bind_state in H as [([] & g2 & H2 & H)|(e & H2 & ->)];
    apply (check_outboard_spec prefix hash {| sv_size := size_; sv_object := object |}) in H2 as [Ho2 H2]; rewrite Ho1 in *.
  - injection H as <- <-. destruct H2 as [Hs2 Hr]. split; [done|]. split; [done|]. right. cbn. by rewrite Hs2, Hs1.
  - destruct e; [done|]. rewrite Hs1 in H2. split_and!; [done..|]. destruct H2 as [H2|[H2 Hn]]; [by left|right]. by eexists.
Qed.

Lemma run_create_live {A} m key size (o : opener A) g :
  faultless -> create_propagates o -> reads m key size g -> steady_reader g -> complete m key size ->
  exists g', run_create o g = (memory_create (body_at key m) size o, g').
Proof.
  intros Hf Hp Hr Hst Hobj. revert g Hr Hst; induction o as [r0|offset n k IH]; intros g Hr Hst; cbn; [by eexists|].
  destruct Hp as (Hoff & Hok & _).
  destruct (reader_read_at_live m key size offset (Z.to_nat n) g) as (b & g1 & E & Hst1); [done..|].
  rewrite E. apply (reader_read_at_spec m key size) in E as (Hr1 & _ & Hb); [|done..].
  destruct (Hb b eq_refl) as [-> _]. by apply IH.
Qed.

Lemma put_healthy what key body owner b :
  healthy -> exists b', context what (put_object key body owner Always) b = (Ok tt, b')
    /\ objects b' = <[key := written body owner]> (objects b).
Proof.
  intros Hh. unfold context, comp_map_err, put_object, begin_op, mbind, comp_bind, get. rewrite Hh. cbn.
  by eexists.
Qed.

(** The object of [sv] as the bucket holds it. *)
Lemma located_data m hash sv :
  located prefix m hash = Some sv ->
  exists o, m !! data_key prefix (sv_object sv) (hex_encode hash) = Some o /\ sv_size sv = len (obj_body o).
Proof.
  unfold located. destruct (m !! blob_key _ _) as [o|] eqn:E.
  - intros [= <-]. by exists o.
  - destruct (m !! catalog_document_key _ _) as [o|] eqn:E2; [|done]. intros [= <-]. by exists o.
Qed.

(** The outboard keys are apart from the data keys. *)
Lemma located_insert_outboard m hash hex o x :
  located prefix (<[object_outboard_key prefix o hex := x]> m) hash = located prefix m hash.
Proof.
  unfold located. destruct o; cbn [object_outboard_key]; rewrite !lookup_insert_ne; try done; intros E.
  - by apply (family_key_inj prefix Outboards CatalogDocuments) in E as [? _].
  - by apply (family_key_inj prefix Outboards Blobs) in E as [? _].
  - by apply (family_key_inj prefix CatalogOutboards CatalogDocuments) in E as [? _].
  - by apply (family_key_inj prefix CatalogOutboards Blobs) in E as [? _].
Qed.

(** Computing the outboard, without faults: stored when the object is the
    one the hash names. *)
Lemma compute_outboard_live {BL : BaoServeLaws} hash sv b actual outboard :
  faultless -> located prefix (objects b) hash = Some sv ->
  memory_create (body_at (data_key prefix (sv_object sv) (hex_encode hash)) (objects b)) (sv_size sv)
    (create_outboard (sv_size sv)) = Ok (actual, outboard) ->
  exists b', compute_outboard prefix hash (sv_size sv) (sv_object sv) b
             = (Ok (if decide (actual = hash) then None else Some actual), b')
    /\ objects b' = (if decide (actual = hash)
                     then <[object_outboard_key prefix (sv_object sv) (hex_encode hash) := written outboard None]> (objects b)
                     else objects b).
Proof.
  intros Hf (o & Ho & Hsize)%located_data Hmem. set (key := data_key _ _ _) in *.
  destruct (run_create_live (objects b) key (sv_size sv) (create_outboard (sv_size sv))
    {| rg_reader := reader_new key (sv_size sv); rg_bucket := b |}) as (g1 & E);
    [done|apply create_law|by apply reader_new_reads|done|intros _; exists o; split; [done|lia]|].
  pose proof (run_create_ok (objects b) key (sv_size sv) _ _ _ _ (create_law _) (reader_new_reads _ _ _ b eq_refl) E)
    as [(_ & _ & Hob & _) _].
  rewrite Hmem in E. unfold compute_outboard. fold key. unfold mbind, comp_bind, on_reader. rewrite E.
  destruct (decide (actual = hash)) as [->|Hne].
  - rewrite bool_decide_true by done. cbn [negb].
    destruct (put_healthy "Failed to PUT outboard to S3" (outboard_key prefix (hex_encode hash)) outboard None (rg_bucket g1) (proj1 Hf)) as (b1 & E1 & H1).
    destruct (put_healthy "Failed to PUT catalog outboard to S3" (catalog_outboard_key prefix (hex_encode hash)) outboard None (rg_bucket g1) (proj1 Hf)) as (b2 & E2 & H2).
    unfold put_outboard, put_catalog_outboard. rewrite Hob in H1, H2.
    destruct (sv_object sv); [rewrite E1|rewrite E2]; by eexists.
  - rewrite bool_decide_false by done. cbn. by eexists.
Qed.
End RepairFacts.

(** ** Theorems *)

Section ServeTheorems.
Context {S3 : S3Service} {TR : Transport} {BS : BaoServe} {HX : Hex} (prefix : string).

(** C21: What a fetcher is sent is the BAO encoding of the stored object, as
    if it were in memory: the size in eight little-endian bytes, then the
    encoding of the ranges. However S3 and the connection fail, what went out
    is a beginning of it; it is all of it when the response ends, and without
    faults it always is. The hash is marked corrupt exactly when the objects
    themselves fail the check, never because of a fault. *)
Theorem send_refines_memory {BL : BaoServeLaws} hash sv ranges out g r out' g' :
  send prefix hash sv ranges out g = (r, out', g') ->
  let '(rm, enc) := encoding prefix (objects (sg_bucket g)) hash sv ranges in
  let whole := to_le_bytes 8 (sv_size sv) +:+ enc in
  (exists p q, whole = p +:+ q /\ out' = out +:+ p)
  /\ (r = Ok tt -> rm = Ok tt /\ out' = out +:+ whole)
  /\ (hash_mismatch r = true -> rm = r /\ hash ∈ corrupt (sg_server g'))
  /\ (hash_mismatch r = false -> sg_server g' = sg_server g)
  /\ (faultless -> (forall a b, peer_fails a b = None) -> stored_whole prefix (objects (sg_bucket g)) hash sv ->
      r = rm /\ out' = out +:+ whole).
Proof.
  intros H. pose proof (send_sent prefix hash sv ranges out g r out' g' H) as Hs.
  pose proof (send_live prefix hash sv ranges out g r out' g' H) as Hlive.
  destruct (encoding _ _ _ _ _) as [rm enc]. cbv zeta. revert Hs Hlive. generalize (to_le_bytes 8 (sv_size sv) +:+ enc).
  intros whole (_ & Hserver & p & -> & [q Hq] & Hall) Hlive. split_and!.
  - by exists p, q.
  - intros ->. by destruct Hall as [-> ->].
  - intros Hm. split; [destruct r as [[]|[]]; try done; apply Hall|]. rewrite Hserver, Hm. apply mark_corrupt_in.
  - intros Hm. by rewrite Hserver, Hm.
  - exact Hlive.
Qed.

(** What a fetch is told about a hash. A hash found corrupt is refused for
    good and a remembered one is served as remembered. Otherwise the answer is
    about the bucket: served only as the blob, or else the catalog document
    with its owner, that is there with an outboard of the right size; refused
    for good only when there is neither. On a healthy store the answer is
    exactly this, and an object without its outboard is refused for now with
    the computation of its outboard started. The check writes nothing. *)
Theorem check_exact hash now g r g' :
  check prefix hash now g = (r, g') ->
  let s := sg_server g in let m := objects (sg_bucket g) in
  objects (sg_bucket g') = m
  /\ (hash ∈ corrupt s -> r = Err Gone)
  /\ (hash ∉ corrupt s -> forall sv, servable s !! hash = Some sv -> r = Ok sv)
  /\ (hash ∉ corrupt s -> servable s !! hash = None ->
      (forall sv, r = Ok sv -> located prefix m hash = Some sv /\ ready prefix m hash sv
                               /\ servable (sg_server g') !! hash = Some sv)
      /\ (r = Err Gone -> located prefix m hash = None)
      /\ (healthy ->
          match located prefix m hash with
          | None => r = Err Gone
          | Some sv =>
              (ready prefix m hash sv -> r = Ok sv)
              /\ (~ ready prefix m hash sv ->
                  r = Err Busy /\ sg_server g' = backfill hash (sv_size sv) (sv_object sv) now s)
          end)).
Proof.
  intros [Ho Hr]%check_spec. cbv zeta in *. split_and!; [done|..].
  - intros Hc. destruct r as [sv|[]]; [by destruct Hr|done|by destruct Hr].
  - intros Hc sv Hs. destruct r as [sv'|[]].
    + destruct Hr as [_ [[? _]|[? _]]]; congruence.
    + destruct Hr as [_ [?|(_ & ? & _)]]; congruence.
    + destruct Hr as (_ & ? & _). congruence.
  - intros Hc Hs. split_and!.
    + intros sv ->. destruct Hr as [_ [[? _]|(_ & Hl & Hready & ->)]]; [congruence|].
      split_and!; [done..|]. cbn. by rewrite lookup_insert_eq.
    + intros ->. by destruct Hr as [_ [?|(_ & _ & ?)]].
    + intros Hh. destruct r as [sv|[]].
      * destruct Hr as [_ [[? _]|(_ & Hl & Hready & _)]]; [congruence|]. by rewrite Hl.
      * destruct Hr as [_ [?|(_ & _ & Hl)]]; [done|]. by rewrite Hl.
      * destruct Hr as (_ & _ & [[_ ?]|(sv & Hl & Hn & ->)]); [done|]. by rewrite Hl.
Qed.


(** C35: However checks, responses, outboard computations and changes of the
    bucket interleave, what the server keeps stays bounded: at most 100,000
    hashes are remembered as servable and 10,000 as corrupt, at most two
    outboards are computed at once, never two of one hash, and the hashes
    marked as being computed are exactly those. *)
Theorem server_resources_bounded g :
  server_reachable prefix g ->
  let s := sg_server g in
  (Z.of_nat (size (servable s)) <= 100000)%Z /\ (Z.of_nat (size (corrupt s)) <= 10000)%Z
  /\ (length (tasks s) <= 2)%nat /\ NoDup (bf_hash <$> tasks s)
  /\ (forall h, h ∈ backfilling s <-> h ∈ bf_hash <$> tasks s).
Proof.
  intros H. cut (server_bounded (sg_server g)).
  { unfold server_bounded, SIZES_CAPACITY, BAD_CAPACITY, BACKFILLS. intros (? & ? & ? & ? & ?). split_and!; [lia..|done|done]. }
  induction H as [b|g g' _ IH Hstep]; [|by eapply server_step_bounded].
  unfold server_bounded, server_new. cbn. rewrite map_size_empty, size_empty. split_and!; [lia|lia|done|constructor|set_solver].
Qed.
End ServeTheorems.

(** ** Witnesses *)

Module ServeSample.
#[local] Existing Instance plain_hex.
#[local] Instance s3 : S3Service := {| s3_fault := fun _ _ => Healthy; etag_of := id; page_size := 2 |}.
(** Bodies arrive a byte, then three bytes at a time. *)
#[local] Instance transport : Transport :=
  {| body_plan := fun _ => [Some 1%positive; Some 3%positive; Some 3%positive]; peer_fails := fun _ _ => None |}.

(** A tree whose root is the data and whose outboard is its first byte. *)
#[local] Instance bao : BaoServe :=
  {| ChunkRanges := unit; ranges_empty := fun _ => false;
     tree_outboard_size := fun size => if (size <=? 4)%Z then 0%Z else 1%Z;
     create_outboard := fun size => Reading 0 size (fun b =>
       match b with Ok b => Opened (Ok (b, String.substring 0 1 b)) | Err e => Opened (Err e) end);
     encode_ranges_validated := fun root size _ =>
       ReadOutboard 0 1 (fun o => match o with
         | Err e => Encoded (Err (EncodeIo e))
         | Ok o => ReadData 0 (Z.to_nat size) (fun d => match d with
             | Err e => Encoded (Err (EncodeIo e))
             | Ok d => if bool_decide (d = root)
                       then WriteBytes (o +:+ d) (fun r => match r with
                              | Ok _ => Encoded (Ok tt) | Err e => Encoded (Err (EncodeIo e)) end)
                       else Encoded (Err (LeafHashMismatch 0))
             end)
         end) |}.

#[local] Instance laws : BaoServeLaws.
Proof.
  split.
  - intros size. cbn. split_and!; [done|done|]. intros e. by exists e.
  - intros root size ranges. cbn. split; [done|]. split; [|intros e; by exists e]. intros o.
    split; [done|]. split; [|intros e; by exists e]. intros d. case_bool_decide; cbn; [|done].
    split; [done|]. intros e. by exists e.
Defined.

Lemma no_faults : faultless.
Proof. split; [reflexivity|]. intros log. cbn. repeat constructor; eexists; reflexivity. Defined.

Definition bucket : Bucket :=
  {| objects := {[blob_key "" (hex_encode "abcdef") := written "abcdef" None;
                  blob_key "" (hex_encode "stray") := written "strays" None]}; s3_log := [] |}.
Definition start : Serving := {| sg_server := server_new; sg_bucket := bucket |}.

Definition everything : @ChunkRanges bao := tt.
Definition sv0 : Servable := {| sv_size := 6; sv_object := Blob |}.


Lemma check_exact_witness : fst (check "" "abc" 0 start) = Err Gone.
Proof.
  destruct (check "" "abc" 0 start) as [r g'] eqn:E.
  destruct (check_exact "" "abc" 0 start r g' E) as (_ & _ & _ & H).
  destruct H as (_ & _ & H); [vm_compute; intros H; discriminate H|reflexivity|].
  specialize (H (fun _ _ => eq_refl)). vm_compute in H. exact H.
Defined.

(** The store once the outboard is there. *)
Definition served : Serving :=
  {| sg_server := server_new;
     sg_bucket := {| objects := <[outboard_key "" (hex_encode "abcdef") := written "a" None]> (objects bucket); s3_log := [] |} |}.

Lemma send_refines_memory_witness :
  exists g', send "" "abcdef" sv0 everything "" served
    = (Ok tt, to_le_bytes 8 6 +:+ "aabcdef", g').
Proof.
  destruct (send "" "abcdef" sv0 everything "" served) as [[r out'] g'] eqn:E.
  pose proof (send_refines_memory "" "abcdef" sv0 everything "" served r out' g' E) as H.
  assert (encoding "" (objects (sg_bucket served)) "abcdef" sv0 everything = (Ok tt, "aabcdef")) as Henc by (vm_compute; reflexivity).
  rewrite Henc in H. destruct H as (_ & _ & _ & _ & H).
  destruct H as [-> ->].
  - exact no_faults.
  - reflexivity.
  - split; intros _.
    + exists (written "abcdef" None). split; [vm_compute; reflexivity|discriminate].
    + exists (written "a" None). split; [vm_compute; reflexivity|discriminate].
  - exists g'. reflexivity.
Defined.

Lemma server_resources_bounded_witness :
  (length (tasks (sg_server (snd (check "" "abcdef" 0 start)))) <= 2)%nat.
Proof.
  destruct (check "" "abcdef" 0 start) as [r g'] eqn:E. cbn [snd].
  apply (server_resources_bounded "" g'). eapply reach_server_step; [apply reach_server_new|].
  exact (StepCheck "" start "abcdef" 0 r g' E).
Defined.
End ServeSample.
