(* ===== verification/Staging.v ===== *)
(** * Push staging (src/staging.rs)

    Which pushes are pending, what a run of the local store's garbage
    collector keeps, and when the collector is reported stopped. The store
    itself (iroh-blobs) is a parameter: whether it synced, and what it lists. *)

From S2P Require Import Prelude Bytes Auth.

Definition DRAIN_LIMIT : Z := secs (15 * 60).

Record Staging := {
  pending : gmap bytes nat;
  (** Whether the store was attached. *)
  attached : bool;
  last_run : Z
}.

Definition staging_new (now : Z) : Staging := {| pending := ∅; attached := false; last_run := now |}.

Definition set_pending (x : gmap bytes nat) (s : Staging) : Staging :=
  {| pending := x; attached := attached s; last_run := last_run s |}.

Definition attach (now : Z) (s : Staging) : Staging :=
  {| pending := pending s; attached := true; last_run := now |}.

Definition track (hash : bytes) (s : Staging) : Staging :=
  set_pending (<[hash := S (default 0%nat (pending s !! hash))]> (pending s)) s.

(** [Drop for PendingPush] *)
Definition drop_push (hash : bytes) (s : Staging) : Staging :=
  match pending s !! hash with
  | Some n =>
      let n := pred n in
      set_pending (if (n =? 0)%nat then delete hash (pending s) else <[hash := n]> (pending s)) s
  | None => s
  end.

Definition is_pending (hash : bytes) (s : Staging) : bool := bool_decide (is_Some (pending s !! hash)).

(** [keep_set], given the pending pushes when it starts and after the store
    was listed, and what the store answered. *)
Definition keep_set (before after : Staging) (synced : bool) (listed : option (list bytes)) : option (gset bytes) :=
  if negb (attached before) then None
  else
    let keep := dom (pending before) in
    if negb synced then None
    else
      match listed with
      | None => None
      | Some stored =>
          let keep := keep ∪ dom (pending after) in
          let doomed := length (filter (fun h => h ∉ keep) stored) in
          if (doomed =? 0)%nat then None else Some keep
      end.

Inductive ProtectOutcome := Continue | AbortRun.

(** The protect callback of [gc_config]: the run is noted before anything
    else; [joined] is [false] when the task that computes the set failed. *)
Definition protect_starts (now : Z) (s : Staging) : Staging :=
  {| pending := pending s; attached := attached s; last_run := now |}.

Definition protect (live : gset bytes) (joined : bool) (keep : option (gset bytes)) :
    gset bytes * ProtectOutcome :=
  if joined then
    match keep with
    | Some keep => (live ∪ keep, Continue)
    | None => (live, AbortRun)
    end
  else (live, AbortRun).

(** ** The collector's watchdog

    What the loop reads at its [i]-th look: the clock, when the collector last
    ran, and whether pushes are pending. *)
Record look := { at_ : Z; ran : Z; busy : bool }.

Section Watch.
Context (dead_after : Z) (seen : nat -> look).

(** The first loop: until the collector has been silent for [dead_after]. *)
Fixpoint until_silent (fuel i : nat) : option nat :=
  match fuel with
  | O => None
  | S fuel => if (elapsed (at_ (seen i)) (ran (seen i)) <? dead_after)%Z then until_silent fuel (S i) else Some i
  end.

(** The second: until no push is pending, or the deadline. *)
Fixpoint until_drained (fuel i : nat) (deadline : Z) : option nat :=
  match fuel with
  | O => None
  | S fuel => if busy (seen i) && (at_ (seen i) <? deadline)%Z then until_drained fuel (S i) deadline else Some i
  end.

(** The look at which [collector_stopped] resolves. *)
Definition collector_stopped (fuel : nat) : option (nat * nat) :=
  i ← until_silent fuel 0;
  j ← until_drained fuel i (at_ (seen i) + DRAIN_LIMIT)%Z;
  Some (i, j).

(** ** Facts *)

Lemma until_silent_Some fuel i k :
  until_silent fuel i = Some k ->
  (i <= k)%nat /\ (dead_after <= elapsed (at_ (seen k)) (ran (seen k)))%Z
  /\ (forall j, (i <= j < k)%nat -> (elapsed (at_ (seen j)) (ran (seen j)) < dead_after)%Z).
Proof.
  revert i; induction fuel as [|fuel IH]; intros i H; cbn in H; [done|].
  destruct (Z.ltb_spec (elapsed (at_ (seen i)) (ran (seen i))) dead_after).
  - apply IH in H as (Hk & Hd & Hb). split_and!; [lia|done|]. intros j Hj.
    destruct (decide (j = i)) as [->|]; [done|]. apply Hb. lia.
  - injection H as <-. split_and!; [lia|done|lia].
Qed.

Lemma until_silent_total n fuel i :
  (dead_after <= elapsed (at_ (seen n)) (ran (seen n)))%Z -> (i <= n < i + fuel)%nat -> is_Some (until_silent fuel i).
Proof.
  intros Hn. revert i; induction fuel as [|fuel IH]; intros i Hi; cbn; [lia|].
  destruct (Z.ltb_spec (elapsed (at_ (seen i)) (ran (seen i))) dead_after); [|by eexists].
  apply IH. destruct (decide (i = n)) as [->|]; lia.
Qed.

Lemma until_drained_Some fuel i deadline k :
  until_drained fuel i deadline = Some k ->
  (i <= k)%nat /\ (busy (seen k) = false \/ (deadline <= at_ (seen k))%Z)
  /\ (forall j, (i <= j < k)%nat -> busy (seen j) = true).
Proof.
  revert i; induction fuel as [|fuel IH]; intros i H; cbn in H; [done|].
  destruct (busy (seen i)) eqn:Eb; cbn in H.
  - destruct (Z.ltb_spec (at_ (seen i)) deadline).
    + apply IH in H as (Hk & Hd & Hb). split_and!; [lia|done|]. intros j Hj.
      destruct (decide (j = i)) as [->|]; [done|]. apply Hb. lia.
    + injection H as <-. split_and!; [lia|by right|lia].
  - injection H as <-. split_and!; [lia|by left|lia].
Qed.

Lemma until_drained_total n fuel i deadline :
  (deadline <= at_ (seen n))%Z -> (i <= n < i + fuel)%nat -> is_Some (until_drained fuel i deadline).
Proof.
  intros Hn. revert i; induction fuel as [|fuel IH]; intros i Hi; cbn; [lia|].
  destruct (busy (seen i) && (at_ (seen i) <? deadline)%Z) eqn:E; [|by eexists].
  apply IH. destruct (decide (i = n)) as [->|]; lia.
Qed.

(** C36: The watchdog reports a stopped collector, and only that. When it
    resolves, the collector had started no run for [dead_after] at the first
    such look, and no push is pending any more, or it waited the whole drain
    limit. If the collector stops for good and each look is at least [poll]
    later than the one before, it does resolve, within a number of looks set
    by the two limits. *)
Theorem collector_stopped_exact fuel :
  (forall i j, collector_stopped fuel = Some (i, j) ->
     (dead_after <= elapsed (at_ (seen i)) (ran (seen i)))%Z
     /\ (forall k, (k < i)%nat -> (elapsed (at_ (seen k)) (ran (seen k)) < dead_after)%Z)
     /\ (i <= j)%nat
     /\ (busy (seen j) = false \/ (at_ (seen i) + DRAIN_LIMIT <= at_ (seen j))%Z)
     /\ (forall k, (i <= k < j)%nat -> busy (seen k) = true))
  /\ (forall poll n last,
     (0 < poll)%Z -> (forall k, (at_ (seen k) + poll <= at_ (seen (S k)))%Z) ->
     (forall k, (n <= k)%nat -> ran (seen k) = last) -> (last <= at_ (seen n))%Z ->
     (n + Z.to_nat (dead_after / poll) + Z.to_nat (DRAIN_LIMIT / poll) + 3 <= fuel)%nat ->
     is_Some (collector_stopped fuel)).
Proof.
  unfold collector_stopped. split.
  - intros i j (i' & Hi & H)%bind_Some. apply bind_Some in H as (j' & Hj & [= <- <-]).
    apply until_silent_Some in Hi as (_ & Hd & Hb). apply until_drained_Some in Hj as (Hij & Hj & Hk).
    split_and!; try done. intros k Hlt. apply Hb. lia.
  - intros poll n last Hp Hclock Hran Hlast Hfuel.
    assert (forall a k, (at_ (seen a) + Z.of_nat k * poll <= at_ (seen (a + k)))%Z) as Hadv.
    { intros a k; induction k as [|k IH]; [rewrite Nat.add_0_r; lia|].
      rewrite Nat.add_succ_r. specialize (Hclock (a + k)%nat). lia. }
    assert (forall z k, (0 < k)%nat -> k = S (Z.to_nat (z / poll)) -> (z <= Z.of_nat k * poll)%Z) as Hreach.
    { intros z k _ ->. destruct (Z.le_gt_cases 0 (z / poll)); [|dlia]. rewrite Nat2Z.inj_succ, Z2Nat.id by done. dlia. }
    set (d := S (Z.to_nat (dead_after / poll))). set (e := S (Z.to_nat (DRAIN_LIMIT / poll))).
    destruct (until_silent_total (n + d)%nat fuel 0) as [i Hi]; [|lia|].
    { rewrite Hran by lia. specialize (Hadv n d). specialize (Hreach dead_after d ltac:(lia) eq_refl). unfold elapsed. lia. }
    rewrite Hi. cbn.
    assert (i <= n + d)%nat as Hin.
    { apply until_silent_Some in Hi as (_ & _ & Hb). destruct (Nat.le_gt_cases i (n + d)); [done|].
      specialize (Hb (n + d)%nat ltac:(lia)). rewrite Hran in Hb by lia.
      specialize (Hadv n d). specialize (Hreach dead_after d ltac:(lia) eq_refl). unfold elapsed in Hb. lia. }
    destruct (until_drained_total (i + e)%nat fuel i (at_ (seen i) + DRAIN_LIMIT)) as [j ->]; [|lia|by eexists].
    specialize (Hadv i e). specialize (Hreach DRAIN_LIMIT e ltac:(lia) eq_refl). lia.
Qed.
End Watch.

(** ** Pending pushes and the guards that hold them *)

(** The staging with the guards alive, one entry for each push in flight. *)
Inductive stage_step : Staging * list bytes -> Staging * list bytes -> Prop :=
| StepTrack s l hash : stage_step (s, l) (track hash s, hash :: l)
| StepDrop s l1 hash l2 : stage_step (s, l1 ++ hash :: l2) (drop_push hash s, l1 ++ l2)
| StepAttach s l now : stage_step (s, l) (attach now s, l)
| StepRun s l now : stage_step (s, l) (protect_starts now s, l).

Inductive staged : Staging * list bytes -> Prop :=
| staged_new now : staged (staging_new now, [])
| staged_step x y : staged x -> stage_step x y -> staged y.

Definition occurrences (h : bytes) (l : list bytes) : nat := length (filter (fun x => x = h) l).

Definition counted (x : Staging * list bytes) : Prop :=
  forall h, pending x.1 !! h = (if (occurrences h x.2 =? 0)%nat then None else Some (occurrences h x.2)).

Lemma occurrences_cons h x l : occurrences h (x :: l) = ((if decide (x = h) then 1 else 0) + occurrences h l)%nat.
Proof. unfold occurrences. rewrite filter_cons. by destruct (decide (x = h)). Qed.

Lemma occurrences_mid h l1 x l2 : occurrences h (l1 ++ x :: l2) = occurrences h (x :: l1 ++ l2).
Proof.
  unfold occurrences. rewrite !filter_app, !filter_cons, filter_app.
  destruct (decide (x = h)); cbn; rewrite !length_app; cbn; lia.
Qed.

Lemma occurrences_elem h l : occurrences h l <> 0%nat <-> h ∈ l.
Proof.
  induction l as [|x l IH]; [split; [done|by intros ?%elem_of_nil]|].
  rewrite occurrences_cons, elem_of_cons. destruct (decide (x = h)); naive_solver.
Qed.

Lemma stage_step_counted x y : stage_step x y -> counted x -> counted y.
Proof.
  intros H Hc. destruct H as [s l hash|s l1 hash l2|s l now|s l now]; try done; intros h; cbn [fst snd];
    specialize (Hc h) as Hh; specialize (Hc hash) as Hx; cbn [fst snd] in *.
  - cbn [track set_pending pending]. rewrite occurrences_cons. destruct (decide (hash = h)) as [<-|Hne].
    + rewrite lookup_insert_eq, Hx. by destruct (Nat.eqb_spec (occurrences hash l) 0) as [->|].
    + by rewrite lookup_insert_ne.
  - rewrite occurrences_mid, occurrences_cons in *. rewrite decide_True in Hx by done. unfold drop_push. rewrite Hx. cbn.
    set (n := occurrences hash (l1 ++ l2)) in *. destruct (decide (hash = h)) as [<-|Hne].
    + fold n. destruct (Nat.eqb_spec n 0); [by rewrite lookup_delete_eq|by rewrite lookup_insert_eq].
    + cbn in Hh. destruct (Nat.eqb_spec n 0); [by rewrite lookup_delete_ne|by rewrite lookup_insert_ne].
Qed.

Lemma staged_counted x : staged x -> counted x.
Proof. induction 1 as [now|x y _ IH H]; [done|by eapply stage_step_counted]. Qed.

Lemma staged_pending s l h : staged (s, l) -> is_Some (pending s !! h) <-> h ∈ l.
Proof.
  intros Hc%staged_counted. specialize (Hc h). cbn [fst snd] in Hc. rewrite Hc, <- occurrences_elem.
  destruct (Nat.eqb_spec (occurrences h l) 0); split; [by intros [? ?]|done|done|by eexists].
Qed.

(** C29: What a collector run keeps. A hash is pending exactly while a push of
    it is in flight, however pushes of one hash overlap. A run that deletes
    keeps exactly the hashes with a push in flight when it starts or after the
    store was listed, and there is a stored blob it does not keep; the run is
    skipped exactly when the store is not attached, cannot be synced or
    listed, or holds only blobs of pushes in flight. *)
Theorem collector_keeps_pending s1 l1 s2 l2 synced listed :
  staged (s1, l1) -> staged (s2, l2) ->
  (forall h, is_pending h s1 = true <-> h ∈ l1)
  /\ match keep_set s1 s2 synced listed with
     | Some keep => (forall h, h ∈ keep <-> h ∈ l1 \/ h ∈ l2)
         /\ attached s1 = true /\ synced = true
         /\ exists stored h, listed = Some stored /\ h ∈ stored /\ (h ∉ l1) /\ (h ∉ l2)
     | None => attached s1 = false \/ synced = false \/ listed = None
         \/ exists stored, listed = Some stored /\ forall h, h ∈ stored -> h ∈ l1 \/ h ∈ l2
     end.
Proof.
  intros H1 H2.
  assert (forall h, h ∈ dom (pending s1) ∪ dom (pending s2) <-> h ∈ l1 \/ h ∈ l2) as Hk.
  { intros h. by rewrite elem_of_union, !elem_of_dom, (staged_pending s1 l1), (staged_pending s2 l2). }
  split; [intros h; unfold is_pending; by rewrite bool_decide_eq_true, (staged_pending s1 l1)|].
  unfold keep_set. destruct (attached s1); [|by left]. destruct synced; [|by right; left].
  destruct listed as [stored|]; [|by right; right; left]. cbn [negb].
  destruct (Nat.eqb_spec (length (filter (fun h => h ∉ dom (pending s1) ∪ dom (pending s2)) stored)) 0) as [E|E].
  - right. right. right. exists stored. split; [done|]. intros h Hin. apply Hk.
    apply nil_length_inv in E. destruct (decide (h ∈ dom (pending s1) ∪ dom (pending s2))); [done|].
    assert (h ∈ filter (fun h => h ∉ dom (pending s1) ∪ dom (pending s2)) stored) as Hf by by apply list_elem_of_filter.
    rewrite E in Hf. by apply elem_of_nil in Hf.
  - split_and!; try done. destruct (filter _ stored) as [|h f] eqn:Ef; [done|].
    assert (h ∈ filter (fun h => h ∉ dom (pending s1) ∪ dom (pending s2)) stored) as Hf by (rewrite Ef; left).
    apply list_elem_of_filter in Hf as [Hn Hin]. rewrite Hk in Hn. exists stored, h. naive_solver.
Qed.

(** ** Witnesses *)

Module StagingSample.
(** Two pushes of one hash, one of which has ended. *)
Definition s0 : Staging := drop_push "a" (track "a" (track "a" (attach 5 (staging_new 0)))).

Lemma s0_staged : staged (s0, ["a"]).
Proof.
  eapply staged_step; [|apply (StepDrop _ [] "a" ["a"])]. eapply staged_step; [|apply StepTrack].
  eapply staged_step; [|apply StepTrack]. eapply staged_step; [|apply (StepAttach _ _ 5)]. apply staged_new.
Defined.

Lemma collector_keeps_pending_witness :
  exists keep, keep_set s0 s0 true (Some ["a"; "b"]) = Some keep /\ "a" ∈ keep /\ ("b" ∉ keep).
Proof.
  pose proof (collector_keeps_pending s0 ["a"] s0 ["a"] true (Some ["a"; "b"]) s0_staged s0_staged) as [_ H].
  destruct (keep_set s0 s0 true (Some ["a"; "b"])) as [keep|] eqn:E; [|vm_compute in E; discriminate E].
  destruct H as [Hk _]. exists keep. split; [reflexivity|]. split.
  - apply Hk. left. left.
  - rewrite Hk. intros [H|H]; apply list_elem_of_singleton in H; discriminate H.
Defined.

(** A collector that last ran at 3, looked at every second. *)
Definition looks (i : nat) : look := {| at_ := secs (Z.of_nat i); ran := secs 3; busy := (i <? 8)%nat |}.

Lemma collector_stopped_exact_witness : collector_stopped (secs 2) looks (Z.to_nat 1000) = Some (5%nat, 8%nat).
Proof.
  destruct (collector_stopped_exact (secs 2) looks (Z.to_nat 1000)) as [_ H].
  destruct (H (secs 1) 3%nat (secs 3)) as [x Hx].
  - reflexivity.
  - intros k. unfold looks, secs. cbn [at_]. lia.
  - reflexivity.
  - discriminate.
  - vm_compute. lia.
  - rewrite Hx. vm_compute in Hx. symmetry. exact Hx.
Defined.
End StagingSample.
