(* ===== verification/Node.v ===== *)
(** * The node's blobs protocol and its ingest (src/node.rs)

    Fetches: the requests of the blobs protocol, what each is answered, and
    what is sent. Pushes: the answer to each provider event, the wait for a
    transfer, the watch for a push that is too large or stalls, the ingest
    with its retries, and the record of who pushed. A request and a push task
    each run to their end; the view of moderation is the one the request
    finds. The endpoint, the router and the provider's import are iroh's. *)

From S2P Require Import Prelude Bytes Identifiers Json Extern Samples S3Store Auth Authz EntityChain PublishDecision Moderation PublishGate Validation Ingest S3Reader S3Serve Staging.

(** ** Fetches *)

Definition MAX_FETCH_HASHES : nat := 64.
Definition SERVES : nat := Z.to_nat 256.

Inductive reset_code := ERR_PERMISSION | ERR_LIMIT.

(** How a stream ends: the response finished, or reset with a code; a push
    goes to the provider. *)
Inductive reply := Finished | ResetWith (code : reset_code) | HandedToProvider.

Section Serve.
Context {S3 : S3Service} {TR : Transport} {BS : BaoServe} {HX : Hex} (prefix : string).

(** The requests of the protocol. [as_single] and [iter_infinite] are those
    of the request's ranges. *)
Inductive Request :=
| Push (hash : bytes) (is_blob : bool)
| Get (hash : bytes) (as_single : option (Z * ChunkRanges))
| GetMany (hashes : list bytes) (iter_infinite : nat -> ChunkRanges)
| Observe
| Unreadable.

(** The gate's view; [None] on an ungated node. *)
Definition blocked (view : option Moderation) (hash : bytes) : bool :=
  match view with Some m => is_blocked m (hex_encode hash) | None => false end.

Definition hidden (view : option Moderation) (o : Object) : bool :=
  match o, view with
  | CatalogDocument (Some owner), Some m => catalog_hidden m owner
  | _, _ => false
  end.

(** The checks before a byte is sent; [now i] is the clock at the [i]-th. *)
Fixpoint check_all (view : option Moderation) (now : nat -> Z) (i : nat) (wanted : list (bytes * ChunkRanges)) :
    comp Serving reset_code (list Servable) :=
  match wanted with
  | [] => mret []
  | (hash, _) :: wanted =>
      if blocked view hash then throw ERR_PERMISSION
      else
        sv ← comp_map_err (fun r => match r with Gone => ERR_PERMISSION | Busy => ERR_LIMIT end)
               (check prefix hash (now i));
        if hidden view (sv_object sv) then throw ERR_PERMISSION
        else
          svs ← check_all view now (S i) wanted;
          mret (sv :: svs)
  end.

(** The responses, one after the other, until one breaks off. *)
Fixpoint send_all (todo : list (bytes * ChunkRanges * Servable)) (out : bytes) (g : Serving) : reply * bytes * Serving :=
  match todo with
  | [] => (Finished, out, g)
  | (hash, ranges, sv) :: todo =>
      match send prefix hash sv ranges out g with
      | (Ok _, out, g) => send_all todo out g
      | (Err _, out, g) => (ResetWith ERR_LIMIT, out, set_server (forget hash (sg_server g)) g)
      end
  end.

(** [serve], holding one of the free permits. *)
Definition serve (view : option Moderation) (now : nat -> Z) (wanted : list (bytes * ChunkRanges)) (permits : nat)
    (g : Serving) : reply * bytes * Serving :=
  if (permits =? 0)%nat then (ResetWith ERR_LIMIT, "", g)
  else
    match check_all view now 0 wanted g with
    | (Err code, g) => (ResetWith code, "", g)
    | (Ok svs, g) => send_all (zip wanted svs) "" g
    end.

(** The hashes of a get_many with the ranges asked of each, without those of
    which nothing is asked. *)
Definition wanted_many (hashes : list bytes) (ranges : nat -> ChunkRanges) : list (bytes * ChunkRanges) :=
  filter (fun x => ranges_empty x.2 = false) (imap (fun i h => (h, ranges i)) hashes).

Definition stream (view : option Moderation) (now : nat -> Z) (request : Request) (permits : nat) (g : Serving) :
    reply * bytes * Serving :=
  match request with
  | Unreadable => (ResetWith ERR_PERMISSION, "", g)
  | Push _ _ => (HandedToProvider, "", g)
  | Get hash (Some (0%Z, ranges)) => serve view now [(hash, ranges)] permits g
  | Get _ _ => (ResetWith ERR_PERMISSION, "", g)
  | GetMany hashes ranges =>
      if (MAX_FETCH_HASHES <? length hashes)%nat then (ResetWith ERR_PERMISSION, "", g)
      else serve view now (wanted_many hashes ranges) permits g
  | Observe => (ResetWith ERR_PERMISSION, "", g)
  end.
End Serve.

(** ** Facts: fetches *)

Section ServeFacts.
Context {S3 : S3Service} {TR : Transport} {BS : BaoServe} {HX : Hex} {BL : BaoServeLaws} (prefix : string).

(** [sv] is what the node may send for a hash: the server remembers it or the
    bucket holds it with its outboard, and nothing forbids it. *)
Definition allowed (view : option Moderation) (s : S3Server) (m : gmap string object) (hash : bytes) (sv : Servable) : Prop :=
  blocked view hash = false /\ hidden view (sv_object sv) = false /\ (hash ∉ corrupt s)
  /\ (servable s !! hash = Some sv \/ located prefix m hash = Some sv /\ ready prefix m hash sv).

(** What the server remembers was remembered before or is in the bucket. *)
Definition knows_more (s : S3Server) (m : gmap string object) (s' : S3Server) : Prop :=
  corrupt s' = corrupt s
  /\ forall h sv, servable s' !! h = Some sv ->
     servable s !! h = Some sv \/ located prefix m h = Some sv /\ ready prefix m h sv.

Lemma check_knows s m hash now g r g' :
  knows_more s m (sg_server g) -> objects (sg_bucket g) = m -> check prefix hash now g = (r, g') ->
  knows_more s m (sg_server g') /\ objects (sg_bucket g') = m
  /\ (forall sv, r = Ok sv -> (hash ∉ corrupt s)
      /\ (servable s !! hash = Some sv \/ located prefix m hash = Some sv /\ ready prefix m hash sv)).
Proof.
  intros [Hc Hk] Hm [Ho Hr]%check_spec. cbv zeta in *. rewrite Hm in *.
  destruct r as [sv|[]].
  - destruct Hr as [Hn [[Hs ->]|(Hs & Hl & Hready & Hg')]].
    + split_and!; [done..|]. intros sv' [= <-]. rewrite <- Hc. split; [done|]. by apply Hk.
    + split_and!; [|done|intros sv' [= <-]; rewrite <- Hc; by auto]. rewrite Hg'. split; [done|].
      intros h sv'. cbn. destruct (decide (h = hash)) as [->|Hne].
      * rewrite lookup_insert_eq. intros [= <-]. by right.
      * rewrite lookup_insert_ne by done. destruct (_ <=? _)%nat; [by rewrite lookup_empty|apply Hk].
  - destruct Hr as [-> _]. by split_and!.
  - destruct Hr as (_ & _ & [[-> _]|(sv & _ & _ & ->)]); split_and!; try done.
    unfold backfill. by repeat case_match.
Qed.

Lemma check_all_allowed view now i wanted s m g r g' :
  knows_more s m (sg_server g) -> objects (sg_bucket g) = m -> check_all prefix view now i wanted g = (r, g') ->
  objects (sg_bucket g') = m
  /\ (forall svs, r = Ok svs -> Forall2 (fun w sv => allowed view s m w.1 sv) wanted svs).
Proof.
  revert i g r g'; induction wanted as [|[hash ranges] wanted IH]; intros i g r g' Hk Hm H; cbn in H.
  { injection H as <- <-. split; [done|]. intros svs [= <-]. constructor. }
  destruct (blocked view hash) eqn:Eb; [by injection H as <- <-|].
  apply comp_bind_state in H as [(sv & g1 & H1 & H)|(e & H1 & ->)]; unfold comp_map_err in H1;
    destruct (check prefix hash (now i) g) as [r0 g0] eqn:Ec;
    apply (check_knows s m) in Ec as (Hk1 & Hm1 & Hsv); try done; injection H1 as Hr <-; [|done].
  destruct r0 as [sv'|]; [|done]. injection Hr as ->. destruct (Hsv sv eq_refl) as [Hn Hin].
  destruct (hidden view (sv_object sv)) eqn:Eh; [by injection H as <- <-|].
  apply comp_bind_state in H as [(svs & g2 & H2 & H)|(e & H2 & ->)]; apply (IH _ _ _ _ Hk1 Hm1) in H2 as [Hm2 Hall]; [|done].
  injection H as <- <-. split; [done|]. intros ? [= <-]. constructor; [by split_and!|by apply Hall].
Qed.

(** The responses to a list of hashes, from the objects in memory. *)
Definition responses (m : gmap string object) (todo : list (bytes * ChunkRanges * Servable)) : bytes :=
  foldr (fun '(hash, ranges, sv) rest =>
    (to_le_bytes 8 (sv_size sv) +:+ snd (encoding prefix m hash sv ranges)) +:+ rest) "" todo.

Lemma send_all_sent m todo out g rep out' g' :
  objects (sg_bucket g) = m -> send_all prefix todo out g = (rep, out', g') ->
  objects (sg_bucket g') = m
  /\ exists p, out' = out +:+ p /\ (exists q, responses m todo = p +:+ q)
     /\ match rep with
        | Finished => p = responses m todo /\ Forall (fun '(h, rs, sv) => fst (encoding prefix m h sv rs) = Ok tt) todo
        | ResetWith code => code = ERR_LIMIT
        | HandedToProvider => False
        end.
Proof.
  revert out g; induction todo as [|[[hash ranges] sv] todo IH]; intros out g Hm H; cbn [send_all] in H.
  { injection H as <- <- <-. split; [done|]. exists "". rewrite string_app_nil_r. split_and!; [done|by exists ""|done|constructor]. }
  destruct (send prefix hash sv ranges out g) as [[r out1] g1] eqn:Es. apply (send_sent prefix (BL := BL)) in Es.
  cbn [responses foldr]. fold (responses m todo). rewrite Hm in Es.
  destruct (encoding prefix m hash sv ranges) as [rm enc] eqn:Ee. cbn [snd].
  destruct Es as (Hm1 & _ & p1 & -> & [q1 Hq1] & Hall1). revert Hq1 Hall1. generalize (to_le_bytes 8 (sv_size sv) +:+ enc) as whole.
  intros whole Hq1 Hall1. destruct r as [[]|e].
  - destruct Hall1 as [-> ->]. apply IH in H as (Hm' & p & -> & [q Hq] & Hrep); [|done]. split; [done|].
    exists (whole +:+ p). split; [by rewrite string_app_assoc|]. split; [exists q; by rewrite Hq, string_app_assoc|].
    destruct rep; [|done..]. destruct Hrep as [-> Hf]. split; [done|]. constructor; [by rewrite Ee|done].
  - injection H as <- <- <-. split; [done|]. exists p1. split; [done|].
    split; [|done]. exists (q1 +:+ responses m todo). by rewrite Hq1, string_app_assoc.
Qed.

(** A hash the node can serve from the bucket as it is. *)
Definition fetchable (view : option Moderation) (s : S3Server) (m : gmap string object) (w : bytes * ChunkRanges)
    (sv : Servable) : Prop :=
  blocked view w.1 = false /\ hidden view (sv_object sv) = false /\ (w.1 ∉ corrupt s)
  /\ located prefix m w.1 = Some sv /\ ready prefix m w.1 sv /\ fst (encoding prefix m w.1 sv w.2) = Ok tt.

(** What the server remembers is what the bucket holds. *)
Definition coherent (s : S3Server) (m : gmap string object) : Prop :=
  forall h sv, servable s !! h = Some sv -> located prefix m h = Some sv.

Lemma check_live m hash now g sv :
  healthy -> objects (sg_bucket g) = m -> coherent (sg_server g) m -> (hash ∉ corrupt (sg_server g)) ->
  located prefix m hash = Some sv -> ready prefix m hash sv ->
  exists g', check prefix hash now g = (Ok sv, g') /\ objects (sg_bucket g') = m /\ coherent (sg_server g') m
    /\ corrupt (sg_server g') = corrupt (sg_server g).
Proof.
  intros Hh Hm Hco Hc Hl Hr. destruct (check prefix hash now g) as [r g'] eqn:E.
  apply check_spec in E as [Ho Hres]. cbv zeta in *. rewrite Hm in *.
  destruct r as [sv'|[]].
  - destruct Hres as [_ [[Hs ->]|(Hs & Hl' & _ & Hg')]].
    + apply Hco in Hs. rewrite Hl in Hs. injection Hs as <-. by exists g.
    + rewrite Hl in Hl'. injection Hl' as <-. exists g'. split_and!; [done..| |by rewrite Hg'].
      rewrite Hg'. intros h x. cbn. destruct (decide (h = hash)) as [->|Hne].
      * rewrite lookup_insert_eq. by intros [= <-].
      * rewrite lookup_insert_ne by done. destruct (_ <=? _)%nat; [by rewrite lookup_empty|apply Hco].
  - destruct Hres as [_ [?|(_ & _ & ?)]]; [done|congruence].
  - destruct Hres as (_ & _ & [[_ ?]|(sv' & Hl' & Hn & _)]); [done|]. rewrite Hl in Hl'. by injection Hl' as <-.
Qed.

Lemma check_all_live view now m i wanted svs g :
  healthy -> objects (sg_bucket g) = m -> coherent (sg_server g) m ->
  Forall2 (fetchable view (sg_server g) m) wanted svs ->
  exists g', check_all prefix view now i wanted g = (Ok svs, g').
Proof.
  intros Hh. revert i svs g; induction wanted as [|[hash ranges] wanted IH]; intros i svs g Hm Hco Hf.
  { apply Forall2_nil_inv_l in Hf as ->. by eexists. }
  apply Forall2_cons_inv_l in Hf as (sv & svs' & Hw & Hrest & ->). cbn [check_all].
  destruct Hw as (Hb & Hhid & Hc & Hl & Hr & _). cbn [fst] in *. rewrite Hb.
  destruct (check_live m hash (now i) g sv) as (g1 & E & Hm1 & Hco1 & Hc1); [done..|].
  unfold mbind, comp_bind, comp_map_err. rewrite E. cbn [map_err]. rewrite Hhid.
  destruct (IH (S i) svs' g1) as (g2 & E2); [done..| |rewrite E2; by eexists].
  eapply Forall2_impl; [done|]. intros w x. unfold fetchable. by rewrite Hc1.
Qed.

Lemma located_whole m hash sv :
  located prefix m hash = Some sv -> ready prefix m hash sv -> stored_whole prefix m hash sv.
Proof.
  intros (o & Ho & Hsize)%located_data Hr. split; intros Hpos.
  - exists o. split; [done|lia].
  - specialize (Hr Hpos). unfold outboard_len in Hr. apply fmap_Some in Hr as (x & Hx & Hr).
    exists x. split; [done|lia].
Qed.

Lemma send_all_live view s m wanted svs out g :
  faultless -> (forall a b, peer_fails a b = None) -> objects (sg_bucket g) = m ->
  Forall2 (fetchable view s m) wanted svs ->
  fst (fst (send_all prefix (zip wanted svs) out g)) = Finished.
Proof.
  intros Hf Hp Hm Hw. revert out g Hm; induction Hw as [|[hash ranges] sv wanted svs Hw _ IH]; intros out g Hm; [done|].
  cbn [zip zip_with send_all]. destruct (send prefix hash sv ranges out g) as [[r out1] g1] eqn:Es.
  destruct Hw as (_ & _ & _ & Hl & Hr & Henc). cbn [fst snd] in *.
  pose proof (send_live prefix _ _ _ _ _ _ _ _ Es) as Hlive. pose proof (send_sent prefix _ _ _ _ _ _ _ _ Es) as Hs.
  rewrite Hm in *. destruct (encoding _ _ _ _ _) as [rm enc]. cbn in Henc. subst rm.
  destruct (Hlive Hf Hp (located_whole _ _ _ Hl Hr)) as [-> _]. apply IH. by destruct Hs as [-> _].
Qed.

(** What a request asks for; [None] for one that is refused unread. *)
Definition asks (request : Request) : option (list (bytes * ChunkRanges)) :=
  match request with
  | Get hash (Some (0%Z, ranges)) => Some [(hash, ranges)]
  | GetMany hashes ranges => if (64 <? length hashes)%nat then None else Some (wanted_many hashes ranges)
  | _ => None
  end.

(** C18: A fetch is answered only with what it may have. A request for a hash
    sequence, for more than 64 hashes, to observe, or that cannot be read is
    reset without a byte; so is one that names a blocked hash, or a catalog
    document of a creator whose catalog is hidden. Any byte sent is a
    beginning of the responses to the hashes asked for, each of which the
    bucket holds (or the server remembers) and nothing forbids; a finished
    stream carried all of them. A permission refusal is always clean, and on a
    store without faults a request for stored, permitted hashes finishes. *)
Theorem fetches_guarded view now request permits g rep out g' :
  stream prefix view now request permits g = (rep, out, g') ->
  let s := sg_server g in let m := objects (sg_bucket g) in
  objects (sg_bucket g') = m
  /\ (rep = ResetWith ERR_PERMISSION -> out = "")
  /\ (out <> "" \/ rep = Finished -> exists wanted svs,
      asks request = Some wanted
      /\ Forall2 (fun w sv => allowed view s m w.1 sv) wanted svs
      /\ (exists q, responses m (zip wanted svs) = out +:+ q)
      /\ (rep = Finished -> out = responses m (zip wanted svs)))
  /\ (forall wanted svs, asks request = Some wanted -> permits <> 0%nat -> faultless ->
      (forall a b, peer_fails a b = None) -> coherent s m -> Forall2 (fetchable view s m) wanted svs ->
      rep = Finished).
Proof.
  intros H. cbv zeta.
  assert (asks request = None /\ g' = g /\ out = "" /\ rep <> Finished
    \/ exists wanted, asks request = Some wanted /\ serve prefix view now wanted permits g = (rep, out, g')) as
    [(Hq & -> & -> & Hrep)|(wanted & Hq & Hs)].
  { unfold stream in H. unfold asks. fold MAX_FETCH_HASHES. repeat case_match; simplify_eq; auto; right; by eexists. }
  { rewrite Hq. split_and!; try done. by intros [?|?]. }
  rewrite Hq. unfold serve in Hs. destruct (Nat.eqb_spec permits 0).
  { injection Hs as <- <- <-. split_and!; try done. by intros [?|?]. }
  destruct (check_all prefix view now 0 wanted g) as [[svs|code] g1] eqn:Ec;
    pose proof (check_all_allowed view now 0 wanted (sg_server g) (objects (sg_bucket g)) g _ _
      (conj eq_refl (fun h sv Hx => or_introl Hx)) eq_refl Ec) as [Hm Hall].
  2: { injection Hs as <- <- <-. split_and!; try done; [by intros [?|?]|].
       intros ? svs [= <-] _ [Hh _] _ Hco Hf. destruct (check_all_live view now _ 0 _ _ g Hh eq_refl Hco Hf) as (? & E).
       by rewrite Ec in E. }
  pose proof (send_all_sent _ (zip wanted svs) "" g1 rep out g' Hm Hs) as (Hm' & p & Hp & [q Hqq] & Hrep).
  change ("" +:+ p) with p in Hp. subst p. split_and!; [done|by destruct rep as [|[]|]|..].
  - intros _. exists wanted, svs. split_and!; [done|by apply Hall|by exists q|]. intros ->. by destruct Hrep as [-> _].
  - intros ? svs' [= <-] _ Hf Hp Hco Hfe. destruct (check_all_live view now _ 0 _ _ g (proj1 Hf) eq_refl Hco Hfe) as (g2 & E).
    rewrite Ec in E. injection E as <- <-.
    pose proof (send_all_live view _ _ wanted svs "" g1 Hf Hp Hm Hfe) as Hfin. by rewrite Hs in Hfin.
Qed.
End ServeFacts.

(** ** Watching a push *)

Inductive PushTrouble := Oversize (size : Z) | Stalled.

Definition PUSH_STALL_MIN_BYTES : Z := 64 * 1024.

(** The loop over the bytes the connection has received, read once when the
    watch starts and then after each stall window; [None] once it is closed,
    and the watch then never resolves. The result is the window in which it
    found a stall. *)
Fixpoint stalled_from (i : nat) (last : option Z) (samples : list (option Z)) : option nat :=
  match samples with
  | [] => None
  | now :: samples =>
      match last, now with
      | Some before, Some after =>
          if (u64_saturating_sub after before <? PUSH_STALL_MIN_BYTES)%Z then Some i
          else stalled_from (S i) now samples
      | _, None => None
      | None, Some _ => stalled_from (S i) now samples
      end
  end.

(** [oversize_push] over the sizes the store reports, 0 until it knows. *)
Fixpoint oversize_push (max : Z) (sizes : list Z) : option Z :=
  match sizes with
  | [] => None
  | size :: sizes =>
      if (size =? 0)%Z then oversize_push max sizes
      else if (max <? size)%Z then Some size
      else None
  end.

(** ** Waiting for a push *)

Inductive RequestUpdate := Started (size : Z) | Progress | Completed | Aborted.

(** What the select sees, in order: an update, the end of the update stream,
    or trouble. *)
Inductive transfer_event := Update (u : RequestUpdate) | StreamEnded | Trouble (t : PushTrouble).

(** Why the wait ends. *)
Inductive transfer_end := TransferEnded (completed stalled : bool) | TooLarge.

Fixpoint await_transfer (events : list transfer_event) : transfer_end :=
  match events with
  | [] => TransferEnded false false
  | Update (Started _ | Progress) :: events => await_transfer events
  | Update Completed :: _ => TransferEnded true false
  | Update Aborted :: _ => TransferEnded false false
  | StreamEnded :: _ => TransferEnded false false
  | Trouble (Oversize _) :: _ => TooLarge
  | Trouble Stalled :: _ => TransferEnded false true
  end.

(** The reason the node closes the connection for, when it does. *)
Definition close_reason (e : transfer_end) : option string :=
  match e with
  | TooLarge => Some "blob exceeds max_blob_bytes"
  | TransferEnded _ true => Some "push stalled"
  | TransferEnded _ false => None
  end.

(** ** The push task *)

Definition UPLOAD_RETRIES : nat := 2.
Definition OBSERVE_ATTEMPTS : nat := 10.

(** Who pushed a blob. *)
Record BlobOwner := { bo_hash : string; bo_subject : string; bo_endpoint_id : string; bo_at : Z }.

Definition ser_blob_owner (o : BlobOwner) : json :=
  JObject [("hash", JString (bo_hash o)); ("subject", JString (bo_subject o));
           ("endpointId", JString (bo_endpoint_id o)); ("at", JInt (bo_at o))].

Definition PUBLISHERS : string := "publishers".

(** The gate, the staging, and what ingest works on. *)
Record NodeState {IR : Iroh} := {
  nd_gate : option PublishGate;
  nd_staging : Staging;
  nd_ingest : IngestState
}.

(** What the world does during one push: the clock readings and the session
    store's answer for its admission, its transfer, what the store reports at
    each look, and the time its owner is recorded at. *)
Record world := {
  w_ask : string -> lookup_answer;
  w_times : readings;
  w_events : list transfer_event;
  w_observed : nat -> result string bool;
  w_at : Z
}.

Inductive push_answer := PushOk | PushPermission.

Section PushTask.
Context {SJ : Serde} {HX : Hex} {B3 : Blake3} {SF : SealedFormat} {IR : Iroh}.
Context {TC : TdfCrate} {ZC : ZipCrate} {FS : FsStore} {BC : BaoCrate} {S3 : S3Service}.
Context (read_file : string -> result string string) (prefix scratch_dir : string) (config : ValidationConfig).

Definition set_gate (x : option PublishGate) (n : NodeState) : NodeState :=
  {| nd_gate := x; nd_staging := nd_staging n; nd_ingest := nd_ingest n |}.
Definition set_staging (x : Staging) (n : NodeState) : NodeState :=
  {| nd_gate := nd_gate n; nd_staging := x; nd_ingest := nd_ingest n |}.
Definition set_ingest (x : IngestState) (n : NodeState) : NodeState :=
  {| nd_gate := nd_gate n; nd_staging := nd_staging n; nd_ingest := x |}.

(** The store is looked at until the blob is complete, at most so often. *)
Fixpoint await_complete (attempts i : nat) (observed : nat -> result string bool) : bool :=
  match attempts with
  | O => false
  | S attempts =>
      match observed i with
      | Ok true => true
      | Ok false => await_complete attempts (S i) observed
      | Err _ => false
      end
  end.

Fixpoint upload_tries (retries : nat) (v : Validated) (g : IngestState) : bool * IngestState :=
  match upload prefix v g with
  | (Ok _, g) => (true, g)
  | (Err _, g) => match retries with S retries => upload_tries retries v g | O => (false, g) end
  end.

(** [ingest_stored]; the scratch file goes with [validated] at the end. *)
Definition ingest_stored (hash : bytes) (observed : nat -> result string bool) (g : IngestState) : bool * IngestState :=
  if negb (await_complete OBSERVE_ATTEMPTS 0 observed) then (false, g)
  else
    let '(r, s) := validate_from_store read_file scratch_dir config hash (ig_scratch g) in
    let g := set_scratch s g in
    match r with
    | Ok (Some v) => let '(stored, g) := upload_tries UPLOAD_RETRIES v g in (stored, drop_validated v g)
    | Ok None | Err _ => (false, g)
    end.

Definition wait_and_ingest (hash : bytes) (w : world) (g : IngestState) : bool * IngestState :=
  match await_transfer (w_events w) with
  | TooLarge => (false, g)
  | TransferEnded _ _ => ingest_stored hash (w_observed w) g
  end.

(** A failure is only logged. *)
Definition record_owner (hash : bytes) (subject : string) (endpoint : EndpointId) (at_ : Z) (g : IngestState) : IngestState :=
  let owner := {| bo_hash := hex_encode hash; bo_subject := subject; bo_endpoint_id := endpoint_to_string endpoint;
                  bo_at := at_ |} in
  set_bucket (put_moderation_record prefix PUBLISHERS (bo_hash owner) (serde_print (ser_blob_owner owner)) (ig_bucket g)).2 g.

(** Whether a push is accepted, and for whom. *)
Definition admit_push (w : world) (connection_id : Z) (hash : bytes) (is_blob : bool) (n : NodeState) :
    option (option (string * EndpointId)) * NodeState :=
  if negb is_blob then (None, n)
  else
    match nd_gate n with
    | None => (Some None, n)
    | Some gate =>
        match authorize_push (w_ask w) (w_times w) connection_id (hex_encode hash) gate with
        | (Ok owner, gate) => (Some (Some owner), set_gate (Some gate) n)
        | (Err _, gate) => (None, set_gate (Some gate) n)
        end
    end.

(** A push from its event to its end: the answer, whether it was ingested, and
    the states in which it is in flight and at its end. *)
Definition push_task (w : world) (connection_id : Z) (hash : bytes) (is_blob : bool) (n : NodeState) :
    push_answer * bool * NodeState * NodeState :=
  match admit_push w connection_id hash is_blob n with
  | (None, n) => (PushPermission, false, n, n)
  | (Some owner, n) =>
      let n := set_staging (track hash (nd_staging n)) n in
      let '(ingested, g) := wait_and_ingest hash w (nd_ingest n) in
      let ended := set_ingest g (set_staging (drop_push hash (nd_staging n)) n) in
      let ended := match ingested, owner with
                   | true, Some (subject, endpoint) => set_ingest (record_owner hash subject endpoint (w_at w) g) ended
                   | _, _ => ended
                   end in
      (PushOk, ingested, n, ended)
  end.

(** ** The event loop *)

Inductive ProviderMessage :=
| PushRequestReceived (connection_id : Z) (hash : bytes) (is_blob : bool)
| GetRequestReceived
| GetManyRequestReceived
| ObserveRequestReceived
| ClientConnected (connection_id : Z) (endpoint : option EndpointId)
| ConnectionClosed (connection_id : Z)
| Throttle
| Notification.

(** The answer to each message, [None] for one that wants none, and the state
    after it; a push is run to its end. *)
Definition handle_message (w : world) (msg : ProviderMessage) (n : NodeState) : option push_answer * NodeState :=
  match msg with
  | PushRequestReceived connection_id hash is_blob =>
      let '(answer, _, _, n) := push_task w connection_id hash is_blob n in (Some answer, n)
  | GetRequestReceived | GetManyRequestReceived | ObserveRequestReceived => (Some PushPermission, n)
  | ClientConnected connection_id endpoint =>
      (Some PushOk, set_gate (connected connection_id endpoint <$> nd_gate n) n)
  | ConnectionClosed connection_id => (None, set_gate (closed connection_id <$> nd_gate n) n)
  | Throttle => (Some PushOk, n)
  | Notification => (None, n)
  end.

(** The loop over the messages received before it ends. *)
Fixpoint run_ingest_loop (msgs : list (world * ProviderMessage)) (n : NodeState) : list (option push_answer) * NodeState :=
  match msgs with
  | [] => ([], n)
  | (w, msg) :: msgs =>
      let '(answer, n) := handle_message w msg n in
      let '(answers, n) := run_ingest_loop msgs n in
      (answer :: answers, n)
  end.

(** ** Facts: pushes *)

Abbreviation objs g := (objects (ig_bucket g)).

(** What uploads of [v] may have done to the objects. *)
Definition upload_touches (v : Validated) (files : gmap string bytes) (m m' : gmap string object) : Prop :=
  let hex := hex_encode (vd_hash v) in
  forall k, m' !! k = m !! k
    \/ k = outboard_key prefix hex /\ m' !! k = Some (written (vd_outboard v) None)
    \/ k = blob_key prefix hex /\ (exists content, files !! vd_path v = Some content
         /\ m' !! k = Some (written (String.substring 0 (Z.to_nat (vd_size v)) content) None))
    \/ k = manifest_key prefix hex.

Lemma upload_touches_refl v files m : upload_touches v files m m.
Proof. intros k. by left. Qed.

Lemma upload_touches_trans v files m1 m2 m3 :
  upload_touches v files m1 m2 -> upload_touches v files m2 m3 -> upload_touches v files m1 m3.
Proof. intros H1 H2 k. destruct (H2 k) as [->|H]; [apply H1|by right]. Qed.

Lemma upload_touches_upload v g r g' :
  upload prefix v g = (r, g') -> upload_touches v (sc_files (ig_scratch g)) (objs g) (objs g').
Proof.
  intros [_ [[Ho _]|(m1 & m2 & Hm1 & Hm2 & Ho)]]%upload_effect; [rewrite Ho; apply upload_touches_refl|]. intros k.
  destruct (decide (k = manifest_key prefix (hex_encode (vd_hash v)))) as [Hk|Hk]; [by do 3 right|].
  assert (objs g' !! k = m2 !! k) as ->.
  { destruct Ho as [->|(json & _ & ->)]; [done|]. by rewrite lookup_insert_ne. }
  destruct Hm2 as [[-> _]|(content & Hc & _ & ->)].
  - subst m1. destruct (decide (k = outboard_key prefix (hex_encode (vd_hash v)))) as [->|Hne].
    + right. left. by rewrite lookup_insert_eq.
    + left. by rewrite lookup_insert_ne.
  - destruct (decide (k = blob_key prefix (hex_encode (vd_hash v)))) as [->|Hne].
    + right. right. left. split; [done|]. exists content. by rewrite lookup_insert_eq.
    + rewrite lookup_insert_ne by done. subst m1.
      destruct (decide (k = outboard_key prefix (hex_encode (vd_hash v)))) as [->|Hne'].
      * right. left. by rewrite lookup_insert_eq.
      * left. by rewrite lookup_insert_ne.
Qed.

(** An upload that succeeds leaves the outboard and the blob. *)
Lemma upload_ok_there v g x g' :
  upload prefix v g = (Ok x, g') ->
  objs g' !! outboard_key prefix (hex_encode (vd_hash v)) = Some (written (vd_outboard v) None)
  /\ is_Some (objs g' !! blob_key prefix (hex_encode (vd_hash v))).
Proof.
  intros [_ [[_ ?]|(m1 & m2 & Hm1 & Hm2 & Ho)]]%upload_effect; [done|].
  assert (m2 !! outboard_key prefix (hex_encode (vd_hash v)) = Some (written (vd_outboard v) None)
    /\ is_Some (m2 !! blob_key prefix (hex_encode (vd_hash v)))) as [H1 H2].
  { destruct Hm2 as [[-> Hp]|(content & _ & _ & ->)]; subst m1.
    - rewrite lookup_insert_eq, lookup_insert_ne; [by split; [|apply Hp]|]. intros E. symmetry in E. by apply blob_outboard_ne in E.
    - rewrite lookup_insert_eq, lookup_insert_ne by apply blob_outboard_ne. rewrite lookup_insert_eq. split; [done|by eexists]. }
  destruct Ho as [->|(json & _ & ->)]; [done|].
  by rewrite !lookup_insert_ne by (apply manifest_blob_ne || apply manifest_outboard_ne).
Qed.

Lemma upload_tries_spec retries v g stored g' :
  upload_tries retries v g = (stored, g') ->
  ig_scratch g' = ig_scratch g
  /\ upload_touches v (sc_files (ig_scratch g)) (objs g) (objs g')
  /\ (stored = true ->
      objs g' !! outboard_key prefix (hex_encode (vd_hash v)) = Some (written (vd_outboard v) None)
      /\ is_Some (objs g' !! blob_key prefix (hex_encode (vd_hash v)))).
Proof.
  revert g; induction retries as [|retries IH]; intros g H; cbn [upload_tries] in H;
    destruct (upload prefix v g) as [[x|e] g1] eqn:E;
    pose proof (upload_touches_upload _ _ _ _ E) as Ht; pose proof (upload_effect _ _ _ _ _ E) as [Hs _].
  1,3: injection H as <- <-; by apply upload_ok_there in E.
  - by injection H as <- <-.
  - apply IH in H as (Hs' & Ht' & Hok). rewrite Hs in *. split_and!; [done| |done]. by eapply upload_touches_trans.
Qed.

(** The objects ingesting [hash] may write. *)
Definition ingest_keys (hash : bytes) : list string :=
  [outboard_key prefix (hex_encode hash); blob_key prefix (hex_encode hash); manifest_key prefix (hex_encode hash)].

(** [hash] is in the bucket: valid bytes of that hash, or those that were
    there. *)
Definition ingested_as (hash : bytes) (m m' : gmap string object) : Prop :=
  exists content size outboard path manifest,
    fs_export hash = Exported content size
    /\ validate_archive read_file {| rd_data := content; rd_bad := disk_bad path |} size config = Ok manifest
    /\ bao_create content size = Some (hash, outboard)
    /\ m' !! outboard_key prefix (hex_encode hash) = Some (written outboard None)
    /\ (is_Some (m !! blob_key prefix (hex_encode hash))
           /\ m' !! blob_key prefix (hex_encode hash) = m !! blob_key prefix (hex_encode hash)
        \/ m' !! blob_key prefix (hex_encode hash)
             = Some (written (String.substring 0 (Z.to_nat size) content) None)).

Lemma ingest_stored_spec hash observed g stored g' :
  fresh scratch_dir (ig_scratch g) -> ingest_stored hash observed g = (stored, g') ->
  sc_files (ig_scratch g') = sc_files (ig_scratch g)
  /\ (sc_next (ig_scratch g) <= sc_next (ig_scratch g'))%N
  /\ (forall k, objs g' !! k <> objs g !! k -> k ∈ ingest_keys hash)
  /\ (stored = true -> ingested_as hash (objs g) (objs g')).
Proof.
  intros Hf. unfold ingest_stored. destruct (await_complete _ _ _); cbn [negb]; [|intros [= <- <-]; by split_and!].
  destruct (validate_from_store _ _ _ _ _) as [r s] eqn:Ev. pose proof (validate_from_store_files _ _ _ _ _ _ _ Hf Ev) as [Hn Hr].
  destruct r as [[v|]|e]; [|intros [= <- <-]; by split_and!..].
  apply validate_from_store_ok in Ev as (content & size & outboard & path & manifest & He & Hv & Hb & Hc & ->).
  destruct (upload_tries _ _ _) as [ok g1] eqn:Eu. intros [= <- <-].
  apply upload_tries_spec in Eu as (Hs & Ht & Hok). cbn [ig_scratch set_scratch] in Hs. split_and!.
  - cbn. by rewrite Hs.
  - cbn. by rewrite Hs.
  - intros k Hk. cbn in Hk. unfold ingest_keys. rewrite !elem_of_cons.
    destruct (Ht k) as [E|[[E _]|[[E _]|E]]]; [by rewrite E in Hk|by left|by right; left|by right; right; left].
  - intros ->. destruct (Hok eq_refl) as [Ho [x Hx]]. exists content, size, outboard, path, manifest.
    split_and!; try done. cbn in Hx, Ho |- *.
    destruct (Ht (blob_key prefix (hex_encode hash))) as [E|[[E _]|[[_ (c & Hc' & E)]|E]]].
    + left. cbn in E. rewrite E in Hx. split; [by eexists|done].
    + by apply blob_outboard_ne in E.
    + right. cbn in Hc', E. rewrite Hc in Hc'. by injection Hc' as <-.
    + symmetry in E. by apply manifest_blob_ne in E.
Qed.

Lemma drop_track hash s l : staged (s, l) -> pending (drop_push hash (track hash s)) = pending s.
Proof.
  intros Hc%staged_counted. specialize (Hc hash). cbn [fst snd] in Hc. unfold drop_push, track, set_pending. cbn [pending].
  rewrite lookup_insert_eq. cbn [pred pending]. rewrite Hc.
  destruct (Nat.eqb_spec (occurrences hash l) 0) as [E|E]; cbn [default Nat.eqb].
  - rewrite delete_insert_id; [done|]. exact Hc.
  - unfold id. rewrite (proj2 (Nat.eqb_neq _ _) E), insert_insert_eq. by apply insert_id.
Qed.

Lemma tracked_pending hash s : is_pending hash (track hash s) = true.
Proof. unfold is_pending, track. cbn. rewrite lookup_insert_eq. by apply bool_decide_true. Qed.

Definition owner_record (hash : bytes) (subject : string) (endpoint : EndpointId) (at_ : Z) : bytes :=
  serde_print (ser_blob_owner {| bo_hash := hex_encode hash; bo_subject := subject;
                                 bo_endpoint_id := endpoint_to_string endpoint; bo_at := at_ |}).

Lemma record_owner_effect hash subject endpoint at_ g k :
  let key := family_key prefix (Records PUBLISHERS) (hex_encode hash) in
  objs (record_owner hash subject endpoint at_ g) !! k = objs g !! k
  \/ k = key /\ objs (record_owner hash subject endpoint at_ g) !! k = Some (written (owner_record hash subject endpoint at_) None).
Proof.
  cbv zeta. unfold record_owner, owner_record. cbn [bo_hash set_bucket ig_bucket].
  destruct (put_moderation_record _ _ _ _ _) as [r b'] eqn:E. cbn [snd].
  apply put_moderation_record_effect in E as [[-> _]| ->]; [by left|].
  destruct (decide (k = family_key prefix (Records PUBLISHERS) (hex_encode hash))) as [->|Hne].
  - right. by rewrite lookup_insert_eq.
  - left. by rewrite lookup_insert_ne.
Qed.

(** The publisher records are apart from what ingest writes. *)
Lemma publishers_apart hash hash' :
  family_key prefix (Records PUBLISHERS) (hex_encode hash') ∉ ingest_keys hash.
Proof.
  unfold ingest_keys. rewrite !elem_of_cons, elem_of_nil. intros [E|[E|[E|[]]]].
  - by apply (family_key_inj prefix (Records PUBLISHERS) Outboards) in E as [? _].
  - by apply (family_key_inj prefix (Records PUBLISHERS) Blobs) in E as [? _].
  - by apply (family_key_inj prefix (Records PUBLISHERS) Manifests) in E as [? _].
Qed.

(** The owner a push was accepted for. *)
Definition accepted_for (w : world) (connection_id : Z) (hash : bytes) (n : NodeState)
    (owner : option (string * EndpointId)) : Prop :=
  match nd_gate n with
  | None => owner = None
  | Some gate => exists subject endpoint gate', owner = Some (subject, endpoint)
      /\ authorize_push (w_ask w) (w_times w) connection_id (hex_encode hash) gate = (Ok (subject, endpoint), gate')
  end.

(** C17: What a push does. A push of a hash sequence, or one the gate refuses,
    is answered with a permission error and changes nothing but the gate. An
    accepted push is a single blob the gate authorized; it is pending while it
    is in flight and no longer when it ends, and leaves no scratch file. It
    writes only the outboard, blob and manifest of its hash, and those only
    when the transfer did not turn out too large. It counts as ingested only
    when valid bytes of that hash are in the bucket with their outboard, and
    only then is its publisher recorded, for the subject and endpoint the gate
    authorized. *)
Theorem push_task_effects w connection_id hash is_blob n l ans ingested flight ended :
  fresh scratch_dir (ig_scratch (nd_ingest n)) -> staged (nd_staging n, l) ->
  push_task w connection_id hash is_blob n = (ans, ingested, flight, ended) ->
  pending (nd_staging ended) = pending (nd_staging n)
  /\ sc_files (ig_scratch (nd_ingest ended)) = sc_files (ig_scratch (nd_ingest n))
  /\ match ans with
     | PushPermission => ingested = false /\ nd_ingest ended = nd_ingest n /\ nd_staging ended = nd_staging n
     | PushOk => is_blob = true /\ is_pending hash (nd_staging flight) = true /\
         exists owner, accepted_for w connection_id hash n owner
         /\ (ingested = true -> await_transfer (w_events w) <> TooLarge
             /\ ingested_as hash (objs (nd_ingest n)) (objs (nd_ingest ended)))
         /\ (forall k, objs (nd_ingest ended) !! k <> objs (nd_ingest n) !! k ->
             await_transfer (w_events w) <> TooLarge
             /\ (k ∈ ingest_keys hash
                 \/ ingested = true /\ exists subject endpoint, owner = Some (subject, endpoint)
                    /\ k = family_key prefix (Records PUBLISHERS) (hex_encode hash)
                    /\ objs (nd_ingest ended) !! k = Some (written (owner_record hash subject endpoint (w_at w)) None)))
     end.
Proof.
  intros Hf Hst H. unfold push_task in H. destruct (admit_push w connection_id hash is_blob n) as [adm n0] eqn:Ea.
  assert (nd_staging n0 = nd_staging n /\ nd_ingest n0 = nd_ingest n
    /\ match adm with Some owner => is_blob = true /\ accepted_for w connection_id hash n owner | None => True end)
    as (Hs0 & Hi0 & Hadm).
  { unfold admit_push, accepted_for in *. destruct is_blob; [|by injection Ea as <- <-].
    destruct (nd_gate n) as [gate|]; [|by injection Ea as <- <-]. cbn [negb] in Ea.
    destruct (authorize_push _ _ _ _ gate) as [[[subject endpoint]|] gate'] eqn:Eg; injection Ea as <- <-; [|done].
    split_and!; try done. by exists subject, endpoint, gate'. }
  destruct adm as [owner|].
  2: { injection H as <- <- <- <-. by rewrite Hs0, Hi0. }
  destruct Hadm as [-> Hacc].
  destruct (wait_and_ingest hash w _) as [stored g1] eqn:Ew. cbn [set_staging nd_ingest nd_staging] in Ew, H. rewrite Hi0, Hs0 in *.
  assert (sc_files (ig_scratch g1) = sc_files (ig_scratch (nd_ingest n))
    /\ (forall k, objs g1 !! k <> objs (nd_ingest n) !! k -> await_transfer (w_events w) <> TooLarge /\ k ∈ ingest_keys hash)
    /\ (stored = true -> await_transfer (w_events w) <> TooLarge /\ ingested_as hash (objs (nd_ingest n)) (objs g1)))
    as (Hfiles & Hkeys & Hdone).
  { unfold wait_and_ingest in Ew. destruct (await_transfer (w_events w)); [|by injection Ew as <- <-].
    apply ingest_stored_spec in Ew as (? & _ & Hk & Hd); [|done]. split_and!; [done| |]; auto. }
  pose proof (drop_track hash _ _ Hst) as Hdrop. pose proof (tracked_pending hash (nd_staging n)) as Htr.
  destruct stored; [destruct owner as [[subject endpoint]|]|]; injection H as <- <- <- <-;
    cbn [set_ingest set_staging nd_staging nd_ingest]; (split; [exact Hdrop|]).
  - split; [exact Hfiles|]. split; [done|]. split; [exact Htr|]. eexists. split; [exact Hacc|].
    destruct (Hdone eq_refl) as [Hsmall Hing].
    assert (forall k, k ∈ ingest_keys hash -> objs (record_owner hash subject endpoint (w_at w) g1) !! k = objs g1 !! k) as Hkeep.
    { intros k Hin. destruct (record_owner_effect hash subject endpoint (w_at w) g1 k) as [|[-> _]]; [done|].
      by apply publishers_apart in Hin. }
    split.
    + intros _. split; [done|]. destruct Hing as (content & size & outboard & path & manifest & ? & ? & ? & Ho & Hb).
      exists content, size, outboard, path, manifest. rewrite !Hkeep by (unfold ingest_keys; set_solver). by split_and!.
    + intros k Hk. split; [done|].
      destruct (record_owner_effect hash subject endpoint (w_at w) g1 k) as [E|[-> Hv]].
      * left. rewrite E in Hk. by apply Hkeys in Hk as [_ ?].
      * right. split; [done|]. by exists subject, endpoint.
  - split; [exact Hfiles|]. split; [done|]. split; [exact Htr|]. exists None. split; [exact Hacc|]. split; [done|].
    intros k [? ?]%Hkeys. auto.
  - split; [exact Hfiles|]. split; [done|]. split; [exact Htr|]. exists owner. split; [exact Hacc|]. split; [done|].
    intros k [? ?]%Hkeys. auto.
Qed.

(** ** Facts: attempts *)

Lemma await_complete_true attempts i observed :
  await_complete attempts i observed = true <->
  exists k, (k < attempts)%nat /\ observed (i + k)%nat = Ok true /\ (forall j, (j < k)%nat -> observed (i + j)%nat = Ok false).
Proof.
  revert i; induction attempts as [|attempts IH]; intros i; cbn.
  { split; [done|]. intros (k & Hk & _). lia. }
  destruct (observed i) as [[]|e] eqn:E.
  - split; [|done]. intros _. exists 0%nat. rewrite Nat.add_0_r. split_and!; [lia|done|lia].
  - rewrite IH. split.
    + intros (k & Hk & Ho & Hb). exists (S k). rewrite Nat.add_succ_r. split_and!; [lia|done|].
      intros [|j] Hj; [by rewrite Nat.add_0_r|]. rewrite Nat.add_succ_r. apply Hb. lia.
    + intros ([|k] & Hk & Ho & Hb); [rewrite Nat.add_0_r in Ho; congruence|]. exists k.
      rewrite Nat.add_succ_r in Ho. split_and!; [lia|done|]. intros j Hj. specialize (Hb (S j)). rewrite Nat.add_succ_r in Hb. apply Hb. lia.
  - split; [done|]. intros ([|k] & Hk & Ho & Hb); [rewrite Nat.add_0_r in Ho; congruence|].
    specialize (Hb 0%nat). rewrite Nat.add_0_r in Hb. rewrite Hb in E by lia. done.
Qed.

(** The state before the [k]-th upload, when those before it failed. *)
Fixpoint before_upload (v : Validated) (k : nat) (g : IngestState) : IngestState :=
  match k with O => g | S k => before_upload v k (snd (upload prefix v g)) end.

Definition upload_succeeds (v : Validated) (k : nat) (g : IngestState) : Prop :=
  is_ok (fst (upload prefix v (before_upload v k g))) = true.

Lemma upload_tries_true retries v g :
  fst (upload_tries retries v g) = true <->
  exists k, (k <= retries)%nat /\ upload_succeeds v k g /\ (forall j, (j < k)%nat -> ~ upload_succeeds v j g).
Proof.
  revert g; induction retries as [|retries IH]; intros g; cbn [upload_tries]; destruct (upload prefix v g) as [[x|e] g1] eqn:E.
  1,3: split; [|done]; intros _; exists 0%nat; unfold upload_succeeds; cbn; rewrite E; split_and!; [lia|done|lia].
  - split; [done|]. intros (k & Hk & Hs & _). assert (k = 0%nat) as -> by lia. unfold upload_succeeds in Hs. cbn in Hs. by rewrite E in Hs.
  - assert (forall k, upload_succeeds v (S k) g <-> upload_succeeds v k g1) as Hstep.
    { intros k. unfold upload_succeeds. cbn. by rewrite E. }
    assert (~ upload_succeeds v 0 g) as H0 by (unfold upload_succeeds; cbn; by rewrite E).
    rewrite IH. split.
    + intros (k & Hk & Hs & Hb). exists (S k). split_and!; [lia|by apply Hstep|]. intros [|j] Hj; [done|]. rewrite Hstep. apply Hb. lia.
    + intros ([|k] & Hk & Hs & Hb); [done|]. exists k. split_and!; [lia|by apply Hstep|]. intros j Hj. rewrite <- Hstep. apply Hb. lia.
Qed.

(** C31: Exactly when a push that landed is ingested: the store shows it
    complete at one of the first ten looks, with no failed look before; it
    then passes validation; and one of at most three uploads succeeds, each
    starting from what the failed ones before it left. *)
Theorem ingest_attempts_exact hash observed g :
  fst (ingest_stored hash observed g) = true <->
  (exists k, (k < 10)%nat /\ observed k = Ok true /\ (forall j, (j < k)%nat -> observed j = Ok false))
  /\ exists v s, validate_from_store read_file scratch_dir config hash (ig_scratch g) = (Ok (Some v), s)
     /\ exists k, (k < 3)%nat /\ upload_succeeds v k (set_scratch s g)
        /\ (forall j, (j < k)%nat -> ~ upload_succeeds v j (set_scratch s g)).
Proof.
  rewrite <- (await_complete_true OBSERVE_ATTEMPTS 0 observed). unfold ingest_stored.
  destruct (await_complete OBSERVE_ATTEMPTS 0 observed); cbn [negb]; [|by split; [|intros [? _]]].
  destruct (validate_from_store _ _ _ _ _) as [r s]. split.
  - intros H. split; [done|]. destruct r as [[v|]|e]; [|done..]. exists v, s. split; [done|].
    destruct (upload_tries UPLOAD_RETRIES v (set_scratch s g)) as [ok g1] eqn:E. cbn in H. subst ok.
    destruct (proj1 (upload_tries_true UPLOAD_RETRIES v (set_scratch s g))) as (k & Hk & Hs & Hb); [by rewrite E|].
    exists k. unfold UPLOAD_RETRIES in Hk. split_and!; [lia|done|done].
  - intros (_ & v & s' & [= -> <-] & k & Hk & Hs & Hb).
    pose proof (proj2 (upload_tries_true UPLOAD_RETRIES v (set_scratch s g))) as Ht.
    destruct (upload_tries UPLOAD_RETRIES v (set_scratch s g)) as [ok g1]. cbn in Ht |- *. apply Ht.
    exists k. split_and!; [unfold UPLOAD_RETRIES; lia|done|done].
Qed.
End PushTask.

(** A stall window in which the open connection received too little. *)
Definition slow_window (samples : list (option Z)) (j : nat) : Prop :=
  exists before after, samples !! j = Some (Some before) /\ samples !! S j = Some (Some after)
    /\ (Z.max 0 (after - before) < 65536)%Z.

Lemma stalled_from_Some i last samples k :
  stalled_from i last samples = Some k <->
  exists j, k = (i + j)%nat /\ slow_window (last :: samples) j
    /\ (forall j', (j' < j)%nat -> (exists x, samples !! j' = Some (Some x)) /\ ~ slow_window (last :: samples) j').
Proof.
  revert i last; induction samples as [|now samples IH]; intros i last; cbn [stalled_from].
  { split; [done|]. intros (j & _ & (b & a & _ & Ha & _) & _). by rewrite lookup_cons in Ha. }
  assert (forall j, slow_window (last :: now :: samples) (S j) <-> slow_window (now :: samples) j) as Hshift by done.
  assert (forall x, now = Some x -> ~ slow_window (last :: now :: samples) 0 ->
    stalled_from (S i) now samples = Some k <->
    exists j, k = (i + j)%nat /\ slow_window (last :: now :: samples) j
      /\ (forall j', (j' < j)%nat -> (exists x, (now :: samples) !! j' = Some (Some x)) /\ ~ slow_window (last :: now :: samples) j')) as Hgo.
  { intros x Hx Hnot. rewrite IH. split.
    - intros (j & -> & Hs & Hb). exists (S j). split_and!; [lia|done|]. intros [|j'] Hj.
      + split; [|done]. exists x. by rewrite Hx.
      + rewrite Hshift. apply Hb. lia.
    - intros ([|j] & -> & Hs & Hb); [done|]. exists j. split_and!; [lia|done|]. intros j' Hj. apply (Hb (S j')). lia. }
  assert (now = None -> ~ exists j, k = (i + j)%nat /\ slow_window (last :: now :: samples) j
      /\ (forall j', (j' < j)%nat -> (exists x, (now :: samples) !! j' = Some (Some x)) /\ ~ slow_window (last :: now :: samples) j')) as Hnone.
  { intros Hx ([|j] & _ & Hs & Hb).
    - destruct Hs as (b & a & _ & Ha & _). cbn in Ha. by rewrite Hx in Ha.
    - destruct (Hb 0%nat) as [[y Hy] _]; [lia|]. cbn in Hy. by rewrite Hx in Hy. }
  destruct last as [before|], now as [after|].
  - unfold u64_saturating_sub, PUSH_STALL_MIN_BYTES. destruct (Z.ltb_spec (Z.max (after - before) 0) (64 * 1024)).
    + split.
      * intros [= <-]. exists 0%nat. split_and!; [lia| |lia]. exists before, after. split_and!; [done|done|lia].
      * intros (j & -> & Hs & Hb). destruct j as [|j]; [by rewrite Nat.add_0_r|].
        destruct (Hb 0%nat) as [_ Hn]; [lia|]. destruct Hn. exists before, after. split_and!; [done|done|lia].
    + apply (Hgo after); [done|]. intros (b & a & Hb & Ha & Hlt). cbn in Hb, Ha. simplify_eq. lia.
  - split; [done|]. intros Hx. by destruct (Hnone eq_refl).
  - apply (Hgo after); [done|]. intros (b & a & Hb & Ha & Hlt). done.
  - split; [done|]. intros Hx. by destruct (Hnone eq_refl).
Qed.

(** The watch stops exactly the pushes it should. A push is found too large
    when the first size the store reports exceeds the limit, and never
    afterwards; it is found stalled at the first window in which its open
    connection received less than 64 KiB, and never once the connection is
    closed. *)
Theorem push_watch_exact max sizes size_ last samples k :
  (oversize_push max sizes = Some size_ <->
     exists zeros rest, sizes = replicate zeros 0%Z ++ size_ :: rest /\ size_ <> 0%Z /\ (max < size_)%Z)
  /\ (stalled_from 0 last samples = Some k <->
     slow_window (last :: samples) k
     /\ (forall j, (j < k)%nat -> (exists x, samples !! j = Some (Some x)) /\ ~ slow_window (last :: samples) j)).
Proof.
  split.
  - induction sizes as [|z sizes IH]; cbn.
    { split; [done|]. by intros ([|zeros] & rest & ? & _). }
    destruct (Z.eqb_spec z 0) as [->|Hz].
    { rewrite IH. split.
      - intros (zeros & rest & -> & ?). by exists (S zeros), rest.
      - intros ([|zeros] & rest & E & ?); cbn in E; simplify_eq; [naive_solver|]. by exists zeros, rest. }
    destruct (Z.ltb_spec max z); split; try done.
    + intros [= <-]. by exists 0%nat, sizes.
    + intros ([|zeros] & rest & E & ?); cbn in E; by simplify_eq.
    + intros ([|zeros] & rest & E & ? & ?); cbn in E; simplify_eq. lia.
  - rewrite stalled_from_Some. split; [intros (j & -> & ?); by rewrite Nat.add_0_l|intros H; by exists k].
Qed.

(** ** Witnesses *)

Module NodeSample.
#[local] Existing Instance bit_serde.
#[local] Existing Instance plain_hex.
#[local] Existing Instance toy_blake3.
#[local] Existing Instance GateSample.iroh.
#[local] Existing Instance GateSample.sealed.
#[local] Existing Instance IngestSample.tdf.
#[local] Existing Instance IngestSample.zip.
#[local] Existing Instance IngestSample.store.
#[local] Existing Instance IngestSample.bao.
#[local] Existing Instance IngestSample.s3.
#[local] Existing Instance ServeSample.transport.
#[local] Existing Instance ServeSample.bao.
#[local] Existing Instance ServeSample.laws.

(** A fetch of a stored blob. *)
Definition fetch : Request := Get "abcdef" (Some (0%Z, ServeSample.everything)).

Lemma fetches_guarded_witness :
  exists out g', stream "" (Some moderation_default) (fun _ => 0%Z) fetch 1 ServeSample.served = (Finished, out, g').
Proof.
  destruct (stream "" (Some moderation_default) (fun _ => 0%Z) fetch 1 ServeSample.served) as [[rep out] g'] eqn:E.
  destruct (fetches_guarded "" (Some moderation_default) (fun _ => 0%Z) fetch 1 ServeSample.served rep out g' E) as (_ & _ & _ & H).
  rewrite (H [("abcdef", ServeSample.everything)] [ServeSample.sv0]).
  - exists out, g'. reflexivity.
  - reflexivity.
  - discriminate.
  - exact ServeSample.no_faults.
  - reflexivity.
  - intros h sv Hx. discriminate Hx.
  - constructor; [|constructor]. split_and!; try (vm_compute; reflexivity).
    vm_compute. intros Hx. discriminate Hx.
Defined.

(** A push on the session of [GateSample], completed at the second look. *)
Definition events : world :=
  {| w_ask := fun _ => Answered (Some GateSample.body); w_times := GateSample.times;
     w_events := [Update (Started 7); Update Completed];
     w_observed := fun i => Ok (1 <=? i)%nat; w_at := 99 |}.
Definition start : NodeState :=
  {| nd_gate := Some GateSample.gate; nd_staging := attach 0 (staging_new 0); nd_ingest := IngestSample.start |}.

Lemma push_task_effects_witness :
  exists flight ended,
    push_task IngestSample.no_files "" "/scratch" IngestSample.config events 7 "h" true start = (PushOk, true, flight, ended)
    /\ ingested_as IngestSample.no_files "" IngestSample.config "h" (objects (ig_bucket (nd_ingest start))) (objects (ig_bucket (nd_ingest ended))).
Proof.
  destruct (push_task IngestSample.no_files "" "/scratch" IngestSample.config events 7 "h" true start) as [[[ans ingested] flight] ended] eqn:E.
  assert (ans = PushOk /\ ingested = true) as [-> ->].
  { pose proof (f_equal (fun x => (fst (fst (fst x)), snd (fst (fst x)))) E) as E'. vm_compute in E'.
    injection E' as <- <-. split; reflexivity. }
  destruct (push_task_effects IngestSample.no_files "" "/scratch" IngestSample.config events 7 "h" true start [] PushOk true flight ended)
    as (_ & _ & _ & _ & owner & _ & H & _).
  - intros hex n _. reflexivity.
  - eapply staged_step; [|apply (StepAttach _ _ 0)]. apply staged_new.
  - exact E.
  - exists flight, ended. split; [reflexivity|]. apply H. reflexivity.
Defined.
End NodeSample.
