(* ===== verification/Connections.v ===== *)
(** * Connections of the blobs protocol (src/node.rs: [Connections] and
      [BlobsHandler::accept])

    The handler keeps every open connection so that the ingest loop can
    measure and close it; the gate keeps the endpoint behind each. The two
    tables are filled and emptied by different tasks, through events, so a
    connection passes through phases: announced to the gate, registered,
    ended, forgotten. *)

From S2P Require Import Prelude Bytes Identifiers Json Extern Samples Auth Authz EntityChain PublishDecision Moderation PublishGate Staging.

(** An open connection: the bytes received so far, and the application error
    it was closed with. *)
Record Conn := { cn_rx : Z; cn_closed : option (Z * bytes) }.

Abbreviation Connections := (gmap Z Conn).

(** [rx_bytes]: while the connection is open. *)
Definition rx_bytes (cs : Connections) (id : Z) : option Z := cn_rx <$> cs !! id.

(** [close]: application error code 1; a connection that is gone is left
    alone. *)
Definition close (id : Z) (reason : bytes) (cs : Connections) : Connections :=
  alter (fun c => {| cn_rx := cn_rx c; cn_closed := match cn_closed c with Some x => Some x | None => Some (1%Z, reason) end |}) id cs.

Section Accept.
Context {IR : Iroh}.

(** The node, as [accept] sees it, and the connections whose [accept] is
    between being announced and being registered, running, or ended but not
    yet reported. *)
Inductive phase := Announced | Running | Ending.

Record Endpoints := {
  en_connections : Connections;
  en_gate : option PublishGate;
  en_phase : gmap Z phase;
  (** Connections closed before they were registered. *)
  en_refused : list Z
}.

(** [client_connected]: the event loop records the endpoint and answers; a
    refusal closes the connection, which is never registered. *)
Definition announce (id : Z) (endpoint : EndpointId) (answer : bool) (e : Endpoints) : Endpoints :=
  if answer then
    {| en_connections := en_connections e; en_gate := connected id (Some endpoint) <$> en_gate e;
       en_phase := <[id := Announced]> (en_phase e); en_refused := en_refused e |}
  else
    {| en_connections := en_connections e; en_gate := en_gate e;
       en_phase := en_phase e; en_refused := id :: en_refused e |}.

(** [connections.lock().insert(id, conn)] *)
Definition register (id : Z) (e : Endpoints) : Endpoints :=
  {| en_connections := <[id := {| cn_rx := 0; cn_closed := None |}]> (en_connections e);
     en_gate := en_gate e; en_phase := <[id := Running]> (en_phase e); en_refused := en_refused e |}.

(** [accept_bi] failed: [connections.lock().remove(&id)]. *)
Definition unregister (id : Z) (e : Endpoints) : Endpoints :=
  {| en_connections := delete id (en_connections e); en_gate := en_gate e;
     en_phase := <[id := Ending]> (en_phase e); en_refused := en_refused e |}.

(** [connection_closed]: the event loop forgets the endpoint. *)
Definition report_closed (id : Z) (e : Endpoints) : Endpoints :=
  {| en_connections := en_connections e; en_gate := closed id <$> en_gate e;
     en_phase := delete id (en_phase e); en_refused := en_refused e |}.

(** Bytes arrive; the ingest loop closes a connection. *)
Definition receive (id n : Z) (e : Endpoints) : Endpoints :=
  {| en_connections := alter (fun c => {| cn_rx := cn_rx c + n; cn_closed := cn_closed c |}) id (en_connections e);
     en_gate := en_gate e; en_phase := en_phase e; en_refused := en_refused e |}.
Definition close_connection (id : Z) (reason : bytes) (e : Endpoints) : Endpoints :=
  {| en_connections := close id reason (en_connections e); en_gate := en_gate e;
     en_phase := en_phase e; en_refused := en_refused e |}.

(** The steps of all connections, in any order that each one's [accept]
    allows. Open connections have distinct ids. *)
Inductive accept_step : Endpoints -> Endpoints -> Prop :=
| StepAnnounce e id endpoint answer : en_phase e !! id = None -> accept_step e (announce id endpoint answer e)
| StepRegister e id : en_phase e !! id = Some Announced -> accept_step e (register id e)
| StepReceive e id n : (0 <= n)%Z -> accept_step e (receive id n e)
| StepClose e id reason : accept_step e (close_connection id reason e)
| StepUnregister e id : en_phase e !! id = Some Running -> accept_step e (unregister id e)
| StepReport e id : en_phase e !! id = Some Ending -> accept_step e (report_closed id e).

Inductive accept_reachable (g : option PublishGate) : Endpoints -> Prop :=
| accept_start : accept_reachable g {| en_connections := ∅; en_gate := g; en_phase := ∅; en_refused := [] |}
| accept_next e e' : accept_reachable g e -> accept_step e e' -> accept_reachable g e'.

(** A connection is registered exactly while its [accept] runs, and the gate
    knows an endpoint exactly from its announcement until its end was
    reported. *)
Definition tables_agree (e : Endpoints) : Prop :=
  (forall id, is_Some (en_connections e !! id) <-> en_phase e !! id = Some Running)
  /\ (forall g, en_gate e = Some g -> forall id, is_Some (connections g !! id) <-> is_Some (en_phase e !! id))
  /\ (forall id n, rx_bytes (en_connections e) id = Some n -> (0 <= n)%Z).

Lemma rx_bytes_alter f (cs : Connections) i j n :
  (forall c, cn_rx c <= cn_rx (f c))%Z -> (forall k n, rx_bytes cs k = Some n -> (0 <= n)%Z) ->
  rx_bytes (alter f i cs) j = Some n -> (0 <= n)%Z.
Proof.
  unfold rx_bytes. intros Hf Hr. destruct (decide (i = j)) as [->|]; simplify_map_eq; [|apply Hr].
  destruct (cs !! j) as [c|] eqn:E; [|done]. intros [= <-]. specialize (Hf c). specialize (Hr j (cn_rx c)).
  rewrite E in Hr. specialize (Hr eq_refl). lia.
Qed.

Ltac other_id id := intros id'; destruct (decide (id = id')) as [<-|]; simplify_map_eq.

Lemma accept_step_agree e e' : accept_step e e' -> tables_agree e -> tables_agree e'.
Proof.
  intros H (Hc & Hg & Hr).
  destruct H as [e id ep [] Hp|e id Hp|e id n Hn|e id reason|e id Hp|e id Hp]; cbn; try done; split_and!; cbn.
  - other_id id; [|apply Hc]. rewrite Hc, Hp. naive_solver.
  - destruct (en_gate e) as [g|]; [|done]. intros g' [= <-]. other_id id; [by split; eexists|by apply Hg].
  - done.
  - other_id id; [by split; [|eexists]|apply Hc].
  - intros g Eg. other_id id; [|by apply Hg]. rewrite (Hg g Eg), Hp. by split; eexists.
  - intros id' n. unfold rx_bytes. destruct (decide (id = id')) as [<-|]; simplify_map_eq; [by intros [= <-]|apply Hr].
  - intros id'. rewrite lookup_alter_is_Some. apply Hc.
  - done.
  - intros id' k. apply rx_bytes_alter; [|done]. cbn. lia.
  - intros id'. unfold close. rewrite lookup_alter_is_Some. apply Hc.
  - done.
  - intros id' k. apply rx_bytes_alter; [|done]. cbn. lia.
  - other_id id; [|apply Hc]. split; [by intros [? ?]|done].
  - intros g Eg. other_id id; [|by apply Hg]. rewrite (Hg g Eg), Hp. by split; eexists.
  - intros id' n. unfold rx_bytes. destruct (decide (id = id')) as [<-|]; simplify_map_eq; [done|apply Hr].
  - other_id id; [|apply Hc]. rewrite Hc, Hp. naive_solver.
  - destruct (en_gate e) as [g|]; [|done]. intros g' [= <-]. other_id id; [by split; intros [? ?]|by apply Hg].
  - done.
Qed.

Lemma accept_reachable_agree g e :
  (forall g0, g = Some g0 -> connections g0 = ∅) -> accept_reachable g e -> tables_agree e.
Proof.
  intros Hg. induction 1 as [|e e' _ IH H]; [|by eapply accept_step_agree].
  split_and!; cbn; [intros id; rewrite !lookup_empty; split; [by intros [? ?]|done]| |done].
  intros g0 E id. rewrite (Hg g0 E), !lookup_empty. done.
Qed.
End Accept.

(** Connections are kept exactly while they are served, in both tables. In
    every reachable state, with any number of connections coming and going, a
    connection is registered (so that it can be measured and closed) exactly
    while its [accept] runs; the gate knows the endpoint of every registered
    one; and when no [accept] is under way neither table holds anything. *)
Theorem connections_tracked {IR : Iroh} g e :
  (forall g0, g = Some g0 -> connections g0 = ∅) -> accept_reachable g e ->
  (forall id, is_Some (en_connections e !! id) <-> en_phase e !! id = Some Running)
  /\ (forall g0 id, en_gate e = Some g0 -> is_Some (en_connections e !! id) -> is_Some (connections g0 !! id))
  /\ (en_phase e = ∅ -> en_connections e = ∅ /\ forall g0, en_gate e = Some g0 -> connections g0 = ∅).
Proof.
  intros Hg0 H. destruct (accept_reachable_agree g e Hg0 H) as (Hc & Hg & _). split; [exact Hc|]. split.
  - intros g0 id E Hi. apply (Hg g0 E). apply Hc in Hi. by rewrite Hi.
  - intros Hp. split; [|intros g0 E]; apply map_empty; intros id; apply eq_None_not_Some.
    + rewrite Hc, Hp. done.
    + rewrite (Hg g0 E), Hp, lookup_empty. by intros [? ?].
Qed.
