(* ===== verification/Startup.v ===== *)
(** * Process start (src/main.rs, with [TdfIrohNode::spawn_with_gate])

    What the process sets up, what it opens to others on the way ([Listening]),
    and when it exits. Starting is one operation: the configuration is read, the decision
    service client built, the checks made, the moderation records loaded, the
    iroh endpoint and the store set up, and the HTTP listeners bound; the
    first failure ends it. The answers of the operating system and of the
    libraries are arguments. *)

From S2P Require Import Prelude Bytes Identifiers Json Extern Samples Net S3Store Auth Authz EntityChain PublishDecision Moderation PublishGate ModerationApi CatalogV2 Validation Config Secrets Tls Routes Ingest CatalogsApi CatalogsV2Api Staging Node.

(** ** The decision service *)

(** [SharedDecisionProvider]: one of the two clients. *)
Inductive SharedDecisionProvider :=
| AuthZenProvider (z : AuthZenClient)
| ConnectProvider (z : ConnectAuthzClient).

(** [decide_dyn] is that of the client inside. *)
Definition shared_decide {SJ : Serde} {UC : UrlCrate} (env : Env) (p : SharedDecisionProvider) :
    DecisionProvider Client :=
  match p with
  | AuthZenProvider z => authzen_provider env z
  | ConnectProvider z => connect_provider env z
  end.

Definition environment_entity (authz : AuthzConfig) : option json :=
  if is_empty (ac_environment_region authz) then None
  else Some (JObject [("kind", JString "environment"); ("region", JString (ac_environment_region authz))]).

Section Provider.
Context (fault : nat -> SsmFault) (others : nat -> gmap string string -> gmap string string).
(** [std::env::var(..).unwrap_or_default()] *)
Context (env_var : string -> option string).

Definition mode_message (e : mode_error) : string :=
  match e with
  | InvalidEntityMode other => "invalid entity_mode " +:+ dquote +:+ other +:+ dquote +:+ " (claims|token)"
  | InvalidProtocol other => "invalid protocol " +:+ dquote +:+ other +:+ dquote +:+ " (opentdf-v2|authzen)"
  end.

(** The client secret: the file, then the environment, then SSM. *)
Definition client_secret (authz : AuthzConfig) : comp Ssm string string :=
  if negb (is_empty (ac_client_secret authz)) then mret (ac_client_secret authz)
  else
    let from_env := default "" (env_var "CATALOG_AUTHZ_CLIENT_SECRET") in
    if negb (is_empty from_env) then mret from_env
    else if negb (is_empty (ac_client_secret_param authz)) then
      comp_map_err (fun e => "[catalog.authz] loading client secret from SSM parameter "
                             +:+ ac_client_secret_param authz +:+ ": " +:+ e)
        (load_secret fault others (ac_client_secret_param authz))
    else mret "".

Definition service_credential (authz : AuthzConfig) : comp Ssm string ServiceCredential :=
  if negb (is_empty (ac_token_url authz)) then
    secret ← client_secret authz;
    _ ← lift (ensure (negb (is_empty (ac_client_id authz)) && negb (is_empty secret))
                "[catalog.authz] token_url requires client_id and a client secret");
    mret (ClientCredentials (ac_token_url authz) (ac_client_id authz) secret)
  else if negb (is_empty (ac_bearer_token authz)) then mret (Static (ac_bearer_token authz))
  else mret NoCredential.

Definition decision_provider (config : Config) : comp Ssm string (option SharedDecisionProvider) :=
  let authz := authz (cfg_catalog config) in
  if is_empty (ac_endpoint authz) then mret None
  else
    credential ← service_credential authz;
    protocol ← lift (map_err (fun e => "[catalog.authz] " +:+ mode_message e)
                       (authz_protocol_from_str (ac_protocol authz)));
    match protocol with
    | Authzen => mret (Some (AuthZenProvider (authzen_new (ac_endpoint authz) credential)))
    | OpentdfV2 =>
        entity_mode ← lift (map_err mode_message (entity_mode_from_str (ac_entity_mode authz)));
        mret (Some (ConnectProvider (connect_new (ac_endpoint authz) credential entity_mode)))
    end.
End Provider.

(** ** S3 clients *)

(** [S3Client]: which bucket is addressed, and how. *)
Record S3Client := {
  s3c_bucket : string;
  s3c_prefix : string;
  s3c_region : string;
  s3c_endpoint : option string;
  s3c_path_style : bool
}.

Definition from_config (config : S3Config) : S3Client :=
  {| s3c_bucket := s3_bucket config; s3c_prefix := s3_prefix config; s3c_region := s3_region config;
     s3c_endpoint := if is_empty (endpoint_url config) then None else Some (endpoint_url config);
     s3c_path_style := force_path_style config |}.

(** ** Starting *)

(** What a process opens to others: the iroh endpoint's socket; the router that
    accepts blob connections on it, behind [gate]; the plain HTTP listener; the
    task that serves HTTPS. *)
Inductive Listening {IR : Iroh} :=
| IrohEndpoint (port : Z)
| BlobsRouter (gate : option PublishGate)
| PlainHttp (host : IpAddr) (port : Z)
| HttpsTask (tls : TlsConfig).

(** What starting touches outside the process; what was opened last is first. *)
Record Boot {IR : Iroh} := {
  bt_ssm : Ssm;
  bt_bucket : Bucket;
  bt_scratch : Scratch;
  bt_bound : list Listening
}.

Section Touches.
Context {IR : Iroh}.

Definition on_ssm {E A} : comp Ssm E A -> comp Boot E A :=
  zoom bt_ssm (fun x b => {| bt_ssm := x; bt_bucket := bt_bucket b; bt_scratch := bt_scratch b; bt_bound := bt_bound b |}).
Definition on_bucket {E A} : comp Bucket E A -> comp Boot E A :=
  zoom bt_bucket (fun x b => {| bt_ssm := bt_ssm b; bt_bucket := x; bt_scratch := bt_scratch b; bt_bound := bt_bound b |}).
Definition on_scratch {E A} : comp Scratch E A -> comp Boot E A :=
  zoom bt_scratch (fun x b => {| bt_ssm := bt_ssm b; bt_bucket := bt_bucket b; bt_scratch := x; bt_bound := bt_bound b |}).
Definition opens {E} (x : Listening) : comp Boot E unit :=
  modify (fun b => {| bt_ssm := bt_ssm b; bt_bucket := bt_bucket b; bt_scratch := bt_scratch b;
                      bt_bound := x :: bt_bound b |}).
End Touches.

(** What the operating system and the libraries answer: environment
    variables; the key [SecretKey::generate] makes and the one an endpoint
    without a configured key makes; opening the local store; binding the iroh
    endpoint and a TCP listener, and reading its address; emptying and creating the scratch directory;
    the clock. *)
Record Outside := {
  o_env : string -> option string;
  o_generated : bytes;
  o_ephemeral : bytes;
  o_load_store : result string unit;
  o_bind_endpoint : Z -> result string unit;
  o_bind : IpAddr -> Z -> result string unit;
  o_local_addr : result string unit;
  o_removed : remove_answer;
  o_created : bool;
  o_new : Z;
  o_attached : Z
}.

Section Start.
Context {TC : TomlCrate} {SJ : Serde} {HX : Hex} {B3 : Blake3} {IR : Iroh} {S3 : S3Service}.
Context (read_to_string : string -> result string string).
Context (fault : nat -> SsmFault) (others : nat -> gmap string string -> gmap string string).
Context (out : Outside).

(** [TdfIrohNode]. *)
Record TdfIrohNode := {
  tn_s3_client : S3Client;
  tn_config : Config;
  tn_staging : Staging;
  tn_secret_key : bytes;
  tn_scratch_dir : string;
  tn_permits : nat;
  tn_gate : option PublishGate;
  (** [EventMask.connected]: whether connections are reported. *)
  tn_intercept_connections : bool
}.

Definition endpoint_key (config : Config) : comp Ssm string bytes :=
  if negb (is_empty (secret_key_param (cfg_iroh config))) then
    comp_map_err (fun e => "Failed to load or create node secret key: " +:+ e)
      (load_or_create fault others (secret_key_param (cfg_iroh config)) (o_generated out))
  else mret (o_ephemeral out).

Definition spawn_with_gate (config : Config) (gate : option PublishGate) : comp Boot string TdfIrohNode :=
  let s3_client := from_config (cfg_s3 config) in
  let staging := staging_new (o_new out) in
  _ ← lift (map_err (fun e => "Failed to load FsStore: " +:+ e) (o_load_store out));
  let staging := attach (o_attached out) staging in
  secret_key ← on_ssm (endpoint_key config);
  _ ← lift (map_err (fun e => "Failed to bind Iroh endpoint: " +:+ e)
              (o_bind_endpoint out (ic_bind_port (cfg_iroh config))));
  _ ← opens (IrohEndpoint (ic_bind_port (cfg_iroh config)));
  let gate := set_session_key secret_key <$> gate in
  _ ← opens (BlobsRouter gate);
  scratch_dir ← on_scratch (prepare_scratch_dir (data_dir (cfg_iroh config)) (o_removed out) (o_created out));
  mret {| tn_s3_client := s3_client; tn_config := config; tn_staging := staging;
          tn_secret_key := secret_key; tn_scratch_dir := scratch_dir;
          tn_permits := max_concurrent_ingests (cfg_validation config); tn_gate := gate;
          tn_intercept_connections := bool_decide (is_Some gate) |}.

(** The HTTP API, once its listener is bound. *)
Record HttpApi := {
  ha_policy : PublishPolicy;
  ha_state : ApiState;
  ha_v2 : V2State;
  ha_routes : list route;
  ha_plain : IpAddr * Z;
  ha_https : option TlsConfig
}.

Definition some_unless_empty (s : string) : option string := if is_empty s then None else Some s.

Definition publish_policy (config : PublishingConfig) (decider : PublishDecider) : PublishPolicy :=
  {| pp_entitlement := some_unless_empty (pc_entitlement config);
     pp_audience := some_unless_empty (pc_audience config);
     pp_session_ttl_secs := session_ttl_secs config;
     pp_operator_client_ids := list_to_set (operator_client_ids config);
     pp_decider := decider |}.

(** [Ipv4Addr::LOCALHOST] *)
Definition LOCALHOST : IpAddr := V4 [127; 0; 0; 1]%Z.

Definition plain_host (http : HttpConfig) : IpAddr :=
  match hc_tls http with Some _ => LOCALHOST | None => bind_address http end.

(** The listener is kept once its address could be read; it is dropped with
    the error otherwise. *)
Definition bind_listener (host : IpAddr) (port : Z) : comp Boot string unit :=
  _ ← lift (o_bind out host port);
  _ ← lift (o_local_addr out);
  opens (PlainHttp host port).

Definition http_api (node : TdfIrohNode) (provider : option SharedDecisionProvider)
    (environment : option json) (decider : PublishDecider) : comp Boot string HttpApi :=
  let http_cfg := cfg_http (tn_config node) in
  _ ← lift (ensure (negb (is_empty (hc_cose_keys_url http_cfg))) "[http] enabled requires cose_keys_url");
  let verifier := verifier_new (hc_cose_keys_url http_cfg) (some_unless_empty (expected_issuer http_cfg)) in
  let policy := publish_policy (cfg_publishing (tn_config node)) decider in
  let state := {| st_verifier := verifier;
                  st_publishing := (fun g => {| tp_policy := policy; tp_moderation := moderation g |}) <$> tn_gate node |} in
  let v2 := v2_state state (passkey_rp_id http_cfg) (passkey_status_url http_cfg)
              {| rd_provider := bool_decide (is_Some provider);
                 rd_action := ac_action (authz (cfg_catalog (tn_config node)));
                 rd_environment := environment |} in
  _ ← match hc_tls http_cfg with
      | Some tls => lift (ensure (negb (bool_decide (tc_bind_port tls = hc_bind_port http_cfg)))
                            "[http.tls] bind_port must differ from [http] bind_port")
      | None => mret tt
      end;
  let host := plain_host http_cfg in
  _ ← bind_listener host (hc_bind_port http_cfg);
  _ ← match hc_tls http_cfg with Some tls => opens (HttpsTask tls) | None => mret tt end;
  mret {| ha_policy := policy; ha_state := state; ha_v2 := v2;
          ha_routes := node_routes (bool_decide (is_Some (tn_gate node)));
          ha_plain := (host, hc_bind_port http_cfg); ha_https := hc_tls http_cfg |}.

(** The gate, with the moderation records read before anything is accepted. *)
Definition publish_gate (config : Config) (decider : PublishDecider) : comp Boot string (option PublishGate) :=
  if required (cfg_publishing config) then
    let store := from_config (cfg_s3 config) in
    view ← comp_map_err (fun e => "Failed to load moderation records: " +:+ e)
             (on_bucket (reload (MS := s3_moderation_store (s3c_prefix store))));
    mret (Some (with_session_ttl (secs (session_ttl_secs (cfg_publishing config)))
                  (with_decider decider (with_session_store (gate_new view)))))
  else mret None.

(** A chain read back from a session carries no token, so the OpenTDF client
    must present claims when pushes are decided. *)
Definition decidable_mode (config : Config) : result string unit :=
  let authz := authz (cfg_catalog config) in
  if negb (bool_decide (decisions (cfg_publishing config) = Local))
     && eq_ignore_ascii_case (ac_protocol authz) "opentdf-v2" then
    entity_mode ← map_err mode_message (entity_mode_from_str (ac_entity_mode authz));
    match entity_mode with
    | Claims => Ok tt
    | Token => Err "[publishing] decisions needs [catalog.authz] protocol authzen or entity_mode claims"
    end
  else Ok tt.

Record Started := {
  sd_provider : option SharedDecisionProvider;
  sd_decider : PublishDecider;
  sd_node : TdfIrohNode;
  sd_http : option HttpApi
}.

(** [main] up to the point where it waits. *)
Definition start (config_path : string) : comp Boot string Started :=
  config ← lift (from_file read_to_string config_path);
  let asks := negb (bool_decide (decisions (cfg_publishing config) = Local)) in
  provider ← (if hc_enabled (cfg_http config) || asks
              then on_ssm (decision_provider fault others (o_env out) config)
              else mret None);
  _ ← lift (decidable_mode config);
  let environment := environment_entity (authz (cfg_catalog config)) in
  decider ← lift (decider_new (decisions (cfg_publishing config)) (bool_decide (is_Some provider))
                    (pc_entitlement (cfg_publishing config)) environment);
  gate ← publish_gate config decider;
  node ← spawn_with_gate config gate;
  http ← (if hc_enabled (cfg_http (tn_config node))
          then h ← http_api node provider environment decider; mret (Some h)
          else mret None);
  mret {| sd_provider := provider; sd_decider := decider; sd_node := node; sd_http := http |}.
End Start.

(** [moderation_refresh_secs.max(5)] *)
Definition refresh_interval (config : PublishingConfig) : Z := secs (Z.max (moderation_refresh_secs config) 5).

(** [TdfIrohNode::collector_stopped]: how long the collector may be silent and
    how often it is looked at. [Duration] arithmetic that overflows 64-bit
    seconds panics: [None]. *)
Definition collector_wait (config : IrohConfig) : option (Z * Z) :=
  let interval := Z.max (gc_interval_secs config) 1 in
  if (interval * 5 <=? u64_max)%Z && (interval * 5 + 60 <=? u64_max)%Z
  then Some (secs (interval * 5 + 60), secs interval) else None.

(** The watchdog has its times for every interval that can be meant; one of
    more than [2^64 / 5] seconds is read without complaint and ends the
    process when it is used. *)
Theorem collector_wait_exact config :
  u64_typed (gc_interval_secs config) ->
  is_Some (collector_wait config) <-> (gc_interval_secs config <= 3689348814741910311)%Z.
Proof.
  unfold collector_wait, u64_typed, u64_max. intros H.
  destruct (_ && _) eqn:E; (split; [intros [? ?]|intros ?]); try done; try (by eexists); lia.
Qed.

(** ** Waiting and exiting *)

(** [shutdown_signal]: SIGINT or SIGTERM, after the handler is installed. *)
Inductive signal_event := CtrlC (waited : result string unit) | Terminate.

Definition shutdown_signal (installed : result string unit) (e : signal_event) : result string string :=
  _ ← map_err (fun e => "Installing SIGTERM handler: " +:+ e) installed;
  match e with
  | CtrlC waited => _ ← map_err (fun e => "Waiting for Ctrl-C: " +:+ e) waited; Ok "SIGINT"
  | Terminate => Ok "SIGTERM"
  end.

(** What ends the wait: a signal or the failure to wait for one, the HTTPS
    task (which exists with TLS only), or the collector's watchdog. *)
Inductive stop :=
| Signalled (name : string)
| SignalFailed (why : string)
| HttpsEnded (r : result string unit)
| HttpsPanicked (why : string)
| CollectorStopped.

(** The arm of [select!] that waits for a signal. *)
Definition signal_stop (r : result string string) : stop :=
  match r with Ok name => Signalled name | Err why => SignalFailed why end.

Definition https_error (e : stop) : option string :=
  match e with
  | HttpsEnded (Ok _) => Some "HTTPS listener stopped"
  | HttpsEnded (Err e) => Some e
  | HttpsPanicked why => Some ("HTTPS task: " +:+ why)
  | _ => None
  end.

(** [main] from there: the exit it returns, given how the router's shutdown
    goes. *)
Definition finish (shutdown : result string unit) (e : stop) : result string unit :=
  match e with
  | SignalFailed why => Err why
  | Signalled _ => shutdown
  | CollectorStopped =>
      _ ← shutdown; Err "The store's garbage collector stopped; restarting for a fresh one"
  | HttpsEnded _ | HttpsPanicked _ =>
      _ ← shutdown; Err (default "" (https_error e))
  end.

(** ** Facts *)

Section StartFacts.
Context {TC : TomlCrate} {SJ : Serde} {HX : Hex} {B3 : Blake3} {IR : Iroh} {S3 : S3Service}.
Context (read_to_string : string -> result string string).
Context (fault : nat -> SsmFault) (others : nat -> gmap string string -> gmap string string).
Context (out : Outside).

(** Nothing but binding a listener adds to what is listened on. *)
Section Bound.
Context (l : list Listening).
Abbreviation unbound := (fun b : Boot => bt_bound b = l).

Lemma unbound_ssm {A} (m : comp Ssm string A) : triple unbound (on_ssm m) (fun _ => unbound) unbound.
Proof. intros b r b' H Hb. unfold on_ssm, zoom in H. destruct (m (bt_ssm b)). injection H as <- <-. by destruct r0. Qed.
Lemma unbound_bucket {A} (m : comp Bucket string A) : triple unbound (on_bucket m) (fun _ => unbound) unbound.
Proof. intros b r b' H Hb. unfold on_bucket, zoom in H. destruct (m (bt_bucket b)). injection H as <- <-. by destruct r0. Qed.
Lemma unbound_lift {A} (x : result string A) : triple unbound (lift x) (fun _ => unbound) unbound.
Proof. by apply triple_lift. Qed.

Lemma unbound_gate config decider :
  triple unbound (publish_gate config decider) (fun _ => unbound) unbound.
Proof.
  unfold publish_gate. destruct (required _); [|by apply triple_ret].
  eapply triple_bind; [apply triple_map_err, unbound_bucket|]. intros view. by apply triple_ret.
Qed.

(** The iroh side: the router accepts once the gate has its key. *)
Definition iroh_open (config : Config) (gate : option PublishGate) : list Listening :=
  [BlobsRouter gate; IrohEndpoint (ic_bind_port (cfg_iroh config))].

Lemma spawn_bound config gate b r b' :
  spawn_with_gate fault others out config gate b = (r, b') -> bt_bound b = l ->
  match r with
  | Ok n => bt_bound b' = iroh_open config (tn_gate n) ++ l
  | Err _ => bt_bound b' = l \/ exists key, bt_bound b' = iroh_open config (set_session_key key <$> gate) ++ l
  end.
Proof.
  unfold spawn_with_gate. intros H Hb.
  apply comp_bind_state in H as [([] & b1 & H1 & H)|(e & H1 & ->)]; [|injection H1 as _ <-; by left].
  injection H1 as _ <-. apply comp_bind_state in H as [(key & b2 & H1 & H)|(e & H1 & ->)];
    pose proof (unbound_ssm _ _ _ _ H1 Hb) as Hb2; [|by left].
  apply comp_bind_state in H as [([] & b3 & H2 & H)|(e & H2 & ->)]; [|injection H2 as _ <-; by left].
  injection H2 as _ <-. apply comp_bind_state in H as [([] & b4 & H2 & H)|(e & H2 & ->)]; [|done].
  injection H2 as <-. cbv zeta in H. apply comp_bind_state in H as [([] & b5 & H2 & H)|(e & H2 & ->)]; [|done].
  injection H2 as <-. unfold on_scratch, zoom, mbind, comp_bind in H.
  destruct (prepare_scratch_dir _ _ _ _) as [[dir|e] sc]; injection H as <- <-; cbn.
  - by rewrite Hb2.
  - right. exists key. by rewrite Hb2.
Qed.

(** What the HTTP API listens on. *)
Definition http_open (http : HttpConfig) : list Listening :=
  match hc_tls http with
  | Some tls => [HttpsTask tls; PlainHttp LOCALHOST (hc_bind_port http)]
  | None => [PlainHttp (bind_address http) (hc_bind_port http)]
  end.

Lemma http_bound node provider environment decider b r b' :
  http_api out node provider environment decider b = (r, b') -> bt_bound b = l ->
  match r with Ok _ => bt_bound b' = http_open (cfg_http (tn_config node)) ++ l | Err _ => bt_bound b' = l end.
Proof.
  unfold http_api, bind_listener, http_open, plain_host. intros H Hb. cbv zeta in H.
  apply comp_bind_state in H as [([] & b1 & H1 & H)|(e & H1 & ->)]; [|by injection H1 as _ <-]. injection H1 as _ <-.
  apply comp_bind_state in H as [([] & b2 & H1 & H)|(e & H1 & ->)].
  2: { destruct (hc_tls _); [by injection H1 as _ <-|done]. }
  assert (b2 = b) as -> by (destruct (hc_tls _); by injection H1).
  apply comp_bind_state in H as [([] & b3 & H2 & H)|(e & H2 & ->)].
  - apply comp_bind_ok in H2 as (? & ? & [_ ->]%lift_ok & H2). apply comp_bind_ok in H2 as (? & ? & [_ ->]%lift_ok & [= <-]).
    destruct (hc_tls _) as [tls|]; injection H as <- <-; cbn; by rewrite Hb.
  - apply comp_bind_state in H2 as [([] & b4 & H3 & H2)|(e' & H3 & _)]; [|by injection H3 as _ <-]. injection H3 as _ <-.
    by apply comp_bind_state in H2 as [([] & b5 & H3 & H2)|(e' & H3 & _)]; [|injection H3 as _ <-].
Qed.
End Bound.

(** The steps of a start that succeeded. *)
Lemma start_ok path b s b' :
  start read_to_string fault others out path b = (Ok s, b') ->
  exists config b1 gate b2 b3,
    from_file read_to_string path = Ok config /\ tn_config (sd_node s) = config
    /\ bt_bucket b1 = bt_bucket b
    /\ (sd_provider s = None \/ exists t t', decision_provider fault others (o_env out) config t = (Ok (sd_provider s), t'))
    /\ decidable_mode config = Ok tt
    /\ decider_new (decisions (cfg_publishing config)) (bool_decide (is_Some (sd_provider s)))
         (pc_entitlement (cfg_publishing config)) (environment_entity (authz (cfg_catalog config))) = Ok (sd_decider s)
    /\ publish_gate config (sd_decider s) b1 = (Ok gate, b2)
    /\ spawn_with_gate fault others out config gate b2 = (Ok (sd_node s), b3)
    /\ (if hc_enabled (cfg_http config) then
          exists h, sd_http s = Some h
            /\ http_api out (sd_node s) (sd_provider s) (environment_entity (authz (cfg_catalog config))) (sd_decider s) b3 = (Ok h, b')
        else sd_http s = None /\ b' = b3).
Proof.
  unfold start. intros H. apply comp_bind_ok in H as (config & b0 & [Hc ->]%lift_ok & H).
  apply comp_bind_ok in H as (provider & b1 & Hp & H). apply comp_bind_ok in H as ([] & ? & [Hd ->]%lift_ok & H).
  apply comp_bind_ok in H as (decider & ? & [Hn ->]%lift_ok & H). apply comp_bind_ok in H as (gate & b2 & Hg & H).
  apply comp_bind_ok in H as (node & b3 & Hs & H). apply comp_bind_ok in H as (http & b4 & Hh & [-> ->]%comp_ret_ok).
  cbn [sd_node sd_provider sd_decider sd_http]. exists config, b1, gate, b2, b3.
  assert (tn_config node = config) as Hnc by (unfold spawn_with_gate in Hs; by inv_run).
  assert (bt_bucket b1 = bt_bucket b /\ (provider = None
    \/ exists t t', decision_provider fault others (o_env out) config t = (Ok provider, t'))) as [Hb Hpr].
  { destruct (_ || _) in Hp; [|apply comp_ret_ok in Hp as [-> ->]; auto].
    apply zoom_ok in Hp as (t & Hp & ->). split; [done|]. eauto. }
  rewrite Hnc in Hh. split_and!; try done.
  destruct (hc_enabled _); [|by apply comp_ret_ok in Hh as [-> ->]].
  apply comp_bind_ok in Hh as (h & ? & Hh & [-> ->]%comp_ret_ok). eauto.
Qed.

(** A client that decides pushes from stored chains. *)
Definition decides_stored_chains (p : SharedDecisionProvider) : Prop :=
  match p with AuthZenProvider _ => True | ConnectProvider z => cz_entity_mode z = Claims end.

Lemma decision_provider_decides config t p t' :
  decision_provider fault others (o_env out) config t = (Ok (Some p), t') ->
  decidable_mode config = Ok tt -> decisions (cfg_publishing config) <> Local -> decides_stored_chains p.
Proof.
  unfold decision_provider, decidable_mode. intros H Hd Hl.
  rewrite (bool_decide_false _ Hl) in Hd. cbn [negb andb] in Hd.
  destruct (is_empty _); [by apply comp_ret_ok in H as [? _]|].
  apply comp_bind_ok in H as (cred & ? & _ & H). apply comp_bind_ok in H as (proto & ? & [Hp ->]%lift_ok & H).
  destruct proto; [|by apply comp_ret_ok in H as [[= ->] _]].
  apply comp_bind_ok in H as (mode & ? & [Hm ->]%lift_ok & [[= ->] _]%comp_ret_ok). cbn.
  assert (eq_ignore_ascii_case (ac_protocol (authz (cfg_catalog config))) "opentdf-v2" = true) as Heq.
  { apply map_err_ok in Hp. unfold authz_protocol_from_str in Hp. unfold eq_ignore_ascii_case.
    destruct (_ || _) in Hp; [done|]. case_bool_decide as E; [|done]. by rewrite E. }
  rewrite Heq in Hd. rewrite Hm in Hd. cbn in Hd. by destruct mode.
Qed.

Lemma http_api_ok node provider environment decider b h b' :
  http_api out node provider environment decider b = (Ok h, b') ->
  let http := cfg_http (tn_config node) in
  hc_cose_keys_url http <> ""
  /\ (forall tls, hc_tls http = Some tls ->
       tc_bind_port tls <> hc_bind_port http /\ is_loopback (ha_plain h).1 = true)
  /\ ha_https h = hc_tls http
  /\ ha_policy h = publish_policy (cfg_publishing (tn_config node)) decider
  /\ st_publishing (ha_state h)
     = (fun g => {| tp_policy := ha_policy h; tp_moderation := moderation g |}) <$> tn_gate node
  /\ ha_routes h = node_routes (bool_decide (is_Some (tn_gate node))).
Proof.
  unfold http_api. intros H. cbn zeta in H.
  apply comp_bind_ok in H as ([] & ? & [Hk%ensure_ok ->]%lift_ok & H).
  apply comp_bind_ok in H as ([] & b1 & Ht & H). apply comp_bind_ok in H as ([] & b2 & Hb & H).
  apply comp_bind_ok in H as ([] & b3 & _ & [-> ->]%comp_ret_ok).
  cbn. split_and!; try done.
  - intros E. by rewrite E in Hk.
  - intros tls E. unfold plain_host. rewrite E in *. apply lift_ok in Ht as [Hp%ensure_ok _].
    apply negb_true_iff, bool_decide_eq_false in Hp. done.
Qed.
End StartFacts.

Lemma publish_gate_ok {SJ : Serde} {HX : Hex} {B3 : Blake3} {IR : Iroh} {S3 : S3Service} config decider b gate b' :
  publish_gate config decider b = (Ok gate, b') ->
  if required (cfg_publishing config) then
    exists view t,
      reload (MS := s3_moderation_store (s3_prefix (cfg_s3 config))) (bt_bucket b) = (Ok view, t)
      /\ gate = Some (with_session_ttl (secs (session_ttl_secs (cfg_publishing config)))
                        (with_decider decider (with_session_store (gate_new view))))
  else gate = None.
Proof.
  unfold publish_gate. destruct (required _); [|by intros [-> _]%comp_ret_ok].
  intros (view & b1 & (t & Hr & ->)%comp_map_err_ok%zoom_ok & [-> ->]%comp_ret_ok)%comp_bind_ok. eauto.
Qed.

Lemma spawn_gate {HX : Hex} {B3 : Blake3} {IR : Iroh} fault others out config gate b n b' :
  spawn_with_gate fault others out config gate b = (Ok n, b') ->
  tn_gate n = set_session_key (tn_secret_key n) <$> gate
  /\ tn_intercept_connections n = bool_decide (is_Some (tn_gate n)).
Proof. unfold spawn_with_gate. intros H. by inv_run. Qed.

(** The gate a node listens behind: that of a configuration that requires
    publishing rights has read the bucket's records and has its key. *)
Definition guarded {SJ : Serde} {IR : Iroh} {S3 : S3Service} (config : Config) (bucket : Bucket) (gate : option PublishGate) : Prop :=
  if required (cfg_publishing config) then
    exists g, gate = Some g /\ shows (s3_prefix (cfg_s3 config)) bucket (moderation g)
      /\ sessions g = ∅ /\ is_Some (record_key g) /\ pd_mode (decider g) = decisions (cfg_publishing config)
  else gate = None.

Lemma gate_guarded {SJ : Serde} {HX : Hex} {B3 : Blake3} {IR : Iroh} {S3 : S3Service} config decider b gate b' key :
  publish_gate config decider b = (Ok gate, b') -> pd_mode decider = decisions (cfg_publishing config) ->
  guarded config (bt_bucket b) (set_session_key key <$> gate).
Proof.
  intros H Hm. apply publish_gate_ok in H. unfold guarded. destruct (required _); [|by subst].
  destruct H as (view & t & Hv%reload_shows & ->). eexists. split; [reflexivity|]. by split_and!.
Qed.

Lemma decider_mode decisions provider entitlement environment d :
  decider_new decisions provider entitlement environment = Ok d -> pd_mode d = decisions.
Proof. unfold decider_new. intros H. inv_run. by injection H as <-. Qed.

(** C25: Startup fails closed. A start that fails opened nothing, or only the
    iroh endpoint (when the scratch directory, the HTTP settings or the HTTP
    listener failed it, which come later): it never listened for HTTP, and peers
    met the gate of the configuration, with the bucket's suspensions and blocks
    read and the session key set. One that succeeds read its configuration and
    listens behind that gate; when pushes are decided by the platform, there is
    a decision client, and it can decide a stored session (AuthZEN, or claims);
    with HTTP off nothing but the iroh endpoint is open; with HTTP on there is a
    key set to verify tokens with, and without TLS the plain listener is on the
    configured address, while with TLS the HTTPS task was started on another
    port and the plain listener is on loopback. Nothing else is opened. *)
Theorem startup_checked {TC : TomlCrate} {SJ : Serde} {HX : Hex} {B3 : Blake3} {IR : Iroh} {S3 : S3Service}
    read fault others out path b r b' :
  start read fault others out path b = (r, b') ->
  match r with
  | Err _ =>
      bt_bound b' = bt_bound b
      \/ exists config gate, from_file read path = Ok config /\ guarded config (bt_bucket b) gate
           /\ bt_bound b' = BlobsRouter gate :: IrohEndpoint (ic_bind_port (cfg_iroh config)) :: bt_bound b
  | Ok s =>
      exists config, from_file read path = Ok config
      /\ guarded config (bt_bucket b) (tn_gate (sd_node s))
      /\ (decisions (cfg_publishing config) <> Local ->
          exists p, sd_provider s = Some p /\ decides_stored_chains p)
      /\ let iroh := BlobsRouter (tn_gate (sd_node s)) :: IrohEndpoint (ic_bind_port (cfg_iroh config)) :: bt_bound b in
         let http := cfg_http config in
         (hc_enabled http = false -> sd_http s = None /\ bt_bound b' = iroh)
         /\ (hc_enabled http = true ->
             hc_cose_keys_url http <> "" /\ is_Some (sd_http s)
             /\ (hc_tls http = None -> bt_bound b' = PlainHttp (bind_address http) (hc_bind_port http) :: iroh)
             /\ forall tls, hc_tls http = Some tls ->
                  tc_bind_port tls <> hc_bind_port http
                  /\ exists host, is_loopback host = true
                       /\ bt_bound b' = HttpsTask tls :: PlainHttp host (hc_bind_port http) :: iroh)
  end.
Proof.
  intros H. pose proof H as H0. unfold start in H.
  apply comp_bind_state in H as [(config & b0 & Hc & H)|(e & Hc & ->)]; [|injection Hc as _ <-; by left].
  apply lift_ok in Hc as [Hc ->]. cbv zeta in H.
  apply comp_bind_state in H as [(provider & b1 & Hp & H)|(e & Hp & ->)].
  2: { left. destruct (_ || _) in Hp; [|done]. exact (unbound_ssm _ _ _ _ _ Hp eq_refl). }
  assert (bt_bound b1 = bt_bound b /\ bt_bucket b1 = bt_bucket b) as [Hb1 Hbk].
  { destruct (_ || _) in Hp; [|by injection Hp as _ <-]. apply zoom_ok in Hp as (t & _ & ->). done. }
  apply comp_bind_state in H as [([] & b2 & Hd & H)|(e & Hd & ->)]; [|injection Hd as _ <-; by left].
  injection Hd as _ <-. apply comp_bind_state in H as [(decider & b2 & Hn & H)|(e & Hn & ->)]; [|injection Hn as _ <-; by left].
  apply lift_ok in Hn as [Hn%decider_mode ->].
  apply comp_bind_state in H as [(gate & b2 & Hg & H)|(e & Hg & ->)]; pose proof (unbound_gate _ _ _ _ _ _ Hg Hb1) as Hb2; [|by left].
  pose proof (fun key => gate_guarded _ _ _ _ _ key Hg Hn) as Hguard. rewrite Hbk in Hguard.
  apply comp_bind_state in H as [(node & b3 & Hs & H)|(e & Hs & ->)];
    pose proof (spawn_bound _ _ _ _ _ _ _ _ _ Hs Hb2) as Hb3; cbn beta iota in Hb3.
  2: { destruct Hb3 as [?|[key Hb3]]; [by left|right]. exists config, (set_session_key key <$> gate). by split_and!. }
  apply spawn_gate in Hs as Htn. destruct Htn as [Htn _].
  assert (tn_config node = config) as Hnc by (unfold spawn_with_gate in Hs; by inv_run).
  apply comp_bind_state in H as [(http & b4 & Hh & H)|(e & Hh & ->)]; rewrite Hnc in Hh.
  2: { right. exists config, (tn_gate node). rewrite Htn. split_and!; [done..|]. destruct (hc_enabled _); [|done].
       apply comp_bind_state in Hh as [(h & b5 & _ & [=])|(e' & Hh & _)].
       pose proof (http_bound _ _ _ _ _ _ _ _ _ Hh Hb3) as Hb4. cbn beta iota in Hb4. by rewrite Hb4, Htn. }
  injection H as <- <-. clear Hn Hp.
  apply start_ok in H0 as (config' & ? & ? & ? & ? & Hc' & _ & _ & Hp & Hd & Hdec & _ & _ & _).
  rewrite Hc in Hc'. injection Hc' as <-. cbn [sd_provider sd_node sd_http sd_decider] in *.
  exists config. split_and!; [done|by rewrite Htn| |intros E; rewrite E in Hh; by injection Hh as <- <-|].
  - intros Hl. unfold decider_new in Hdec. rewrite (bool_decide_false _ Hl) in Hdec.
    case_bool_decide as Hsome; [|done]. destruct Hsome as [p Ep]. rewrite Ep in *. exists p. split; [done|].
    destruct Hp as [Hp|(t & t' & Hp)]; [done|]. by eapply decision_provider_decides.
  - intros E. rewrite E in Hh. apply comp_bind_ok in Hh as (h & ? & Hh & [-> ->]%comp_ret_ok).
    pose proof (http_bound _ _ _ _ _ _ _ _ _ Hh Hb3) as Hb4. cbn beta iota in Hb4. rewrite Hnc in Hb4. unfold http_open in Hb4.
    apply http_api_ok in Hh as (Hk & Ht & _). rewrite Hnc in Hk, Ht. split_and!; [done|by eexists| |].
    + intros Et. rewrite Et in Hb4. exact Hb4.
    + intros tls Et. split; [by apply Ht|]. exists LOCALHOST. split; [done|]. rewrite Et in Hb4. exact Hb4.
Qed.

(** C23: A gated node comes up knowing its suspensions and blocks. When the
    configuration requires publishing rights and the start succeeds, the
    node has a gate whose view is what the bucket said: a subject is
    suspended, and a hash blocked, exactly when an active record for it is
    stored. The gate starts in a state its invariants are about, without
    sessions, reads and writes stored ones under a key derived from the node's
    own, and decides as configured; connections are reported to it, and the
    HTTP API works on the same view. When publishing rights are not required
    there is no gate and no moderation route. *)
Theorem startup_gate_loaded {TC : TomlCrate} {SJ : Serde} {HX : Hex} {B3 : Blake3} {SF : SealedFormat} {IR : Iroh} {S3 : S3Service}
    read fault others out path b s b' :
  start read fault others out path b = (Ok s, b') ->
  let config := tn_config (sd_node s) in
  let prefix := s3_prefix (cfg_s3 config) in
  (required (cfg_publishing config) = false ->
     tn_gate (sd_node s) = None /\ forall h, sd_http s = Some h -> ha_routes h = node_routes false)
  /\ (required (cfg_publishing config) = true ->
     exists g, tn_gate (sd_node s) = Some g /\ tn_intercept_connections (sd_node s) = true
     /\ gate_reachable (g, []) /\ sessions g = ∅ /\ store g = true
     /\ record_key g = Some (derive (tn_secret_key (sd_node s)))
     /\ pd_mode (decider g) = decisions (cfg_publishing config)
     /\ shows prefix (bt_bucket b) (moderation g)
     /\ (forall h, sd_http s = Some h -> ha_routes h = node_routes true
          /\ st_publishing (ha_state h) = Some {| tp_policy := ha_policy h; tp_moderation := moderation g |})).
Proof.
  intros H. apply start_ok in H as (config & b1 & gate & b2 & b3 & Hc & Hn & Hb & _ & _ & Hdec & Hg & Hs & Hh).
  cbn zeta. rewrite Hn. apply publish_gate_ok in Hg. apply spawn_gate in Hs as [Htn Hi].
  assert (forall h, sd_http s = Some h -> st_publishing (ha_state h)
     = (fun g => {| tp_policy := ha_policy h; tp_moderation := moderation g |}) <$> tn_gate (sd_node s)
    /\ ha_routes h = node_routes (bool_decide (is_Some (tn_gate (sd_node s))))) as Hhttp.
  { intros h E. destruct (hc_enabled _); [destruct Hh as (h' & E' & Hh)|destruct Hh as [E' _]]; [|congruence].
    assert (h' = h) as -> by congruence. by apply http_api_ok in Hh as (_ & _ & _ & _ & ? & ?). }
  split; intros Hr; rewrite Hr in Hg.
  - rewrite Hg in Htn. cbn in Htn. rewrite Htn in *. split; [done|]. intros h Eh. by destruct (Hhttp h Eh).
  - destruct Hg as (view & t & Hv & ->). cbn in Htn. rewrite Htn in *. eexists. split; [done|]. split; [done|].
    pose proof (decider_mode _ _ _ _ _ Hdec) as Hmode.
    rewrite Hb in Hv. apply reload_shows in Hv.
    split_and!; try done.
    + eapply reach_step; [apply (reach_new view (secs (session_ttl_secs (cfg_publishing config))) (sd_decider s))|].
      apply StepKey.
    + intros h Eh. destruct (Hhttp h Eh) as [Hst Hro]. by rewrite Hst, Hro.
Qed.

(** Where the service credential comes from: with a token URL, the client
    secret is the file's, else the environment's, else SSM's, and a start
    without a client or a secret fails instead of asking unauthenticated; SSM
    is not read when the secret is nearer. *)
Theorem service_credential_exact fault others env_var authz t c t' :
  service_credential fault others env_var authz t = (Ok c, t') ->
  ac_token_url authz <> "" ->
  exists secret, c = ClientCredentials (ac_token_url authz) (ac_client_id authz) secret
    /\ secret <> "" /\ ac_client_id authz <> ""
    /\ (ac_client_secret authz <> "" -> secret = ac_client_secret authz /\ t' = t)
    /\ (ac_client_secret authz = "" -> forall v, env_var "CATALOG_AUTHZ_CLIENT_SECRET" = Some v -> v <> "" ->
          secret = v /\ t' = t)
    /\ (ac_client_secret authz = "" -> default "" (env_var "CATALOG_AUTHZ_CLIENT_SECRET") = "" ->
          ssm_met others t !! ac_client_secret_param authz = Some secret).
Proof.
  unfold service_credential. intros H Hu. destruct (ac_token_url authz) as [|a u] eqn:Eu; [done|]. cbn [is_empty negb] in H.
  apply comp_bind_ok in H as (secret & t1 & Hs & H).
  apply comp_bind_ok in H as ([] & ? & [He%ensure_ok ->]%lift_ok & [-> ->]%comp_ret_ok).
  apply andb_true_iff in He as [He1 He2]. exists secret.
  assert (forall x, negb (is_empty x) = true -> x <> "") as Hne by (by intros [] ?).
  split; [done|]. split; [auto|]. split; [auto|]. unfold client_secret in Hs.
  destruct (ac_client_secret authz); cbn [is_empty negb] in Hs;
    [|apply comp_ret_ok in Hs as [-> ->]; by split_and!].
  split; [done|]. destruct (env_var "CATALOG_AUTHZ_CLIENT_SECRET") as [[|a0 v]|]; cbn [default is_empty negb from_option id] in Hs.
  2: { apply comp_ret_ok in Hs as [-> ->]. split; [by intros _ v' [= <-]|done]. }
  all: split; [naive_solver|]; intros _ _; destruct (negb (is_empty (ac_client_secret_param authz)));
    [|by apply comp_ret_ok in Hs as [-> _]];
    apply comp_map_err_ok in Hs; destruct (load_secret_exact fault others (ac_client_secret_param authz) t) as (r & E & Hr);
    rewrite E in Hs; injection Hs as -> _; by destruct (proj1 (Hr secret) eq_refl).
Qed.

(** The process ends well only on a signal: with the HTTPS listener or the
    collector gone it exits with an error, so that it is started again. *)
Theorem only_signals_exit_cleanly shutdown e :
  finish shutdown e = Ok tt <-> shutdown = Ok tt /\ exists name, e = Signalled name.
Proof. destruct e as [name|why|r|why|]; cbn; destruct shutdown as [[]|]; naive_solver. Qed.

Module StartSample.
(** A gated node with HTTPS, decisions by the platform, a suspension in the
    bucket and nothing yet in SSM. *)
#[local] Existing Instance bit_serde.
#[local] Existing Instance plain_hex.
#[local] Existing Instance toy_blake3.
#[local] Existing Instance GateSample.iroh.
#[local] Existing Instance GateSample.sealed.
#[local] Existing Instance S3Sample.healthy.

Definition doc : json :=
  JObject [("s3", JObject [("bucket", JString "tdf"); ("region", JString "us-east-1")]);
           ("http", JObject [("enabled", JBool true); ("cose_keys_url", JString "https://idp/keys");
              ("tls", JObject [("cert_path", JString "cert.pem"); ("key_path", JString "key.pem")])]);
           ("catalog", JObject [("authz", JObject [("endpoint", JString "https://pdp"); ("bearer_token", JString "t")])]);
           ("publishing", JObject [("decisions", JString "pdp")])].
#[local] Instance toml : TomlCrate := {| toml_parse := fun _ => Ok doc |}.
Definition read : string -> result string string := Ok.
Definition out : Outside :=
  {| o_env := fun _ => None; o_generated := SecretsSample.key; o_ephemeral := ""; o_load_store := Ok tt;
     o_bind_endpoint := fun _ => Ok tt; o_bind := fun _ _ => Ok tt; o_local_addr := Ok tt; o_removed := NotThere; o_created := true;
     o_new := 0; o_attached := 1 |}.
Definition boot : Boot :=
  {| bt_ssm := SecretsSample.empty; bt_bucket := ModerationSample.bucket;
     bt_scratch := {| sc_next := 0; sc_files := ∅ |}; bt_bound := [] |}.
Abbreviation run := (start read SecretsSample.works SecretsSample.alone out "config.toml" boot).

Lemma startup_checked_witness :
  exists s b' tls host gate port, run = (Ok s, b') /\ is_loopback host = true
    /\ bt_bound b' = [HttpsTask tls; PlainHttp host 8090; BlobsRouter gate; IrohEndpoint port]
    /\ exists p, sd_provider s = Some p /\ decides_stored_chains p.
Proof.
  destruct run as [r b'] eqn:E. pose proof (startup_checked read _ _ out "config.toml" boot r b' E) as H.
  assert (is_ok run.1 = true) as Hr by (vm_compute; reflexivity). rewrite E in Hr. destruct r as [s|e]; [|discriminate Hr].
  destruct H as (config & Hc & _ & Hd & Hopen). vm_compute in Hc. injection Hc as <-.
  destruct Hopen as [_ Hopen]. destruct (Hopen eq_refl) as (_ & _ & _ & Htls).
  destruct (Htls _ eq_refl) as (_ & host & Hl & Hb).
  eexists s, b', _, host, _, _. split; [reflexivity|]. split; [exact Hl|]. split; [exact Hb|]. apply Hd. discriminate.
Defined.

Lemma startup_gate_loaded_witness :
  exists s b' g, run = (Ok s, b') /\ tn_gate (sd_node s) = Some g
    /\ is_suspended (moderation g) "arkavo:alice" = true /\ gate_reachable (g, []).
Proof.
  destruct run as [r b'] eqn:E.
  assert (is_ok run.1 = true /\ match run.1 with
    | Ok s => required (cfg_publishing (tn_config (sd_node s))) = true
        /\ match tn_gate (sd_node s) with Some g => is_suspended (moderation g) "arkavo:alice" = true | None => False end
    | Err _ => False end) as [Hr Hs] by (split; vm_compute; repeat split).
  rewrite E in Hr, Hs. destruct r as [s|e]; [|discriminate Hr]. destruct Hs as [Hq Hs]. cbn [fst] in *.
  destruct (startup_gate_loaded read _ _ out "config.toml" boot s b' E) as [_ H].
  destruct (H Hq) as (g & Hg & _ & Hreach & _). rewrite Hg in Hs.
  exists s, b', g. by split_and!.
Defined.
End StartSample.
