(* ===== verification/Restart.v ===== *)
(** * A publish session across a restart

    The path of a session through the program: [POST /publish/sessions]
    seals it under a key derived from the node's own and stores it
    ([moderation.rs], [store/s3.rs]); the process ends; the next start loads
    the key the first one left in the parameter store ([secret_key.rs],
    [main.rs]) and has no session in memory; a push on a connection of the
    endpoint finds the stored one ([SessionStore]). *)

From S2P Require Import Prelude Bytes Identifiers Json Extern Samples Net S3Store Auth Authz EntityChain PublishDecision Moderation PublishGate ModerationApi Config Secrets Routes Ingest CatalogsApi Staging Node Startup.

(** [S3Client::get_session], under the timeout of [look_up] that a lookup
    lost in it does not reach. *)
Definition get_session {S3 : S3Service} (prefix : string) (b : Bucket) (endpoint : string) : lookup_answer :=
  match (get_moderation_record prefix SESSIONS endpoint b).1 with
  | Ok body => Answered body
  | Err _ => LookupFailed
  end.

Lemma get_session_stored {S3 : S3Service} prefix b endpoint :
  get_session prefix b endpoint <> LookupFailed ->
  get_session prefix b endpoint = Answered (bucket_stored prefix b SESSIONS endpoint).
Proof.
  unfold get_session, get_moderation_record, mbind, comp_bind, mret, comp_ret, bucket_stored.
  destruct (or_absent _ _ b) as [r b'] eqn:E. apply or_absent_spec in E as (r0 & H & Hr).
  destruct r as [[o|]|e]; cbn; intros Hne; [| |done]; subst r0.
  - apply read_object_objects in H as [_ H]. cbn [family_key]. by rewrite (H o eq_refl).
  - apply read_object_absent in H. cbn [family_key]. by rewrite H.
Qed.

Section Opened.
Context {B64 : Base64} {CB : Ciborium} {CO : Coset} {EC : P256} {HC : HttpCrate}.
Context {SJ : Serde} {HX : Hex} {B3 : Blake3} {SF : SealedFormat} {IR : Iroh}.
Context {St Sp : Type} {MS : ModerationStore St} {LS : LawfulStore St} {P : DecisionProvider Sp}.
Context (http_get : string -> http_answer) (verifier : CwtVerifier) (policy : PublishPolicy).

(** A value JSON keeps: no fractions, no repeated keys. *)
Definition kept (j : json) : Prop := floatless j = true /\ unique_keys j.

Lemma kept_strings l : kept (json_strings l).
Proof.
  split; cbn; [induction l; by cbn|]. constructor. induction l; cbn; constructor; [constructor|done].
Qed.

(** Members whose keys are among [ks], in order, and whose values are kept. *)
Definition members (ks : list string) (l : list (string * json)) : Prop :=
  sublist l.*1 ks /\ Forall (fun kv => kept kv.2) l.

Lemma members_app k1 k2 l1 l2 : members k1 l1 -> members k2 l2 -> members (k1 ++ k2) (l1 ++ l2).
Proof. intros [H1 F1] [H2 F2]. split; [rewrite fmap_app; by apply sublist_app|by apply Forall_app]. Qed.

Lemma members_opt {A} k (f : A -> json) o : (forall x, o = Some x -> kept (f x)) -> members [k] (opt_member k f o).
Proof. destruct o; intros H; split; cbn; repeat constructor; by apply H. Qed.

Lemma members_kept ks l : NoDup ks -> members ks l -> kept (JObject l).
Proof.
  intros Hn [Hs Hl]. split; [|constructor; [by eapply sublist_NoDup|eapply Forall_impl; [done|]; by intros kv [_ ?]]].
  clear Hs. cbn. induction Hl as [|kv l [Hf _] _ IH]; [done|]. cbn. by rewrite Hf.
Qed.

Lemma kept_string x : kept (JString x). Proof. split; [done|constructor]. Qed.
Lemma kept_bool x : kept (JBool x). Proof. split; [done|constructor]. Qed.

Lemma subject_kept claims token :
  (forall j, arkavo_patreon claims = Some j -> kept j) -> kept (ce_claims (subject_entity claims token)).
Proof.
  intros Hp. apply (members_kept (["sub"; "iss"] ++ ["patreon_user_id"] ++ ["email"] ++ ["email_verified"] ++ ["idp"]
    ++ ["arkavo_account_id"] ++ ["arkavo_roles"] ++ ["arkavo_entitlements"] ++ ["client_id"] ++ ["arkavo_patreon"])).
  { apply (bool_decide_unpack _). vm_compute. exact I. }
  apply members_app; [split; [done|]; repeat constructor; done|].
  do 6 (apply members_app; [apply members_opt; intros; auto using kept_string, kept_bool, kept_strings|]).
  apply members_app; [|apply members_app; apply members_opt; intros; auto using kept_string].
  destruct (arkavo_entitlements claims) as [|x l].
  - split; [apply sublist_nil_l|constructor].
  - split; [reflexivity|]. constructor; [apply kept_strings|constructor].
Qed.

Lemma device_kept token claims k : kept (ce_claims (device_entity token claims k)).
Proof.
  apply (members_kept ["sub"; "iss"; "aud"; "kid"]); [apply (bool_decide_unpack _); vm_compute; exact I|].
  split; [done|]. repeat constructor; done.
Qed.

Context (Henv : forall env, pd_environment (pp_decider policy) = Some env -> kept env).

Lemma policy_chain_kept headers claims token t c chain c' :
  policy_chain http_get policy verifier headers claims token t c = (Ok chain, c') ->
  (forall j, arkavo_patreon claims = Some j -> kept j) -> Forall (fun e => kept (ce_claims e)) chain.
Proof.
  unfold policy_chain. intros H Hp. inv_run.
  match goal with H : verified_devices _ _ _ _ _ _ _ = _ |- _ => apply verified_devices_bound in H as Hd end.
  constructor; [by apply subject_kept|]. apply Forall_app. split.
  - clear -Hd. induction Hd as [|tok e toks es (k0 & k0' & cl & k & i & _ & _ & _ & _ & ->) _ IH]; [constructor|].
    constructor; [apply device_kept|done].
  - destruct (pd_environment _) as [env|] eqn:E; [|constructor]. constructor; [by apply Henv|constructor].
Qed.

(** The chain a publisher was permitted with can be stored. *)
Lemma publisher_chain_kept m headers t s claims chain s' :
  publisher_with_chain http_get policy verifier m headers t s = (Ok (claims, Some chain), s') ->
  (forall j, arkavo_patreon claims = Some j -> kept j) -> Forall (fun e => kept (ce_claims e)) chain.
Proof.
  unfold publisher_with_chain. intros H Hp. inv_run.
  repeat case_match; try (by apply throw_ok in H); inv_run; simplify_eq.
  - case_bool_decide; [|done]. unfold attempt in *.
    destruct (on_keys (policy_chain _ _ _ _ _ _ _) _) as [[ch|e] s1] eqn:Hk; simplify_eq/=.
    apply zoom_ok in Hk as (k & Hk & _). by eapply policy_chain_kept.
  - repeat case_match; inv_run; simplify_eq; try done.
    match goal with H : on_keys (policy_chain _ _ _ _ _ _ _) _ = _ |- _ => apply zoom_ok in H as (k & Hk & _) end.
    by eapply policy_chain_kept.
Qed.

(** What an opened session leaves in a store that takes writes. *)
Lemma open_session_stored headers body t (a : Api St Sp) endpoint subject expires_at a' key :
  open_session http_get verifier policy headers body t a = (Ok (endpoint, subject, expires_at), a') ->
  record_key (api_gate a) = Some key -> (forall kind k v s, (put_record kind k v s).1 = Ok tt) ->
  exists claims chain ps sealed,
    publisher_with_chain http_get policy verifier (view a) headers t (api_keys a, api_provider a) = (Ok (claims, chain), ps)
    /\ seal (Some key) {| sr_endpoint_id := endpoint_to_string endpoint; sr_subject := sub claims;
                          sr_expires_at := expires_at; sr_chain := strip_tokens <$> chain |} = Some sealed
    /\ stored (api_store a') SESSIONS (endpoint_to_string endpoint) = Some sealed
    /\ canonical_subject (sub claims) = subject /\ in_i64 expires_at = true.
Proof.
  intros H Hkey Hput. unfold open_session in H.
  apply comp_bind_ok in H as (a0 & ? & [= <- <-] & H). apply comp_bind_ok in H as ([claims chain] & a1 & Hp & H).
  apply zoom_ok in Hp as (ps & Hp & ->).
  apply comp_bind_ok in H as (e & ? & [_ ->]%lift_ok & H). apply comp_bind_ok in H as ([] & ? & [_ ->]%lift_ok & H).
  apply comp_bind_ok in H as (a2 & ? & [= <- <-] & H). apply comp_bind_ok in H as ([] & a3 & Hs & H).
  apply comp_bind_ok in H as ([] & a4 & [= <-] & [[= -> -> ->] ->]%comp_ret_ok).
  cbn [api_gate set_policy_state] in Hs. rewrite Hkey in Hs. cbn [api_store set_gate].
  eexists claims, chain, ps, _. split; [exact Hp|]. split; [reflexivity|]. split_and!; try reflexivity.
  - apply comp_bind_ok in Hs as (r & ? & Hs & [_ ->]%comp_ret_ok). unfold attempt, on_store, zoom in Hs.
    destruct (put_record _ _ _ _) as [r0 s0] eqn:E in Hs. injection Hs as <- <-. cbn [api_store set_store].
    destruct (put_this _ _ _ _ _ _ E) as [[_ Hne]|Hst]; [|exact Hst].
    exfalso. apply Hne. transitivity (r0, s0).1; [done|]. rewrite <- E. apply Hput.
  - pose proof (i64_wrap_range (now_secs t 3 + pp_session_ttl_secs policy)) as Hr.
    unfold in_i64, i64_add. lia.
Qed.

(** The record can be written, and a node that asks the platform accepts its
    chain. *)
Lemma session_record_ok m headers t s claims chain s' endpoint expires_at :
  publisher_with_chain http_get policy verifier m headers t s = (Ok (claims, chain), s') ->
  (forall j, arkavo_patreon claims = Some j -> kept j) -> in_i64 expires_at = true ->
  writable {| sr_endpoint_id := endpoint; sr_subject := sub claims; sr_expires_at := expires_at;
              sr_chain := strip_tokens <$> chain |}
  /\ (pd_mode (pp_decider policy) = Pdp -> exists c, strip_tokens <$> chain = Some c /\ stored_person c = Some (sub claims)).
Proof.
  intros H Hp Hi. split.
  - split; [done|]. cbn. intros c Hc. destruct chain as [ch|]; [|done]. injection Hc as <-.
    apply publisher_chain_kept in H; [|done]. unfold strip_tokens. rewrite Forall_fmap.
    eapply Forall_impl; [exact H|]. by intros e He.
  - intros Hm. apply publisher_chain in H as [Hc Hn]. destruct chain as [ch|]; [|by destruct (Hn Hm)].
    destruct (Hc ch eq_refl) as (token & rest & ->). eexists. split; [reflexivity|]. done.
Qed.
End Opened.

(** ** The key of the next start *)

Section Key.
Context {TC : TomlCrate} {SJ : Serde} {HX : Hex} {HL : HexLaws HX} {B3 : Blake3} {IR : Iroh} {S3 : S3Service}.
Context (read_to_string : string -> result string string).
Context (fault : nat -> SsmFault) (others : nat -> gmap string string -> gmap string string) (out : Outside).

(** Other processes leave the parameter alone. *)
Definition leave (name : string) : Prop := forall i m v, m !! name = Some v -> others i m !! name = Some v.

Lemma load_secret_keeps param name v :
  leave name -> stable (fun t => ssm_params t !! name = Some v) (load_secret fault others param) (fun _ => True).
Proof.
  intros Ho t r t' H Ht. destruct (load_secret_exact fault others param t) as (r0 & E & _).
  rewrite E in H. injection H as <- <-. split; [by apply Ho|done].
Qed.

Lemma decision_provider_keeps config name v :
  leave name ->
  stable (fun t => ssm_params t !! name = Some v) (decision_provider fault others (o_env out) config) (fun _ => True).
Proof.
  intros Ho. unfold decision_provider, service_credential, client_secret.
  stable_steps ltac:(apply stable_map_err; by apply load_secret_keeps).
Qed.

(** The part of a start that loads the key. *)
Lemma start_key path b s b' :
  start read_to_string fault others out path b = (Ok s, b') ->
  exists t, endpoint_key fault others out (tn_config (sd_node s)) t = (Ok (tn_secret_key (sd_node s)), bt_ssm b')
    /\ forall name v, leave name -> ssm_params (bt_ssm b) !! name = Some v -> ssm_params t !! name = Some v.
Proof.
  unfold start. intros H. apply comp_bind_ok in H as (config & b0 & [Hc ->]%lift_ok & H).
  apply comp_bind_ok in H as (provider & b1 & Hp & H). apply comp_bind_ok in H as ([] & ? & [Hd ->]%lift_ok & H).
  apply comp_bind_ok in H as (decider & ? & [Hn ->]%lift_ok & H). apply comp_bind_ok in H as (gate & b2 & Hg & H).
  apply comp_bind_ok in H as (node & b3 & Hs & H). apply comp_bind_ok in H as (http & b4 & Hh & [-> ->]%comp_ret_ok).
  cbn [sd_node]. assert (bt_ssm b4 = bt_ssm b3) as ->.
  { destruct (hc_enabled _) in Hh; [|by apply comp_ret_ok in Hh as [_ ->]].
    apply comp_bind_ok in Hh as (h & ? & Hh & [_ ->]%comp_ret_ok). unfold http_api, bind_listener in Hh. cbv zeta in Hh.
    inv_run. destruct (hc_tls _); inv_run; unfold opens, modify in *; by simplify_eq. }
  assert (bt_ssm b2 = bt_ssm b1) as Hb2.
  { unfold publish_gate in Hg. destruct (required _); [|by apply comp_ret_ok in Hg as [_ ->]].
    by apply comp_bind_ok in Hg as (view & ? & (t & _ & ->)%comp_map_err_ok%zoom_ok & [_ ->]%comp_ret_ok). }
  exists (bt_ssm b2). split.
  - unfold spawn_with_gate in Hs. apply comp_bind_ok in Hs as (? & ? & [_ ->]%lift_ok & Hs).
    apply comp_bind_ok in Hs as (key & ? & (t & Hk & ->)%zoom_ok & Hs). apply comp_bind_ok in Hs as (? & ? & [_ ->]%lift_ok & Hs).
    apply comp_bind_ok in Hs as ([] & ? & [= <-] & Hs). cbv zeta in Hs. apply comp_bind_ok in Hs as ([] & ? & [= <-] & Hs).
    apply comp_bind_ok in Hs as (dir & ? & (sc & _ & ->)%zoom_ok & [-> ->]%comp_ret_ok). exact Hk.
  - intros name v Ho Hv. rewrite Hb2. destruct (_ || _) in Hp; [|apply comp_ret_ok in Hp as [_ ->]; done].
    apply zoom_ok in Hp as (t & Hp & ->). exact (proj1 (decision_provider_keeps config name v Ho _ _ _ Hp Hv)).
Qed.

(** A start with a configured key leaves it in the parameter store. *)
Lemma start_key_stored path b s b' name :
  start read_to_string fault others out path b = (Ok s, b') ->
  secret_key_param (cfg_iroh (tn_config (sd_node s))) = name -> name <> "" -> len (o_generated out) = 32%Z ->
  exists v, ssm_params (bt_ssm b') !! name = Some v /\ hex_decode v = Some (tn_secret_key (sd_node s)).
Proof.
  intros (t & H & _)%start_key Hn Hne Hg. unfold endpoint_key in H. rewrite Hn in H.
  destruct name as [|c name]; [done|]. cbn [is_empty negb] in H. apply comp_map_err_ok in H.
  destruct (load_or_create_stored _ _ _ _ _ _ _ H Hg) as [_ Hv]. exact Hv.
Qed.

(** And one that finds it there runs with it, whatever it would have made. *)
Lemma start_key_loaded path b s b' name v key :
  start read_to_string fault others out path b = (Ok s, b') ->
  secret_key_param (cfg_iroh (tn_config (sd_node s))) = name -> name <> "" -> leave name ->
  ssm_params (bt_ssm b) !! name = Some v -> hex_decode v = Some key -> tn_secret_key (sd_node s) = key.
Proof.
  intros (t & H & Hk)%start_key Hn Hne Ho Hv Hd. specialize (Hk _ _ Ho Hv). unfold endpoint_key in H. rewrite Hn in H.
  destruct name as [|c name]; [done|]. cbn [is_empty negb] in H. apply comp_map_err_ok in H. unfold load_or_create in H.
  apply comp_bind_ok in H as (a & t1 & Ha & H). unfold attempt, get_parameter in Ha.
  assert (ssm_met others t !! String c name = Some v) as Hm by (by apply Ho). rewrite Hm in Ha.
  destruct (fault (ssm_calls t)); injection Ha as <- <-; cbn in H; try done.
  inv_run. simplify_eq. by apply key_bytes_Some in H as [-> _].
Qed.
End Key.

(** The gate of a start: nothing but a view, keyed by the node's own key. *)
Lemma start_gate {TC : TomlCrate} {SJ : Serde} {HX : Hex} {B3 : Blake3} {IR : Iroh} {S3 : S3Service}
    read fault others out path b s b' g :
  start read fault others out path b = (Ok s, b') -> tn_gate (sd_node s) = Some g ->
  exists view ttl, g = set_session_key (tn_secret_key (sd_node s))
    (with_session_ttl ttl (with_decider (sd_decider s) (with_session_store (gate_new view)))).
Proof.
  intros H Hg. apply start_ok in H as (config & b1 & gate & b2 & b3 & _ & _ & _ & _ & _ & _ & Hgate & Hspawn & _).
  apply spawn_gate in Hspawn as [Hn _]. rewrite Hg in Hn. apply publish_gate_ok in Hgate.
  destruct (required _); [|by subst gate]. destruct Hgate as (view & tb & _ & ->). cbn in Hn. injection Hn as ->. eauto.
Qed.

(** C24: Publish sessions survive a restart, in every decision mode. A node
    starts with a key parameter configured, and on its gate
    [POST /publish/sessions] opens a session, which its bucket takes. The next
    start, on the parameter store and the bucket as they were left, runs with
    the same node key, whatever key it would have generated; so with the same
    mode it admits pushes of the same endpoint for the same subject: it has no
    session in memory, but a push on a connection of the endpoint, made before
    the session expires, finds the stored record and is accepted, unless the
    subject is suspended or the content blocked by the records the new process
    read, or the lookup fails. Where the platform decides, the chain it
    permitted is stored and read back, which needs claims without fractions or
    repeated keys and a subject with at most one [arkavo:] prefix. *)
Theorem sessions_survive_restart {TC : TomlCrate} {B64 : Base64} {CB : Ciborium} {CO : Coset} {EC : P256} {HC : HttpCrate}
    {SJ : Serde} {HX : Hex} {HL : HexLaws HX} {B3 : Blake3} {SF : SealedFormat} {SL : SealLaws} {IR : Iroh} {S3 : S3Service}
    {Sp : Type} {P : DecisionProvider Sp} prefix name
    read1 fault1 others1 out1 path1 b1 s1 b1' g1
    http_get verifier policy headers body t (a : Api Bucket Sp) endpoint subject expires_at a'
    read2 fault2 others2 out2 path2 b2 s2 b2' g2 id hash r :
  (* the first process *)
  start read1 fault1 others1 out1 path1 b1 = (Ok s1, b1') ->
  secret_key_param (cfg_iroh (tn_config (sd_node s1))) = name -> name <> "" -> len (o_generated out1) = 32%Z ->
  tn_gate (sd_node s1) = Some g1 -> record_key (api_gate a) = record_key g1 ->
  open_session (MS := s3_moderation_store prefix) http_get verifier policy headers body t a
    = (Ok (endpoint, subject, expires_at), a') ->
  (forall kind k v c, (put_moderation_record prefix kind k v c).1 = Ok tt) ->
  (forall env, pd_environment (pp_decider policy) = Some env -> kept env) ->
  (forall claims chain ps j,
     publisher_with_chain http_get policy verifier (view a) headers t (api_keys a, api_provider a) = (Ok (claims, chain), ps) ->
     arkavo_patreon claims = Some j -> kept j) ->
  canonical_subject subject = subject ->
  (* the second *)
  ssm_params (bt_ssm b2) !! name = ssm_params (bt_ssm b1') !! name -> leave others2 name ->
  start read2 fault2 others2 out2 path2 b2 = (Ok s2, b2') ->
  secret_key_param (cfg_iroh (tn_config (sd_node s2))) = name ->
  tn_gate (sd_node s2) = Some g2 -> pd_mode (sd_decider s2) = pd_mode (pp_decider policy) ->
  bucket_stored prefix (bt_bucket b2') SESSIONS (endpoint_to_string endpoint)
    = bucket_stored prefix (api_store a') SESSIONS (endpoint_to_string endpoint) ->
  get_session prefix (bt_bucket b2') (endpoint_to_string endpoint) <> LookupFailed ->
  (0 < i64_sub expires_at (t_wall r))%Z ->
  is_suspended (moderation g2) subject = false -> is_blocked (moderation g2) hash = false ->
  tn_secret_key (sd_node s2) = tn_secret_key (sd_node s1)
  /\ sessions g2 = ∅
  /\ exists g', authorize_push (get_session prefix (bt_bucket b2')) r id hash (connected id (Some endpoint) g2)
                = (Ok (subject, endpoint), g').
Proof.
  intros Hstart1 Hn1 Hne Hgen Hg1 Hkey Hopen Hput Henv Hpat Hcan Hssm Hleave Hstart2 Hn2 Hg2 Hmode Hkept Hget Hlive Hsus Hblk.
  destruct (start_key_stored _ _ _ _ _ _ _ _ _ Hstart1 Hn1 Hne Hgen) as (v & Hv & Hd). rewrite <- Hssm in Hv.
  pose proof (start_key_loaded _ _ _ _ _ _ _ _ _ _ _ Hstart2 Hn2 Hne Hleave Hv Hd) as Hsame. split; [exact Hsame|].
  destruct (start_gate _ _ _ _ _ _ _ _ _ Hstart1 Hg1) as (v1 & ttl1 & ->).
  destruct (start_gate _ _ _ _ _ _ _ _ _ Hstart2 Hg2) as (v2 & ttl2 & ->). rewrite Hsame. split; [done|].
  apply (open_session_stored (LS := bucket_lawful prefix)) with (key := derive (tn_secret_key (sd_node s1))) in Hopen
    as (claims & chain & ps & sealed & Hpub & Hseal & Hst & Hsub & Hi); [|done..].
  destruct (session_record_ok _ _ _ Henv _ _ _ _ _ _ _ (endpoint_to_string endpoint) expires_at Hpub
    (fun j => Hpat _ _ _ j Hpub) Hi) as [Hw Hperson].
  apply get_session_stored in Hget. rewrite Hkept in Hget.
  cbn [stored bucket_lawful] in Hst. rewrite Hst in Hget. rewrite <- Hsub in *.
  eapply (authorize_push_stored _ _ _ _ _ _ (derive (tn_secret_key (sd_node s1))) sealed {| sr_subject := sub claims |}); try done.
  - cbn. by rewrite lookup_insert_eq.
  - cbn. unfold SESSION_LOOKUPS. lia.
  - by eapply sealed_genuine.
  - split; [exact Hsus|]. split; [exact Hblk|]. cbn. rewrite Hmode. intros Hm.
    destruct (Hperson Hm) as (c & Hc & Hp). exists c, (sub claims). split_and!; [done..|]. symmetry. exact Hcan.
Qed.

Module RestartSample.
#[local] Existing Instance bit_serde.
#[local] Existing Instance plain_hex.
#[local] Existing Instance plain_base64.
#[local] Existing Instance named_p256.
#[local] Existing Instance toy_blake3.
#[local] Existing Instance S3Sample.healthy.
#[local] Existing Instance GateSample.sealed.
#[local] Existing Instance GateSample.laws.
#[local] Existing Instance ApiSample.headers_plain.
#[local] Existing Instance ApiSample.cbor_table.
#[local] Existing Instance ApiSample.cose_table.
#[local] Existing Instance ApiSample.no_provider.
#[local] Existing Instance ApiSample.iroh_any.

#[local] Instance toml : TomlCrate :=
  {| toml_parse := fun _ => Ok (JObject [("s3", JObject [("bucket", JString "tdf"); ("region", JString "us-east-1")]);
       ("iroh", JObject [("secret_key_param", JString "/tdf/key")])]) |}.

(** The first process makes its key and a session is opened on its gate. *)
Definition boot1 : Boot :=
  {| bt_ssm := SecretsSample.empty; bt_bucket := {| objects := ∅; s3_log := [] |};
     bt_scratch := {| sc_next := 0; sc_files := ∅ |}; bt_bound := [] |}.
Definition started1 := start StartSample.read SecretsSample.works SecretsSample.alone StartSample.out "config.toml" boot1.
Definition before : Api Bucket unit :=
  {| api_keys := AuthSample.cache;
     api_gate := set_session_key SecretsSample.key (with_session_store (gate_new moderation_default));
     api_store := {| objects := ∅; s3_log := [] |}; api_provider := tt |}.
Definition opened := open_session (MS := s3_moderation_store "") ApiSample.offline AuthSample.verifier ApiSample.policy
  (ApiSample.auth "person-token") ApiSample.request ApiSample.clocks before.

(** The second would generate another. *)
Definition out2 : Outside :=
  {| o_env := fun _ => None; o_generated := repeat_char 32 "z"; o_ephemeral := ""; o_load_store := Ok tt;
     o_bind_endpoint := fun _ => Ok tt; o_bind := fun _ _ => Ok tt; o_local_addr := Ok tt; o_removed := NotThere;
     o_created := true; o_new := 0; o_attached := 1 |}.
Definition boot2 : Boot :=
  {| bt_ssm := bt_ssm started1.2; bt_bucket := api_store opened.2;
     bt_scratch := {| sc_next := 0; sc_files := ∅ |}; bt_bound := [] |}.
Definition started2 := start StartSample.read SecretsSample.works SecretsSample.alone out2 "config.toml" boot2.

Definition times : readings := {| t_held := 0; t_miss := 0; t_wall := 1600; t_open := 0; t_now := 0 |}.

(** What evaluation shows of a start: its key, mode, key parameter and gate. *)
Definition comes_up (x : result string Started * Boot) : Prop :=
  match x.1 with
  | Ok s => secret_key_param (cfg_iroh (tn_config (sd_node s))) = "/tdf/key" /\ pd_mode (sd_decider s) = Local
      /\ match tn_gate (sd_node s) with
         | Some g => record_key g = Some (derive SecretsSample.key)
             /\ is_suspended (moderation g) "alice" = false /\ is_blocked (moderation g) "hash" = false
         | None => False
         end
  | Err _ => False
  end.

Lemma sessions_survive_restart_witness :
  exists s b' g g', started2 = (Ok s, b') /\ tn_gate (sd_node s) = Some g /\ sessions g = ∅
    /\ authorize_push (get_session "" (bt_bucket b')) times 7 "hash" (connected 7 (Some ApiSample.endpoint1) g)
       = (Ok ("alice", ApiSample.endpoint1), g').
Proof.
  destruct opened as [ro a'] eqn:Eo. destruct started1 as [rs1 b1'] eqn:E1. destruct started2 as [rs2 b2'] eqn:E2.
  assert (ro = Ok (ApiSample.endpoint1, "alice", 2400%Z)) as -> by
    (transitivity opened.1; [by rewrite Eo|vm_compute; reflexivity]).
  assert (comes_up started1) as H1 by (vm_compute; repeat split).
  assert (comes_up started2) as H2 by (vm_compute; repeat split).
  rewrite E1 in H1. rewrite E2 in H2. unfold comes_up in H1, H2. cbn [fst] in H1, H2.
  destruct rs1 as [s1|]; [|destruct H1]. destruct rs2 as [s2|]; [|destruct H2].
  destruct H1 as (Hn1 & _ & Hs1). destruct (tn_gate (sd_node s1)) as [g1|] eqn:Eg1; [|destruct Hs1].
  destruct H2 as (Hn2 & Hm2 & Hs2). destruct (tn_gate (sd_node s2)) as [g2|] eqn:Eg2; [|destruct Hs2].
  destruct Hs1 as (Hk1 & _). destruct Hs2 as (_ & Hsus & Hblk).
  destruct (sessions_survive_restart (HL := SecretsSample.plain_hex_laws) "" "/tdf/key"
    StartSample.read SecretsSample.works SecretsSample.alone StartSample.out "config.toml" boot1 s1 b1' g1
    ApiSample.offline AuthSample.verifier ApiSample.policy (ApiSample.auth "person-token") ApiSample.request ApiSample.clocks
    before ApiSample.endpoint1 "alice" 2400 a'
    StartSample.read SecretsSample.works SecretsSample.alone out2 "config.toml" boot2 s2 b2' g2 7 "hash" times
    E1 Hn1) as (_ & Hempty & g' & Hpush);
    [discriminate|vm_compute; reflexivity|exact Eg1|rewrite Hk1; vm_compute; reflexivity|exact Eo|intros; reflexivity
    |discriminate| |reflexivity|unfold boot2; rewrite E1; reflexivity|intros ? ? ? Hv; exact Hv|exact E2|exact Hn2|exact Eg2
    |exact Hm2| | |reflexivity|exact Hsus|exact Hblk|].
  - intros claims chain ps j Hp. vm_compute in Hp. injection Hp as <- <- <-. discriminate.
  - replace b2' with started2.2 by (by rewrite E2). replace a' with opened.2 by (by rewrite Eo). vm_compute. reflexivity.
  - replace b2' with started2.2 by (by rewrite E2). vm_compute. discriminate.
  - exists s2, b2', g2, g'. by split_and!.
Defined.
End RestartSample.
