(* ===== verification/TestClient.v ===== *)
(** * The test client (src/test_cli/, src/bin/test_cli.rs)

    The commands Creator's publishing flow is tested with: open a publish
    session, push from the same endpoint, wait until the node confirms ingest,
    fetch and verify. The network's answers, the endpoint's key operations and
    the opentdf crate are parameters; the files of the machine and the
    client's memory store are the state. *)

From S2P Require Import Prelude Bytes Identifiers Json Extern Samples Net S3Store Auth Authz EntityChain PublishDecision Moderation PublishGate ModerationApi Secrets.

(** ** Parameters *)

(** [iroh::SecretKey]. *)
Class SigningKey {IR : Iroh} := {
  key_public : bytes -> EndpointId;
  key_sign : bytes -> bytes -> bytes
}.
Arguments SigningKey IR : clear implicits.

(** Ed25519: a signature is 64 bytes and verifies under the public key; an
    endpoint's name reads back. *)
Class SigningLaws {IR : Iroh} {SK : SigningKey IR} := {
  sign_len k m : len (key_sign k m) = 64%Z;
  sign_verifies k m : endpoint_verify (key_public k) m (key_sign k m) = true;
  endpoint_reads_back (e : EndpointId) : endpoint_from_str (trim (endpoint_to_string e)) = Some e
}.
Arguments SigningLaws IR SK : clear implicits.

(** opentdf's policy builder and encryption. *)
Class TdfBuilder := {
  tdf_policy : Type;
  (** The policy for an attribute, or for none. *)
  build_policy : option string -> result string tdf_policy;
  (** [Tdf::encrypt(data).kas_url(url).policy(policy).to_bytes()] *)
  tdf_encrypt : bytes -> string -> tdf_policy -> result string bytes
}.

(** What the other side of an iroh connection answers. *)
Record Remote := {
  rm_online : result string unit;
  rm_connect : result string unit;
  rm_push : bytes -> result string unit;
  rm_fetch : bytes -> result string bytes
}.

(** The files of the machine. *)
Definition Files : Type := gmap string bytes.
(** [MemStore]: blobs by hash. *)
Definition MemStore : Type := gmap bytes bytes.

(** ** Addresses *)

Record ClientAddr {IR : Iroh} := { ca_id : EndpointId; ca_addrs : list SocketAddr }.

Section Client.
Context {SJ : Serde} {HX : Hex} {B3 : Blake3} {IR : Iroh} {SK : SigningKey IR} {TB : TdfBuilder}.

Definition parse_endpoint_id (s : string) : result string EndpointId :=
  ok_or (endpoint_from_str s) "Invalid endpoint ID".

Definition build_endpoint_addr (node_id : EndpointId) (addr : option SocketAddr) : ClientAddr :=
  {| ca_id := node_id; ca_addrs := match addr with Some a => [a] | None => [] end |}.

Definition parse_addr (node : string) (addr : option string) : result string ClientAddr :=
  node_id ← parse_endpoint_id node;
  match addr with
  | None => Ok (build_endpoint_addr node_id None)
  | Some a =>
      socket_addr ← ok_or (socket_addr_parse a) "invalid socket address syntax";
      Ok (build_endpoint_addr node_id (Some socket_addr))
  end.

(** ** [IrohTestClient] *)

Section Iroh.
Context (remote : Remote).

Definition connect : result string unit :=
  map_err (fun e => "Failed to connect to remote node: " +:+ e) (rm_connect remote).

Definition add_bytes (data : bytes) : comp MemStore string bytes := fun store =>
  let hash := blake3_hash data in (Ok hash, <[hash := data]> store).

Definition push_to_node (data : bytes) : comp MemStore string bytes :=
  hash ← add_bytes data;
  _ ← lift connect;
  _ ← lift (map_err (fun e => "Failed to push blob to remote node: " +:+ e) (rm_push remote hash));
  mret hash.

(** The push is given up part-way; how it went is not looked at. *)
Definition push_to_node_abandoned (data : bytes) : comp MemStore string bytes :=
  hash ← add_bytes data; _ ← lift connect; mret hash.

Fixpoint add_all (children : list bytes) : comp MemStore string (list bytes) :=
  match children with
  | [] => mret []
  | c :: children => h ← add_bytes c; hs ← add_all children; mret (h :: hs)
  end.

(** A hash sequence is the hashes one after the other. *)
Definition push_hash_seq_to_node (children : list bytes) : comp MemStore string bytes :=
  hashes ← add_all children;
  root ← add_bytes (String.concat "" hashes);
  _ ← lift connect;
  _ ← lift (map_err (fun e => "Failed to push hash sequence to remote node: " +:+ e) (rm_push remote root));
  mret root.

Definition get_bytes (hash : bytes) : comp MemStore string bytes := fun store =>
  (ok_or (store !! hash) "Failed to read fetched blob from local store", store).

(** A blob that is complete in the store is not fetched again. *)
Definition remote_fetch (hash : bytes) : comp MemStore string unit := fun store =>
  match store !! hash with
  | Some _ => (Ok tt, store)
  | None =>
      match rm_fetch remote hash with
      | Ok data => (Ok tt, <[hash := data]> store)
      | Err e => (Err ("Failed to fetch blob from remote node: " +:+ e), store)
      end
  end.

Definition fetch_from_node (hash : bytes) : comp MemStore string bytes :=
  _ ← lift connect; _ ← remote_fetch hash; get_bytes hash.

(** [with_secret_key]: the client of one command starts with an empty store. *)
Definition new_client {A} (m : comp MemStore string A) : result string A :=
  _ ← map_err (fun e => "Failed to create Iroh client: " +:+ e) (rm_online remote);
  (m ∅).1.
End Iroh.

(** ** [publish.rs] *)

Definition read_token (path : string) (fs : Files) : result string string :=
  text ← ok_or (fs !! path) ("Failed to read token file " +:+ path);
  let token := trim text in
  _ ← ensure (negb (is_empty token)) (path +:+ " is empty");
  Ok token.

Definition url (base path : string) : string := trim_end_matches "/" base +:+ path.

Inductive SessionOutcome := Opened (body : json) | Ungated.

Record SessionPost := { sp_url : string; sp_headers : HeaderMap; sp_json : json }.

(** The request [open_session] sends. *)
Definition session_post (base_url token : string) (secret_key : bytes) (timestamp : Z) : SessionPost :=
  let endpoint := key_public secret_key in
  let signature := key_sign secret_key (session_message endpoint token timestamp) in
  {| sp_url := url base_url "/publish/sessions";
     sp_headers := [("authorization", "Bearer " +:+ token)];
     sp_json := JObject [("endpointId", JString (endpoint_to_string endpoint));
                         ("timestamp", JInt timestamp);
                         ("signature", JString (hex_encode signature))] |}.

(** What it makes of the answer. *)
Definition open_session (answer : SessionPost -> http_answer) (base_url token : string) (secret_key : bytes)
    (timestamp : Z) : result string SessionOutcome :=
  match answer (session_post base_url token secret_key timestamp) with
  | NoAnswer _ => Err "POST /publish/sessions failed"
  | Answer status text =>
      let body := match text with Ok b => b | Err _ => "" end in
      if (status =? 201)%Z then
        j ← map_err (fun _ => "Unreadable session response") (serde_parse body);
        Ok (Opened (to_value j))
      else if (status =? 404)%Z then Ok Ungated
      else Err ("POST /publish/sessions answered " +:+ pretty status +:+ ": " +:+ body)
  end.

(** [body["size"].as_u64().unwrap_or_default()] *)
Definition reported_size (body : json) : Z :=
  match json_get "size" body with Some (JInt n) => if in_u64 n then n else 0%Z | _ => 0%Z end.

Section Wait.
(** The answer to the [i]-th poll and the clock after it. *)
Context (polled : nat -> http_answer) (clock : nat -> Z).
Context (hash_hex : string) (expected_size : Z).

Definition check_reported (text : result string bytes) : result string unit :=
  b ← map_err (fun _ => "Unreadable /blobs") text;
  j ← map_err (fun _ => "Unreadable /blobs") (serde_parse b);
  ensure (reported_size (to_value j) =? expected_size)%Z "node reports another size".

(** The loop: [None] when it is still polling after [fuel] polls. *)
Fixpoint wait_from (fuel i : nat) (deadline : Z) : option (result string unit) :=
  match fuel with
  | O => None
  | S fuel =>
      match polled i with
      | NoAnswer _ => Some (Err "GET /blobs failed")
      | Answer status text =>
          if (status =? 200)%Z then Some (check_reported text)
          else if (status =? 404)%Z then
            if (clock i <? deadline)%Z then wait_from fuel (S i) deadline
            else Some (Err (hash_hex +:+ " not ingested: the node refused it"))
          else Some (Err ("GET /blobs/" +:+ hash_hex +:+ " answered " +:+ pretty status))
      end
  end.

Definition wait_for_ingest (fuel : nat) (now timeout : Z) : option (result string unit) :=
  wait_from fuel 0 (now + timeout).
End Wait.

(** One publish's view of the world: how the session post is answered and when
    it is made, the node as each endpoint meets it, the polls and their clock. *)
Record PublishWorld := {
  pw_answer : SessionPost -> http_answer;
  pw_timestamp : Z;
  pw_remote : EndpointId -> Remote;
  pw_polled : nat -> http_answer;
  pw_clock : nat -> Z;
  pw_start : Z
}.

(** [publish_file]: the hash, once the node has confirmed it. *)
Definition publish_file (w : PublishWorld) (fuel : nat) (base_url token file_path : string) (secret_key : bytes)
    (timeout : Z) (fs : Files) : option (result string string) :=
  match fs !! file_path with
  | None => Some (Err ("Failed to read file: " +:+ file_path))
  | Some data =>
      let hash := hex_encode (blake3_hash data) in
      match open_session (pw_answer w) base_url token secret_key (pw_timestamp w) with
      | Err e => Some (Err e)
      | Ok _ =>
          let remote := pw_remote w (key_public secret_key) in
          match new_client remote (push_to_node remote data) with
          | Err e => Some (Err ("Push failed: " +:+ e))
          | Ok pushed =>
              if bool_decide (hex_encode pushed = hash) then
                match wait_for_ingest (pw_polled w) (pw_clock w) hash (len data) fuel (pw_start w) timeout with
                | None => None
                | Some (Err e) => Some (Err e)
                | Some (Ok _) => Some (Ok hash)
                end
              else Some (Err "pushed hash differs")
          end
      end
  end.

(** ** [fetch.rs], [create_tdf.rs], [push.rs], [push_raw.rs] *)

(** [std::fs::write]: refused, or the file's new contents. *)
Definition write_file (refused : bool) (path : string) (data : bytes) : comp Files string unit := fun fs =>
  if refused then (Err ("Failed to write to " +:+ path), fs) else (Ok tt, <[path := data]> fs).

(** [hash_from_str] is iroh-blobs' reading of a hash. *)
Definition fetch_blob (hash_from_str : string -> option bytes) (remote : Remote) (refused : bool)
    (hash_hex : string) (output_path : option string) : comp Files string unit :=
  hash ← lift (ok_or (hash_from_str hash_hex) "Invalid BLAKE3 hash hex string");
  data ← lift (map_err (fun e => "Failed to fetch blob: " +:+ e) (new_client remote (fetch_from_node remote hash)));
  _ ← lift (ensure (bool_decide (blake3_hash data = hash)) ("Hash mismatch! Expected " +:+ hash_hex));
  match output_path with
  | Some path => write_file refused path data
  | None => mret tt
  end.

Definition create_tdf_bytes (attribute_fqn : string) (data : bytes) : result string bytes :=
  policy ← build_policy (if is_empty attribute_fqn then None else Some attribute_fqn);
  map_err (fun e => "Failed to create TDF: " +:+ e) (tdf_encrypt data "https://kas.example.com" policy).

Definition create_tdf_file (refused : bool) (attribute_fqn : string) (data : bytes) (output_path : string) :
    comp Files string unit :=
  tdf_bytes ← lift (create_tdf_bytes attribute_fqn data);
  write_file refused output_path tdf_bytes.

Definition push_tdf (remote : Remote) (attribute_fqn : string) (data : bytes) : result string unit :=
  tdf_bytes ← map_err (fun e => "Failed to create TDF: " +:+ e) (create_tdf_bytes attribute_fqn data);
  _ ← map_err (fun e => "Failed to push TDF to node: " +:+ e) (new_client remote (push_to_node remote tdf_bytes));
  Ok tt.

(** A refused push is reported and the command succeeds. *)
Definition push_raw_file (remote : Remote) (file_path : string) (fs : Files) : result string unit :=
  data ← ok_or (fs !! file_path) ("Failed to read file: " +:+ file_path);
  _ ← new_client remote (fun store =>
        let '(r, store') := push_to_node remote data store in (Ok (is_ok r), store'));
  Ok tt.

(** ** [bin/test_cli.rs] *)

Inductive Commands :=
| CreateTdf (attribute data output : string)
| PushRaw (node : string) (addr : option string) (data : string) (secret_key_file : option string)
| PublishSession (base token_file secret_key_file : string)
| Publish (node : string) (addr : option string) (base token_file data : string)
    (secret_key_file : option string) (timeout_secs : Z)
| Push (node : string) (addr : option string) (attribute data : string)
| Fetch (node : string) (addr : option string) (hash : string) (output : option string).

(** What a command meets: faults of its key file, the key [generate] makes,
    the key of an endpoint without one, whether writing its output is
    refused, iroh-blobs' reading of a hash, and the rest. *)
Record CommandWorld := {
  cw_files : FileFaults;
  cw_generated : bytes;
  cw_anonymous : bytes;
  cw_refused : bool;
  cw_hash_from_str : string -> option bytes;
  cw_publish : PublishWorld;
  cw_fuel : nat
}.

(** [secret_key_file.map(load_or_create_secret_key).transpose()?] *)
Definition key_or (w : CommandWorld) (default : bytes) (path : option string) : comp Files string bytes :=
  match path with
  | Some path => load_or_create_secret_key (cw_files w) (cw_generated w) path
  | None => mret default
  end.

Definition load_token (path : string) : comp Files string string := fun fs => (read_token path fs, fs).

(** One command; [None] while it waits for ingest. *)
Definition run (w : CommandWorld) (c : Commands) : Files -> option (result string unit) * Files := fun fs =>
  let done (rs : result string unit * Files) := (Some rs.1, rs.2) in
  match c with
  | CreateTdf attribute data output => done (create_tdf_file (cw_refused w) attribute data output fs)
  | PushRaw node addr data secret_key_file =>
      done ((_ ← lift (parse_addr node addr);
             key ← key_or w (cw_anonymous w) secret_key_file;
             fs ← get;
             lift (push_raw_file (pw_remote (cw_publish w) (key_public key)) data fs)) fs)
  | PublishSession base token_file secret_key_file =>
      done ((token ← load_token token_file;
             key ← load_or_create_secret_key (cw_files w) (cw_generated w) secret_key_file;
             _ ← lift (open_session (pw_answer (cw_publish w)) base token key (pw_timestamp (cw_publish w)));
             mret tt) fs)
  | Publish node addr base token_file data secret_key_file timeout_secs =>
      match (_ ← lift (parse_addr node addr);
             token ← load_token token_file;
             key ← key_or w (cw_anonymous w) secret_key_file;
             mret (token, key)) fs with
      | (Err e, fs) => (Some (Err e), fs)
      | (Ok (token, key), fs) =>
          (match publish_file (cw_publish w) (cw_fuel w) base token data key (secs timeout_secs) fs with
           | Some (Ok _) => Some (Ok tt)
           | Some (Err e) => Some (Err e)
           | None => None
           end, fs)
      end
  | Push node addr attribute data =>
      done ((_ ← lift (parse_addr node addr);
             lift (push_tdf (pw_remote (cw_publish w) (key_public (cw_anonymous w))) attribute data)) fs)
  | Fetch node addr hash output =>
      done ((_ ← lift (parse_addr node addr);
             fetch_blob (cw_hash_from_str w) (pw_remote (cw_publish w) (key_public (cw_anonymous w)))
               (cw_refused w) hash output) fs)
  end.
End Client.

(** ** Facts *)

Section WaitFacts.
Context {SJ : Serde} (polled : nat -> http_answer) (clock : nat -> Z) (hash_hex : string) (expected_size : Z).

Abbreviation from := (wait_from polled clock hash_hex expected_size).

Lemma wait_from_ok fuel i deadline :
  from fuel i deadline = Some (Ok tt) ->
  exists k text, (i <= k)%nat /\ polled k = Answer 200 text /\ check_reported expected_size text = Ok tt
    /\ forall j, (i <= j < k)%nat -> (exists text, polled j = Answer 404 text) /\ (clock j < deadline)%Z.
Proof.
  revert i; induction fuel as [|fuel IH]; intros i H; cbn in H; [done|].
  destruct (polled i) as [|status text] eqn:Ep; [done|].
  destruct (Z.eqb_spec status 200) as [->|_].
  { exists i, text. split; [lia|]. split; [done|]. split; [by injection H|]. intros j Hj. lia. }
  destruct (Z.eqb_spec status 404) as [->|_]; [|done]. destruct (Z.ltb_spec (clock i) deadline); [|done].
  apply IH in H as (k & text' & Hk & Hp & Hc & Hj). exists k, text'. split; [lia|]. split_and!; [done..|].
  intros j Hij. destruct (decide (j = i)) as [->|]; [eauto|]. apply Hj. lia.
Qed.

(** Enough polls for the time left are enough to end. *)
Lemma wait_from_total step deadline fuel i :
  (0 < step)%Z -> (forall k, (clock k + step <= clock (S k))%Z) ->
  (deadline <= clock i + (Z.of_nat fuel - 1) * step)%Z -> (0 < fuel)%nat -> is_Some (from fuel i deadline).
Proof.
  intros Hs Hc. revert i; induction fuel as [|fuel IH]; intros i Hd Hf; [lia|]. cbn.
  destruct (polled i) as [|status text]; [by eexists|]. destruct (status =? 200)%Z; [by eexists|].
  destruct (status =? 404)%Z; [|by eexists]. destruct (Z.ltb_spec (clock i) deadline); [|by eexists].
  specialize (Hc i). destruct fuel; [lia|]. apply IH; lia.
Qed.
End WaitFacts.

(** Waiting for ingest ends, and with the right answer. With polls at
    least [step] apart it is over after at most [timeout / step + 2] polls,
    whatever the node answers; it succeeds only when the node reported the
    blob with exactly the size that was pushed, after nothing but 404s before
    the deadline. *)
Theorem wait_for_ingest_exact {SJ : Serde} polled clock hash_hex expected_size now timeout step fuel :
  (0 < step)%Z -> (0 <= timeout)%Z -> (now <= clock 0%nat)%Z -> (forall k, (clock k + step <= clock (S k))%Z) ->
  (Z.to_nat (timeout / step) + 2 <= fuel)%nat ->
  exists r, wait_for_ingest polled clock hash_hex expected_size fuel now timeout = Some r
    /\ (r = Ok tt -> exists k text body,
          polled k = Answer 200 (Ok text) /\ serde_parse text = Ok body
          /\ reported_size (to_value body) = expected_size
          /\ forall j, (j < k)%nat -> (exists t, polled j = Answer 404 t) /\ (clock j < now + timeout)%Z).
Proof.
  intros Hs Ht Hn Hc Hf. unfold wait_for_ingest.
  destruct (wait_from_total polled clock hash_hex expected_size step (now + timeout) fuel 0) as [r Hr]; try done; [|lia|].
  { assert (timeout < (timeout / step + 1) * step)%Z by dlia.
    assert (timeout / step + 2 <= Z.of_nat fuel)%Z by dlia. nia. }
  exists r. split; [done|]. intros ->. apply wait_from_ok in Hr as (k & text & _ & Hp & Hk & Hj).
  unfold check_reported in Hk. inv_run. apply Z.eqb_eq in Hk.
  do 3 eexists. split; [done|]. split; [done|]. split; [done|]. intros j Hjk. apply Hj. lia.
Qed.

(** A fetched file holds what was asked for: nothing is written unless its
    hash is the one given, and only to the path given. *)
Theorem fetch_blob_verified {B3 : Blake3} hash_from_str remote refused hash_hex output fs r fs' :
  fetch_blob hash_from_str remote refused hash_hex output fs = (r, fs') ->
  fs' = fs \/ exists path data, output = Some path /\ hash_from_str hash_hex = Some (blake3_hash data)
    /\ fs' = <[path := data]> fs /\ r = Ok tt.
Proof.
  unfold fetch_blob. intros H.
  apply comp_bind_state in H as [(hash & s1 & [Hh%ok_or_ok ->]%lift_ok & H)|(e & H & _)]; [|left; by injection H].
  apply comp_bind_state in H as [(data & s1 & [_ ->]%lift_ok & H)|(e & H & _)]; [|left; by injection H].
  apply comp_bind_state in H as [([] & s1 & [He%ensure_ok ->]%lift_ok & H)|(e & H & _)]; [|left; by injection H].
  apply bool_decide_eq_true in He as <-.
  destruct output as [path|]; [|left; by injection H]. unfold write_file in H.
  destruct refused; injection H as <- <-; [by left|right; eauto 10].
Qed.

(** ** The client and the node *)

Section Session.
Context {B64 : Base64} {CB : Ciborium} {CO : Coset} {EC : P256} {HC : HttpCrate}.
Context {SJ : Serde} {HX : Hex} {B3 : Blake3} {SF : SealedFormat} {IR : Iroh} {SK : SigningKey IR}.
Context {HL : HexLaws HX} {SL : SigningLaws IR SK}.
Context {St Sp : Type} {MS : ModerationStore St} {P : DecisionProvider Sp}.

Lemma post_bearer base token key timestamp :
  trim token = token -> token <> "" -> header_to_str ("Bearer " +:+ token) = Some ("Bearer " +:+ token) ->
  bearer (sp_headers (session_post base token key timestamp)) = Some token.
Proof.
  intros Ht Hn Hh. unfold bearer. cbn [sp_headers session_post get_all omap list_omap fst snd].
  rewrite bool_decide_true by done. cbn [head mbind option_bind]. rewrite Hh. cbn [mbind option_bind].
  rewrite strip_prefix_app. cbn [mbind option_bind]. rewrite Ht. by destruct token.
Qed.

Lemma post_body base token key timestamp :
  in_i64 timestamp = true ->
  de_session_request (sp_json (session_post base token key timestamp)) =
  Ok {| rq_endpoint_id := endpoint_to_string (key_public key); rq_timestamp := timestamp;
        rq_signature := hex_encode (key_sign key (session_message (key_public key) token timestamp)) |}.
Proof.
  intros Hi. unfold de_session_request. cbn [sp_json session_post]. read_struct. unfold de_i64. rewrite Hi. reflexivity.
Qed.

Lemma post_possession token key timestamp now :
  (0 <= now <= 2 ^ 62)%Z -> in_i64 timestamp = true -> (Z.abs (now - timestamp) <= 300)%Z ->
  verify_possession (key_public key) token timestamp
    (hex_encode (key_sign key (session_message (key_public key) token timestamp))) now = Ok tt.
Proof.
  intros Hn Hi Ha. unfold verify_possession. pose proof (skew_check now timestamp Hn Hi) as Hs.
  destruct (SESSION_SKEW_SECS <? _)%Z; [discriminate (proj2 Hs (or_introl Ha))|].
  rewrite (trim_hex _ (hex_lower _)), hex_read_back, sign_len. cbn. by rewrite sign_verifies.
Qed.

(** The client's session request is one the node accepts. If the token is
    a publisher's by the node's policy, and the clocks are at most 300 seconds
    apart, then the request the client makes (its body as the node reads it,
    its signature over the bytes the node checks) opens a session: the node
    answers for the key's own endpoint and the token's subject, and the gate
    holds a session for that endpoint, the one the client then pushes from. *)
Theorem client_session_accepted http_get verifier policy t (a : Api St Sp) base token key timestamp claims chain ps' :
  let post := session_post base token key timestamp in
  trim token = token -> token <> "" -> header_to_str ("Bearer " +:+ token) = Some ("Bearer " +:+ token) ->
  publisher_with_chain http_get policy verifier (view a) (sp_headers post) t (api_keys a, api_provider a)
    = (Ok (claims, chain), ps') ->
  (0 <= now_secs t 2 <= 2 ^ 62)%Z -> (Z.abs (now_secs t 2 - timestamp) <= 300)%Z ->
  exists body a' expires_at,
    de_session_request (sp_json post) = Ok body
    /\ ModerationApi.open_session http_get verifier policy (sp_headers post) body t a
       = (Ok (key_public key, canonical_subject (sub claims), expires_at), a')
    /\ s_subject <$> sessions (api_gate a') !! key_public key = Some (canonical_subject (sub claims)).
Proof.
  cbn zeta. intros Ht Hn Hh Hp Hnow Hskew.
  assert (in_i64 timestamp = true) as Hi by (unfold in_i64, i64_min, i64_max; lia).
  pose proof (post_body base token key timestamp Hi) as Hbody.
  match type of Hbody with _ = Ok ?b => exists b end. rewrite Hbody. clear Hbody. unfold ModerationApi.open_session.
  set (headers := sp_headers _) in *.
  assert (bearer headers = Some token) as Hb by (by apply post_bearer).
  unfold mbind, comp_bind, get, zoom. rewrite Hp. cbn beta iota.
  unfold lift. cbn [rq_endpoint_id rq_timestamp rq_signature]. rewrite endpoint_reads_back, Hb. cbn [ok_or default from_option id].
  rewrite (post_possession token key timestamp _ Hnow Hi Hskew). cbn beta iota.
  destruct (seal _ _) as [body|].
  - unfold attempt, on_store, zoom. destruct (put_record _ _ _ _) as [r0 s0]. cbn beta iota.
    do 2 eexists. split; [done|]. split; [reflexivity|]. cbn. by rewrite lookup_insert_eq.
  - do 2 eexists. split; [done|]. split; [reflexivity|]. cbn. by rewrite lookup_insert_eq.
Qed.
End Session.

Module ClientSample.
#[local] Existing Instance bit_serde.
#[local] Existing Instance plain_hex.
#[local] Existing Instance plain_base64.
#[local] Existing Instance named_p256.
#[local] Existing Instance toy_blake3.
#[local] Existing Instance S3Sample.healthy.
#[local] Existing Instance GateSample.sealed.
#[local] Existing Instance ApiSample.headers_plain.
#[local] Existing Instance ApiSample.cbor_table.
#[local] Existing Instance ApiSample.cose_table.
#[local] Existing Instance ApiSample.no_provider.
#[local] Existing Instance SecretsSample.plain_hex_laws.

(** An endpoint is its key, named in hex; a signature names its key. *)
Definition signature_of (k : bytes) : bytes :=
  String.substring 0 64 (String.append k (repeat_char 64 "s")).
#[local] Instance iroh : Iroh :=
  {| EndpointId := string; endpoint_to_string := encode_hex; endpoint_from_str := decode_hex;
     endpoint_verify := fun e m s => bool_decide (s = signature_of e) |}.
#[local] Instance keys : SigningKey iroh := {| key_public := fun k => k : EndpointId; key_sign := fun k _ => signature_of k |}.

Lemma substring_0_length n s : (n <= String.length s)%nat -> String.length (String.substring 0 n s) = n.
Proof. revert s; induction n as [|n IH]; intros [|c s]; cbn; try done; try lia. intros H. f_equal. apply IH. lia. Qed.

#[local] Instance signing : SigningLaws iroh keys.
Proof.
  split.
  - intros k m. unfold len. cbn [key_sign keys]. unfold signature_of. rewrite substring_0_length; [done|].
    rewrite app_length_string. cbn. lia.
  - intros k m. by apply bool_decide_eq_true.
  - intros e. cbn [endpoint_from_str endpoint_to_string iroh]. rewrite (trim_hex (encode_hex e)); [apply decode_encode_hex|].
    exact (hex_lower (HexLaws := SecretsSample.plain_hex_laws) e).
Qed.

Definition token : string := CWT_TAG_PREFIX +:+ "person-token".
Definition node : Api Bucket unit :=
  {| api_keys := AuthSample.cache; api_gate := gate_new moderation_default;
     api_store := {| objects := ∅; s3_log := [] |}; api_provider := tt |}.

Lemma client_session_accepted_witness :
  exists body a' expires_at,
    de_session_request (sp_json (session_post "http://node/" token SecretsSample.key 1400)) = Ok body
    /\ ModerationApi.open_session (MS := s3_moderation_store "") ApiSample.offline AuthSample.verifier ApiSample.policy
         (sp_headers (session_post "http://node/" token SecretsSample.key 1400)) body ApiSample.clocks node
       = (Ok (key_public SecretsSample.key, "alice", expires_at), a').
Proof.
  destruct (publisher_with_chain ApiSample.offline ApiSample.policy AuthSample.verifier (view node)
    (sp_headers (session_post "http://node/" token SecretsSample.key 1400)) ApiSample.clocks
    (api_keys node, api_provider node)) as [[[claims chain]|e] ps'] eqn:E; [|vm_compute in E; discriminate E].
  destruct (client_session_accepted (MS := s3_moderation_store "") ApiSample.offline AuthSample.verifier ApiSample.policy
    ApiSample.clocks node "http://node/" token SecretsSample.key 1400 claims chain ps') as (body & a' & x & Hb & Ho & _);
    [vm_compute; reflexivity|discriminate|reflexivity|exact E|cbn; lia|cbn; lia|].
  assert (canonical_subject (sub claims) = "alice") as Hc by (vm_compute in E; by injection E as <- <- <-).
  rewrite Hc in Ho. exists body, a', x. by split.
Defined.

(** The node reports the blob at the third poll. *)
Definition blobs : bytes := serde_print (JObject [("hash", JString "h"); ("size", JInt 7)]).
Definition polled (i : nat) : http_answer :=
  if bool_decide (i < 2)%nat then Answer 404 (Ok "") else Answer 200 (Ok blobs).
Definition clock (i : nat) : Z := Z.of_nat i * 500.

Lemma wait_for_ingest_exact_witness :
  exists r, wait_for_ingest polled clock "h" 7 12 0 5000 = Some r /\ r = Ok tt.
Proof.
  destruct (wait_for_ingest_exact polled clock "h" 7 0 5000 500 12) as (r & Hr & _);
    [lia|lia|reflexivity|unfold clock; lia|reflexivity|].
  exists r. split; [exact Hr|]. vm_compute in Hr. by injection Hr.
Defined.

Example wrong_size :
  wait_for_ingest polled clock "h" 8 12 0 5000 = Some (Err "node reports another size").
Proof. vm_compute. reflexivity. Qed.
End ClientSample.
