(* ===== verification/PushTasks.v ===== *)
(** * Push tasks side by side (src/node.rs, src/ingest.rs)

    Every accepted push runs in a task of its own. The tasks share the gate,
    the staging, the ingest permits, the scratch directory and the bucket, and
    give way to each other at every [await]. Here a task moves one such step
    at a time, and steps of any number of tasks, of the scratch-file removals
    they spawn, of the collector and of everything else that writes the
    bucket interleave in any order. [Node.push_task] is a task that runs
    alone. *)

From S2P Require Import Prelude Bytes Identifiers Json Extern Samples S3Store Auth Authz EntityChain PublishDecision Moderation PublishGate Validation Ingest S3Reader S3Serve Staging Node.

(** ** Names of scratch files *)

Lemma pretty_N_go_digits x s :
  all_bytes is_ascii_digit s = true -> all_bytes is_ascii_digit (pretty_N_go x s) = true.
Proof.
  revert s. induction (N.lt_wf_0 x) as [x _ IH]; intros s Hs.
  destruct (decide (x = 0)%N) as [->|Hx]; [by rewrite pretty_N_go_0|].
  rewrite pretty_N_go_step by lia. apply IH; [apply N.div_lt; lia|]. cbn. rewrite Hs.
  unfold pretty_N_char. by repeat case_match.
Qed.

Lemma pretty_N_digits (n : N) : all_bytes is_ascii_digit (pretty n) = true.
Proof. unfold pretty, pretty_N. destruct (decide _); [done|by apply pretty_N_go_digits]. Qed.

(** The part of a name after its last dot. *)
Lemma last_dot_inj (a b p q : string) :
  all_bytes (fun c => negb (bool_decide (c = "."%char))) p = true ->
  all_bytes (fun c => negb (bool_decide (c = "."%char))) q = true ->
  a +:+ String "." p = b +:+ String "." q -> a = b /\ p = q.
Proof.
  intros Hp Hq. revert b; induction a as [|c a IH]; intros [|d b] E; cbn in E.
  - by injection E as ->.
  - injection E as <- ->. rewrite all_bytes_app in Hp. cbn in Hp. by rewrite andb_false_r in Hp.
  - injection E as -> <-. rewrite all_bytes_app in Hq. cbn in Hq. by rewrite andb_false_r in Hq.
  - injection E as <- E. by destruct (IH b E) as [-> ->].
Qed.

Lemma digits_no_dot s :
  all_bytes is_ascii_digit s = true -> all_bytes (fun c => negb (bool_decide (c = "."%char))) s = true.
Proof. apply all_bytes_mono. intros c Hc. case_bool_decide; [by subst|done]. Qed.

(** Two scratch files with different numbers have different names. *)
Lemma scratch_path_inj dir h1 h2 n1 n2 : scratch_path dir h1 n1 = scratch_path dir h2 n2 -> n1 = n2.
Proof.
  unfold scratch_path. intros E. apply (inj (String.append dir)), (inj (String.append "/")) in E.
  assert (forall (h : string) (n : N), h +:+ "." +:+ pretty n +:+ ".tdf" = (h +:+ String "." (pretty n)) +:+ String "." "tdf") as Hd.
  { intros h n. by rewrite string_app_assoc. }
  rewrite !Hd in E. apply last_dot_inj in E as [E _]; [|done..].
  apply last_dot_inj in E as [_ E]; [by apply pretty_N_inj in E|apply digits_no_dot, pretty_N_digits..].
Qed.

(** ** A task *)

(** Where a push task waits. From [Permitted] to [Leaving] it holds an ingest
    permit; from [Transferring] to [Unstaging] its hash is pending. *)
Inductive stage {TC : TdfCrate} {IR : Iroh} :=
| Asking
| Transferring
| Looking (looks : nat)
| Queued
| Permitted
| Exporting (path : string)
| Validating (path : string) (size : Z)
| Hashing (path : string) (size : Z) (manifest : TdfManifest)
| PutOutboard (v : Validated) (retries : nat)
| HeadBlob (v : Validated) (retries : nat)
| PutBlob (v : Validated) (retries : nat)
| PutManifest (v : Validated)
| Leaving (ingested : bool)
| Unstaging (ingested : bool)
| Recording (subject : string) (endpoint : EndpointId)
| Ended (answer : push_answer) (ingested : bool).

Record PushTask {TC : TdfCrate} {IR : Iroh} := {
  pk_connection : Z;
  pk_hash : bytes;
  pk_owner : option (string * EndpointId);
  pk_stage : stage
}.

(** What the tasks share. [in_removals] are the scratch files dropped whose
    removal has not run, [in_left] those it could not remove. *)
Record Ingester {IR : Iroh} := {
  in_node : NodeState;
  in_permits : nat;
  in_removals : list string;
  in_left : list string
}.

(** The answers one step gets: the node's world and the local store. *)
Record answers := { an_world : world; an_store : FsStore }.

Section Task.
Context {SJ : Serde} {HX : Hex} {B3 : Blake3} {SF : SealedFormat} {IR : Iroh}.
Context {TC : TdfCrate} {ZC : ZipCrate} {BC : BaoCrate} {S3 : S3Service}.
Context (read_file : string -> result string string) (prefix scratch_dir : string) (config : ValidationConfig).

Definition set_node (n : NodeState) (s : Ingester) : Ingester :=
  {| in_node := n; in_permits := in_permits s; in_removals := in_removals s; in_left := in_left s |}.
Definition set_permits (p : nat) (s : Ingester) : Ingester :=
  {| in_node := in_node s; in_permits := p; in_removals := in_removals s; in_left := in_left s |}.
Definition set_store (g : IngestState) (s : Ingester) : Ingester := set_node (set_ingest g (in_node s)) s.

Definition at_stage (x : stage) (t : PushTask) : PushTask :=
  {| pk_connection := pk_connection t; pk_hash := pk_hash t; pk_owner := pk_owner t; pk_stage := x |}.
Definition owned_by (o : option (string * EndpointId)) (t : PushTask) : PushTask :=
  {| pk_connection := pk_connection t; pk_hash := pk_hash t; pk_owner := o; pk_stage := pk_stage t |}.

(** [Drop for ScratchFile]: the removal is spawned. *)
Definition spawn_removal (path : string) (s : Ingester) : Ingester :=
  {| in_node := in_node s; in_permits := in_permits s; in_removals := path :: in_removals s; in_left := in_left s |}.

(** A failed upload is tried again from the start, or given up. *)
Definition upload_failed (v : Validated) (retries : nat) (t : PushTask) (s : Ingester) : PushTask * Ingester :=
  match retries with
  | S retries => (at_stage (PutOutboard v retries) t, s)
  | O => (at_stage (Leaving false) t, spawn_removal (vd_path v) s)
  end.

(** The next step of a task; [None] when it has ended or waits for a permit. *)
Definition task_step (a : answers) (t : PushTask) (s : Ingester) : option (PushTask * Ingester) :=
  let w := an_world a in
  let FS := an_store a in
  let hash := pk_hash t in
  let hex := hex_encode hash in
  let g := nd_ingest (in_node s) in
  match pk_stage t with
  | Asking => Some
      match admit_push w (pk_connection t) hash true (in_node s) with
      | (None, n) => (at_stage (Ended PushPermission false) t, set_node n s)
      | (Some owner, n) =>
          (at_stage Transferring (owned_by owner t), set_node (set_staging (track hash (nd_staging n)) n) s)
      end
  | Transferring => Some
      match await_transfer (w_events w) with
      | TooLarge => (at_stage (Unstaging false) t, s)
      | TransferEnded _ _ => (at_stage (Looking 0) t, s)
      end
  | Looking looks => Some
      (if (looks <? OBSERVE_ATTEMPTS)%nat then
         match w_observed w looks with
         | Ok true => (at_stage Queued t, s)
         | Ok false => (at_stage (Looking (S looks)) t, s)
         | Err _ => (at_stage (Unstaging false) t, s)
         end
       else (at_stage (Unstaging false) t, s))
  | Queued =>
      match in_permits s with
      | O => None
      | S permits => Some (at_stage Permitted t, set_permits permits s)
      end
  | Permitted => Some
      match fs_observe hash with
      | None => (at_stage (Leaving false) t, s)
      | Some (size, complete) =>
          match check_blob_size size config with
          | Err _ => (at_stage (Leaving false) t, s)
          | Ok _ =>
              if negb complete then (at_stage (Leaving false) t, s)
              else
                let path := scratch_path scratch_dir hex (sc_next (ig_scratch g)) in
                let s' := snd (scratch_new scratch_dir hex (ig_scratch g)) in
                (at_stage (Exporting path) t, set_store (set_scratch s' g) s)
          end
      end
  | Exporting path => Some
      match export_to hash path (ig_scratch g) with
      | (Ok size, sc) => (at_stage (Validating path size) t, set_store (set_scratch sc g) s)
      | (Err _, sc) => (at_stage (Leaving false) t, spawn_removal path (set_store (set_scratch sc g) s))
      end
  | Validating path size => Some
      match validate_file read_file config path size (sc_files (ig_scratch g)) with
      | Ok manifest => (at_stage (Hashing path size manifest) t, s)
      | Err _ => (at_stage (Leaving false) t, spawn_removal path s)
      end
  | Hashing path size manifest => Some
      match outboard_file path size hash (sc_files (ig_scratch g)) with
      | Ok outboard =>
          let v := {| vd_hash := hash; vd_size := size; vd_manifest := manifest; vd_outboard := outboard;
                      vd_path := path |} in
          (at_stage (PutOutboard v UPLOAD_RETRIES) t, s)
      | Err _ => (at_stage (Leaving false) t, spawn_removal path s)
      end
  | PutOutboard v retries => Some
      match put_outboard prefix (hex_encode (vd_hash v)) (vd_outboard v) (ig_bucket g) with
      | (Ok _, b) => (at_stage (HeadBlob v retries) t, set_store (set_bucket b g) s)
      | (Err _, b) => upload_failed v retries t (set_store (set_bucket b g) s)
      end
  | HeadBlob v retries => Some
      match blob_size prefix (hex_encode (vd_hash v)) (ig_bucket g) with
      | (Ok (Some _), b) => (at_stage (PutManifest v) t, set_store (set_bucket b g) s)
      | (Ok None, b) => (at_stage (PutBlob v retries) t, set_store (set_bucket b g) s)
      | (Err _, b) => upload_failed v retries t (set_store (set_bucket b g) s)
      end
  | PutBlob v retries => Some
      match put_blob_file prefix (hex_encode (vd_hash v)) (sc_files (ig_scratch g) !! vd_path v) (vd_size v)
              (ig_bucket g) with
      | (Ok _, b) => (at_stage (PutManifest v) t, set_store (set_bucket b g) s)
      | (Err _, b) => upload_failed v retries t (set_store (set_bucket b g) s)
      end
  | PutManifest v => Some
      (at_stage (Leaving true) t, spawn_removal (vd_path v) (set_store (snd (upload_manifest prefix v g)) s))
  | Leaving ingested => Some (at_stage (Unstaging ingested) t, set_permits (S (in_permits s)) s)
  | Unstaging ingested =>
      let s := set_node (set_staging (drop_push hash (nd_staging (in_node s))) (in_node s)) s in
      Some
        match ingested, pk_owner t with
        | true, Some (subject, endpoint) => (at_stage (Recording subject endpoint) t, s)
        | _, _ => (at_stage (Ended PushOk ingested) t, s)
        end
  | Recording subject endpoint => Some
      (at_stage (Ended PushOk true) t, set_store (record_owner prefix hash subject endpoint (w_at w) g) s)
  | Ended _ _ => None
  end.

(** A push that is accepted for asking. *)
Definition new_task (connection_id : Z) (hash : bytes) : PushTask :=
  {| pk_connection := connection_id; pk_hash := hash; pk_owner := None; pk_stage := Asking |}.

(** [remove_quietly] *)
Definition removed (path : string) (ok : bool) (s : Ingester) (rest : list string) : Ingester :=
  let g := nd_ingest (in_node s) in
  if ok then
    {| in_node := set_ingest (set_scratch (scratch_drop path (ig_scratch g)) g) (in_node s);
       in_permits := in_permits s; in_removals := rest; in_left := in_left s |}
  else {| in_node := in_node s; in_permits := in_permits s; in_removals := rest; in_left := path :: in_left s |}.

(** ** Side by side *)

Record Tasks := { tk_shared : Ingester; tk_tasks : list PushTask }.

Abbreviation bucket_of s := (ig_bucket (nd_ingest (in_node s))).
Abbreviation files_of s := (sc_files (ig_scratch (nd_ingest (in_node s)))).

(** [outboard] is that of bytes that hash to [hash]. *)
Definition right_outboard (hash outboard : bytes) : Prop :=
  exists content size, bao_create content size = Some (hash, outboard).

Abbreviation publisher_key hash := (family_key prefix (Records PUBLISHERS) (hex_encode hash)).

(** What others do to the bucket between two steps. The rest of the node (the
    HTTP API, moderation, the repair of outboards) writes neither blobs nor
    publisher records, and an outboard only as it should be
    ([HttpServer.writes_elsewhere], [EndToEnd.backfill_elsewhere]). Of other
    nodes that use the bucket it is an assumption: their pushes are not
    interleaved here, so a node is alone in storing blobs under its prefix. *)
Definition elsewhere (m m' : gmap string object) : Prop :=
  (forall hash, m' !! blob_key prefix (hex_encode hash) = m !! blob_key prefix (hex_encode hash))
  /\ (forall hash, m' !! publisher_key hash = m !! publisher_key hash)
  /\ (forall hash, m' !! outboard_key prefix (hex_encode hash) = m !! outboard_key prefix (hex_encode hash)
       \/ exists outboard, right_outboard hash outboard
          /\ m' !! outboard_key prefix (hex_encode hash) = Some (written outboard None)).

Definition set_others (b : Bucket) (s : Ingester) : Ingester :=
  set_store (set_bucket b (nd_ingest (in_node s))) s.

(** A step of the node: the loop spawns a push, a task moves, a removal runs,
    the bucket or the gate changes elsewhere, or the collector starts a run. *)
Inductive step : Tasks -> Tasks -> Prop :=
| StepPush s ts connection_id hash :
    step {| tk_shared := s; tk_tasks := ts |} {| tk_shared := s; tk_tasks := new_task connection_id hash :: ts |}
| StepTask a s l1 t l2 t' s' : task_step a t s = Some (t', s') ->
    step {| tk_shared := s; tk_tasks := l1 ++ t :: l2 |} {| tk_shared := s'; tk_tasks := l1 ++ t' :: l2 |}
| StepRemoved s ts l1 path l2 ok : in_removals s = l1 ++ path :: l2 ->
    step {| tk_shared := s; tk_tasks := ts |} {| tk_shared := removed path ok s (l1 ++ l2); tk_tasks := ts |}
| StepElsewhere s ts b : elsewhere (objects (bucket_of s)) (objects b) ->
    step {| tk_shared := s; tk_tasks := ts |} {| tk_shared := set_others b s; tk_tasks := ts |}
| StepGate s ts gate : (is_Some gate <-> is_Some (nd_gate (in_node s))) ->
    step {| tk_shared := s; tk_tasks := ts |} {| tk_shared := set_node (set_gate gate (in_node s)) s; tk_tasks := ts |}
| StepCollector s ts now :
    step {| tk_shared := s; tk_tasks := ts |}
      {| tk_shared := set_node (set_staging (protect_starts now (nd_staging (in_node s))) (in_node s)) s; tk_tasks := ts |}.

(** The node as it comes up: no push yet, all permits free, nothing pending
    and the scratch directory empty. *)
Definition starts (max : nat) (T : Tasks) : Prop :=
  tk_tasks T = [] /\ in_permits (tk_shared T) = max /\ in_removals (tk_shared T) = [] /\ in_left (tk_shared T) = []
  /\ staged (nd_staging (in_node (tk_shared T)), []) /\ files_of (tk_shared T) = ∅.

(** ** Facts: what a task holds *)

Definition holds_permit (t : PushTask) : bool :=
  match pk_stage t with
  | Permitted | Exporting _ | Validating _ _ | Hashing _ _ _ | PutOutboard _ _ | HeadBlob _ _ | PutBlob _ _
  | PutManifest _ | Leaving _ => true
  | _ => false
  end.

Definition path_of (t : PushTask) : option string :=
  match pk_stage t with
  | Exporting path | Validating path _ | Hashing path _ _ => Some path
  | PutOutboard v _ | HeadBlob v _ | PutBlob v _ | PutManifest v => Some (vd_path v)
  | _ => None
  end.

Definition in_flight (t : PushTask) : bool :=
  match pk_stage t with Asking | Recording _ _ | Ended _ _ => false | _ => true end.

(** How many more steps a task can take. *)
Definition steps_left (x : stage) : nat :=
  match x with
  | Asking => 31
  | Transferring => 30
  | Looking looks => 19 + (OBSERVE_ATTEMPTS - looks)
  | Queued => 18
  | Permitted => 17
  | Exporting _ => 16
  | Validating _ _ => 15
  | Hashing _ _ _ => 14
  | PutOutboard _ retries => 7 + 3 * retries
  | HeadBlob _ retries => 6 + 3 * retries
  | PutBlob _ retries => 5 + 3 * retries
  | PutManifest _ => 4
  | Leaving _ => 3
  | Unstaging _ => 2
  | Recording _ _ => 1
  | Ended _ _ => 0
  end.

(** Every step brings a task nearer to its end. *)
Lemma task_step_left a t s t' s' :
  task_step a t s = Some (t', s') -> (steps_left (pk_stage t') < steps_left (pk_stage t))%nat.
Proof.
  unfold task_step, upload_failed. intros H.
  destruct (pk_stage t) eqn:Et; repeat (case_match; simplify_eq); simplify_eq; cbn; try lia;
    repeat case_match; cbn; try lia.
  all: match goal with H : (_ <? _)%nat = true |- _ => apply Nat.ltb_lt in H end; unfold OBSERVE_ATTEMPTS in *; lia.
Qed.

(** Only a task that has ended, or waits for a permit, does not move. *)
Lemma task_step_progress a t s :
  task_step a t s = None -> (exists ans i, pk_stage t = Ended ans i) \/ pk_stage t = Queued /\ in_permits s = 0%nat.
Proof.
  unfold task_step. destruct (pk_stage t) eqn:Et; try done; [|by eauto].
  destruct (in_permits s); [by right|done].
Qed.

(** ** Facts: what a step does *)

(** The cases of a step of [t]. *)
Ltac step_cases H :=
  unfold task_step, upload_failed in H; cbv zeta in H;
  repeat (match type of H with context [match ?x with _ => _ end] => destruct x eqn:?; simplify_eq end); simplify_eq.

(** The stages in a goal. *)
Ltac show_stages :=
  unfold holds_permit, in_flight, path_of; cbn;
  repeat match goal with E : pk_stage _ = _ |- _ => rewrite E; revert E end; intros; cbn.

Abbreviation permit_of t := (if holds_permit t then 1 else 0)%nat.

Lemma task_step_hash a t s t' s' : task_step a t s = Some (t', s') -> pk_hash t' = pk_hash t /\ pk_connection t' = pk_connection t.
Proof. intros H. by step_cases H. Qed.

Lemma task_step_permits a t s t' s' :
  task_step a t s = Some (t', s') -> (in_permits s' + permit_of t' = in_permits s + permit_of t)%nat.
Proof. intros H. step_cases H; show_stages; lia. Qed.

(** Admission leaves everything but the gate. *)
Lemma admit_push_frame w c hash n r n' :
  admit_push w c hash true n = (r, n') ->
  nd_staging n' = nd_staging n /\ nd_ingest n' = nd_ingest n /\ (is_Some (nd_gate n') <-> is_Some (nd_gate n))
  /\ forall owner, r = Some owner -> accepted_for w c hash n owner.
Proof.
  unfold admit_push, accepted_for. cbn [negb]. destruct (nd_gate n) as [gate|] eqn:Eg.
  - destruct (authorize_push _ _ _ _ gate) as [[[subject endpoint]|] gate'] eqn:E; intros [= <- <-]; cbn;
      (split_and!; [done..|done|]); intros owner [= <-]. by exists subject, endpoint, gate'.
  - intros [= <- <-]. rewrite Eg. split_and!; try done. by intros owner [= <-].
Qed.

(** The guards of the pushes in flight. *)
Lemma task_step_staging a t s t' s' :
  task_step a t s = Some (t', s') ->
  in_flight t' = in_flight t /\ nd_staging (in_node s') = nd_staging (in_node s)
  \/ in_flight t = false /\ in_flight t' = true /\ nd_staging (in_node s') = track (pk_hash t) (nd_staging (in_node s))
  \/ in_flight t = true /\ in_flight t' = false
     /\ nd_staging (in_node s') = drop_push (pk_hash t) (nd_staging (in_node s)).
Proof.
  intros H. step_cases H; show_stages; auto;
    match goal with H : admit_push _ _ _ _ _ = _ |- _ => apply admit_push_frame in H as (-> & _) end; auto.
Qed.

Lemma upload_manifest_scratch v g : ig_scratch (upload_manifest prefix v g).2 = ig_scratch g.
Proof. destruct (upload_manifest prefix v g) as [r g'] eqn:E. by apply upload_manifest_effect in E as (_ & ? & _). Qed.

(** Scratch names: kept, newly given, or handed to a removal. *)
Lemma task_step_path a t s t' s' :
  task_step a t s = Some (t', s') ->
  in_left s' = in_left s
  /\ (path_of t' = path_of t /\ in_removals s' = in_removals s
        /\ sc_next (ig_scratch (nd_ingest (in_node s'))) = sc_next (ig_scratch (nd_ingest (in_node s)))
      \/ (let n := sc_next (ig_scratch (nd_ingest (in_node s))) in
          path_of t = None /\ path_of t' = Some (scratch_path scratch_dir (hex_encode (pk_hash t)) n)
          /\ in_removals s' = in_removals s /\ sc_next (ig_scratch (nd_ingest (in_node s'))) = (n + 1)%N)
      \/ (exists p, path_of t = Some p /\ path_of t' = None /\ in_removals s' = p :: in_removals s
          /\ sc_next (ig_scratch (nd_ingest (in_node s'))) = sc_next (ig_scratch (nd_ingest (in_node s))))).
Proof.
  intros H. step_cases H; show_stages;
    try match goal with H : admit_push _ _ _ _ _ = _ |- _ => apply admit_push_frame in H as (_ & -> & _) end;
    try match goal with H : export_to _ _ _ = _ |- _ => unfold export_to in H; repeat (case_match; simplify_eq) end;
    rewrite ?upload_manifest_scratch; (split; [done|]); cbn; eauto 8.
Qed.

(** A task writes no scratch file but its own. *)
Lemma task_step_files a t s t' s' :
  task_step a t s = Some (t', s') ->
  (forall q, path_of t <> Some q -> files_of s' !! q = files_of s !! q)
  /\ (forall q, is_Some (files_of s !! q) -> is_Some (files_of s' !! q)).
Proof.
  intros H. step_cases H; show_stages;
    try match goal with H : admit_push _ _ _ _ _ = _ |- _ => apply admit_push_frame in H as (_ & -> & _) end;
    rewrite ?upload_manifest_scratch; try done.
  all: match goal with H : export_to _ _ _ = _ |- _ => unfold export_to in H; repeat (case_match; simplify_eq); cbn end;
    try done.
  all: split; intros q Hq;
    [rewrite lookup_insert_ne; [done|congruence]
    |destruct (decide (q = path)) as [->|]; [rewrite lookup_insert_eq; by eexists|by rewrite lookup_insert_ne]].
Qed.

(** What a step does to the objects. *)
Inductive writes (t : PushTask) (s : Ingester) (m m' : gmap string object) : Prop :=
| WritesNothing : m' = m -> writes t s m m'
| WritesOutboard v retries : pk_stage t = PutOutboard v retries ->
    m' = <[outboard_key prefix (hex_encode (vd_hash v)) := written (vd_outboard v) None]> m -> writes t s m m'
| WritesBlob v retries content : pk_stage t = PutBlob v retries -> files_of s !! vd_path v = Some content ->
    (vd_size v <= len content)%Z ->
    m' = <[blob_key prefix (hex_encode (vd_hash v)) := written (String.substring 0 (Z.to_nat (vd_size v)) content) None]> m ->
    writes t s m m'
| WritesManifest v json : pk_stage t = PutManifest v ->
    m' = <[manifest_key prefix (hex_encode (vd_hash v)) := written json None]> m -> writes t s m m'
| WritesOwner subject endpoint at_ : pk_stage t = Recording subject endpoint ->
    m' = <[publisher_key (pk_hash t) := written (owner_record (pk_hash t) subject endpoint at_) None]> m -> writes t s m m'.

Lemma blob_size_objects hex b r b' :
  blob_size prefix hex b = (r, b') ->
  objects b' = objects b
  /\ (forall z, r = Ok (Some z) -> is_Some (objects b !! blob_key prefix hex)).
Proof.
  unfold blob_size, object_size. intros H. apply comp_bind_state in H as [(o & b1 & H1 & H)|(e & H1 & ->)];
    apply or_absent_read in H1 as (Ho & Hx & _).
  - injection H as <- <-. split; [done|]. intros z [= Hz]. destruct o as [o|]; [|done].
    rewrite <- (Hx _ eq_refl). by eexists.
  - by split.
Qed.

Lemma task_step_bucket a t s t' s' :
  task_step a t s = Some (t', s') -> writes t s (objects (bucket_of s)) (objects (bucket_of s')).
Proof.
  intros H. step_cases H; cbn; try (by apply WritesNothing);
    try (match goal with H : admit_push _ _ _ _ _ = _ |- _ => apply admit_push_frame in H as (_ & -> & _) end; by apply WritesNothing);
    try (match goal with H : blob_size _ _ _ = _ |- _ => apply blob_size_objects in H as [? _] end; by apply WritesNothing).
  all: try match goal with H : put_outboard _ _ _ _ = _ |- _ => apply put_context_effect in H as [[? _]|?];
    [by apply WritesNothing|by eapply WritesOutboard] end.
  all: try match goal with H : put_blob_file _ _ _ _ _ = _ |- _ => apply put_blob_file_effect in H as [[? _]|(content & ? & ? & ?)];
    [by apply WritesNothing|by eapply WritesBlob] end.
  - destruct (upload_manifest _ _ _) as [r g'] eqn:E. apply upload_manifest_effect in E as (_ & _ & [E|(json & _ & E)]);
      [by apply WritesNothing|by eapply WritesManifest].
  - unfold record_owner. cbn [bo_hash set_bucket ig_bucket].
    destruct (put_moderation_record _ _ _ _ _) as [r b'] eqn:E. cbn [snd].
    apply put_moderation_record_effect in E as [[E _]|E]; [by apply WritesNothing|by eapply WritesOwner].
Qed.

(** ** Facts: what the stages promise *)

(** What a validated blob is: the bytes in its scratch file pass validation and
    hash to the pushed hash. *)
Definition sound_validated (hash : bytes) (files : gmap string bytes) (v : Validated) : Prop :=
  vd_hash v = hash
  /\ exists content bad, files !! vd_path v = Some content
     /\ validate_archive read_file {| rd_data := content; rd_bad := bad |} (vd_size v) config = Ok (vd_manifest v)
     /\ bao_create content (vd_size v) = Some (hash, vd_outboard v).

Definition has_outboard (m : gmap string object) (hash : bytes) : Prop :=
  is_Some (m !! outboard_key prefix (hex_encode hash)).
Definition stored (m : gmap string object) (hash : bytes) : Prop :=
  is_Some (m !! blob_key prefix (hex_encode hash)) /\ has_outboard m hash.

Definition task_ok (files : gmap string bytes) (m : gmap string object) (t : PushTask) : Prop :=
  match pk_stage t with
  | Hashing path size manifest => exists content bad, files !! path = Some content
      /\ validate_archive read_file {| rd_data := content; rd_bad := bad |} size config = Ok manifest
  | PutOutboard v _ => sound_validated (pk_hash t) files v
  | HeadBlob v _ | PutBlob v _ => sound_validated (pk_hash t) files v /\ has_outboard m (pk_hash t)
  | PutManifest v => sound_validated (pk_hash t) files v /\ stored m (pk_hash t)
  | Leaving true | Unstaging true | Ended PushOk true => stored m (pk_hash t)
  | Recording subject endpoint => stored m (pk_hash t) /\ pk_owner t = Some (subject, endpoint)
  | Ended PushPermission true => False
  | _ => True
  end.

(** No blob and no outboard goes. *)
Definition grows (m m' : gmap string object) : Prop :=
  (forall hash, is_Some (m !! blob_key prefix (hex_encode hash)) -> is_Some (m' !! blob_key prefix (hex_encode hash)))
  /\ (forall hash, has_outboard m hash -> has_outboard m' hash).

Lemma insert_stays {A} (m : gmap string A) k k' x : is_Some (m !! k) -> is_Some (<[k' := x]> m !! k).
Proof. intros H. destruct (decide (k' = k)) as [->|]; [rewrite lookup_insert_eq; by eexists|by rewrite lookup_insert_ne]. Qed.

Lemma writes_grows t s m m' : writes t s m m' -> grows m m'.
Proof. intros []; subst; split; intros hash Hx; try done; by apply insert_stays. Qed.

Lemma elsewhere_grows m m' : elsewhere m m' -> grows m m'.
Proof.
  intros (Hb & _ & Ho). split; intros hash; [by rewrite Hb|]. unfold has_outboard.
  destruct (Ho hash) as [->|(ob & _ & ->)]; [done|]. by eexists.
Qed.

Lemma stored_grows m m' hash : grows m m' -> stored m hash -> stored m' hash.
Proof. intros [H1 H2] []. split; auto. Qed.

Lemma grows_trans m1 m2 m3 : grows m1 m2 -> grows m2 m3 -> grows m1 m3.
Proof. intros [] []. split; auto. Qed.

(** A task's promises are not broken by what happens beside it. *)
Lemma task_ok_frame files files' m m' t :
  (forall p, path_of t = Some p -> files' !! p = files !! p) -> grows m m' -> task_ok files m t -> task_ok files' m' t.
Proof.
  unfold path_of, task_ok, sound_validated. intros Hf Hg H.
  destruct (pk_stage t); try done; try (specialize (Hf _ eq_refl); rewrite Hf);
    repeat case_match; try done; try (by eapply stored_grows); try (destruct H as [? ?]; split; [done|]; by apply Hg).
  - destruct H as [? ?]. split; [done|]. by eapply stored_grows.
  - destruct H as [? ?]. split; [|done]. by eapply stored_grows.
Qed.

Lemma upload_failed_ok m v retries t s t' s' :
  upload_failed v retries t s = (t', s') -> sound_validated (pk_hash t) (files_of s) v -> task_ok (files_of s') m t'.
Proof. unfold upload_failed. destruct retries; intros [= <- <-] Hv; done. Qed.

(** A step keeps the promises of its own task. *)
Lemma task_step_ok a t s t' s' :
  task_step a t s = Some (t', s') ->
  task_ok (files_of s) (objects (bucket_of s)) t -> task_ok (files_of s') (objects (bucket_of s')) t'.
Proof.
  intros H Hok. pose proof (task_step_bucket _ _ _ _ _ H) as Hw. apply writes_grows in Hw as Hg.
  unfold task_step in H. cbv zeta in H. unfold task_ok in Hok. destruct (pk_stage t) eqn:Est.
  - destruct (admit_push _ _ _ _ _) as [[owner|] n']; by simplify_eq.
  - by repeat case_match; simplify_eq.
  - by repeat case_match; simplify_eq.
  - by repeat case_match; simplify_eq.
  - by repeat case_match; simplify_eq.
  - by repeat case_match; simplify_eq.
  - destruct (validate_file _ _ _ _ _) as [manifest|] eqn:E; simplify_eq; [|done].
    unfold validate_file in E. inv_run. cbn. by eexists _, _.
  - destruct (outboard_file _ _ _ _) as [ob|] eqn:E; simplify_eq; [|done].
    unfold outboard_file, Ingest.compute_outboard in E. destruct Hok as (content & bad & Hc & Hv). rewrite Hc in E. inv_run. simplify_eq.
    case_bool_decide; simplify_eq/=. split; [done|]. by eexists _, bad.
  - destruct (put_outboard _ _ _ _) as [[x|e] b] eqn:E; simplify_eq.
    + split; [done|]. destruct Hok as [Hh _]. apply put_context_effect in E as [[_ ?]|E]; [by destruct x|].
      unfold has_outboard. cbn. rewrite <- Hh, E, lookup_insert_eq. by eexists.
    + by eapply upload_failed_ok.
  - destruct Hok as [Hv Ho]. destruct (blob_size _ _ _) as [[[z|]|e] b] eqn:E; simplify_eq.
    + split; [done|]. split; [|by apply Hg]. apply blob_size_objects in E as [Eb Ez]. destruct Hv as [Hh _].
      cbn. rewrite <- Hh, Eb. by eapply Ez.
    + split; [done|]. by apply Hg.
    + by eapply upload_failed_ok.
  - destruct Hok as [Hv Ho]. destruct (put_blob_file _ _ _ _ _) as [[x|e] b] eqn:E; simplify_eq.
    + split; [done|]. split; [|by apply Hg]. apply put_blob_file_effect in E as [[_ ?]|(c & _ & _ & E)]; [by destruct x|].
      destruct Hv as [Hh _]. cbn. rewrite <- Hh, E, lookup_insert_eq. by eexists.
    + by eapply upload_failed_ok.
  - destruct Hok as [_ Hs]. simplify_eq. by eapply stored_grows.
  - simplify_eq. destruct ingested; [|done]. by eapply stored_grows.
  - destruct ingested; [|by simplify_eq]. destruct (pk_owner t) as [[subject endpoint]|] eqn:Eo; simplify_eq.
    + split; [by eapply stored_grows|done].
    + by eapply stored_grows.
  - destruct Hok as [Hs _]. simplify_eq. by eapply stored_grows.
  - done.
Qed.

(** ** Facts: what the tasks hold together *)

Definition holders (ts : list PushTask) : list PushTask := filter (fun t => holds_permit t = true) ts.
Definition guards (ts : list PushTask) : list bytes := pk_hash <$> filter (fun t => in_flight t = true) ts.

(** Every scratch name that was given and may still stand for a file. *)
Definition names_of (T : Tasks) : list string :=
  omap path_of (tk_tasks T) ++ in_removals (tk_shared T) ++ in_left (tk_shared T).

Definition named (s : Ingester) (p : string) : Prop :=
  exists hex n, p = scratch_path scratch_dir hex n /\ (n < sc_next (ig_scratch (nd_ingest (in_node s))))%N.

Record resources (max : nat) (T : Tasks) : Prop := {
  rs_permits : (in_permits (tk_shared T) + length (holders (tk_tasks T)) = max)%nat;
  rs_staged : counted (nd_staging (in_node (tk_shared T)), guards (tk_tasks T));
  rs_names : NoDup (names_of T);
  rs_named : Forall (named (tk_shared T)) (names_of T);
  rs_files : forall q, is_Some (files_of (tk_shared T) !! q) -> q ∈ names_of T
}.

Lemma holders_mid l1 t l2 : length (holders (l1 ++ t :: l2)) = (permit_of t + length (holders (l1 ++ l2)))%nat.
Proof.
  unfold holders. rewrite !filter_app, filter_cons.
  destruct (decide (holds_permit t = true)) as [->|Hn%not_true_is_false]; [|rewrite Hn]; rewrite !length_app; cbn; lia.
Qed.

Lemma guards_mid l1 t l2 :
  guards (l1 ++ t :: l2) = guards l1 ++ (if in_flight t then [pk_hash t] else []) ++ guards l2.
Proof.
  unfold guards. rewrite filter_app, filter_cons, fmap_app.
  destruct (decide (in_flight t = true)) as [->|Hn%not_true_is_false]; [|rewrite Hn]; by cbn.
Qed.

Lemma names_mid s l1 t l2 :
  names_of {| tk_shared := s; tk_tasks := l1 ++ t :: l2 |}
  ≡ₚ option_list (path_of t) ++ omap path_of (l1 ++ l2) ++ in_removals s ++ in_left s.
Proof.
  unfold names_of. cbn. rewrite !omap_app. cbn. destruct (path_of t); cbn; solve_Permutation.
Qed.

(** The guards are counted, in whatever order. *)
Lemma counted_perm s l l' : l ≡ₚ l' -> counted (s, l) -> counted (s, l').
Proof.
  intros Hp Hc h. specialize (Hc h). cbn [fst snd] in *. rewrite Hc.
  assert (occurrences h l = occurrences h l') as ->; [|done]. unfold occurrences. by rewrite Hp.
Qed.

Lemma counted_track s l1 hash l2 : counted (s, l1 ++ l2) -> counted (track hash s, l1 ++ hash :: l2).
Proof.
  intros Hc. apply (counted_perm _ (hash :: l1 ++ l2)); [solve_Permutation|].
  eapply stage_step_counted; [apply StepTrack|done].
Qed.

Lemma starts_resources max T : starts max T -> resources max T.
Proof.
  destruct T as [s ts]. intros (Hts & Hp & Hr & Hl & Hst & Hf). cbn in *. subst ts. split; unfold names_of; cbn; rewrite ?Hr, ?Hl, ?Hf.
  - lia.
  - by apply staged_counted.
  - constructor.
  - constructor.
  - intros q [x Hx]. by rewrite lookup_empty in Hx.
Qed.

Lemma named_mono s s' p :
  (sc_next (ig_scratch (nd_ingest (in_node s))) <= sc_next (ig_scratch (nd_ingest (in_node s'))))%N -> named s p -> named s' p.
Proof. intros Hle (hex & n & -> & Hn). exists hex, n. split; [done|lia]. Qed.

(** How a step changes the names. *)
Lemma task_step_names a s l1 t l2 t' s' :
  task_step a t s = Some (t', s') ->
  let T := {| tk_shared := s; tk_tasks := l1 ++ t :: l2 |} in
  let T' := {| tk_shared := s'; tk_tasks := l1 ++ t' :: l2 |} in
  Forall (named s) (names_of T) ->
  (names_of T' ≡ₚ names_of T \/ exists p, names_of T' ≡ₚ p :: names_of T /\ named s' p /\ ~ named s p)
  /\ Forall (named s') (names_of T).
Proof.
  intros H. cbv zeta. intros Hall.
  pose proof (names_mid s l1 t l2) as E. pose proof (names_mid s' l1 t' l2) as E'. apply task_step_path in H as [Hl H].
  assert (Forall (named s') (names_of {| tk_shared := s; tk_tasks := l1 ++ t :: l2 |})) as Hall'.
  { eapply Forall_impl; [done|]. intros q. apply named_mono. cbv zeta in H. naive_solver lia. }
  split; [|done]. rewrite Hl in E'. destruct H as [(Hp & Hr & Hn)|[(Hp & Hp' & Hr & Hn)|(p & Hp & Hp' & Hr & Hn)]];
    rewrite ?Hp, ?Hp', ?Hr in *.
  - left. by rewrite E', E.
  - right. exists (scratch_path scratch_dir (hex_encode (pk_hash t)) (sc_next (ig_scratch (nd_ingest (in_node s))))).
    split; [by rewrite E', E|]. split; [eexists _, _; split; [done|lia]|].
    intros (hex & n & En%scratch_path_inj & Hlt). lia.
  - left. rewrite E', E. cbn. solve_Permutation.
Qed.

Lemma step_task_resources max a s l1 t l2 t' s' :
  task_step a t s = Some (t', s') ->
  resources max {| tk_shared := s; tk_tasks := l1 ++ t :: l2 |} ->
  resources max {| tk_shared := s'; tk_tasks := l1 ++ t' :: l2 |}.
Proof.
  intros H [Hp Hst Hnd Hnm Hf]. destruct (task_step_names _ _ l1 _ l2 _ _ H Hnm) as [Hnames Hnm'].
  assert (forall q, q ∈ names_of {| tk_shared := s; tk_tasks := l1 ++ t :: l2 |} ->
                    q ∈ names_of {| tk_shared := s'; tk_tasks := l1 ++ t' :: l2 |}) as Hsub.
  { intros q Hq. destruct Hnames as [->|(p & -> & _)]; [done|]. by right. }
  split; cbn [tk_shared tk_tasks] in *.
  - apply task_step_permits in H. rewrite holders_mid in *. lia.
  - apply task_step_hash in H as Hh. destruct Hh as [Hh _].
    apply task_step_staging in H as [(E & ->)|[(E & E' & ->)|(E & E' & ->)]]; rewrite !guards_mid in *;
      rewrite ?E, ?E', ?Hh in *; [done|by apply counted_track|].
    eapply stage_step_counted; [apply StepDrop|done].
  - destruct Hnames as [->|(p & -> & _ & Hp')]; [done|]. apply NoDup_cons. split; [|done].
    intros Hin. rewrite Forall_forall in Hnm. by apply Hp', Hnm.
  - destruct Hnames as [->|(p & -> & Hp' & _)]; [done|by constructor].
  - intros q Hq. destruct (decide (path_of t = Some q)) as [Hq'|Hq'].
    + apply Hsub. rewrite names_mid, Hq'. left.
    + apply task_step_files in H as [H _]. rewrite H in Hq by done. by apply Hsub, Hf.
Qed.

Lemma step_resources max T T' : step T T' -> resources max T -> resources max T'.
Proof.
  intros H Hr. destruct H as [s ts c hash|a s l1 t l2 t' s' H|s ts l1 path l2 ok H|s ts b H|s ts gate H|s ts now].
  - destruct Hr as [Hp Hst Hnd Hnm Hf]. by split.
  - by eapply step_task_resources.
  - destruct Hr as [Hp Hst Hnd Hnm Hf]. unfold names_of in *. cbn in *. rewrite H in *.
    assert (omap path_of ts ++ (l1 ++ path :: l2) ++ in_left s ≡ₚ path :: omap path_of ts ++ (l1 ++ l2) ++ in_left s) as Hperm
      by solve_Permutation.
    destruct ok; cbn in *.
    + rewrite Hperm in Hnd, Hnm. apply NoDup_cons in Hnd as [Hn Hnd]. apply Forall_cons in Hnm as [_ Hnm].
      split; unfold names_of; cbn; try done.
      intros q [x Hx]. apply lookup_delete_Some in Hx as [Hne Hx].
      assert (q ∈ path :: omap path_of ts ++ (l1 ++ l2) ++ in_left s) as Hq by (rewrite <- Hperm; apply Hf; by eexists).
      by apply elem_of_cons in Hq as [->|?].
    + assert (omap path_of ts ++ (l1 ++ path :: l2) ++ in_left s ≡ₚ omap path_of ts ++ (l1 ++ l2) ++ path :: in_left s) as Hperm'
        by solve_Permutation.
      split; unfold names_of; cbn; try done; [by rewrite <- Hperm'|by rewrite <- Hperm'|].
      intros q Hq. rewrite <- Hperm'. by apply Hf.
  - destruct Hr as [Hp Hst Hnd Hnm Hf]. by split.
  - destruct Hr as [Hp Hst Hnd Hnm Hf]. by split.
  - destruct Hr as [Hp Hst Hnd Hnm Hf]. by split.
Qed.

(** ** Facts: what the bucket comes to hold *)

Context {Hinj : Inj (=) (=) hex_encode}.

(** Looking up an object of one family after writing one. *)
Lemma lookup_family f1 f2 h1 h2 (x : object) (m : gmap string object) o :
  family_ok f1 -> family_ok f2 ->
  <[family_key prefix f1 (hex_encode h1) := x]> m !! family_key prefix f2 (hex_encode h2) = Some o ->
  m !! family_key prefix f2 (hex_encode h2) = Some o \/ f1 = f2 /\ h1 = h2 /\ x = o.
Proof.
  intros H1 H2 H. apply lookup_insert_Some in H as [[E ->]|[_ H]]; [right|by left].
  apply family_key_inj in E as [-> E]; [|done..]. by apply (inj hex_encode) in E.
Qed.

(** [o] is a blob that passed validation and hashes to [hash]. *)
Definition valid_blob (hash : bytes) (o : object) : Prop :=
  exists content size outboard bad manifest,
    validate_archive read_file {| rd_data := content; rd_bad := bad |} size config = Ok manifest
    /\ bao_create content size = Some (hash, outboard)
    /\ (size <= len content)%Z /\ o = written (String.substring 0 (Z.to_nat size) content) None.

Definition past_admission (t : PushTask) : Prop :=
  match pk_stage t with Asking | Ended PushPermission _ => False | _ => True end.

Lemma writes_blob t s m m' hash o :
  writes t s m m' -> task_ok (files_of s) m t -> m' !! blob_key prefix (hex_encode hash) = Some o ->
  m !! blob_key prefix (hex_encode hash) = Some o
  \/ valid_blob hash o /\ pk_hash t = hash /\ past_admission t /\ has_outboard m hash.
Proof.
  intros Hw Hok Ho. unfold task_ok, past_admission in *.
  destruct Hw as [->|v r Hs ->|v r content Hs Hc Hl ->|v json Hs ->|subject endpoint at_ Hs ->]; [by left|..];
    rewrite Hs in *.
  - by apply (lookup_family Outboards Blobs) in Ho as [?|(? & _)]; [left|..].
  - destruct Hok as [(Hh & c & bad & Hc' & Hv & Hb) Hob]. rewrite Hc in Hc'. injection Hc' as <-.
    apply (lookup_family Blobs Blobs) in Ho as [?|(_ & E & <-)]; [by left|right|done..].
    rewrite <- E, Hh. rewrite Hh in E. split_and!; try done. by exists content, (vd_size v), (vd_outboard v), bad, (vd_manifest v).
  - by apply (lookup_family Manifests Blobs) in Ho as [?|(? & _)]; [left|..].
  - by apply (lookup_family (Records PUBLISHERS) Blobs) in Ho as [?|(? & _)]; [left|..].
Qed.

Lemma writes_outboard t s m m' hash o :
  writes t s m m' -> task_ok (files_of s) m t -> m' !! outboard_key prefix (hex_encode hash) = Some o ->
  m !! outboard_key prefix (hex_encode hash) = Some o \/ exists ob, right_outboard hash ob /\ o = written ob None.
Proof.
  intros Hw Hok Ho. unfold task_ok in *.
  destruct Hw as [->|v r Hs ->|v r content Hs Hc Hl ->|v json Hs ->|subject endpoint at_ Hs ->]; [by left|..];
    rewrite Hs in *.
  - apply (lookup_family Outboards Outboards) in Ho as [?|(_ & <- & <-)]; [by left|right|done..].
    destruct Hok as (Hh & c & bad & _ & _ & Hb). exists (vd_outboard v). split; [|done]. rewrite Hh. by exists c, (vd_size v).
  - by apply (lookup_family Blobs Outboards) in Ho as [?|(? & _)]; [left|..].
  - by apply (lookup_family Manifests Outboards) in Ho as [?|(? & _)]; [left|..].
  - by apply (lookup_family (Records PUBLISHERS) Outboards) in Ho as [?|(? & _)]; [left|..].
Qed.

Lemma writes_record t s m m' hash o :
  writes t s m m' -> m' !! publisher_key hash = Some o ->
  m !! publisher_key hash = Some o
  \/ exists subject endpoint at_, pk_stage t = Recording subject endpoint /\ pk_hash t = hash
     /\ o = written (owner_record hash subject endpoint at_) None.
Proof.
  intros Hw Ho.
  destruct Hw as [->|v r Hs ->|v r content Hs Hc Hl ->|v json Hs ->|subject endpoint at_ Hs ->]; [by left|..].
  - by apply (lookup_family Outboards (Records PUBLISHERS)) in Ho as [?|(? & _)]; [left|..].
  - by apply (lookup_family Blobs (Records PUBLISHERS)) in Ho as [?|(? & _)]; [left|..].
  - by apply (lookup_family Manifests (Records PUBLISHERS)) in Ho as [?|(? & _)]; [left|..].
  - apply (lookup_family (Records PUBLISHERS) (Records PUBLISHERS)) in Ho as [?|(_ & <- & <-)]; [by left|right|done..].
    by exists subject, endpoint, at_.
Qed.

(** ** Facts: every reachable state *)

Section Reachable.
Context (T0 : Tasks).

Abbreviation objs_of T := (objects (bucket_of (tk_shared T))).
Abbreviation gate_of T := (nd_gate (in_node (tk_shared T))).

(** The gate of a state the node was in authorized the push, for the owner the
    task has; an ungated node has no owners. *)
Definition accepted (t : PushTask) : Prop :=
  match gate_of T0 with
  | None => pk_owner t = None
  | Some _ => exists subject endpoint T1 w gate gate', pk_owner t = Some (subject, endpoint)
      /\ rtc step T0 T1 /\ gate_of T1 = Some gate
      /\ authorize_push (w_ask w) (w_times w) (pk_connection t) (hex_encode (pk_hash t)) gate
           = (Ok (subject, endpoint), gate')
  end.

Record contents (T : Tasks) : Prop := {
  ct_gate : is_Some (gate_of T) <-> is_Some (gate_of T0);
  ct_tasks : Forall (task_ok (files_of (tk_shared T)) (objs_of T)) (tk_tasks T);
  ct_owners : Forall (fun t => past_admission t -> accepted t) (tk_tasks T);
  ct_blobs : forall hash o, objs_of T !! blob_key prefix (hex_encode hash) = Some o ->
    objs_of T0 !! blob_key prefix (hex_encode hash) = Some o
    \/ valid_blob hash o /\ has_outboard (objs_of T) hash
       /\ exists t, t ∈ tk_tasks T /\ pk_hash t = hash /\ past_admission t;
  ct_kept : grows (objs_of T0) (objs_of T);
  ct_outboards : forall hash o, objs_of T !! outboard_key prefix (hex_encode hash) = Some o ->
    objs_of T0 !! outboard_key prefix (hex_encode hash) = Some o
    \/ exists ob, right_outboard hash ob /\ o = written ob None;
  ct_records : forall hash o, objs_of T !! publisher_key hash = Some o ->
    objs_of T0 !! publisher_key hash = Some o
    \/ exists t subject endpoint at_, t ∈ tk_tasks T /\ pk_hash t = hash /\ pk_owner t = Some (subject, endpoint)
       /\ pk_stage t = Ended PushOk true /\ o = written (owner_record hash subject endpoint at_) None
}.

Lemma starts_contents max : starts max T0 -> contents T0.
Proof. intros (Hts & _). split; rewrite ?Hts; try done; try constructor; auto. Qed.

(** Nothing changed but what no content depends on. *)
Lemma contents_same T T' :
  tk_tasks T' = tk_tasks T -> (forall t p, t ∈ tk_tasks T -> path_of t = Some p ->
    files_of (tk_shared T') !! p = files_of (tk_shared T) !! p) ->
  objs_of T' = objs_of T -> (is_Some (gate_of T') <-> is_Some (gate_of T)) -> contents T -> contents T'.
Proof.
  intros Hts Hf Ho Hg [H1 H2 H3 H4 H5 H6 H7]. split; rewrite ?Hts, ?Ho; try done; [by rewrite Hg|].
  rewrite Forall_forall in *. intros t Ht.
  apply (task_ok_frame (files_of (tk_shared T)) _ (objs_of T)); [|by split|by apply H2]. intros p. by apply Hf.
Qed.

Lemma past_admission_step a t s t' s' :
  task_step a t s = Some (t', s') -> past_admission t -> past_admission t' /\ pk_owner t' = pk_owner t.
Proof. intros H. unfold past_admission. step_cases H; show_stages; done. Qed.

(** The tasks after one of them moved. *)
Lemma moved_elem l1 (t' : PushTask) l2 x : x ∈ l1 ++ t' :: l2 <-> x = t' \/ x ∈ l1 ++ l2.
Proof. rewrite !elem_of_app, elem_of_cons. tauto. Qed.

(** What [Asking] leads to. *)
Lemma asking_accepted a s t t' s' ts :
  rtc step T0 {| tk_shared := s; tk_tasks := ts |} -> (is_Some (nd_gate (in_node s)) <-> is_Some (gate_of T0)) ->
  task_step a t s = Some (t', s') -> pk_stage t = Asking -> past_admission t' -> accepted t'.
Proof.
  intros Hrt Hg H Hst Hp. unfold task_step in H. rewrite Hst in H.
  destruct (admit_push _ _ _ _ _) as [[owner|] n'] eqn:E; simplify_eq; [|done].
  apply admit_push_frame in E as (_ & _ & _ & Ha). specialize (Ha owner eq_refl). unfold accepted_for in Ha. unfold accepted.
  destruct (nd_gate (in_node s)) as [gate|] eqn:Eg, (gate_of T0) as [gate0|].
  - destruct Ha as (subject & endpoint & gate' & -> & Ha). by exists subject, endpoint, {| tk_shared := s; tk_tasks := ts |}, (an_world a), gate, gate'.
  - by destruct (proj1 Hg (ex_intro _ _ eq_refl)).
  - by destruct (proj2 Hg (ex_intro _ _ eq_refl)).
  - by subst.
Qed.

(** The files of the other tasks are not the moving task's. *)
Lemma others_paths s l1 t l2 x p :
  NoDup (names_of {| tk_shared := s; tk_tasks := l1 ++ t :: l2 |}) -> x ∈ l1 ++ l2 -> path_of x = Some p -> path_of t <> Some p.
Proof.
  rewrite names_mid. intros Hnd Hx Hp Ht. rewrite Ht in Hnd. cbn in Hnd. apply NoDup_cons in Hnd as [Hn _]. apply Hn.
  apply elem_of_app. left. apply list_elem_of_omap. by exists x.
Qed.

Lemma step_task_contents max a s l1 t l2 t' s' :
  task_step a t s = Some (t', s') ->
  let T := {| tk_shared := s; tk_tasks := l1 ++ t :: l2 |} in
  rtc step T0 T -> resources max T -> contents T -> contents {| tk_shared := s'; tk_tasks := l1 ++ t' :: l2 |}.
Proof.
  intros H T Hrt [_ _ Hnd _ _] [H1 H2 H3 H4 H5 H6 H7]. cbn [tk_shared tk_tasks T] in *.
  apply task_step_bucket in H as Hw. apply writes_grows in Hw as Hgr. destruct (task_step_hash _ _ _ _ _ H) as [Hh Hc].
  rewrite Forall_forall in H2, H3. assert (t ∈ l1 ++ t :: l2) as Htin by (apply moved_elem; by left).
  assert (forall x, x ∈ l1 ++ l2 -> x ∈ l1 ++ t :: l2) as Hin by (intros; apply moved_elem; by right).
  assert (is_Some (nd_gate (in_node s')) <-> is_Some (nd_gate (in_node s))) as Hgate.
  { clear -H. step_cases H; cbn; try done; by match goal with H : admit_push _ _ _ _ _ = _ |- _ => apply admit_push_frame in H as (_ & _ & ? & _) end. }
  assert (forall x, x ∈ l1 ++ t :: l2 -> past_admission x -> exists y, y ∈ l1 ++ t' :: l2 /\ pk_hash y = pk_hash x /\ past_admission y) as Hkeep.
  { intros x Hx Hp. apply moved_elem in Hx as [->|Hx]; [|exists x; split_and!; [apply moved_elem; by right|done..]].
    exists t'. split_and!; [apply moved_elem; by left|done|]. by eapply past_admission_step. }
  split; cbn [tk_shared tk_tasks].
  - by rewrite Hgate.
  - apply Forall_forall. intros x [->|Hx]%moved_elem; [by eapply task_step_ok, H2|].
    apply (task_ok_frame (files_of s) _ (objects (bucket_of s))); [|done|by apply H2, Hin].
    intros p Hp. apply task_step_files in H as [Hf _]. apply Hf. by eapply others_paths.
  - apply Forall_forall. intros x [->|Hx]%moved_elem; [|by apply H3, Hin]. intros Hp.
    destruct (pk_stage t) eqn:Est; [by eapply asking_accepted|..];
      (assert (past_admission t) as Hpt; [unfold past_admission; rewrite Est|
       apply past_admission_step in H as Hq; [|done]; destruct Hq as [_ Hq];
       unfold accepted; rewrite Hq, Hh, Hc; by apply (H3 t)]); try done.
    exfalso. unfold task_step in H. by rewrite Est in H.
  - intros hash o Ho. eapply writes_blob in Ho as [Ho|(Hv & Hht & Hp & Hob)]; [..|done|by apply H2].
    + destruct (H4 _ _ Ho) as [?|(Hv & Hob & x & Hx & Hxh & Hxp)]; [by left|right]. split_and!; [done|by apply Hgr|].
      destruct (Hkeep x Hx Hxp) as (y & ? & ? & ?). exists y. by rewrite <- Hxh.
    + right. split_and!; [done|by apply Hgr|]. destruct (Hkeep t Htin Hp) as (y & ? & ? & ?). exists y. by rewrite <- Hht.
  - by eapply grows_trans.
  - intros hash o Ho. eapply writes_outboard in Ho as [Ho|?]; [by apply H6|by right|done|by apply H2].
  - intros hash o Ho. eapply writes_record in Ho as [Ho|(subject & endpoint & at_ & Hst & Hht & ->)]; [| |done].
    + destruct (H7 _ _ Ho) as [?|(x & subject & endpoint & at_ & Hx & Hxh & Hxo & Hxs & ->)]; [by left|right].
      exists x, subject, endpoint, at_. split_and!; try done. apply moved_elem in Hx as [->|Hx]; [|apply moved_elem; by right].
      exfalso. unfold task_step in H. by rewrite Hxs in H.
    + right. exists t', subject, endpoint, at_. split_and!; try done; [apply moved_elem; by left|by rewrite Hh|..].
      * apply past_admission_step in H as [_ ->]; [|unfold past_admission; by rewrite Hst].
        specialize (H2 t Htin). unfold task_ok in H2. rewrite Hst in H2. by destruct H2.
      * unfold task_step in H. rewrite Hst in H. by simplify_eq.
Qed.
Lemma elsewhere_contents s ts b :
  elsewhere (objects (bucket_of s)) (objects b) ->
  contents {| tk_shared := s; tk_tasks := ts |} -> contents {| tk_shared := set_others b s; tk_tasks := ts |}.
Proof.
  intros He [H1 H2 H3 H4 H5 H6 H7]. apply elsewhere_grows in He as Hg. destruct He as (Hb & Hp & Ho).
  split; cbn in *; try done.
  - eapply Forall_impl; [exact H2|]. intros t. by apply task_ok_frame.
  - intros hash o Hx. rewrite Hb in Hx. destruct (H4 _ _ Hx) as [?|(? & ? & ?)]; [by left|right]. split_and!; [done|by apply Hg|done].
  - by eapply grows_trans.
  - intros hash o Hx. destruct (Ho hash) as [E|(ob & Hr & E)]; rewrite E in Hx; [by apply H6|right].
    exists ob. by injection Hx as <-.
  - intros hash o Hx. rewrite Hp in Hx. by apply H7.
Qed.

Lemma step_contents max T T' :
  rtc step T0 T -> resources max T -> contents T -> step T T' -> contents T'.
Proof.
  intros Hrt Hr Hc H. destruct H as [s ts c hash|a s l1 t l2 t' s' H|s ts l1 path l2 ok H|s ts b H|s ts gate H|s ts now].
  - destruct Hc as [H1 H2 H3 H4 H5 H6 H7]. split; cbn in *; try done.
    + by constructor.
    + by constructor.
    + intros h o Ho. destruct (H4 _ _ Ho) as [?|(? & ? & x & Hx & ?)]; [by left|right]. split_and!; [done..|]. exists x. by split; [right|].
    + intros h o Ho. destruct (H7 _ _ Ho) as [?|(x & su & en & at_ & Hx & Hrest)]; [by left|right]. exists x, su, en, at_. by split; [right|].
  - by eapply step_task_contents.
  - apply contents_same with {| tk_shared := s; tk_tasks := ts |}; try done; [|by destruct ok..].
    intros t p Ht Hp. cbn in *. destruct ok; [|done]. cbn. apply lookup_delete_ne. intros ->.
    destruct Hr as [_ _ Hnd _ _]. unfold names_of in Hnd. cbn in Hnd. rewrite H in Hnd.
    apply NoDup_app in Hnd as (_ & Hn & _). apply (Hn p); [by apply list_elem_of_omap; exists t|].
    rewrite !elem_of_app, elem_of_cons. auto.
  - by apply elsewhere_contents.
  - by apply contents_same with {| tk_shared := s; tk_tasks := ts |}.
  - by apply contents_same with {| tk_shared := s; tk_tasks := ts |}.
Qed.

(** Every state a node comes to. *)
Lemma reached max T : starts max T0 -> rtc step T0 T -> resources max T /\ contents T.
Proof.
  intros Hs. revert T. apply (rtc_ind_r (fun T => resources max T /\ contents T)).
  { split; [by apply starts_resources|by eapply starts_contents]. }
  intros T T' Hrt Hst [Hr Hc]. split; [by eapply step_resources|by eapply step_contents].
Qed.
End Reachable.

(** ** Theorems *)

Lemma paths_held ts : (length (omap path_of ts) <= length (holders ts))%nat.
Proof.
  unfold holders. induction ts as [|t ts IH]; [done|]. rewrite filter_cons.
  change (omap path_of (t :: ts)) with (match path_of t with Some p => p :: omap path_of ts | None => omap path_of ts end).
  assert (is_Some (path_of t) -> holds_permit t = true) as Hp.
  { unfold path_of, holds_permit. destruct (pk_stage t); try done; by intros [? ?]. }
  destruct (path_of t); destruct (decide _) as [|Hn]; cbn; try lia. destruct Hn. apply Hp. by eexists.
Qed.

(** C20: However pushes overlap, they stay within their means. At most
    [max_concurrent_ingests] tasks hold an ingest permit, and all permits not
    held are free; a hash is pending exactly while a task has it in flight,
    counted once for each; every scratch file belongs to one task that holds a
    permit, or waits for the removal that task spawned, or could not be
    removed, so at most that many copies are being worked on, and no two of
    them share a file. *)
Theorem push_resources_bounded max T0 T :
  starts max T0 -> rtc step T0 T ->
  let s := tk_shared T in let ts := tk_tasks T in
  (in_permits s + length (holders ts) = max)%nat
  /\ (length (omap path_of ts) <= max)%nat
  /\ (forall h, pending (nd_staging (in_node s)) !! h
        = (let n := occurrences h (guards ts) in if (n =? 0)%nat then None else Some n))
  /\ NoDup (omap path_of ts ++ in_removals s ++ in_left s)
  /\ (forall q, is_Some (files_of s !! q) -> q ∈ omap path_of ts \/ q ∈ in_removals s \/ q ∈ in_left s).
Proof.
  intros Hs Hrt. destruct (reached T0 max T Hs Hrt) as [[Hp Hst Hnd _ Hf] _]. cbv zeta.
  pose proof (paths_held (tk_tasks T)). split_and!; [done|lia|done|done|].
  intros q [?|[?|?]%elem_of_app]%Hf%elem_of_app; auto.
Qed.

(** C6: What concurrent pushes leave in the bucket, at every moment. Every blob
    was there at the start, or hashes to the name it has, passed validation,
    has its outboard, and was pushed by a task the gate authorized; an
    outboard that was not there at the start is that of bytes with its hash;
    no blob and no outboard ever goes; and a publisher record that was not
    there at the start names the subject and endpoint the gate authorized for
    a push of that hash which ended with the blob stored. *)
Theorem concurrent_pushes_sound max T0 T :
  starts max T0 -> rtc step T0 T ->
  let m0 := objects (bucket_of (tk_shared T0)) in let m := objects (bucket_of (tk_shared T)) in
  (forall hash o, m !! blob_key prefix (hex_encode hash) = Some o ->
     m0 !! blob_key prefix (hex_encode hash) = Some o
     \/ valid_blob hash o /\ has_outboard m hash /\ exists t, t ∈ tk_tasks T /\ pk_hash t = hash /\ accepted T0 t)
  /\ (forall hash o, m !! outboard_key prefix (hex_encode hash) = Some o ->
     m0 !! outboard_key prefix (hex_encode hash) = Some o \/ exists ob, right_outboard hash ob /\ o = written ob None)
  /\ grows m0 m
  /\ (forall hash o, m !! publisher_key hash = Some o ->
     m0 !! publisher_key hash = Some o
     \/ stored m hash /\ exists t subject endpoint at_, t ∈ tk_tasks T /\ pk_hash t = hash /\ accepted T0 t
        /\ pk_owner t = Some (subject, endpoint) /\ o = written (owner_record hash subject endpoint at_) None)
  /\ (forall t, t ∈ tk_tasks T -> pk_stage t = Ended PushOk true -> stored m (pk_hash t)).
Proof.
  intros Hs Hrt. destruct (reached T0 max T Hs Hrt) as [_ [_ H2 H3 H4 H5 H6 H7]]. cbv zeta.
  rewrite Forall_forall in H2, H3.
  assert (forall t, t ∈ tk_tasks T -> pk_stage t = Ended PushOk true -> stored (objects (bucket_of (tk_shared T))) (pk_hash t)) as Hend.
  { intros t Ht Hst. specialize (H2 t Ht). unfold task_ok in H2. by rewrite Hst in H2. }
  split_and!; try done.
  - intros hash o Ho. destruct (H4 _ _ Ho) as [?|(? & ? & t & ? & ? & ?)]; [by left|right]. split_and!; [done..|].
    exists t. split_and!; [done..|by apply H3].
  - intros hash o Ho. destruct (H7 _ _ Ho) as [?|(t & subject & endpoint & at_ & Ht & Hh & Ho' & Hst & ->)]; [by left|right].
    split; [rewrite <- Hh; by apply Hend|]. exists t, subject, endpoint, at_. split_and!; try done.
    apply H3; [done|]. unfold past_admission. by rewrite Hst.
Qed.

(** ** Every push ends *)

(** The steps of the tasks and of their removals. *)
Inductive moves : Tasks -> Tasks -> Prop :=
| MoveTask a s l1 t l2 t' s' : task_step a t s = Some (t', s') ->
    moves {| tk_shared := s; tk_tasks := l1 ++ t :: l2 |} {| tk_shared := s'; tk_tasks := l1 ++ t' :: l2 |}
| MoveRemoved s ts l1 path l2 ok : in_removals s = l1 ++ path :: l2 ->
    moves {| tk_shared := s; tk_tasks := ts |} {| tk_shared := removed path ok s (l1 ++ l2); tk_tasks := ts |}.

Lemma moves_step T T' : moves T T' -> step T T'.
Proof. intros []; by econstructor. Qed.

(** What is left to do: two for each step of a task, one for each removal. *)
Definition work (T : Tasks) : nat :=
  (sum_list_with (fun t => 2 * steps_left (pk_stage t)) (tk_tasks T) + length (in_removals (tk_shared T)))%nat.

Lemma moves_work T T' : moves T T' -> (work T' < work T)%nat.
Proof.
  unfold work. intros [a s l1 t l2 t' s' H|s ts l1 path l2 ok H]; cbn.
  - rewrite !sum_list_with_app. cbn. apply task_step_left in H as Hl.
    apply task_step_path in H as [_ H]. cbv zeta in H.
    destruct H as [(_ & -> & _)|[(_ & _ & -> & _)|(p & _ & _ & -> & _)]]; cbn; lia.
  - rewrite H. destruct ok; cbn; rewrite !length_app; cbn; lia.
Qed.

(** Nothing is under way. *)
Definition quiet (T : Tasks) : Prop :=
  Forall (fun t => exists ans i, pk_stage t = Ended ans i) (tk_tasks T) /\ in_removals (tk_shared T) = [].

#[local] Instance ended_dec (t : PushTask) : Decision (exists ans i, pk_stage t = Ended ans i).
Proof.
  destruct (pk_stage t) eqn:E; try (right; by intros (? & ? & ?)). left. by eexists _, _.
Defined.

Lemma task_moves a s ts t :
  t ∈ ts -> is_Some (task_step a t s) -> exists T', moves {| tk_shared := s; tk_tasks := ts |} T'.
Proof. intros (l1 & l2 & ->)%list_elem_of_split [[t' s'] H]. eexists. by eapply MoveTask. Qed.

Lemma not_quiet_moves max (a : answers) T :
  (0 < max)%nat -> resources max T -> quiet T \/ exists T', moves T T'.
Proof.
  intros Hmax [Hp _ _ _ _]. destruct T as [s ts]. unfold quiet. cbn [tk_shared tk_tasks] in *.
  destruct (in_removals s) as [|path rest] eqn:Er.
  2: { right. eexists. by apply (MoveRemoved s ts [] path rest true). }
  destruct (decide (Forall (fun t => exists ans i, pk_stage t = Ended ans i) ts)) as [|Hn]; [by left|right].
  apply not_Forall_Exists in Hn; [|apply _]. apply Exists_exists in Hn as (t & Ht & Hn).
  destruct (task_step a t s) as [x|] eqn:E; [by eapply task_moves|].
  apply task_step_progress in E as [?|[_ E]]; [done|].
  destruct (holders ts) as [|h hs] eqn:Eh; [cbn in Hp; lia|].
  assert (h ∈ holders ts) as [Hh Hin]%list_elem_of_filter by (rewrite Eh; left).
  destruct (task_step a h s) as [x|] eqn:Ex; [by eapply task_moves|].
  apply task_step_progress in Ex as [(ans & i & Ex)|[Ex _]]; unfold holds_permit in Hh; by rewrite Ex in Hh.
Qed.

(** A quiet node has everything back. *)
Lemma quiet_all_back max T :
  resources max T -> quiet T ->
  in_permits (tk_shared T) = max /\ pending (nd_staging (in_node (tk_shared T))) = ∅
  /\ forall q, is_Some (files_of (tk_shared T) !! q) -> q ∈ in_left (tk_shared T).
Proof.
  intros [Hp Hst _ _ Hf] [Hq Hr].
  assert (forall t, t ∈ tk_tasks T -> holds_permit t = false /\ in_flight t = false /\ path_of t = None) as Hnone.
  { intros t Ht. rewrite Forall_forall in Hq. destruct (Hq t Ht) as (ans & i & E). unfold holds_permit, in_flight, path_of. by rewrite E. }
  split_and!.
  - assert (holders (tk_tasks T) = []) as Hh; [|rewrite Hh in Hp; cbn in Hp; lia].
    apply elem_of_nil_inv. intros t [Hh Ht]%list_elem_of_filter.
    destruct (Hnone t Ht) as (? & _). congruence.
  - apply map_eq. intros h. rewrite lookup_empty. specialize (Hst h). cbn in Hst. rewrite Hst.
    assert (guards (tk_tasks T) = []) as ->; [|done]. apply elem_of_nil_inv. intros x (t & -> & [Hh Ht]%list_elem_of_filter)%list_elem_of_fmap.
    destruct (Hnone t Ht) as (_ & ? & _). congruence.
  - intros q [Hx|Hx]%Hf%elem_of_app; [|by rewrite Hr in Hx].
    apply list_elem_of_omap in Hx as (t & Ht & Hx). destruct (Hnone t Ht) as (_ & _ & ?). congruence.
Qed.

Lemma moves_reachable T0 T T' : rtc step T0 T -> rtc moves T T' -> rtc step T0 T'.
Proof. intros H Hm. etrans; [done|]. eapply rtc_subrel; [|done]. intros x y. apply moves_step. Qed.

Lemma moves_bounded n T T' : nsteps moves n T T' -> (n + work T' <= work T)%nat.
Proof. induction 1 as [|n T1 T2 T3 H _ IH]; [lia|]. apply moves_work in H. lia. Qed.

(** Work runs out. *)
Lemma comes_to_rest max (a : answers) T :
  (0 < max)%nat -> resources max T -> exists T', rtc moves T T' /\ quiet T'.
Proof.
  intros Hmax. remember (work T) as n eqn:En. revert T En. induction (lt_wf n) as [n _ IH]. intros T -> Hr.
  destruct (not_quiet_moves max a T Hmax Hr) as [Hq|(T1 & H)]; [by exists T|].
  destruct (IH (work T1) (moves_work _ _ H) T1 eq_refl) as (T' & Hrt & Hq).
  { eapply step_resources; [by apply moves_step|done]. }
  exists T'. split; [by eapply rtc_l|done].
Qed.

Lemma few_steps_left max T0 T :
  starts max T0 -> rtc step T0 T -> Forall (fun t => (steps_left (pk_stage t) <= 31)%nat) (tk_tasks T).
Proof.
  intros (Hts & _). revert T. apply (rtc_ind_r (fun T => Forall (fun t => (steps_left (pk_stage t) <= 31)%nat) (tk_tasks T))).
  { rewrite Hts. constructor. }
  intros T T' _ Hst HT. destruct Hst; cbn in *; try done; [by constructor|]. rewrite Forall_app, Forall_cons in *.
  destruct HT as (? & ? & ?). split_and!; try done.
  match goal with H : task_step _ _ _ = _ |- _ => apply task_step_left in H end. lia.
Qed.

(** C19: Pushes end, and nothing is lost. From every state the node comes to,
    the tasks and their removals can take only as many more steps as are left
    in them, at most 31 for each push and one removal; they never block each
    other, whatever the stores and the gate answer; and where they come to
    rest every push has ended, all ingest permits are free, no hash is pending
    and no scratch file is there but one that could not be removed. *)
Theorem pushes_end max (a : answers) T0 T :
  starts max T0 -> (0 < max)%nat -> rtc step T0 T ->
  (forall n T', nsteps moves n T T' -> (n <= work T)%nat)
  /\ (work T <= 62 * length (tk_tasks T) + length (in_removals (tk_shared T)))%nat
  /\ (exists T', rtc moves T T' /\ quiet T')
  /\ (forall T', rtc moves T T' -> (quiet T' \/ exists T'', moves T' T'')
       /\ (quiet T' -> in_permits (tk_shared T') = max /\ pending (nd_staging (in_node (tk_shared T'))) = ∅
           /\ forall q, is_Some (files_of (tk_shared T') !! q) -> q ∈ in_left (tk_shared T'))).
Proof.
  intros Hs Hmax Hrt.
  assert (forall T', rtc moves T T' -> resources max T') as Hres.
  { intros T' Hm. apply (moves_reachable T0) in Hm; [|done]. clear Hrt. revert T' Hm.
    apply (rtc_ind_r (resources max)); [by apply starts_resources|]. intros x y _ Hst. by apply step_resources. }
  split_and!.
  - intros n T' H%moves_bounded. lia.
  - unfold work. pose proof (few_steps_left _ _ _ Hs Hrt) as Hl. induction Hl as [|t ts Ht _ IH]; cbn in *; lia.
  - by apply (comes_to_rest max a), Hres.
  - intros T' Hm. split; [by apply (not_quiet_moves max a), Hres|by apply quiet_all_back, Hres].
Qed.

(** ** A task alone

    With nothing beside it a task does what [push_task] does. *)

Section Alone.
Context (a : answers).

Definition alone (x y : PushTask * Ingester) : Prop := task_step a x.1 x.2 = Some y.

(** The node once the removals spawned have run. *)
Definition settled (s : Ingester) : NodeState :=
  foldr (fun p n => set_ingest (set_scratch (scratch_drop p (ig_scratch (nd_ingest n))) (nd_ingest n)) n)
    (in_node s) (in_removals s).

(** A task run for at most [fuel] steps. *)
Fixpoint run_alone (fuel : nat) (t : PushTask) (s : Ingester) : PushTask * Ingester :=
  match fuel with
  | O => (t, s)
  | S fuel => match task_step a t s with Some (t, s) => run_alone fuel t s | None => (t, s) end
  end.

Lemma run_alone_steps fuel t s l :
  rtc step {| tk_shared := s; tk_tasks := t :: l |}
    {| tk_shared := (run_alone fuel t s).2; tk_tasks := (run_alone fuel t s).1 :: l |}.
Proof.
  revert t s; induction fuel as [|fuel IH]; intros t s; [apply rtc_refl|]. cbn [run_alone].
  destruct (task_step a t s) as [[t' s']|] eqn:E; [|apply rtc_refl].
  eapply rtc_l; [exact (StepTask a s [] t l t' s' E)|apply IH].
Qed.

Lemma alone_once x y z : alone x y -> rtc alone y z -> rtc alone x z.
Proof. apply rtc_l. Qed.

Ltac alone_step := eapply alone_once; [unfold alone, task_step; cbn; reflexivity|].

Lemma alone_upload v retries t s res g' :
  pk_stage t = PutOutboard v retries -> upload prefix v (nd_ingest (in_node s)) = (res, g') ->
  rtc alone (t, s)
    match res with
    | Ok _ => (at_stage (Leaving true) t, spawn_removal (vd_path v) (set_store g' s))
    | Err _ => upload_failed v retries t (set_store g' s)
    end.
Proof.
  intros Hst H. destruct t as [c h o st]. cbn in Hst. subst st.
  unfold upload, upload_blob, on_bucket, comp_map_err, zoom, mbind, comp_bind in H.
  destruct (put_outboard _ _ _ _) as [[[]|e] b1] eqn:E1; cbn in H.
  2: { injection H as <- <-. eapply alone_once; [unfold alone, task_step; cbn; by rewrite E1|]. constructor. }
  eapply alone_once; [unfold alone, task_step; cbn; by rewrite E1|].
  destruct (blob_size _ _ b1) as [[[z|]|e] b2] eqn:E2; cbn in H.
  3: { injection H as <- <-. eapply alone_once; [unfold alone, task_step; cbn; by rewrite E2|]. constructor. }
  - eapply alone_once; [unfold alone, task_step; cbn; by rewrite E2|].
    destruct (upload_manifest _ _ _) as [r3 g3] eqn:E3. pose proof (upload_manifest_effect _ _ _ _ _ E3) as (-> & _).
    cbn in H. injection H as <- <-. eapply alone_once; [unfold alone, task_step; cbn; by rewrite E3|]. constructor.
  - eapply alone_once; [unfold alone, task_step; cbn; by rewrite E2|].
    destruct (put_blob_file _ _ _ _ b2) as [[[]|e] b3] eqn:E3; cbn in H.
    2: { injection H as <- <-. eapply alone_once; [unfold alone, task_step; cbn; by rewrite E3|]. constructor. }
    eapply alone_once; [unfold alone, task_step; cbn; by rewrite E3|].
    destruct (upload_manifest _ _ _) as [r4 g4] eqn:E4. pose proof (upload_manifest_effect _ _ _ _ _ E4) as (-> & _).
    cbn in H. injection H as <- <-. eapply alone_once; [unfold alone, task_step; cbn; by rewrite E4|]. constructor.
Qed.

Lemma alone_uploads v retries t s stored g' :
  pk_stage t = PutOutboard v retries -> upload_tries prefix retries v (nd_ingest (in_node s)) = (stored, g') ->
  rtc alone (t, s) (at_stage (Leaving stored) t, spawn_removal (vd_path v) (set_store g' s)).
Proof.
  revert t s; induction retries as [|retries IH]; intros t s Hst H; cbn [upload_tries] in H;
    destruct (upload prefix v _) as [[x|e] g1] eqn:E;
    pose proof (alone_upload v _ t s _ _ Hst E) as Hup; cbn in Hup.
  1,3: by injection H as <- <-.
  - by injection H as <- <-.
  - etrans; [done|]. by apply (IH (at_stage (PutOutboard v retries) t) (set_store g1 s)).
Qed.
(** A failed validation: its scratch file, if there is one, is to be removed. *)
Definition given_up (sc : Scratch) (s s' : Ingester) : Prop :=
  s' = s /\ sc = ig_scratch (nd_ingest (in_node s))
  \/ exists path sc', s' = spawn_removal path (set_store (set_scratch sc' (nd_ingest (in_node s))) s) /\ sc = scratch_drop path sc'.

Lemma alone_validate t s r sc :
  pk_stage t = Permitted ->
  validate_from_store (FS := an_store a) read_file scratch_dir config (pk_hash t) (ig_scratch (nd_ingest (in_node s))) = (r, sc) ->
  match r with
  | Ok (Some v) => rtc alone (t, s) (at_stage (PutOutboard v UPLOAD_RETRIES) t, set_store (set_scratch sc (nd_ingest (in_node s))) s)
  | _ => exists s', rtc alone (t, s) (at_stage (Leaving false) t, s') /\ given_up sc s s'
  end.
Proof.
  intros Hst H. destruct t as [c h o st]. cbn in Hst, H. subst st. unfold validate_from_store, mbind, comp_bind, lift in H.
  destruct (fs_observe h) as [[size complete]|] eqn:E0.
  2: { injection H as <- <-. exists s. split; [|by left]. eapply alone_once; [unfold alone, task_step; cbn; by rewrite E0|]. constructor. }
  destruct (check_blob_size size config) as [[]|e] eqn:E1; cbn in H.
  2: { injection H as <- <-. exists s. split; [|by left]. eapply alone_once; [unfold alone, task_step; cbn; by rewrite E0, E1|]. constructor. }
  destruct complete; cbn in H.
  2: { injection H as <- <-. exists s. split; [|by left]. eapply alone_once; [unfold alone, task_step; cbn; by rewrite E0, E1|]. constructor. }
  set (path := scratch_path _ _ _) in *. set (sc1 := {| sc_next := _ |}) in *.
  assert (forall z, rtc alone ({| pk_connection := c; pk_hash := h; pk_owner := o; pk_stage := Exporting path |},
      set_store (set_scratch sc1 (nd_ingest (in_node s))) s) z ->
      rtc alone ({| pk_connection := c; pk_hash := h; pk_owner := o; pk_stage := Permitted |}, s) z) as Hgo.
  { intros z. apply alone_once. unfold alone, task_step. cbn. by rewrite E0, E1. }
  unfold validate_scratch, mbind, comp_bind, get, lift, mret, comp_ret in H.
  destruct (export_to h path sc1) as [[size'|e] sc2] eqn:E2; cbn in H.
  2: { injection H as <- <-. eexists. split; [apply Hgo; eapply alone_once; [unfold alone, task_step; cbn; by rewrite E2|constructor]|].
       right. by eexists path, sc2. }
  assert (forall z, rtc alone ({| pk_connection := c; pk_hash := h; pk_owner := o; pk_stage := Validating path size' |},
      set_store (set_scratch sc2 (nd_ingest (in_node s))) s) z ->
      rtc alone ({| pk_connection := c; pk_hash := h; pk_owner := o; pk_stage := Permitted |}, s) z) as Hgo2.
  { intros z Hz. apply Hgo. eapply alone_once; [unfold alone, task_step; cbn; by rewrite E2|done]. }
  destruct (validate_file _ _ _ _ _) as [manifest|e] eqn:E3; cbn in H.
  2: { injection H as <- <-. eexists. split; [apply Hgo2; eapply alone_once; [unfold alone, task_step; cbn; by rewrite E3|constructor]|].
       right. by eexists path, sc2. }
  destruct (outboard_file _ _ _ _) as [ob|e] eqn:E4; cbn in H; injection H as <- <-.
  - apply Hgo2. eapply alone_once; [unfold alone, task_step; cbn; by rewrite E3|].
    eapply alone_once; [unfold alone, task_step; cbn; by rewrite E4|]. constructor.
  - eexists. split; [apply Hgo2; eapply alone_once; [unfold alone, task_step; cbn; by rewrite E3|];
      eapply alone_once; [unfold alone, task_step; cbn; by rewrite E4|constructor]|].
    right. by eexists path, sc2.
Qed.

(** The end of a task. *)
Lemma alone_unstage t s b :
  pk_stage t = Unstaging b ->
  exists s', rtc alone (t, s) (at_stage (Ended PushOk b) t, s') /\ in_permits s' = in_permits s /\ in_removals s' = in_removals s
    /\ in_node s' = (let n := set_staging (drop_push (pk_hash t) (nd_staging (in_node s))) (in_node s) in
         match b, pk_owner t with
         | true, Some (subject, endpoint) =>
             set_ingest (record_owner prefix (pk_hash t) subject endpoint (w_at (an_world a)) (nd_ingest n)) n
         | _, _ => n
         end).
Proof.
  intros Hst. destruct t as [c h o st]. cbn in Hst. subst st.
  destruct b; [destruct o as [[subject endpoint]|]|].
  - eexists. split; [alone_step; alone_step; constructor|]. by cbn.
  - eexists. split; [alone_step; constructor|]. by cbn.
  - eexists. split; [alone_step; constructor|]. by cbn.
Qed.

Lemma alone_leave t s b :
  pk_stage t = Leaving b -> rtc alone (t, s) (at_stage (Unstaging b) t, set_permits (S (in_permits s)) s).
Proof. intros Hst. destruct t as [c h o st]. cbn in Hst. subst st. alone_step. constructor. Qed.

(** The looks at the store. *)
Lemma alone_look t s attempts looks :
  pk_stage t = Looking looks -> (attempts + looks = OBSERVE_ATTEMPTS)%nat ->
  rtc alone (t, s) (at_stage (if await_complete attempts looks (w_observed (an_world a)) then Queued else Unstaging false) t, s).
Proof.
  revert t looks; induction attempts as [|attempts IH]; intros [c h o st] looks Hst Hl; cbn in Hst; subst st.
  - eapply alone_once; [unfold alone, task_step; cbn [pk_stage fst snd]; rewrite (proj2 (Nat.ltb_ge _ _)) by lia; reflexivity|]. constructor.
  - cbn [await_complete].
    eapply alone_once; [unfold alone, task_step; cbn [pk_stage fst snd]; rewrite (proj2 (Nat.ltb_lt _ _)) by lia; reflexivity|].
    destruct (w_observed (an_world a) looks) as [[]|e]; [constructor| |constructor].
    apply (IH {| pk_stage := Looking (S looks) |} (S looks)); [done|lia].
Qed.
(** Waiting and ingesting, from the first look to the end of the ingest. *)
Lemma alone_ingest t s stored g' :
  pk_stage t = Looking 0 -> (0 < in_permits s)%nat -> in_removals s = [] ->
  ingest_stored (FS := an_store a) read_file prefix scratch_dir config (pk_hash t) (w_observed (an_world a)) (nd_ingest (in_node s)) = (stored, g') ->
  exists s', rtc alone (t, s) (at_stage (Unstaging stored) t, s') /\ in_permits s' = in_permits s
    /\ nd_gate (in_node s') = nd_gate (in_node s) /\ nd_staging (in_node s') = nd_staging (in_node s)
    /\ exists g, nd_ingest (in_node s') = g
       /\ g' = foldr (fun p g => set_scratch (scratch_drop p (ig_scratch g)) g) g (in_removals s').
Proof.
  intros Hst Hp Hr H. unfold ingest_stored in H.
  pose proof (alone_look t s OBSERVE_ATTEMPTS 0 Hst ltac:(lia)) as Hl.
  destruct (await_complete _ _ _); cbn [negb] in H.
  2: { injection H as <- <-. exists s. split_and!; try done. eexists. by rewrite Hr. }
  set (t1 := at_stage Permitted t). set (s1 := set_permits (pred (in_permits s)) s).
  assert (rtc alone (t, s) (t1, s1)) as H1.
  { etrans; [done|]. eapply alone_once; [|constructor]. unfold alone, task_step. cbn [fst snd at_stage pk_stage]. unfold t1, s1.
    by destruct (in_permits s); [lia|]. }
  destruct (validate_from_store _ _ _ _ _) as [r sc] eqn:Ev.
  pose proof (alone_validate t1 s1 r sc eq_refl Ev) as Hv.
  assert (forall s2 b, rtc alone (t, s) (at_stage (Leaving b) t, s2) ->
    rtc alone (t, s) (at_stage (Unstaging b) t, set_permits (S (in_permits s2)) s2)) as Hleave.
  { intros s2 b Hs2. etrans; [done|]. by apply (alone_leave (at_stage (Leaving b) t)). }
  destruct r as [[v|]|e].
  - destruct (upload_tries _ _ _ _) as [ok g1] eqn:Eu. injection H as <- <-.
    pose proof (alone_uploads v UPLOAD_RETRIES (at_stage (PutOutboard v UPLOAD_RETRIES) t)
      (set_store (set_scratch sc (nd_ingest (in_node s))) s1) ok g1 eq_refl Eu) as Hu.
    eexists. split; [apply Hleave; etrans; [apply H1|]; etrans; [apply Hv|]; apply Hu|].
    split_and!; try done; [cbn; lia|]. eexists. split; [done|]. cbn. by rewrite Hr.
  - destruct Hv as (s2 & Hs2 & Hup). injection H as <- <-.
    exists (set_permits (S (in_permits s2)) s2). split; [apply Hleave; etrans; [apply H1|]; done|].
    destruct Hup as [[-> ->]|(path & sc' & -> & ->)]; cbn; (split_and!; try done; [lia|]); eexists; (split; [done|]); rewrite Hr; cbn; [|done].
    by destruct (nd_ingest (in_node s)).
  - destruct Hv as (s2 & Hs2 & Hup). injection H as <- <-.
    exists (set_permits (S (in_permits s2)) s2). split; [apply Hleave; etrans; [apply H1|]; done|].
    destruct Hup as [[-> ->]|(path & sc' & -> & ->)]; cbn; (split_and!; try done; [lia|]); eexists; (split; [done|]); rewrite Hr; cbn; [|done].
    by destruct (nd_ingest (in_node s)).
Qed.
Abbreviation drop_all g rs := (foldr (fun p x => set_scratch (scratch_drop p (ig_scratch x)) x) g rs).

Lemma settled_ingest s : settled s = set_ingest (drop_all (nd_ingest (in_node s)) (in_removals s)) (in_node s).
Proof.
  unfold settled. induction (in_removals s) as [|p rs IH]; cbn; [by destruct (in_node s)|]. by rewrite IH.
Qed.

Lemma record_owner_dropped hash subject endpoint at_ g rs :
  drop_all (record_owner prefix hash subject endpoint at_ g) rs = record_owner prefix hash subject endpoint at_ (drop_all g rs).
Proof.
  assert (forall g rs, ig_bucket (drop_all g rs) = ig_bucket g) as Hb by (intros g' rs'; by induction rs').
  induction rs as [|p rs IH]; [done|]. cbn. rewrite IH. unfold record_owner. by cbn.
Qed.

(** C30: A push task that runs alone does what [push_task] says of a push:
    taken from its event step by step, with a permit free, it comes to its
    end with the same answer and the same outcome, and once its scratch file
    is removed it leaves the gate, the staging, the scratch directory and the
    bucket as [push_task] does, and the permit free again. *)
Theorem alone_is_push_task connection_id hash s ans ingested flight ended :
  (0 < in_permits s)%nat -> in_removals s = [] ->
  push_task (FS := an_store a) read_file prefix scratch_dir config (an_world a) connection_id hash true (in_node s)
    = (ans, ingested, flight, ended) ->
  exists t' s', rtc alone (new_task connection_id hash, s) (t', s')
    /\ pk_stage t' = Ended ans ingested /\ settled s' = ended /\ in_permits s' = in_permits s.
Proof.
  intros Hp Hr H. unfold push_task in H.
  destruct (admit_push (an_world a) connection_id hash true (in_node s)) as [[owner|] n] eqn:Ea.
  2: { injection H as <- <- <- <-. eexists _, _. split; [eapply alone_once; [unfold alone, task_step; cbn [fst snd new_task pk_stage pk_connection pk_hash]; by rewrite Ea|constructor]|].
       split_and!; try done. by rewrite settled_ingest; cbn; rewrite Hr; destruct n. }
  set (n1 := set_staging _ n) in *. set (t1 := at_stage Transferring (owned_by owner (new_task connection_id hash))).
  assert (rtc alone (new_task connection_id hash, s) (t1, set_node n1 s)) as H1.
  { eapply alone_once; [unfold alone, task_step; cbn [fst snd new_task pk_stage pk_connection pk_hash]; by rewrite Ea|constructor]. }
  destruct (wait_and_ingest _ _ _ _ _ _ _) as [stored g] eqn:Ew.
  assert (exists s2, rtc alone (t1, set_node n1 s) (at_stage (Unstaging stored) t1, s2) /\ in_permits s2 = in_permits s
    /\ nd_gate (in_node s2) = nd_gate n1 /\ nd_staging (in_node s2) = nd_staging n1
    /\ g = drop_all (nd_ingest (in_node s2)) (in_removals s2)) as (s2 & H2 & Hp2 & Hg2 & Hs2 & Hi2).
  { unfold wait_and_ingest in Ew. destruct (await_transfer (w_events (an_world a))) eqn:Et.
    - destruct (alone_ingest (at_stage (Looking 0) t1) (set_node n1 s) stored g eq_refl Hp Hr Ew) as (s2 & H2 & ? & ? & ? & g2 & <- & ?).
      exists s2. split_and!; try done. eapply alone_once; [unfold alone, task_step; cbn; by rewrite Et|done].
    - injection Ew as <- <-. exists (set_node n1 s). split_and!; try done; [|by cbn; rewrite Hr].
      eapply alone_once; [unfold alone, task_step; cbn; by rewrite Et|constructor]. }
  destruct (alone_unstage (at_stage (Unstaging stored) t1) s2 stored eq_refl) as (s3 & H3 & Hp3 & Hr3 & Hn3).
  exists (at_stage (Ended PushOk stored) t1), s3.
  injection H as <- <- <- <-. split_and!; [by etrans; [apply H1|]; etrans; [apply H2|]|done| |congruence].
  rewrite settled_ingest, Hr3, Hn3. cbn [pk_owner pk_hash at_stage t1 owned_by new_task].
  destruct stored; [destruct owner as [[subject endpoint]|]|]; cbn; rewrite ?record_owner_dropped, <- Hi2;
    unfold set_ingest, set_staging; cbn; by rewrite Hg2, Hs2.
Qed.
End Alone.
End Task.

(** ** Witnesses *)

Module PushSample.
#[local] Existing Instance bit_serde.
#[local] Existing Instance plain_hex.
#[local] Existing Instance toy_blake3.
#[local] Existing Instance GateSample.iroh.
#[local] Existing Instance GateSample.sealed.
#[local] Existing Instance IngestSample.tdf.
#[local] Existing Instance IngestSample.zip.
#[local] Existing Instance IngestSample.bao.
#[local] Existing Instance IngestSample.s3.

#[local] Instance hex_inj : Inj (=) (=) hex_encode.
Proof.
  intros x y H. pose proof (decode_encode_hex x) as Hx. pose proof (decode_encode_hex y) as Hy.
  change (encode_hex x = encode_hex y) in H. rewrite H, Hy in Hx. by injection Hx.
Qed.

Abbreviation steps_of := (step IngestSample.no_files "" "/scratch" IngestSample.config).

Definition answered : answers := {| an_world := NodeSample.events; an_store := IngestSample.store |}.

Abbreviation run := (run_alone IngestSample.no_files "" "/scratch" IngestSample.config answered).
Abbreviation run_steps := (run_alone_steps IngestSample.no_files "" "/scratch" IngestSample.config answered).

(** A node with one permit, on which one push was ingested while another of
    the same hash waits for the permit. *)
Definition shared0 : Ingester := {| in_node := NodeSample.start; in_permits := 1; in_removals := []; in_left := [] |}.
Definition T0 : Tasks := {| tk_shared := shared0; tk_tasks := [] |}.
Definition waiting : PushTask * Ingester := run 3 (new_task 7 "h") shared0.
Definition ingested : PushTask * Ingester := run 31 (new_task 7 "h") waiting.2.
Definition T1 : Tasks := {| tk_shared := ingested.2; tk_tasks := [ingested.1; waiting.1] |}.

Lemma pushes_start : starts 1 T0.
Proof.
  split_and!; try reflexivity. eapply staged_step; [|apply (StepAttach _ _ 0)]. apply staged_new.
Defined.

Lemma pushes_reached : rtc steps_of T0 T1.
Proof.
  eapply rtc_l; [exact (StepPush _ _ _ _ shared0 [] 7 "h")|].
  etransitivity; [exact (run_steps 3 (new_task 7 "h") shared0 [])|].
  eapply rtc_l; [exact (StepPush _ _ _ _ waiting.2 [waiting.1] 7 "h")|].
  exact (run_steps 31 (new_task 7 "h") waiting.2 [waiting.1]).
Defined.

Lemma push_resources_bounded_witness :
  pk_stage waiting.1 = Looking 1 /\ pk_stage ingested.1 = Ended PushOk true
  /\ (in_permits (tk_shared T1) + length (holders (tk_tasks T1)) = 1)%nat
  /\ pending (nd_staging (in_node (tk_shared T1))) !! "h" = Some 1%nat.
Proof.
  split_and!; [vm_compute; reflexivity|vm_compute; reflexivity|..].
  - exact (proj1 (push_resources_bounded IngestSample.no_files "" "/scratch" IngestSample.config 1 T0 T1 pushes_start pushes_reached)).
  - destruct (push_resources_bounded IngestSample.no_files "" "/scratch" IngestSample.config 1 T0 T1 pushes_start pushes_reached)
      as (_ & _ & H & _). rewrite H. vm_compute. reflexivity.
Defined.

Lemma concurrent_pushes_sound_witness :
  stored "" (objects (ig_bucket (nd_ingest (in_node (tk_shared T1))))) "h".
Proof.
  destruct (concurrent_pushes_sound IngestSample.no_files "" "/scratch" IngestSample.config 1 T0 T1 pushes_start pushes_reached)
    as (_ & _ & _ & _ & H).
  assert (pk_hash ingested.1 = "h") as <- by (vm_compute; reflexivity).
  apply H; [left|vm_compute; reflexivity].
Defined.

Lemma pushes_end_witness : exists T', rtc (moves IngestSample.no_files "" "/scratch" IngestSample.config) T1 T' /\ quiet T'.
Proof.
  destruct (pushes_end IngestSample.no_files "" "/scratch" IngestSample.config 1 answered T0 T1 pushes_start)
    as (_ & _ & H & _); [lia|exact pushes_reached|exact H].
Defined.

Lemma alone_is_push_task_witness :
  exists t' s' ended, rtc (alone IngestSample.no_files "" "/scratch" IngestSample.config answered) (new_task 7 "h", shared0) (t', s')
    /\ pk_stage t' = Ended PushOk true /\ settled s' = ended.
Proof.
  destruct (push_task (FS := IngestSample.store) IngestSample.no_files "" "/scratch" IngestSample.config NodeSample.events 7 "h" true
    (in_node shared0)) as [[[ans i] flight] ended] eqn:E.
  assert (ans = PushOk /\ i = true) as [-> ->].
  { pose proof (f_equal (fun x => (fst (fst (fst x)), snd (fst (fst x)))) E) as E'. vm_compute in E'.
    injection E' as <- <-. split; reflexivity. }
  destruct (alone_is_push_task IngestSample.no_files "" "/scratch" IngestSample.config answered 7 "h" shared0 PushOk true flight ended)
    as (t' & s' & H1 & H2 & H3 & _); [cbn; lia|reflexivity|exact E|].
  exists t', s', ended. split_and!; [exact H1|exact H2|exact H3].
Defined.
End PushSample.
