(* ===== verification/EndToEnd.v ===== *)
(** * From a push to a fetch

    What the parts guarantee together: the bytes a push stored are the bytes a
    fetch of their hash sends, and what else writes the bucket keeps within
    what the push tasks rely on. The two uses of bao-tree, creating an
    outboard for ingest and serving with one, are linked by what the crate
    documents of both. *)

From S2P Require Import Prelude Bytes Identifiers Json Extern Samples S3Store Auth Authz EntityChain PublishDecision Moderation PublishGate Validation Ingest S3Reader S3Serve Staging Node PushTasks.

(** What bao-tree documents: sizes are unsigned; an outboard has the size its
    tree needs; the encoding of bytes with their own outboard meets no
    mismatch; both ways to create an outboard give the same one; and, BLAKE3
    being collision resistant, a root determines size and outboard. *)
Class BaoTree {BC : BaoCrate} {BS : BaoServe} := {
  bao_size : forall content size root ob, bao_create content size = Some (root, ob) -> (0 <= size)%Z;
  bao_outboard_len : forall content size root ob, bao_create content size = Some (root, ob) ->
    len ob = tree_outboard_size size;
  bao_encodes : forall content size root ob ranges, bao_create content size = Some (root, ob) -> (size <= len content)%Z ->
    fst (memory_encode (String.substring 0 (Z.to_nat size) content) size ob (len ob)
           (encode_ranges_validated root size ranges)) = Ok tt;
  bao_agrees : forall content size root ob, memory_create content size (create_outboard size) = Ok (root, ob) ->
    bao_create content size = Some (root, ob);
  bao_binding : forall c1 s1 c2 s2 root o1 o2, bao_create c1 s1 = Some (root, o1) -> bao_create c2 s2 = Some (root, o2) ->
    String.substring 0 (Z.to_nat s1) c1 = String.substring 0 (Z.to_nat s2) c2 /\ o1 = o2
}.

(** ** Fetches of what is stored *)

Section Fetch.
Context {S3 : S3Service} {TR : Transport} {BS : BaoServe} {HX : Hex} {BL : BaoServeLaws} (prefix : string).

(** A request for what can be fetched is answered in full. *)
Lemma stream_live view now request wanted svs permits g :
  asks request = Some wanted -> permits <> 0%nat -> faultless -> (forall a b, peer_fails a b = None) ->
  coherent prefix (sg_server g) (objects (sg_bucket g)) ->
  Forall2 (fetchable prefix view (sg_server g) (objects (sg_bucket g))) wanted svs ->
  exists g', stream prefix view now request permits g = (Finished, responses prefix (objects (sg_bucket g)) (zip wanted svs), g').
Proof.
  intros Hq Hp Hf Hpeer Hco Hfe.
  assert (stream prefix view now request permits g = serve prefix view now wanted permits g) as ->.
  { unfold stream, asks in *. fold MAX_FETCH_HASHES in Hq. repeat case_match; simplify_eq; done. }
  unfold serve. destruct (Nat.eqb_spec permits 0); [done|].
  destruct (check_all_live prefix view now _ 0 wanted svs g (proj1 Hf) eq_refl Hco Hfe) as (g1 & E). rewrite E.
  destruct (check_all_allowed prefix view now 0 wanted (sg_server g) (objects (sg_bucket g)) g _ _
    (conj eq_refl (fun h sv Hx => or_introl Hx)) eq_refl E) as [Hm _].
  destruct (send_all prefix (zip wanted svs) "" g1) as [[rep out] g'] eqn:Es.
  pose proof (send_all_live prefix view _ _ wanted svs "" g1 Hf Hpeer Hm Hfe) as Hfin. rewrite Es in Hfin. cbn in Hfin. subst rep.
  apply (send_all_sent prefix (objects (sg_bucket g))) in Es as (_ & p & -> & _ & -> & _); [|done]. by exists g'.
Qed.
End Fetch.

(** ** The bucket *)

Section Bucket.
Context {SJ : Serde} {HX : Hex} {B3 : Blake3} {SF : SealedFormat} {IR : Iroh}.
Context {TC : TdfCrate} {ZC : ZipCrate} {BC : BaoCrate} {S3 : S3Service} {BS : BaoServe} {BT : BaoTree} {BL : BaoServeLaws}.
Context {Hinj : Inj (=) (=) hex_encode}.
Context (read_file : string -> result string string) (prefix scratch_dir : string) (config : ValidationConfig).

(** Blobs are named by their hash, and outboards belong to theirs. *)
Definition true_to_name (m : gmap string object) : Prop :=
  (forall hash o, m !! blob_key prefix (hex_encode hash) = Some o ->
     exists content size ob, bao_create content size = Some (hash, ob) /\ (size <= len content)%Z
       /\ obj_body o = String.substring 0 (Z.to_nat size) content)
  /\ (forall hash o, m !! outboard_key prefix (hex_encode hash) = Some o -> right_outboard hash (obj_body o)).

Abbreviation objs_of T := (objects (ig_bucket (nd_ingest (in_node (tk_shared T))))).

Lemma true_to_name_reached max T0 T :
  starts max T0 -> rtc (step read_file prefix scratch_dir config) T0 T ->
  true_to_name (objs_of T0) -> true_to_name (objs_of T).
Proof.
  intros Hs Hrt [Hb0 Ho0]. destruct (reached read_file prefix scratch_dir config T0 max T Hs Hrt) as [_ [_ _ _ H4 _ H6 _]].
  split; intros hash o Ho.
  - destruct (H4 _ _ Ho) as [?|((content & size & ob & bad & manifest & _ & Hb & Hl & ->) & _)]; [by eapply Hb0|].
    by exists content, size, ob.
  - destruct (H6 _ _ Ho) as [?|(ob & Hr & ->)]; [by eapply Ho0|done].
Qed.

(** A stored hash can be fetched in full. *)
Lemma stored_fetchable m hash ranges view s :
  true_to_name m -> stored prefix m hash -> blocked view hash = false -> (hash ∉ corrupt s) ->
  exists content size ob sv, bao_create content size = Some (hash, ob) /\ (size <= len content)%Z
    /\ fetchable prefix view s m (hash, ranges) sv
    /\ sv_size sv = size
    /\ encoding prefix m hash sv ranges
       = memory_encode (String.substring 0 (Z.to_nat size) content) size ob (len ob) (encode_ranges_validated hash size ranges).
Proof.
  intros [Hb Ho] [[o Hlo] [x Hlx]] Hbl Hc. destruct (Hb _ _ Hlo) as (content & size & ob & Hcr & Hl & Hbody).
  destruct (Ho _ _ Hlx) as (c' & s' & Hcr'). destruct (bao_binding _ _ _ _ _ _ _ Hcr Hcr') as [_ Hob].
  pose proof (bao_size _ _ _ _ Hcr) as Hsz. pose proof (bao_outboard_len _ _ _ _ Hcr) as Hlen.
  assert (len (obj_body o) = size) as Hsize.
  { rewrite Hbody. unfold len in *. rewrite substring_length. lia. }
  exists content, size, ob, {| sv_size := size; sv_object := Blob |}.
  assert (located prefix m hash = Some {| sv_size := size; sv_object := Blob |}) as Hloc.
  { unfold located. by rewrite Hlo, Hsize. }
  assert (encoding prefix m hash {| sv_size := size; sv_object := Blob |} ranges
    = memory_encode (String.substring 0 (Z.to_nat size) content) size ob (len ob) (encode_ranges_validated hash size ranges)) as Henc.
  { unfold encoding, body_at. cbn. rewrite Hlo, Hlx, Hbody, <- Hob, <- Hlen. done. }
  split_and!; try done. unfold fetchable. cbn [fst snd]. split_and!; try done.
  - intros _. unfold outboard_len. cbn. rewrite Hlx. cbn. by rewrite <- Hob, Hlen.
  - rewrite Henc. by apply bao_encodes.
Qed.

(** ** What else writes the bucket *)

Abbreviation elsewhere := (PushTasks.elsewhere prefix).

Lemma elsewhere_refl m : elsewhere m m.
Proof. split_and!; auto. Qed.

Lemma elsewhere_trans m1 m2 m3 : elsewhere m1 m2 -> elsewhere m2 m3 -> elsewhere m1 m3.
Proof.
  intros (A1 & A2 & A3) (Hb & Hp & Ho). split_and!; intros hash; [by rewrite Hb|by rewrite Hp|].
  destruct (Ho hash) as [->|?]; [apply A3|by right].
Qed.

(** Every object that is not a blob, an outboard or a publisher record. *)
Lemma elsewhere_family f id x (m : gmap string object) :
  family_ok f -> f <> Blobs -> f <> Outboards -> f <> Records PUBLISHERS -> elsewhere m (<[family_key prefix f id := x]> m).
Proof.
  intros Hf H1 H2 H3. split_and!; intros hash.
  - apply lookup_insert_ne. intros E. by apply (family_key_inj prefix f Blobs) in E as [? _].
  - apply lookup_insert_ne. intros E. by apply (family_key_inj prefix f (Records PUBLISHERS)) in E as [? _].
  - left. apply lookup_insert_ne. intros E. by apply (family_key_inj prefix f Outboards) in E as [? _].
Qed.

(** The outboard the server computes for a blob that lacks one. *)
Lemma backfill_elsewhere {TR : Transport} hash size_ object_ b r b' :
  compute_outboard prefix hash size_ object_ b = (r, b') -> elsewhere (objects b) (objects b').
Proof.
  unfold compute_outboard. intros H. apply comp_bind_state in H as [([actual ob] & b1 & H1 & H)|(e & H1 & ->)];
    unfold on_reader in H1; destruct (run_create _ _) as [r1 g1] eqn:E;
    apply (run_create_ok (objects b) (data_key prefix object_ (hex_encode hash)) size_) in E as ((_ & _ & Ho & _) & Hm);
    try apply create_law; try (by apply reader_new_reads); injection H1 as Hr1 Hb1; cbn in Ho.
  2: { rewrite <- Hb1, Ho. apply elsewhere_refl. }
  rewrite Hb1 in Ho. rewrite <- Ho. specialize (Hm _ Hr1). case_bool_decide as Ea; cbn [negb] in H.
  2: { injection H as <- <-. apply elsewhere_refl. }
  subst actual. apply comp_bind_state in H as [([] & b2 & H2 & H)|(e & H2 & ->)]; [injection H as <- <-|];
    (destruct object_; apply put_context_effect in H2 as [[-> _]| ->]; [apply elsewhere_refl| |apply elsewhere_refl|]).
  2, 4: by apply (elsewhere_family CatalogOutboards).
  all: split_and!; intros hash'; [apply lookup_insert_ne; intros E; by apply (family_key_inj prefix Outboards Blobs) in E as [? _]
    |apply lookup_insert_ne; intros E; by apply (family_key_inj prefix Outboards (Records PUBLISHERS)) in E as [? _]|].
  all: destruct (decide (hash' = hash)) as [->|Hne];
    [right; exists ob; split; [by eexists _, _; apply bao_agrees|by rewrite lookup_insert_eq]
    |left; apply lookup_insert_ne; intros E; apply (family_key_inj prefix Outboards Outboards) in E as [_ E]; [|done..];
     by apply (inj hex_encode) in E].
Qed.

(** ** Theorem *)

(** The node is up, and a push of [hash] has ended as ingested. *)
Definition ingested_by (T0 T : Tasks) (hash : bytes) : Prop :=
  (exists max, starts max T0) /\ true_to_name (objs_of T0) /\ rtc (step read_file prefix scratch_dir config) T0 T
  /\ exists t, t ∈ tk_tasks T /\ pk_hash t = hash /\ pk_stage t = Ended PushOk true.

(** The node serves from the bucket as the tasks left it, may serve [hash],
    and its store and the fetcher do not fail. *)
Definition serves {S3f : S3Service} {TR : Transport} (T : Tasks) (view : option Moderation) (permits : nat) (g : Serving)
    (hash : bytes) : Prop :=
  objects (sg_bucket g) = objs_of T /\ coherent prefix (sg_server g) (objs_of T)
  /\ blocked view hash = false /\ (hash ∉ corrupt (sg_server g)) /\ permits <> 0%nat
  /\ faultless (S3 := S3f) /\ (forall a b, peer_fails a b = None).

Lemma ingested_answered {S3f : S3Service} {TR : Transport} T0 T hash ranges view now permits g :
  ingested_by T0 T hash -> serves (S3f := S3f) T view permits g hash ->
  exists content size ob g', bao_create content size = Some (hash, ob) /\ (size <= len content)%Z
    /\ stream (S3 := S3f) prefix view now (Get hash (Some (0%Z, ranges))) permits g
       = (Finished,
          to_le_bytes 8 size
            +:+ snd (memory_encode (String.substring 0 (Z.to_nat size) content) size ob (len ob)
                      (encode_ranges_validated hash size ranges)),
          g').
Proof.
  intros ([max Hs] & Htrue & Hrt & t & Ht & <- & Hst) (Hg & Hco & Hbl & Hc & Hp & Hf & Hpeer).
  assert (stored prefix (objs_of T) (pk_hash t)) as Hstored.
  { destruct (reached (S3 := S3) read_file prefix scratch_dir config T0 max T Hs Hrt) as [_ [_ H2 _ _ _ _ _]].
    rewrite Forall_forall in H2. specialize (H2 t Ht). unfold task_ok in H2. by rewrite Hst in H2. }
  destruct (stored_fetchable (objs_of T) (pk_hash t) ranges view (sg_server g)) as (content & size & ob & sv & Hcr & Hl & Hfe & Hsz & Henc);
    [apply (true_to_name_reached max T0 T Hs Hrt Htrue)|done..|].
  destruct (stream_live (S3 := S3f) prefix view now (Get (pk_hash t) (Some (0%Z, ranges))) [(pk_hash t, ranges)] [sv] permits g)
    as (g' & E); [done..|by rewrite Hg|rewrite Hg; by constructor|].
  exists content, size, ob, g'. split_and!; try done. rewrite E, Hg. cbn. rewrite Henc, Hsz, string_app_nil_r. done.
Qed.

(** C2: What was pushed is what is fetched. Once a push task has ended as
    ingested, however many others ran beside it and whatever the store
    answered them, a fetch of its hash that the node may serve is answered in
    full: the size, then the encoding of the bytes that have this hash with
    their own outboard, which are the bytes pushed, no others having it. The
    bucket is assumed true to its names when the node came up, and the store
    without faults during the fetch. *)
Theorem pushed_is_fetched {S3f : S3Service} {TR : Transport} T0 T hash ranges view now permits g :
  ingested_by T0 T hash -> serves (S3f := S3f) T view permits g hash ->
  exists content size ob g', bao_create content size = Some (hash, ob) /\ (size <= len content)%Z
    /\ stream (S3 := S3f) prefix view now (Get hash (Some (0%Z, ranges))) permits g
       = (Finished,
          to_le_bytes 8 size
            +:+ snd (memory_encode (String.substring 0 (Z.to_nat size) content) size ob (len ob)
                      (encode_ranges_validated hash size ranges)),
          g')
    /\ (forall c z o, bao_create c z = Some (hash, o) ->
          String.substring 0 (Z.to_nat z) c = String.substring 0 (Z.to_nat size) content).
Proof.
  intros Hi Hs. destruct (ingested_answered T0 T hash ranges view now permits g Hi Hs) as (content & size & ob & g' & Hcr & Hl & E).
  exists content, size, ob, g'. split_and!; try done. intros c z o Hc'. by destruct (bao_binding _ _ _ _ _ _ _ Hc' Hcr).
Qed.
End Bucket.

(** ** Witness *)

Module EndToEndSample.
#[local] Existing Instance bit_serde.
#[local] Existing Instance plain_hex.
(** A hash that is the data. *)
#[local] Instance plain_blake3 : Blake3 :=
  {| blake3_hash := fun b => b; blake3_keyed_hash := blake3_keyed_hash (Blake3 := toy_blake3);
     blake3_derive_key := blake3_derive_key (Blake3 := toy_blake3) |}.
#[local] Existing Instance GateSample.iroh.
#[local] Existing Instance GateSample.sealed.
#[local] Existing Instance IngestSample.tdf.
#[local] Existing Instance IngestSample.zip.
#[local] Existing Instance IngestSample.s3.
#[local] Existing Instance ServeSample.transport.
#[local] Existing Instance PushSample.hex_inj.

(** A tree whose root is the data and whose outboard is one byte. *)
#[local] Instance create : BaoCrate :=
  {| bao_create := fun content size => if (size <? 0)%Z then None else Some (String.substring 0 (Z.to_nat size) content, "t") |}.
#[local] Instance tree : BaoServe :=
  {| ChunkRanges := unit; ranges_empty := fun _ => false; tree_outboard_size := fun _ => 1%Z;
     create_outboard := fun size => if (size <? 0)%Z then Opened (Err "size") else Reading 0 size (fun b =>
       match b with Ok b => Opened (Ok (b, "t")) | Err e => Opened (Err e) end);
     encode_ranges_validated := fun root size _ =>
       ReadOutboard 0 1 (fun o => match o with
         | Err e => Encoded (Err (EncodeIo e))
         | Ok o => ReadData 0 (Z.to_nat size) (fun d => match d with
             | Err e => Encoded (Err (EncodeIo e))
             | Ok d => if bool_decide (d = root)
                       then WriteBytes (o +:+ d) (fun r => match r with
                              | Ok _ => Encoded (Ok tt) | Err e => Encoded (Err (EncodeIo e)) end)
                       else Encoded (Err (LeafHashMismatch 0))
             end)
         end) |}.

#[local] Instance laws : BaoServeLaws.
Proof.
  split.
  - intros size. cbn. destruct (size <? 0)%Z; [done|]. split_and!; [done|done|]. intros e. by exists e.
  - intros root size ranges. cbn. split; [done|]. split; [|intros e; by exists e]. intros o.
    split; [done|]. split; [|intros e; by exists e]. intros d. case_bool_decide; cbn; [|done].
    split; [done|]. intros e. by exists e.
Defined.

Lemma slice_all content size : (0 <= size)%Z -> slice content size 0 (Z.to_nat size) = String.substring 0 (Z.to_nat size) content.
Proof.
  intros Hs. unfold slice. rewrite Z.sub_0_r, Nat.min_id. destruct (Z.leb_spec size 0) as [|]; cbn.
  - assert (size = 0%Z) as -> by lia. by destruct content.
  - destruct (Nat.eqb_spec (Z.to_nat size) 0) as [->|]; [by destruct content|done].
Qed.

Lemma create_inv content size root ob :
  bao_create content size = Some (root, ob) -> (0 <= size)%Z /\ root = String.substring 0 (Z.to_nat size) content /\ ob = "t".
Proof. cbn. destruct (Z.ltb_spec size 0); [done|]. by intros [= <- <-]. Qed.

Lemma encode_all content size ranges :
  (0 <= size)%Z -> (size <= len content)%Z ->
  let data := String.substring 0 (Z.to_nat size) content in
  memory_encode data size "t" (len "t") (encode_ranges_validated data size ranges) = (Ok tt, "t" +:+ data).
Proof.
  intros Hs Hl. cbv zeta. cbn -[slice String.substring String.append].
  rewrite slice_all by done.
  rewrite (substring_all _ (String.substring 0 (Z.to_nat size) content)) by (rewrite substring_length; lia).
  rewrite bool_decide_true by done. cbn -[String.substring String.append]. by rewrite string_app_nil_r.
Qed.

#[local] Instance tree_laws : BaoTree.
Proof.
  split.
  - by intros content size root ob [? _]%create_inv.
  - by intros content size root ob (_ & _ & ->)%create_inv.
  - intros content size root ob ranges (Hs & -> & ->)%create_inv Hl. by rewrite encode_all.
  - intros content size root ob. cbn -[slice]. destruct (Z.ltb_spec size 0); [done|]. cbn -[slice].
    rewrite slice_all by done. by intros [= <- <-].
  - intros c1 s1 c2 s2 root o1 o2 (_ & -> & ->)%create_inv (_ & E & ->)%create_inv. done.
Defined.

(** A push of "archive", which is its own hash, and then a fetch of it. *)
Abbreviation run := (run_alone IngestSample.no_files "" "/scratch" IngestSample.config PushSample.answered).
Definition done_ : PushTask * Ingester := run 31 (new_task 7 "archive") PushSample.shared0.
Definition T1 : Tasks := {| tk_shared := done_.2; tk_tasks := [done_.1] |}.

Lemma fetch_reached : rtc (step IngestSample.no_files "" "/scratch" IngestSample.config) PushSample.T0 T1.
Proof.
  eapply rtc_l; [exact (StepPush _ _ _ _ PushSample.shared0 [] 7 "archive")|].
  exact (run_alone_steps _ _ _ _ PushSample.answered 31 (new_task 7 "archive") PushSample.shared0 []).
Defined.

Definition serving : Serving :=
  {| sg_server := server_new; sg_bucket := ig_bucket (nd_ingest (in_node (tk_shared T1))) |}.

Definition everything : @ChunkRanges tree := tt.

Lemma archive_ingested : ingested_by IngestSample.no_files "" "/scratch" IngestSample.config PushSample.T0 T1 "archive".
Proof.
  split; [exists 1%nat; exact PushSample.pushes_start|]. split; [split; intros hash o Ho; discriminate Ho|].
  split; [exact fetch_reached|]. exists done_.1. split; [left|]. split; vm_compute; reflexivity.
Defined.

Lemma archive_served : serves (S3f := IngestSample.s3) "" T1 None 1 serving "archive".
Proof.
  split; [reflexivity|]. split; [intros h sv Hx; discriminate Hx|]. split; [reflexivity|].
  split; [apply not_elem_of_empty|]. split; [discriminate|]. split; [exact ServeSample.no_faults|reflexivity].
Defined.

Lemma pushed_is_fetched_witness :
  exists out g', stream "" None (fun _ => 0%Z) (Get "archive" (Some (0%Z, everything))) 1 serving = (Finished, out, g').
Proof.
  destruct (pushed_is_fetched (S3f := IngestSample.s3) IngestSample.no_files "" "/scratch" IngestSample.config
    PushSample.T0 T1 "archive" everything None (fun _ => 0%Z) 1 serving archive_ingested archive_served)
    as (content & size & ob & g' & _ & _ & H & _).
  eexists _, g'. exact H.
Defined.
End EndToEndSample.
