(* ===== verification/ClientNode.v ===== *)
(** * The test client against the node (src/test_cli/iroh_client.rs)

    The requests the client's helpers send, answered by the node of
    [Node.stream], and the whole way of a blob: pushed by one client,
    ingested, and fetched by another. iroh-blobs' remote API (what the client
    makes of a response) and its store are parameters. *)

From S2P Require Import Prelude Bytes Identifiers Json Extern Samples Net S3Store Auth Authz EntityChain PublishDecision Moderation PublishGate ModerationApi Secrets Validation Ingest S3Reader S3Serve Staging Node TestClient PushTasks EndToEnd.

(** ** iroh-blobs' client side *)

Class BlobsClient {BS : BaoServe} := {
  (** [MemStore], which also holds parts of blobs. *)
  ClientStore : Type;
  empty_store : ClientStore;
  store_bytes : ClientStore -> bytes -> option bytes;
  export_ranges : ClientStore -> bytes -> Z * Z -> result string bytes;
  Bitfield : Type;
  (** [ChunkRanges::all()] *)
  all_ranges : ChunkRanges;
  (** [ChunkRangesSeq::from_ranges([r])], as a single blob's ranges *)
  from_ranges : ChunkRanges -> option (Z * ChunkRanges);
  (** [GetManyRequest::from_iter] *)
  get_many_request : list bytes -> list bytes * (nat -> ChunkRanges);
  (** [execute_get] and [execute_get_many]: what the client makes of a
      response. *)
  receive : Request -> reply -> bytes -> ClientStore -> result string unit * ClientStore;
  (** The first item of the observe stream. *)
  observe_answer : reply -> bytes -> option (result string Bitfield)
}.

Section Helpers.
Context {B3 : Blake3} {BS : BaoServe} {CL : BlobsClient}.
Context (connected : result string unit) (node : Request -> reply * bytes).

Definition connect_node : result string unit :=
  map_err (fun e => "Failed to connect to remote node: " +:+ e) connected.

Definition execute (q : Request) : comp ClientStore string unit := fun st =>
  let '(rep, out) := node q in receive q rep out st.

(** [ChunkRangesSeq::all()] is no single blob's. *)
Definition get_hash_seq_from_node (hash : bytes) : comp ClientStore string unit :=
  _ ← lift connect_node;
  comp_map_err (fun e => "Failed to get hash sequence from remote node: " +:+ e) (execute (Get hash None)).

Definition get_ranges_from_node (hash : bytes) (chunks : ChunkRanges) (range : Z * Z) : comp ClientStore string bytes :=
  _ ← lift connect_node;
  _ ← comp_map_err (fun e => "Failed to get ranges from remote node: " +:+ e) (execute (Get hash (from_ranges chunks)));
  st ← get;
  lift (map_err (fun e => "Failed to read fetched ranges from local store: " +:+ e) (export_ranges st hash range)).

(** The blobs, in the order of [hashes]. *)
Fixpoint read_all (hashes : list bytes) (st : ClientStore) : result string (list bytes) :=
  match hashes with
  | [] => Ok []
  | h :: hashes =>
      b ← ok_or (store_bytes st h) "Failed to read fetched blob from local store";
      bs ← read_all hashes st;
      Ok (b :: bs)
  end.

Definition get_many_from_node (hashes : list bytes) : comp ClientStore string (list bytes) :=
  _ ← lift connect_node;
  let '(hs, ranges) := get_many_request hashes in
  _ ← comp_map_err (fun e => "Failed to get blobs from remote node: " +:+ e) (execute (GetMany hs ranges));
  st ← get;
  lift (read_all hashes st).

Definition observe_on_node : result string Bitfield :=
  _ ← connect_node;
  let '(rep, out) := node Observe in
  first ← ok_or (observe_answer rep out) "Observe stream ended without an answer";
  map_err (fun e => "Failed to observe blob on remote node: " +:+ e) first.

(** A push that stopped sending: its hash and the connection it keeps open. *)
Record StalledPush := { sp_hash : bytes }.

(** The push is polled for a while and held; how it went is not looked at. *)
Definition push_to_node_stalled (data : bytes) : comp MemStore string (bytes * StalledPush) :=
  hash ← add_bytes data;
  _ ← lift connect_node;
  mret (hash, {| sp_hash := hash |}).

Definition shutdown : result string unit := Ok tt.

(** [remote().fetch] of a blob the client does not hold. *)
Definition fetch_over (hash : bytes) : result string bytes :=
  match execute (Get hash (Some (0%Z, all_ranges))) empty_store with
  | (Ok _, st) => ok_or (store_bytes st hash) "not in the local store"
  | (Err e, _) => Err e
  end.
End Helpers.

(** What iroh-blobs documents of the client: a reset response is an error, a
    reset observe gives no answer; and a whole blob's response, decoded and
    verified against its root, leaves the blob in the store. *)
Class BlobsClientLaws {BC : BaoCrate} {BS : BaoServe} {CL : BlobsClient} := {
  receive_reset : forall q code out st, is_ok (receive q (ResetWith code) out st).1 = false;
  observe_reset : forall code out b, observe_answer (ResetWith code) out <> Some (Ok b);
  receive_blob : forall content size root ob st,
    bao_create content size = Some (root, ob) -> (size <= len content)%Z ->
    let data := String.substring 0 (Z.to_nat size) content in
    exists st', receive (Get root (Some (0%Z, all_ranges))) Finished
        (to_le_bytes 8 size +:+ snd (memory_encode data size ob (len ob) (encode_ranges_validated root size all_ranges))) st
      = (Ok tt, st')
    /\ store_bytes st' root = Some data
}.

(** ** The node on the other side *)

Section AgainstNode.
Context {HX : Hex} {B3 : Blake3} {S3 : S3Service} {TR : Transport} {BC : BaoCrate} {BS : BaoServe} {CL : BlobsClient}.
Context (prefix : string) (view : option Moderation) (now : nat -> Z) (permits : nat) (g : Serving).

(** The node, one request at a time from the state [g]. *)
Definition the_node (q : Request) : reply * bytes :=
  let '(rep, out, _) := stream prefix view now q permits g in (rep, out).

(** The node as a command of the client meets it; pushes are told how they
    went. *)
Definition node_remote (pushed : bytes -> result string unit) : Remote :=
  {| rm_online := Ok tt; rm_connect := Ok tt; rm_push := pushed; rm_fetch := fetch_over the_node |}.

Lemma execute_refused {CLL : BlobsClientLaws} q code out st :
  the_node q = (ResetWith code, out) -> is_ok (execute the_node q st).1 = false.
Proof. intros H. unfold execute. rewrite H. apply receive_reset. Qed.

(** What the node refuses, the client's helpers report: a hash sequence, more
    than 64 hashes at once, and an observe are errors, whatever the node holds
    and whoever asks. *)
Theorem client_refused {CLL : BlobsClientLaws} connected hash hashes st :
  is_ok (get_hash_seq_from_node connected the_node hash st).1 = false
  /\ is_ok (observe_on_node connected the_node) = false
  /\ ((64 < length (get_many_request hashes).1)%nat -> is_ok (get_many_from_node connected the_node hashes st).1 = false).
Proof.
  split_and!.
  - unfold get_hash_seq_from_node, mbind, comp_bind, lift. destruct (connect_node connected); [|done].
    unfold comp_map_err. pose proof (execute_refused (Get hash None) ERR_PERMISSION "" st eq_refl) as H.
    by destruct (execute the_node _ st) as [[]].
  - unfold observe_on_node, mbind, result_bind. destruct (connect_node connected); [|done]. cbn.
    destruct (observe_answer (ResetWith ERR_PERMISSION) "") as [[b|e]|] eqn:E; [|done..]. by apply observe_reset in E.
  - intros Hl. unfold get_many_from_node, mbind, comp_bind, lift. destruct (connect_node connected); [|done].
    destruct (get_many_request hashes) as [hs ranges]. cbn in Hl.
    assert (the_node (GetMany hs ranges) = (ResetWith ERR_PERMISSION, "")) as Hn.
    { unfold the_node, stream, MAX_FETCH_HASHES. by rewrite (proj2 (Nat.ltb_lt _ _) Hl). }
    unfold comp_map_err. pose proof (execute_refused _ _ _ st Hn) as H. by destruct (execute the_node _ st) as [[]].
Qed.
End AgainstNode.

(** ** There and back *)

Section Roundtrip.
Context {SJ : Serde} {HX : Hex} {B3 : Blake3} {SF : SealedFormat} {IR : Iroh}.
Context {TC : TdfCrate} {ZC : ZipCrate} {BC : BaoCrate} {S3 : S3Service} {BS : BaoServe} {BT : BaoTree} {BL : BaoServeLaws}.
Context {CL : BlobsClient} {CLL : BlobsClientLaws} {Hinj : Inj (=) (=) hex_encode}.
Context (read_file : string -> result string string) (prefix scratch_dir : string) (config : ValidationConfig).

(** A blob's hash is BLAKE3's root, and the outboard of bytes at hand can be
    computed. *)
Definition root_is_blake3 : Prop := forall data, exists ob, bao_create data (len data) = Some (blake3_hash data, ob).

Lemma blake3_determines data content size ob :
  root_is_blake3 -> bao_create content size = Some (blake3_hash data, ob) ->
  String.substring 0 (Z.to_nat size) content = data.
Proof.
  intros Hr Hc. destruct (Hr data) as [ob' Hd]. destruct (bao_binding _ _ _ _ _ _ _ Hc Hd) as [-> _].
  apply substring_all. unfold len. lia.
Qed.

(** C3: A blob makes the whole way. A client pushes [data] and gets its hash;
    once the node's task for that push has ended as ingested, among whatever
    other pushes, another client's fetch command for the hash writes exactly
    [data] to its file, having verified it. *)
Theorem push_fetch_roundtrip {S3f : S3Service} {TR : Transport} T0 T data pushed view now permits g hash_from_str hash_hex path fs :
  root_is_blake3 -> ingested_by read_file prefix scratch_dir config T0 T (blake3_hash data) ->
  serves (S3f := S3f) prefix T view permits g (blake3_hash data) ->
  let remote := node_remote (S3 := S3f) prefix view now permits g pushed in
  (pushed (blake3_hash data) = Ok tt -> (push_to_node remote data ∅).1 = Ok (blake3_hash data))
  /\ (hash_from_str hash_hex = Some (blake3_hash data) ->
      fetch_blob hash_from_str remote false hash_hex (Some path) fs = (Ok tt, <[path := data]> fs)).
Proof.
  intros Hr Hi Hs. cbv zeta. split.
  { intros Hp. unfold push_to_node, add_bytes, mbind, comp_bind, lift. cbn. by rewrite Hp. }
  intros Hh. destruct (ingested_answered (S3f := S3f) read_file prefix scratch_dir config T0 T (blake3_hash data) all_ranges view now permits g Hi Hs)
    as (content & size & ob & g' & Hcr & Hl & E).
  destruct (receive_blob content size (blake3_hash data) ob empty_store Hcr Hl) as (st & Hrec & Hst). cbv zeta in *.
  assert (fetch_over (the_node (S3 := S3f) prefix view now permits g) (blake3_hash data) = Ok data) as Hfetch.
  { unfold fetch_over, execute, the_node. rewrite E, Hrec, Hst. cbn. by rewrite (blake3_determines data content size ob Hr Hcr). }
  unfold fetch_blob, new_client, fetch_from_node, remote_fetch, get_bytes, mbind, comp_bind, lift. rewrite Hh. cbn.
  rewrite Hfetch. change (∅ !! blake3_hash data) with (@None bytes). cbn.
  assert (forall m : gmap bytes bytes, <[blake3_hash data := data]> m !! blake3_hash data = Some data) as Hins by (intros; apply lookup_insert_eq).
  unfold MemStore. rewrite Hins. cbn. by rewrite bool_decide_true.
Qed.
End Roundtrip.

(** ** Witness *)

Module ClientNodeSample.
#[local] Existing Instance bit_serde.
#[local] Existing Instance plain_hex.
#[local] Existing Instance EndToEndSample.plain_blake3.
#[local] Existing Instance GateSample.iroh.
#[local] Existing Instance GateSample.sealed.
#[local] Existing Instance IngestSample.tdf.
#[local] Existing Instance IngestSample.zip.
#[local] Existing Instance IngestSample.s3.
#[local] Existing Instance ServeSample.transport.
#[local] Existing Instance PushSample.hex_inj.
#[local] Existing Instance EndToEndSample.create.
#[local] Existing Instance EndToEndSample.tree.
#[local] Existing Instance EndToEndSample.laws.
#[local] Existing Instance EndToEndSample.tree_laws.

(** A client that takes the bytes after the size and the outboard byte. *)
#[local] Instance client : BlobsClient :=
  {| ClientStore := gmap bytes bytes; empty_store := ∅; store_bytes := fun st h => st !! h;
     export_ranges := fun st h _ => ok_or (st !! h) "missing"; Bitfield := unit; all_ranges := tt;
     from_ranges := fun r => Some (0%Z, r); get_many_request := fun hs => (hs, fun _ => tt);
     receive := fun q rep out st =>
       match q, rep with
       | Get h _, Finished => (Ok tt, <[h := skip 9 out]> st)
       | _, _ => (Err "reset", st)
       end;
     observe_answer := fun rep _ => match rep with Finished => Some (Ok tt) | _ => None end |}.

Lemma to_le_bytes_length n z : String.length (to_le_bytes n z) = n.
Proof. revert z; induction n as [|n IH]; intros z; cbn; [done|]. by rewrite IH. Qed.

Lemma skip_app (a b : string) : skip (String.length a) (a +:+ b) = b.
Proof.
  induction a as [|c a IH]; cbn [String.length]; [apply skip_0|]. rewrite string_app_cons. exact IH.
Qed.

#[local] Instance client_laws : BlobsClientLaws.
Proof.
  split.
  - intros [] code out st; done.
  - done.
  - intros content size root ob st (Hs & -> & ->)%EndToEndSample.create_inv Hl. cbv zeta.
    eexists. split; [reflexivity|]. rewrite EndToEndSample.encode_all by done.
    assert (9%nat = String.length (to_le_bytes 8 size +:+ "t")) as H9 by (rewrite app_length_string, to_le_bytes_length; reflexivity).
    cbn [receive store_bytes client snd]. rewrite lookup_insert_eq, <- string_app_assoc, H9, skip_app. reflexivity.
Qed.

(** The push of [EndToEndSample], fetched into a file. *)
Lemma push_fetch_roundtrip_witness :
  fetch_blob decode_hex
    (node_remote "" None (fun _ => 0%Z) 1 EndToEndSample.serving (fun _ => Ok tt)) false (encode_hex "archive") (Some "out.tdf") ∅
  = (Ok tt, {["out.tdf" := "archive"]}).
Proof.
  destruct (push_fetch_roundtrip (S3f := IngestSample.s3) IngestSample.no_files "" "/scratch" IngestSample.config
    PushSample.T0 EndToEndSample.T1 "archive" (fun _ => Ok tt) None (fun _ => 0%Z) 1 EndToEndSample.serving
    decode_hex (encode_hex "archive") "out.tdf" ∅) as [_ H].
  - intros data. exists "t". cbn -[String.substring]. unfold len. rewrite Nat2Z.id, substring_all by lia.
    destruct (Z.ltb_spec (Z.of_nat (String.length data)) 0); [lia|reflexivity].
  - exact EndToEndSample.archive_ingested.
  - exact EndToEndSample.archive_served.
  - exact (H (decode_encode_hex "archive")).
Defined.
End ClientNodeSample.
