(* ===== verification/HttpServer.v ===== *)
(** * The HTTP server: one request from its path to its answer

    The router of [main.rs] with the handlers behind it, on the state they
    share: the verifier's key cache, the gate with the moderation view, the
    bucket, the decision provider and the attributes read from index records.
    axum is a parameter: what its extractors make of a path and of a JSON
    body, and the answers it gives by itself. Beside the requests, the
    moderation view is re-read from the bucket ([spawn_refresh]) in the steps
    its reads of the bucket make. *)

From S2P Require Import Prelude Bytes Identifiers Json Extern Samples Net S3Store Auth Authz EntityChain PublishDecision Moderation PublishGate ModerationApi CatalogMetadata CreatorCatalog CatalogV2 Validation Config Secrets Routes Ingest CatalogsApi CatalogsV2Api CatalogConcurrency S3Reader S3Serve Staging Node Startup PushTasks.

Definition CREATED : Z := 201.

(** ** axum *)

Class Axum := {
  (** [Path<String>], from the captured segments: percent-decoding. *)
  path_string : list (string * string) -> result Response string;
  (** [Json<T>] before its text is parsed: the content type, and the body
      within the default limit. *)
  json_content : HeaderMap -> http_body -> result Response bytes;
  (** [Json<T>] for a text that is not JSON, or not a [T]. *)
  json_rejected : serde_error -> Response;
  no_such_route : Response;
  wrong_method : Response
}.

(** A request axum answers by itself is a client's error. *)
Definition client_error (r : Response) : Prop := (400 <= rs_status r < 500)%Z.

Class AxumLaws {AX : Axum} := {
  path_refused caps r : path_string caps = Err r -> client_error r;
  content_refused headers body r : json_content headers body = Err r -> client_error r;
  json_refused e : client_error (json_rejected e);
  unrouted : client_error no_such_route;
  unmethod : client_error wrong_method
}.

Record HttpRequest := {
  hq_method : method;
  hq_path : string;
  hq_headers : HeaderMap;
  hq_body : http_body
}.

(** ** Answers *)

Section Answers.
Context {SJ : Serde}.

(** [(status, Json(value))] *)
Definition json_response (status : Z) (value : json) : Response :=
  {| rs_status := status; rs_headers := [(HEADER_CONTENT_TYPE, "application/json")]; rs_body := serde_print value |}.

Definition fail (e : refusal) : Response := json_response e.1 (JObject [("error", JString e.2)]).

Definition text_response (text : string) : Response :=
  {| rs_status := HTTP_OK; rs_headers := [(HEADER_CONTENT_TYPE, "text/plain; charset=utf-8")]; rs_body := text |}.

(** The answer of [open_session]. *)
Definition session_response {IR : Iroh} (opened : EndpointId * string * Z) : Response :=
  let '(endpoint, subject, expires_at) := opened in
  json_response CREATED (JObject [("endpointId", JString (endpoint_to_string endpoint));
                                  ("subject", JString subject); ("expiresAt", JInt expires_at)]).

Definition extract_json {AX : Axum} {A} (de : json -> result serde_error A) (q : HttpRequest) : result Response A :=
  text ← json_content (hq_headers q) (hq_body q);
  map_err json_rejected (from_slice de text).
End Answers.

(** ** The server *)

Section Server.
Context {SJ : Serde} {B64 : Base64} {HX : Hex} {B3 : Blake3} {SH : Sha2} {CB : Ciborium} {CO : Coset} {EC : P256}.
Context {HC : HttpCrate} {OT : OpenTdf} {TC : TdfCrate} {ZC : ZipCrate} {BC : BaoCrate} {S3 : S3Service}.
Context {SF : SealedFormat} {IR : Iroh} {AX : Axum}.
Context {Sp : Type} {P : DecisionProvider Sp}.
Context (http_get status_get : string -> http_answer) (prefix : string) (api : HttpApi).

#[local] Instance record_store : ModerationStore Bucket := s3_moderation_store prefix.
#[local] Instance tag_store : TagStore Bucket := s3_tag_store prefix.

(** What the handlers share. An ungated node has no gate. *)
Record Server := {
  sv_keys : KeyCache;
  sv_gate : option PublishGate;
  sv_bucket : Bucket;
  sv_provider : Sp;
  sv_attributes : gmap string string
}.

Abbreviation verifier := (st_verifier (ha_state api)).
Abbreviation policy := (ha_policy api).

(** [ApiState] as a request finds it: [Moderation] is shared, so the view is
    the current one. *)
Definition api_state (s : Server) : ApiState :=
  {| st_verifier := verifier;
     st_publishing := (fun g => {| tp_policy := policy; tp_moderation := moderation g |}) <$> sv_gate s |}.

Definition v2_config (s : Server) : V2State :=
  {| v_api := api_state s; v_passkeys := v_passkeys (ha_v2 api); v_status := v_status (ha_v2 api);
     v_readers := v_readers (ha_v2 api) |}.

(** The parts of the state the modules work on. *)
Definition api_of (g : PublishGate) (s : Server) : Api Bucket Sp :=
  {| api_keys := sv_keys s; api_gate := g; api_store := sv_bucket s; api_provider := sv_provider s |}.
Definition with_api (a : Api Bucket Sp) (s : Server) : Server :=
  {| sv_keys := api_keys a; sv_gate := Some (api_gate a); sv_bucket := api_store a;
     sv_provider := api_provider a; sv_attributes := sv_attributes s |}.
Definition v2_of (s : Server) : V2 Bucket Sp :=
  {| v_keys := sv_keys s; v_store := sv_bucket s; v_provider := sv_provider s; v_attributes := sv_attributes s |}.
Definition with_v2 (v : V2 Bucket Sp) (s : Server) : Server :=
  {| sv_keys := v_keys v; sv_gate := sv_gate s; sv_bucket := v_store v; sv_provider := v_provider v;
     sv_attributes := v_attributes v |}.
Definition with_bucket (b : Bucket) (s : Server) : Server :=
  {| sv_keys := sv_keys s; sv_gate := sv_gate s; sv_bucket := b; sv_provider := sv_provider s;
     sv_attributes := sv_attributes s |}.

(** What a handler returned: its answer, or the refusal's. *)
Definition answered {A} (answer : A -> Response) (r : result refusal A) : result Response Response :=
  match r with Ok x => Ok (answer x) | Err e => Err (fail e) end.

(** A handler of [moderation.rs], on the [ModerationApi] of a gated node. *)
Definition moderated {A} (answer : A -> Response) (m : comp (Api Bucket Sp) refusal A) :
    comp Server Response Response := fun s =>
  match sv_gate s with
  | Some g => let '(r, a) := m (api_of g s) in (answered answer r, with_api a s)
  | None => (Err no_such_route, s)
  end.

(** A handler of [catalogs_v2_api.rs]. *)
Definition cataloged {A} (answer : A -> Response) (m : V2State -> comp (V2 Bucket Sp) refusal A) :
    comp Server Response Response := fun s =>
  let '(r, v) := m (v2_config s) (v2_of s) in (answered answer r, with_v2 v s).

(** A handler of [catalogs_api.rs], which only uses the bucket. *)
Definition tagged {A} (answer : A -> Response) (m : ApiState -> comp Bucket refusal A) :
    comp Server Response Response := fun s =>
  let '(r, b) := m (api_state s) (sv_bucket s) in (answered answer r, with_bucket b s).

(** A handler with its extractors, in the order of its parameters: the path,
    then the body, both before the handler's own checks. *)
Definition handle (h : Handler.handler) (caps : list (string * string)) (q : HttpRequest) (t : Clocks)
    (info : NodeInfo) : comp Server Response Response :=
  let headers := hq_headers q in
  let ok_json {A} (ser : A -> json) (x : A) := json_response HTTP_OK (ser x) in
  match h with
  | Handler.healthz => mret (text_response "ok")
  | Handler.node_info => mret (ok_json ser_node_info info)
  | Handler.get_catalog_document =>
      hash ← lift (path_string caps); tagged id (fun a => route_catalog_document a hash headers)
  | Handler.get_blob => hash ← lift (path_string caps); tagged (ok_json id) (fun a => route_blob a hash)
  | Handler.get_pointer =>
      sub_ ← lift (path_string caps); cataloged id (fun st => get_pointer http_get st sub_ headers t)
  | Handler.put_catalog =>
      sub_ ← lift (path_string caps);
      cataloged (ok_json id) (fun st => put_catalog http_get status_get st sub_ headers (hq_body q) t)
  | Handler.open_session =>
      body ← lift (extract_json de_session_request q);
      moderated session_response (open_session http_get verifier policy headers body t)
  | Handler.list_suspensions =>
      moderated (ok_json (fun l => JArray (ser_suspension <$> l))) (list_suspensions http_get verifier policy headers t)
  | Handler.suspend =>
      subject ← lift (path_string caps); body ← lift (extract_json de_action_request q);
      moderated (ok_json id) (run_action http_get verifier policy (ASuspend subject body) headers t)
  | Handler.lift_suspension =>
      subject ← lift (path_string caps);
      moderated (ok_json id) (run_action http_get verifier policy (ALiftSuspension subject) headers t)
  | Handler.list_blocks =>
      moderated (ok_json (fun l => JArray (ser_block <$> l))) (list_blocks http_get verifier policy headers t)
  | Handler.list_catalog_blocks =>
      moderated (ok_json (fun l => JArray (ser_catalog_block <$> l))) (list_catalog_blocks http_get verifier policy headers t)
  | Handler.block_catalog =>
      subject ← lift (path_string caps); body ← lift (extract_json de_action_request q);
      moderated (ok_json id) (run_action http_get verifier policy (ABlockCatalog subject body) headers t)
  | Handler.lift_catalog_block =>
      subject ← lift (path_string caps);
      moderated (ok_json id) (run_action http_get verifier policy (ALiftCatalogBlock subject) headers t)
  | Handler.block =>
      hash ← lift (path_string caps); body ← lift (extract_json de_action_request q);
      moderated (ok_json id) (run_action http_get verifier policy (ABlock hash body) headers t)
  | Handler.lift_block =>
      hash ← lift (path_string caps);
      moderated (ok_json id) (run_action http_get verifier policy (ALiftBlock hash) headers t)
  end.

(** One request. *)
Definition serve_http (q : HttpRequest) (t : Clocks) (info : NodeInfo) (s : Server) : Response * Server :=
  match dispatch (ha_routes api) (hq_method q) (hq_path q) with
  | Handled h caps =>
      let '(r, s') := handle h caps q t info s in (match r with Ok x => x | Err x => x end, s')
  | NotFound => (no_such_route, s)
  | MethodNotAllowed => (wrong_method, s)
  end.
End Server.
Arguments Server {EC IR} Sp.

(** ** What an operation writes *)

Section Writes.
Context {S3 : S3Service} (prefix : string).

#[local] Instance bucket_records : ModerationStore Bucket := s3_moderation_store prefix.
#[local] Instance bucket_tags' : TagStore Bucket := s3_tag_store prefix.

(** [m'] is [m] after some writes, each to an object [W] allows. *)
Inductive writes (W : family -> string -> Prop) (m : gmap string object) : gmap string object -> Prop :=
| writes_none : writes W m m
| writes_one m' f id x : writes W m m' -> family_ok f -> W f id -> writes W m (<[family_key prefix f id := x]> m').

Lemma writes_weaken (W W' : family -> string -> Prop) m m' :
  (forall f id, W f id -> W' f id) -> writes W m m' -> writes W' m m'.
Proof. intros HW. induction 1; [constructor|]. constructor; auto. Qed.

(** Nothing is deleted, and what is not allowed is not touched. *)
Lemma writes_grow W m m' k : writes W m m' -> is_Some (m !! k) -> is_Some (m' !! k).
Proof.
  intros Hw Hk. induction Hw as [|m' f id x _ IH]; [done|]. destruct (decide (family_key prefix f id = k)) as [<-|Hne];
    [rewrite lookup_insert_eq; by eexists|by rewrite lookup_insert_ne].
Qed.

Lemma writes_frame W m m' f id :
  family_ok f -> ~ W f id -> writes W m m' -> m' !! family_key prefix f id = m !! family_key prefix f id.
Proof.
  intros Hf Hn. induction 1 as [|m' f' id' x _ IH Hf' HW]; [done|]. rewrite lookup_insert_ne; [done|].
  intros E. by apply family_key_inj in E as [-> ->].
Qed.

(** Writes that leave blobs, outboards and publisher records alone are among
    those the push tasks allow others. *)
Lemma writes_elsewhere {HX : Hex} {BC : BaoCrate} W m m' :
  (forall f id, W f id -> f <> Blobs /\ f <> Outboards /\ f <> Records PUBLISHERS) ->
  writes W m m' -> elsewhere prefix m m'.
Proof.
  intros HW Hw. split_and!; intros hash.
  - apply (writes_frame W _ _ Blobs); [done|naive_solver|done].
  - apply (writes_frame W _ _ (Records PUBLISHERS)); [done|naive_solver|done].
  - left. apply (writes_frame W _ _ Outboards); [done|naive_solver|done].
Qed.

Context (W : family -> string -> Prop) (m : gmap string object).

Definition wrote (b : Bucket) : Prop := writes W m (objects b).

Lemma wrote_read {E A} (x : comp Bucket E A) :
  (forall b r b', x b = (r, b') -> objects b' = objects b) -> stable wrote x (fun _ => True).
Proof. intros Hx b r b' H%Hx. unfold wrote. by rewrite H. Qed.

Lemma wrote_put what f id body owner :
  family_ok f -> W f id -> stable wrote (context what (put_object (family_key prefix f id) body owner Always)) (fun _ => True).
Proof.
  intros Hf HW b r b' H Hb. split; [|done]. unfold wrote. apply put_context_effect in H as [[-> _]| ->]; [done|].
  by constructor.
Qed.

Lemma wrote_record kind key body :
  no_slash kind -> W (Records kind) key -> stable wrote (put_record kind key body) (fun _ => True).
Proof. intros Hk HW. by apply (wrote_put _ (Records kind)). Qed.

Lemma wrote_pointer sub body expected :
  W CatalogPointers sub -> stable wrote (ts_put_catalog_pointer sub body expected) (fun _ => True).
Proof.
  intros HW b r b' H Hb. split; [|done]. cbn in H. unfold put_catalog_pointer in H. unfold wrote.
  destruct (put_object _ _ _ _ b) as [r0 b0] eqn:E.
  assert (b0 = b') as -> by (by destruct r0 as [|[]]; injection H as _ <-).
  apply put_object_effect in E as [[-> _]|[_ ->]]; [done|]. by apply (writes_one _ _ _ CatalogPointers).
Qed.

(** The reads of the catalog APIs. *)
Lemma wrote_tag_reads h :
  stable wrote (ts_blob_size h) (fun _ => True) /\ stable wrote (ts_get_manifest h) (fun _ => True)
  /\ stable wrote (ts_get_catalog_document h) (fun _ => True) /\ stable wrote (ts_head_catalog_document h) (fun _ => True)
  /\ stable wrote (ts_get_catalog_index h) (fun _ => True) /\ stable wrote (ts_get_catalog_pointer h) (fun _ => True).
Proof.
  split_and!; apply wrote_read; intros b r b'; cbn;
    try (apply keeps_bind_ret, keeps_objects_or_absent);
    apply keeps_bind_ret; intros b1 r1 b1'; apply keeps_bind_ret, keeps_objects_or_absent.
Qed.
End Writes.

Lemma comp_bind_ok_get {S E A} (f : S -> comp S E A) s x : (get ≫= f) s = x -> f s s = x.
Proof. done. Qed.

(** ** The catalog handlers *)

(** A read of the tag store. *)
Ltac tag_read := idtac; match goal with |- stable (wrote ?p ?W ?m) (comp_map_err _ (_ ?h)) _ =>
  apply stable_map_err; destruct (wrote_tag_reads p W m h) as (? & ? & ? & ? & ? & ?); assumption end.

Section CatalogWrites.
Context {SJ : Serde} {B64 : Base64} {HX : Hex} {B3 : Blake3} {SH : Sha2} {CB : Ciborium} {CO : Coset} {EC : P256}.
Context {HC : HttpCrate} {OT : OpenTdf} {TC : TdfCrate} {ZC : ZipCrate} {BC : BaoCrate} {S3 : S3Service}.
Context {Sp : Type} {P : DecisionProvider Sp}.
Context (http_get status_get : string -> http_answer) (prefix : string).

#[local] Instance catalog_tags : TagStore Bucket := s3_tag_store prefix.

Lemma document_writes W m state hash headers : stable (wrote prefix W m) (route_catalog_document state hash headers) (fun _ => True).
Proof.
  unfold route_catalog_document. cbv zeta. stable_steps tag_read.
Qed.

Lemma blob_writes W m state hash : stable (wrote prefix W m) (route_blob state hash) (fun _ => True).
Proof. unfold route_blob. stable_steps tag_read. Qed.

(** On the state of the v2 routes. *)
Definition v_wrote (W : family -> string -> Prop) (m : gmap string object) (v : V2 Bucket Sp) : Prop :=
  wrote prefix W m (v_store v).

Ltac v2_step := idtac; first
  [ apply (stable_zoom (wrote prefix _ _) v_store set_v_store); [done|]; stable_steps tag_read
  | apply stable_aside; done ].

Lemma attribute_writes W m hash : stable (v_wrote W m) (catalog_attribute (Sp := Sp) hash) (fun _ => True).
Proof. unfold catalog_attribute. stable_steps v2_step. Qed.

Lemma stable_attempt {S E F A} (I : S -> Prop) (x : comp S E A) (Q : A -> Prop) :
  stable I x Q -> stable I (attempt (F := F) x) (fun _ => True).
Proof.
  intros Hx s r s' H Hs. unfold attempt in H. destruct (x s) as [r0 s0] eqn:Ex. injection H as <- <-.
  by destruct (Hx _ _ _ Ex Hs).
Qed.

Lemma reader_writes W m state claims headers hash attribute t :
  stable (v_wrote W m) (decide_reader http_get state claims headers hash attribute t) (fun _ => True).
Proof.
  unfold decide_reader. stable_steps ltac:(idtac; first [v2_step | eapply stable_attempt; v2_step]).
Qed.

Lemma pointer_writes W m state sub_ headers t :
  stable (v_wrote W m) (get_pointer http_get state sub_ headers t) (fun _ => True).
Proof.
  unfold get_pointer. cbv zeta. stable_steps ltac:(idtac; first [apply attribute_writes | apply reader_writes | v2_step]).
Qed.
End CatalogWrites.

Lemma writes_nothing prefix m m' : writes prefix (fun _ _ => False) m m' -> m' = m.
Proof. by inversion 1. Qed.

(** ** The handlers that write *)

Section HandlerWrites.
Context {SJ : Serde} {B64 : Base64} {HX : Hex} {B3 : Blake3} {SH : Sha2} {CB : Ciborium} {CO : Coset} {EC : P256}.
Context {HC : HttpCrate} {OT : OpenTdf} {TC : TdfCrate} {ZC : ZipCrate} {BC : BaoCrate} {S3 : S3Service}.
Context {SF : SealedFormat} {IR : Iroh}.
Context {Sp : Type} {P : DecisionProvider Sp}.
Context (http_get status_get : string -> http_answer) (prefix : string).

#[local] Instance handler_tags : TagStore Bucket := s3_tag_store prefix.
#[local] Instance handler_records : ModerationStore Bucket := s3_moderation_store prefix.

(** A publish writes the catalog's objects and the publisher's pointer. *)
Definition publish_writes (sub_ : string) (p : Publish) (f : family) (id : string) : Prop :=
  (f = CatalogDocuments \/ f = CatalogOutboards \/ f = CatalogIndexes) /\ id = pb_hash p
  \/ f = CatalogPointers /\ id = sub_.

Lemma prepare_writes W m state sub_ headers body t :
  stable (v_wrote (Sp := Sp) prefix W m) (prepare_publish http_get status_get state sub_ headers body t) publish_ok.
Proof. apply stable_prepare; intros h; apply (wrote_tag_reads prefix W m h). Qed.

Lemma store_publish_writes m sub_ p outboard expected :
  stable (wrote prefix (publish_writes sub_ p) m) (store_publish sub_ p outboard expected) (fun _ => True).
Proof.
  unfold store_publish. cbv zeta. stable_steps ltac:(idtac; lazymatch goal with
    | |- stable _ (comp_map_err _ (ts_put_catalog_document _ _ _)) _ =>
        apply stable_map_err, (wrote_put prefix _ _ _ CatalogDocuments); [done|unfold publish_writes; tauto]
    | |- stable _ (comp_map_err _ (ts_put_catalog_outboard _ _)) _ =>
        apply stable_map_err, (wrote_put prefix _ _ _ CatalogOutboards); [done|unfold publish_writes; tauto]
    | |- stable _ (comp_map_err _ (ts_put_catalog_index _ _)) _ =>
        apply stable_map_err, (wrote_put prefix _ _ _ CatalogIndexes); [done|unfold publish_writes; tauto]
    | |- stable _ (comp_map_err _ (ts_put_catalog_pointer _ _ _)) _ =>
        apply stable_map_err, (wrote_pointer prefix); unfold publish_writes; tauto
    end).
Qed.

Lemma read_current_writes W m sub_ : stable (wrote prefix W m) (read_current sub_) (fun _ => True).
Proof.
  unfold read_current. stable_steps ltac:(idtac; match goal with |- stable _ (comp_map_err _ (_ ?h)) _ =>
    apply stable_map_err; destruct (wrote_tag_reads prefix W m h) as (? & ? & ? & ? & ? & ?); assumption end).
Qed.

Lemma put_catalog_writes state sub_ headers body t (v : V2 Bucket Sp) r v' :
  put_catalog http_get status_get state sub_ headers body t v = (r, v') ->
  objects (v_store v') = objects (v_store v)
  \/ exists p v1, prepare_publish http_get status_get state sub_ headers body t v = (Ok p, v1)
       /\ writes prefix (publish_writes sub_ p) (objects (v_store v)) (objects (v_store v')).
Proof.
  unfold put_catalog. intros [(p & v1 & H1 & H)|(e & H1 & ->)]%comp_bind_state.
  - right. exists p, v1. split; [done|].
    destruct (prepare_writes (publish_writes sub_ p) (objects (v_store v)) _ _ _ _ _ _ _ _ H1) as [Hw _]; [constructor|].
    run_keeps H (v_wrote (Sp := Sp) prefix (publish_writes sub_ p) (objects (v_store v))); [|exact (proj1 (Hk _ _ _ H Hw))].
    stable_steps ltac:(idtac; apply (stable_zoom (wrote prefix _ _) v_store set_v_store);
      [done|first [apply read_current_writes|apply store_publish_writes]]).
  - left. destruct (prepare_writes (fun _ _ => False) (objects (v_store v)) _ _ _ _ _ _ _ _ H1) as [Hw _]; [constructor|].
    by apply writes_nothing in Hw.
Qed.

(** ** Sessions *)

(** A request that may open a session for [endpoint]: the publisher is
    accepted and the request is signed with the endpoint's key. *)
Definition may_open (verifier : CwtVerifier) (policy : PublishPolicy) (headers : HeaderMap) (body : SessionRequest)
    (t : Clocks) (a : Api Bucket Sp) (endpoint : EndpointId) : Prop :=
  exists claims chain ps,
    publisher_with_chain http_get policy verifier (view a) headers t (api_keys a, api_provider a) = (Ok (claims, chain), ps)
    /\ endpoint_from_str (trim (rq_endpoint_id body)) = Some endpoint
    /\ verify_possession endpoint (default "" (bearer headers)) (rq_timestamp body) (rq_signature body) (now_secs t 2) = Ok tt.

Definition session_writes (endpoint : EndpointId) (f : family) (id : string) : Prop :=
  f = Records SESSIONS /\ id = endpoint_to_string endpoint.

Lemma open_session_writes verifier policy headers body t (a : Api Bucket Sp) r a' :
  open_session http_get verifier policy headers body t a = (r, a') ->
  (is_ok r = false /\ untouched a a')
  \/ exists endpoint, is_ok r = true /\ may_open verifier policy headers body t a endpoint
       /\ writes prefix (session_writes endpoint) (objects (api_store a)) (objects (api_store a'))
       /\ view a' = view a.
Proof.
  unfold open_session. intros H.
  apply comp_bind_ok_get in H.
  apply comp_bind_state in H as [([claims chain] & a1 & Hp & H)|(e & Hp & ->)];
    unfold zoom in Hp; destruct (publisher_with_chain _ _ _ _ _ _ _) as [r0 ps] eqn:Ep; injection Hp as -> <-; [|by left].
  unfold lift at 1 in H. unfold mbind at 1, comp_bind at 1 in H.
  destruct (endpoint_from_str _) as [endpoint|] eqn:Ee; cbn [ok_or] in H; [|injection H as <- <-; by left].
  unfold lift at 1 in H. unfold mbind at 1, comp_bind at 1 in H.
  destruct (verify_possession _ _ _ _ _) as [[]|] eqn:Ev; [|injection H as <- <-; by left].
  right. exists endpoint.
  assert (is_ok r = true /\ writes prefix (session_writes endpoint) (objects (api_store a)) (objects (api_store a'))
    /\ view a' = view a) as (? & ? & ?); [|split_and!; try done; by exists claims, chain, ps].
  apply comp_bind_ok_get in H. cbn [api_gate set_policy_state record_key] in H.
  destruct (seal _ _) as [sealed|].
  2: { injection H as <- <-. split_and!; [done|constructor|done]. }
  unfold attempt, on_store, zoom in H. unfold mbind, comp_bind in H.
  destruct (put_record _ _ _ _) as [r1 b1] eqn:Eb. injection H as <- <-. split_and!; [done| |done].
  by destruct (wrote_record prefix (session_writes endpoint) (objects (api_store a)) SESSIONS (endpoint_to_string endpoint)
    sealed ltac:(reflexivity) ltac:(done) _ _ _ Eb (writes_none _ _ _)).
Qed.
(** ** Operator actions *)

(** The current record an action is about. *)
Definition record_of (x : action) (v : Moderation) : string * string :=
  match x with
  | ASuspend s _ => (SUSPENSIONS, canonical_subject s)
  | ALiftSuspension s => (SUSPENSIONS, match suspension v s with Some r => su_subject r | None => canonical_subject s end)
  | ABlock h _ | ALiftBlock h => (BLOCKS, to_ascii_lowercase h)
  | ABlockCatalog s _ | ALiftCatalogBlock s => (CATALOG_BLOCKS, canonical_subject s)
  end.

Definition action_writes (x : action) (v : Moderation) (t : Clocks) (f : family) (id : string) : Prop :=
  let '(kind, key) := record_of x v in
  f = Records kind /\ id = key \/ f = Records AUDIT /\ id = audit_key kind key (nanos t).

Definition a_wrote (W : family -> string -> Prop) (m : gmap string object) (a : Api Bucket Sp) : Prop :=
  wrote prefix W m (api_store a).

Lemma persist_writes W m kind key record :
  no_slash kind -> W (Records kind) key -> stable (a_wrote W m) (on_store (persist kind key record)) (fun _ => True).
Proof.
  intros Hk HW. apply (stable_zoom (wrote prefix W m) api_store ModerationApi.set_store); [done|].
  by apply stable_map_err, wrote_record.
Qed.

Lemma run_action_writes verifier policy x headers t (a : Api Bucket Sp) r a' :
  run_action http_get verifier policy x headers t a = (r, a') ->
  writes prefix (action_writes x (view a) t) (objects (api_store a)) (objects (api_store a')).
Proof.
  unfold run_action. intros H.
  destruct x; apply fmap_state in H as (r0 & H & _);
    (apply comp_bind_state in H as [(by_ & a1 & H1 & H)|(e & H1 & ->)];
     apply require_operator_run in H1 as [[Hs Hg] _]; [|rewrite Hs; constructor]);
    assert (view a1 = view a) as Hv by (unfold view; by rewrite Hg); rewrite <- Hs, <- Hv.
  2: { apply comp_bind_ok_get in H. destruct (suspension (view a1) subject) as [found|] eqn:Ef; cbn [ok_or] in H;
         [|injection H as <- <-; constructor].
       unfold lift in H. unfold mbind at 1, comp_bind at 1 in H.
       run_keeps H (a_wrote (action_writes (ALiftSuspension subject) (view a1) t) (objects (api_store a1)));
         [|exact (proj1 (Hk _ _ _ H (writes_none _ _ _)))].
       cbv zeta. stable_steps ltac:(idtac; apply persist_writes; [reflexivity|unfold action_writes, record_of; rewrite Ef; tauto]). }
  all: match goal with |- writes _ ?W ?m _ => run_keeps H (a_wrote W m);
      [|exact (proj1 (Hk _ _ _ H (writes_none _ _ _)))] end.
  all: cbv zeta; stable_steps ltac:(idtac; apply persist_writes; [reflexivity|unfold action_writes, record_of; tauto]).
Qed.
End HandlerWrites.

(** ** Requests *)

Section Requests.
Context {SJ : Serde} {B64 : Base64} {HX : Hex} {B3 : Blake3} {SH : Sha2} {CB : Ciborium} {CO : Coset} {EC : P256}.
Context {HC : HttpCrate} {OT : OpenTdf} {TC : TdfCrate} {ZC : ZipCrate} {BC : BaoCrate} {S3 : S3Service}.
Context {SF : SealedFormat} {IR : Iroh} {AX : Axum}.
Context {Sp : Type} {P : DecisionProvider Sp}.
Context (http_get status_get : string -> http_answer) (prefix : string) (api : HttpApi).

#[local] Instance request_tags : TagStore Bucket := s3_tag_store prefix.
#[local] Instance request_records : ModerationStore Bucket := s3_moderation_store prefix.

Abbreviation verifier := (st_verifier (ha_state api)).
Abbreviation policy := (ha_policy api).
Abbreviation routed q := (dispatch (ha_routes api) (hq_method q) (hq_path q)).

(** The action a request asks for. *)
Definition action_of (q : HttpRequest) : option action :=
  match routed q with
  | Handled h caps =>
      target ← ok (path_string caps);
      let body := ok (extract_json de_action_request q) in
      match h with
      | Handler.suspend => ASuspend target <$> body
      | Handler.lift_suspension => Some (ALiftSuspension target)
      | Handler.block => ABlock target <$> body
      | Handler.lift_block => Some (ALiftBlock target)
      | Handler.block_catalog => ABlockCatalog target <$> body
      | Handler.lift_catalog_block => Some (ALiftCatalogBlock target)
      | _ => None
      end
  | _ => None
  end.

(** Who may ask for it. *)
Definition by_operator (q : HttpRequest) (t : Clocks) (s : Server Sp) : Prop :=
  exists op c, operator http_get policy verifier (hq_headers q) t (sv_keys s) = (Ok op, c).

Definition opens (q : HttpRequest) (t : Clocks) (s : Server Sp) (g : PublishGate) (endpoint : EndpointId) : Prop :=
  exists caps body, routed q = Handled Handler.open_session caps
    /\ extract_json de_session_request q = Ok body
    /\ may_open http_get verifier policy (hq_headers q) body t (api_of g s) endpoint.

(** The objects a request may write, and on whose authority. *)
Inductive written_by (q : HttpRequest) (t : Clocks) (s : Server Sp) : family -> string -> Prop :=
| WrittenByPublisher caps sub_ p v f id :
    routed q = Handled Handler.put_catalog caps -> path_string caps = Ok sub_ ->
    prepare_publish http_get status_get (v2_config api s) sub_ (hq_headers q) (hq_body q) t (v2_of s) = (Ok p, v) ->
    publish_writes sub_ p f id -> written_by q t s f id
| WrittenBySession g endpoint f id :
    sv_gate s = Some g -> opens q t s g endpoint -> session_writes endpoint f id -> written_by q t s f id
| WrittenByOperator g x f id :
    sv_gate s = Some g -> action_of q = Some x -> by_operator q t s ->
    action_writes x (moderation g) t f id -> written_by q t s f id.

(** What a request may do to the gate: open one session, or change the view. *)
Definition gate_effect (q : HttpRequest) (t : Clocks) (status : Z) (s s' : Server Sp) : Prop :=
  sv_gate s' = sv_gate s
  \/ exists g g', sv_gate s = Some g /\ sv_gate s' = Some g'
     /\ (status = CREATED /\ moderation g' = moderation g /\ (exists endpoint, opens q t s g endpoint)
         \/ status = HTTP_OK /\ (exists v, g' = set_moderation v g) /\ is_Some (action_of q) /\ by_operator q t s).

Definition effect (q : HttpRequest) (t : Clocks) (status : Z) (s s' : Server Sp) : Prop :=
  writes prefix (written_by q t s) (objects (sv_bucket s)) (objects (sv_bucket s')) /\ gate_effect q t status s s'.

Lemma effect_none q t status s s' :
  objects (sv_bucket s') = objects (sv_bucket s) -> sv_gate s' = sv_gate s -> effect q t status s s'.
Proof. intros Ho Hg. split; [rewrite Ho; constructor|by left]. Qed.

Lemma tagged_effect {A} (answer : A -> Response) m q t status s r s' :
  (forall W mo, stable (wrote prefix W mo) (m (api_state api s)) (fun _ => True)) ->
  tagged api answer m s = (r, s') -> effect q t status s s'.
Proof.
  unfold tagged. intros Hm H. destruct (m _ _) as [r0 b] eqn:E. injection H as <- <-.
  destruct (Hm (fun _ _ => False) (objects (sv_bucket s)) _ _ _ E) as [Hw%writes_nothing _]; [constructor|].
  by apply effect_none.
Qed.

Lemma cataloged_quiet {A} (answer : A -> Response) m q t status s r s' :
  (forall W mo, stable (v_wrote prefix W mo) (m (v2_config api s)) (fun _ => True)) ->
  cataloged api answer m s = (r, s') -> effect q t status s s'.
Proof.
  unfold cataloged. intros Hm H. destruct (m _ _) as [r0 b] eqn:E. injection H as <- <-.
  destruct (Hm (fun _ _ => False) (objects (sv_bucket s)) _ _ _ E) as [Hw%writes_nothing _]; [constructor|].
  by apply effect_none.
Qed.

(** The lists the operator API answers. *)
Lemma listed_effect {A B} (answer : B -> Response) (f : Api Bucket Sp -> A) (k : A -> B) q t status headers s r s' :
  moderated answer (_ ← require_operator http_get verifier policy headers t; a ← get; mret (k (f a))) s = (r, s') ->
  effect q t status s s'.
Proof.
  unfold moderated. destruct (sv_gate s) as [g|] eqn:Eg; [|intros [= <- <-]; by apply effect_none].
  destruct ((require_operator _ _ _ _ _ ≫= _) _) as [r0 a] eqn:E. intros [= <- <-].
  apply comp_bind_state in E as [(op & a1 & H1 & H)|(e & H1 & ->)];
    apply require_operator_run in H1 as [[Hs Hg] _]; [injection H as <- <-|];
    apply effect_none; cbn; by rewrite ?Hs, ?Hg, ?Eg.
Qed.
(** ** The requests that write *)

Lemma put_catalog_effect_of answer q t status caps sub_ s r s' :
  routed q = Handled Handler.put_catalog caps -> path_string caps = Ok sub_ ->
  cataloged api answer (fun st => put_catalog http_get status_get st sub_ (hq_headers q) (hq_body q) t) s = (r, s') ->
  effect q t status s s'.
Proof.
  unfold cataloged. intros Hr Hp H. destruct (put_catalog _ _ _ _ _ _ _ _) as [r0 v] eqn:E. injection H as <- <-.
  apply (put_catalog_writes (P := P) http_get status_get prefix) in E as [Ho|(p & v1 & Hprep & Hw)]; [by apply effect_none|].
  split; [|by left]. eapply writes_weaken; [|exact Hw]. intros f id Hf. by eapply WrittenByPublisher.
Qed.

Lemma open_session_effect q t caps body s r s' :
  routed q = Handled Handler.open_session caps -> extract_json de_session_request q = Ok body ->
  moderated session_response (open_session http_get verifier policy (hq_headers q) body t) s = (r, s') ->
  effect q t (rs_status (match r with Ok x => x | Err x => x end)) s s'.
Proof.
  unfold moderated. intros Hr Hb. destruct (sv_gate s) as [g|] eqn:Eg; [|intros [= <- <-]; by apply effect_none].
  destruct (open_session _ _ _ _ _ _ _) as [r0 a] eqn:E. intros [= <- <-].
  apply (open_session_writes http_get prefix) in E as [[_ [Hs Hg]]|(endpoint & Hok & Hmay & Hw & Hv)].
  { apply effect_none; cbn; by rewrite ?Hs, ?Hg, ?Eg. }
  assert (opens q t s g endpoint) as Hopens by (by exists caps, body).
  split; [eapply writes_weaken; [|exact Hw]; intros f id Hf; by eapply WrittenBySession|].
  right. exists g, (api_gate a). split_and!; [done..|]. left. split_and!; [|done|by exists endpoint].
  destruct r0 as [[[e sub0] ex]|]; done.
Qed.

(** An action only changes the view. *)
Lemma run_action_gate x headers t (a : Api Bucket Sp) r a' :
  run_action http_get verifier policy x headers t a = (r, a') -> exists v, api_gate a' = set_moderation v (api_gate a).
Proof.
  assert (exists v, api_gate a = set_moderation v (api_gate a)) as Ha by (exists (moderation (api_gate a)); by destruct (api_gate a)).
  assert (forall E A (m : comp Bucket E A), stable (fun a1 : Api Bucket Sp => exists v, api_gate a1 = set_moderation v (api_gate a))
    (on_store m) (fun _ => True)) as Hstore.
  { intros E A m s r0 s' (b & _ & ->)%on_store_run Hs. by split. }
  assert (stable (fun a1 : Api Bucket Sp => exists v, api_gate a1 = set_moderation v (api_gate a))
    (require_operator http_get verifier policy headers t) (fun _ => True)) as Hop.
  { intros s r0 s' [[_ Hg] _]%require_operator_run Hs. by rewrite Hg. }
  intros H. run_keeps H (fun a1 : Api Bucket Sp => exists v, api_gate a1 = set_moderation v (api_gate a));
    [|exact (proj1 (Hk _ _ _ H Ha))].
  unfold run_action, suspend, lift_suspension, block, lift_block, block_catalog, lift_catalog_block.
  destruct x; cbv zeta; stable_steps ltac:(idtac; first [apply Hstore | apply Hop
    | apply stable_modify; intros s1 [v Hv]; cbn; rewrite Hv; by eexists]).
Qed.

Lemma run_action_effect q t x s r s' :
  action_of q = Some x ->
  moderated (json_response HTTP_OK) (run_action http_get verifier policy x (hq_headers q) t) s = (r, s') ->
  effect q t (rs_status (match r with Ok x => x | Err x => x end)) s s'.
Proof.
  unfold moderated. intros Hx. destruct (sv_gate s) as [g|] eqn:Eg; [|intros [= <- <-]; by apply effect_none].
  destruct (run_action _ _ _ _ _ _ _) as [r0 a] eqn:E. intros [= <- <-].
  pose proof (run_action_gate _ _ _ _ _ _ E) as [v Hv].
  pose proof (run_action_writes http_get status_get prefix _ _ _ _ _ _ _ _ E) as Hw.
  pose proof (run_action_outcome (LS := bucket_lawful prefix) _ _ _ _ _ _ _ _ _ E) as Ho.
  apply run_action_operator in E as [[_ [Hs Hg]]|Hop].
  { apply effect_none; cbn; by rewrite ?Hs, ?Hg, ?Eg. }
  split; [eapply writes_weaken; [|exact Hw]; intros f id Hf; by eapply WrittenByOperator|].
  destruct r0 as [j|e].
  - right. exists g, (api_gate a). split_and!; [done..|]. right. split_and!; [done|by exists v|by eexists|done].
  - left. cbn. rewrite Eg. f_equal. assert (moderation (api_gate a) = moderation g) as Hm.
    { destruct Ho as [[_ [_ Hg]]|(by_ & keys & name & c & _ & Hc & _)]; [cbn in Hg; by rewrite Hg|].
      exact (proj2 (com_failed _ _ _ _ _ _ Hc e eq_refl)). }
    rewrite Hv in Hm |- *. cbn in Hm. rewrite Hm. by destruct g.
Qed.
(** An extractor that refuses ends the request there. *)
Ltac extracted H :=
  unfold lift in H; unfold mbind at 1, comp_bind at 1 in H;
  match type of H with context [match ?x with Ok _ => _ | Err _ => _ end] =>
    destruct x eqn:?; [|injection H as <- <-; by apply effect_none] end.

Lemma handle_effect h caps q t info s r s' :
  routed q = Handled h caps -> handle http_get status_get prefix api h caps q t info s = (r, s') ->
  effect q t (rs_status (match r with Ok x => x | Err x => x end)) s s'.
Proof.
  intros Hr H. destruct h; unfold handle in H; cbv zeta in H.
  all: try (injection H as <- <-; by apply effect_none).
  all: try (by eapply (listed_effect _ (fun a => moderation (api_gate a))) in H).
  all: try extracted H.
  - eapply tagged_effect in H; [done|]. intros W m. apply document_writes.
  - eapply tagged_effect in H; [done|]. intros W m. apply blob_writes.
  - eapply cataloged_quiet in H; [done|]. intros W m. apply (pointer_writes (P := P)).
  - by eapply put_catalog_effect_of in H.
  - by eapply open_session_effect in H.
  - extracted H. eapply run_action_effect in H; [done|]. unfold action_of. rewrite Hr. rewrite Heqr0. cbn. by rewrite Heqr1.
  - eapply run_action_effect in H; [done|]. unfold action_of. rewrite Hr. by rewrite Heqr0.
  - extracted H. eapply run_action_effect in H; [done|]. unfold action_of. rewrite Hr. rewrite Heqr0. cbn. by rewrite Heqr1.
  - eapply run_action_effect in H; [done|]. unfold action_of. rewrite Hr. by rewrite Heqr0.
  - extracted H. eapply run_action_effect in H; [done|]. unfold action_of. rewrite Hr. rewrite Heqr0. cbn. by rewrite Heqr1.
  - eapply run_action_effect in H; [done|]. unfold action_of. rewrite Hr. by rewrite Heqr0.
Qed.

Lemma serve_effect q t info s resp s' :
  serve_http http_get status_get prefix api q t info s = (resp, s') -> effect q t (rs_status resp) s s'.
Proof.
  unfold serve_http. destruct (routed q) as [h caps| |] eqn:Hr;
    [|intros [= <- <-]; by apply effect_none|intros [= <- <-]; by apply effect_none].
  destruct (handle _ _ _ _ _ _ _ _ _ _) as [r s1] eqn:E. intros [= <- <-]. by eapply handle_effect.
Qed.
(** What a GET is answered by. *)
Lemma get_handlers gated path h caps :
  dispatch (node_routes gated) GET path = Handled h caps ->
  h ∈ [Handler.healthz; Handler.get_catalog_document; Handler.get_blob; Handler.get_pointer; Handler.node_info;
       Handler.list_suspensions; Handler.list_blocks; Handler.list_catalog_blocks].
Proof.
  intros (r & Hr & Hh)%dispatch_handled. destruct gated; cbn in Hr;
    repeat (apply elem_of_cons in Hr as [->|Hr]; [cbn [snd] in Hh; set_solver|]); by apply elem_of_nil in Hr.
Qed.

Lemma written_by_get gated q t s f id :
  ha_routes api = node_routes gated -> hq_method q = GET -> ~ written_by q t s f id.
Proof.
  intros Hr Hm H. assert (forall h caps, routed q = Handled h caps ->
    h ∉ [Handler.put_catalog; Handler.open_session; Handler.suspend; Handler.lift_suspension; Handler.block;
         Handler.lift_block; Handler.block_catalog; Handler.lift_catalog_block]) as Hn.
  { intros h caps E. rewrite Hr, Hm in E. apply get_handlers in E. set_solver. }
  destruct H as [caps sub_ p v f id E _ _ _|g e f id _ (caps & body & E & _) _|g x f id _ Hx _ _].
  - apply Hn in E. set_solver.
  - apply Hn in E. set_solver.
  - unfold action_of in Hx. destruct (routed q) as [h caps| |] eqn:E; [|done..]. specialize (Hn _ _ eq_refl).
    destruct (ok (path_string caps)); [|done]. destruct h; try done; set_solver.
Qed.

Lemma written_by_families q t s f id :
  written_by q t s f id -> f <> Blobs /\ f <> Outboards /\ f <> Manifests /\ f <> Records PUBLISHERS.
Proof.
  destruct 1 as [caps sub_ p v f id _ _ _ Hw|g e f id _ _ [-> _]|g x f id _ _ _ Hw]; [|done|].
  - destruct Hw as [[Hf _]|[-> _]]; [|done]. naive_solver.
  - unfold action_writes in Hw. by destruct x; cbn in Hw; destruct Hw as [[-> _]|[-> _]].
Qed.

(** Of the records only a session's is written without an operator. *)
Lemma written_by_kind q t s kind id :
  written_by q t s (Records kind) id -> is_Some (action_of q) \/ kind = SESSIONS.
Proof.
  remember (Records kind) as f eqn:Ef.
  destruct 1 as [caps sub_ p v f id _ _ _ Hw|g e f id _ _ [Hf _]|g x f id _ Hx _ _].
  - unfold publish_writes in Hw. naive_solver.
  - right. congruence.
  - by left; exists x.
Qed.

(** C7: What HTTP can do. A request, whatever it is and whatever it is
    answered, writes only objects it is entitled to: a catalog's document,
    outboard and index and the pointer of the token's own subject, after every
    check of a publish; the session record of an endpoint that signed the
    request of an accepted publisher; or, with an operator's token, the record
    an action is about and its audit event. Nothing is deleted. Blobs, their
    outboards and manifests and the publisher records are never written, so
    the push tasks and HTTP do not meet. The gate changes only by a session
    opened with 201 or an action answered 200, and a GET changes neither. *)
Theorem http_writes_authorized gated q t info s resp s' :
  ha_routes api = node_routes gated ->
  serve_http http_get status_get prefix api q t info s = (resp, s') ->
  writes prefix (written_by q t s) (objects (sv_bucket s)) (objects (sv_bucket s'))
  /\ gate_effect q t (rs_status resp) s s'
  /\ elsewhere prefix (objects (sv_bucket s)) (objects (sv_bucket s'))
  /\ (hq_method q = GET -> objects (sv_bucket s') = objects (sv_bucket s) /\ sv_gate s' = sv_gate s).
Proof.
  intros Hr [Hw Hg]%serve_effect. split_and!; [done|done| |].
  - eapply writes_elsewhere; [|exact Hw]. intros f id Hf%written_by_families. naive_solver.
  - intros Hm. split.
    + eapply writes_nothing, writes_weaken; [|exact Hw]. intros f id. by apply (written_by_get gated).
    + destruct Hg as [?|(g & g' & Eg & _ & [(_ & _ & endpoint & Ho)|(_ & _ & [x Hx] & Hop)])]; [done|exfalso..].
      * apply (written_by_get gated q t s (Records SESSIONS) (endpoint_to_string endpoint)); [done..|].
        by apply (WrittenBySession q t s g endpoint).
      * destruct (record_of x (moderation g)) as [kind key] eqn:Ex.
        apply (written_by_get gated q t s (Records kind) key); [done..|].
        apply (WrittenByOperator q t s g x); [done..|]. unfold action_writes. rewrite Ex. by left.
Qed.
End Requests.

(** ** Witnesses *)

Module HttpSample.
(** A gated node whose operator is [ops]. *)
#[local] Existing Instance bit_serde.
#[local] Existing Instance plain_hex.
#[local] Existing Instance plain_base64.
#[local] Existing Instance named_p256.
#[local] Existing Instance toy_blake3.
#[local] Existing Instance S3Sample.healthy.
#[local] Existing Instance GateSample.sealed.
#[local] Existing Instance ApiSample.headers_plain.
#[local] Existing Instance ApiSample.cbor_table.
#[local] Existing Instance ApiSample.cose_table.
#[local] Existing Instance ApiSample.no_provider.
#[local] Existing Instance ApiSample.iroh_any.
#[local] Existing Instance BundleSample.sha.
#[local] Existing Instance IngestSample.tdf.
#[local] Existing Instance PublishSample.no_policies.
#[local] Existing Instance PublishSample.zip.
#[local] Existing Instance PublishSample.bao.

Definition plain (status : Z) : Response := {| rs_status := status; rs_headers := []; rs_body := "" |}.

#[local] Instance axum : Axum := {|
  path_string := fun caps => match caps with [(_, s)] => Ok s | _ => Err (plain 400) end;
  json_content := fun headers body =>
    if is_json headers then match body with Whole b => Ok b | Broken => Err (plain 400) end else Err (plain 415);
  json_rejected := fun e => plain 422;
  no_such_route := plain 404;
  wrong_method := plain 405
|}.

#[local] Instance axum_laws : AxumLaws.
Proof.
  split; unfold client_error; cbn.
  - intros [|[n s] [|]] r; by intros [= <-].
  - intros headers [b|] r; destruct (is_json headers); by intros [= <-].
  - lia.
  - lia.
  - lia.
Qed.

Definition state : ApiState := {| st_verifier := AuthSample.verifier; st_publishing := None |}.
Definition api : HttpApi :=
  {| ha_policy := ApiSample.policy; ha_state := state;
     ha_v2 := v2_state state "identity.arkavo.net" "" {| rd_provider := true; rd_action := "read"; rd_environment := None |};
     ha_routes := node_routes true; ha_plain := (LOCALHOST, 8090%Z); ha_https := None |}.

Definition start : Server unit :=
  {| sv_keys := AuthSample.cache; sv_gate := Some ApiSample.gate1; sv_bucket := {| objects := ∅; s3_log := [] |};
     sv_provider := tt; sv_attributes := ∅ |}.

Definition content : string := repeat_char 64 "a".
Definition info : NodeInfo := {| endpoint_id := ""; relay_url := None; direct_addresses := []; ni_max_blob_bytes := 0 |}.

(** [PUT /moderation/blocks/aa…] by the operator. *)
Definition block_request : HttpRequest :=
  {| hq_method := PUT; hq_path := "/moderation/blocks/" +:+ content;
     hq_headers := ApiSample.auth "ops-token" ++ [("content-type", "application/json")];
     hq_body := Whole (serde_print (JObject [("reason", JString "spam")])) |}.

Definition get_request : HttpRequest :=
  {| hq_method := GET; hq_path := "/blobs/" +:+ content; hq_headers := []; hq_body := Whole "" |}.

Abbreviation serve q := (serve_http ApiSample.offline ApiSample.offline "" api q ApiSample.clocks info).

Lemma http_writes_authorized_witness :
  exists resp s', serve block_request start = (resp, s') /\ rs_status resp = HTTP_OK
    /\ is_Some (objects (sv_bucket s') !! ("moderation/blocks/" +:+ content))
    /\ elsewhere "" (objects (sv_bucket start)) (objects (sv_bucket s')).
Proof.
  pose proof (http_writes_authorized ApiSample.offline ApiSample.offline "" api true block_request ApiSample.clocks info start
    (serve block_request start).1 (serve block_request start).2 eq_refl (surjective_pairing _)) as (_ & _ & H & _).
  eexists _, _. split; [apply surjective_pairing|]. split; [vm_compute; reflexivity|].
  split; [eexists; vm_compute; reflexivity|exact H].
Defined.
End HttpSample.
