(* ===== verification/ModeratedNode.v ===== *)
(** * A node under moderation: requests and the re-read of the records

    The HTTP server of [HttpServer.v] beside the task of [spawn_refresh]
    (src/moderation.rs), which lists the suspensions, the blocks and the
    catalog blocks one after the other and then replaces the view. Requests,
    the turns of operator actions in flight (ModerationTasks.v), pushes and
    other writers come between its steps. A block is followed from the moment
    its record is stored to what the node answers afterwards: over HTTP, to
    fetches and to pushes. *)

From S2P Require Import Prelude Bytes Identifiers Json Extern Samples Net S3Store Auth Authz EntityChain PublishDecision Moderation PublishGate ModerationApi ModerationTasks CatalogMetadata CreatorCatalog CatalogV2 Validation Config Secrets Routes Ingest CatalogsApi CatalogsV2Api CatalogConcurrency S3Reader S3Serve Staging Node Startup PushTasks HttpServer.

(** ** The refresh task *)

(** Where a re-read is: what it has listed so far. *)
Inductive Refresh :=
| Resting
| ListedSuspensions (raw_suspensions : list bytes)
| ListedBlocks (raw_suspensions raw_blocks : list bytes)
| Listed (raw_suspensions raw_blocks raw_catalog_blocks : list bytes).

Section World.
Context {SJ : Serde} {B64 : Base64} {HX : Hex} {B3 : Blake3} {SH : Sha2} {CB : Ciborium} {CO : Coset} {EC : P256}.
Context {HC : HttpCrate} {OT : OpenTdf} {TC : TdfCrate} {ZC : ZipCrate} {BC : BaoCrate} {S3 : S3Service}.
Context {SF : SealedFormat} {IR : Iroh} {AX : Axum}.
Context {Sp : Type} {P : DecisionProvider Sp}.
Context (http_get status_get : string -> http_answer) (prefix : string) (api : HttpApi).

#[local] Instance world_records : ModerationStore Bucket := s3_moderation_store prefix.
#[local] Instance world_tags : TagStore Bucket := s3_tag_store prefix.

Record World := { w_server : Server Sp; w_refresh : Refresh; w_tasks : gmap nat (Commit * Stage) }.

Definition view_of (rs rb rc : list bytes) : Moderation :=
  {| suspensions := collect_active de_suspension su_lifted_at su_subject rs;
     blocks := collect_active de_block bl_lifted_at bl_hash rb;
     catalog_blocks := collect_active de_catalog_block cb_lifted_at cb_subject rc |}.

Definition with_gate (g : option PublishGate) (s : Server Sp) : Server Sp :=
  {| sv_keys := sv_keys s; sv_gate := g; sv_bucket := sv_bucket s; sv_provider := sv_provider s;
     sv_attributes := sv_attributes s |}.

(** One listing: on an error the re-read ends and the view stays. *)
Definition listing (kind : string) (next : list bytes -> Refresh) (w : World) : World :=
  let '(r, b) := list_records kind (sv_bucket (w_server w)) in
  {| w_server := with_bucket b (w_server w);
     w_refresh := match r with Ok l => next l | Err _ => Resting end;
     w_tasks := w_tasks w |}.

Definition refresh_step (w : World) : World :=
  match w_refresh w with
  | Resting => listing SUSPENSIONS ListedSuspensions w
  | ListedSuspensions rs => listing BLOCKS (ListedBlocks rs) w
  | ListedBlocks rs rb => listing CATALOG_BLOCKS (Listed rs rb) w
  | Listed rs rb rc =>
      let s := w_server w in
      {| w_server := with_gate (set_moderation (view_of rs rb rc) <$> sv_gate s) s; w_refresh := Resting; w_tasks := w_tasks w |}
  end.

(** A clock that tells the time in an [i64]. *)
Definition clock_ok (t : Clocks) : Prop := forall n, in_i64 (now_secs t n) = true.

Abbreviation verifier := (st_verifier (ha_state api)).
Abbreviation policy := (ha_policy api).

(** The turn of task [i] that leaves [res]. *)
Inductive turned (i : nat) (c : Commit) (stage : Stage) (res : result refusal (option Stage)) : World -> World -> Prop :=
| Turned s g a r ts :
    ts !! i = Some (c, stage) -> sv_gate s = Some g -> take_turn c stage (api_of g s) = (res, a) ->
    turned i c stage res {| w_server := s; w_refresh := r; w_tasks := ts |}
      {| w_server := with_api a s; w_refresh := r; w_tasks := after i c res ts |}.

Definition turn_of (i : nat) (w : World) : World :=
  let s := w_server w in
  match w_tasks w !! i, sv_gate s with
  | Some (c, stage), Some g =>
      let '(res, a) := take_turn c stage (api_of g s) in
      {| w_server := with_api a s; w_refresh := w_refresh w; w_tasks := after i c res (w_tasks w) |}
  | _, _ => w
  end.

Lemma turn_of_turned i c stage g w :
  w_tasks w !! i = Some (c, stage) -> sv_gate (w_server w) = Some g ->
  turned i c stage (take_turn c stage (api_of g (w_server w))).1 w (turn_of i w).
Proof.
  destruct w as [s r ts]. cbn. intros Hi Hg. unfold turn_of. cbn. rewrite Hi, Hg.
  destruct (take_turn _ _ _) as [res a] eqn:E. by apply (Turned _ _ _ _ _ g).
Qed.

(** [x] is not the lift of [hash]'s block. *)
Definition spares (hash : string) (x : action) : Prop := forall h, x = ALiftBlock h -> to_ascii_lowercase h <> hash.

(** What happens to a node while nobody lifts the block of [hash]: the
    refresh task moves; a request comes that is not an operator's DELETE of
    that block, and is served whole; an action that is not that DELETE begins,
    or one in flight takes its turn; a push, a connection or a part of a
    request changes the gate, but not its view; the bucket changes, but not
    that block's record. *)
Inductive world_step (hash : string) : World -> World -> Prop :=
| StepRefresh w : world_step hash w (refresh_step w)
| StepRequest q t info s r ts :
    clock_ok t -> (forall x, action_of api q = Some x -> spares hash x) ->
    world_step hash {| w_server := s; w_refresh := r; w_tasks := ts |}
      {| w_server := (serve_http http_get status_get prefix api q t info s).2; w_refresh := r; w_tasks := ts |}
| StepBegin i x headers t s g c a r ts :
    clock_ok t -> spares hash x -> ts !! i = None -> sv_gate s = Some g ->
    prepare http_get verifier policy x headers t (api_of g s) = (Ok c, a) ->
    world_step hash {| w_server := s; w_refresh := r; w_tasks := ts |}
      {| w_server := with_api a s; w_refresh := r; w_tasks := <[i := (c, Auditing)]> ts |}
| StepTurn i c stage res w w' : turned i c stage res w w' -> world_step hash w w'
| StepGate s g g' r ts : sv_gate s = Some g -> moderation g' = moderation g ->
    world_step hash {| w_server := s; w_refresh := r; w_tasks := ts |}
      {| w_server := with_gate (Some g') s; w_refresh := r; w_tasks := ts |}
| StepBucket s b r ts : bucket_stored prefix b BLOCKS hash = bucket_stored prefix (sv_bucket s) BLOCKS hash ->
    world_step hash {| w_server := s; w_refresh := r; w_tasks := ts |}
      {| w_server := with_bucket b s; w_refresh := r; w_tasks := ts |}.

Ltac listed H := rewrite Nat.iter_succ_r; unfold refresh_step at 2, listing; cbn [w_refresh w_server w_tasks sv_bucket with_bucket];
  rewrite H.

(** Left alone, the steps of a re-read are [refresh_tick]. *)
Lemma refresh_alone s g r b ts :
  sv_gate s = Some g -> reload (sv_bucket s) = (r, b) ->
  exists n, Nat.iter (S n) refresh_step {| w_server := s; w_refresh := Resting; w_tasks := ts |}
    = {| w_server := with_bucket b (with_gate (Some (set_moderation (refresh_tick (moderation g) (sv_bucket s)).1 g)) s);
         w_refresh := Resting; w_tasks := ts |}.
Proof.
  intros Hg H. unfold refresh_tick. rewrite H. unfold reload in H.
  assert (with_gate (Some (set_moderation (moderation g) g)) s = s) as Hs
    by (destruct s; cbn in Hg; subst; by destruct g).
  apply comp_bind_state in H as [(rs & b1 & H1 & H)|(e & H1 & ->)]; [|exists 0%nat; listed H1; cbn [fst]; by rewrite Hs].
  apply comp_bind_state in H as [(rb & b2 & H2 & H)|(e & H2 & ->)]; [|exists 1%nat; listed H1; listed H2; cbn [fst]; by rewrite Hs].
  apply comp_bind_state in H as [(rc & b3 & H3 & H)|(e & H3 & ->)]; [|exists 2%nat; listed H1; listed H2; listed H3; cbn [fst]; by rewrite Hs].
  injection H as <- <-. exists 3%nat. listed H1. listed H2. listed H3. cbn. by rewrite Hg.
Qed.
End World.
Arguments World {EC IR} Sp.

Lemma de_ser_block a : in_i64 (bl_at a) = true -> bl_lifted_at a = None -> de_block (ser_block a) = Ok a.
Proof.
  destruct a as [hash reason report by_ at_ lby lat]; cbn [bl_at bl_lifted_at]. intros Ha ->. unfold de_block, ser_block.
  cbn [bl_hash bl_reason bl_report_id bl_by bl_at bl_lifted_by bl_lifted_at].
  read_struct. unfold de_i64. rewrite Ha. destruct report, lby; reflexivity.
Qed.

(** A stored block is read back. *)
Lemma stored_block_reads {SJ : Serde} {RT : SerdeRoundTrip SJ} a :
  in_i64 (bl_at a) = true -> bl_lifted_at a = None -> from_slice de_block (serde_print (ser_block a)) = Ok a.
Proof.
  intros Hi Hl. unfold from_slice. rewrite parse_print by (destruct a as [? ? [] ? ? [] []]; reflexivity).
  by apply de_ser_block.
Qed.

(** ** A block and its record *)

Section Blocks.
Context {SJ : Serde} {RT : SerdeRoundTrip SJ}.
Context {B64 : Base64} {HX : Hex} {B3 : Blake3} {SH : Sha2} {CB : Ciborium} {CO : Coset} {EC : P256}.
Context {HC : HttpCrate} {OT : OpenTdf} {TC : TdfCrate} {ZC : ZipCrate} {BC : BaoCrate} {S3 : S3Service}.
Context {SF : SealedFormat} {IR : Iroh} {AX : Axum}.
Context {Sp : Type} {P : DecisionProvider Sp}.
Context (http_get status_get : string -> http_answer) (prefix : string) (api : HttpApi) (hash : string).

#[local] Instance block_records : ModerationStore Bucket := s3_moderation_store prefix.
#[local] Instance block_tags : TagStore Bucket := s3_tag_store prefix.

Abbreviation verifier := (st_verifier (ha_state api)).
Abbreviation policy := (ha_policy api).

(** The bucket holds the block, under its own name and not lifted. *)
Definition recorded (b : Bucket) : Prop :=
  exists raw a, bucket_stored prefix b BLOCKS hash = Some raw
    /\ from_slice de_block raw = Ok a /\ bl_lifted_at a = None /\ bl_hash a = hash.

Definition in_view (v : Moderation) : Prop := is_Some (blocks v !! hash).

(** A re-read that began to list blocks found it. *)
Definition in_listing (r : Refresh) : Prop :=
  match r with
  | Resting | ListedSuspensions _ => True
  | ListedBlocks _ rb | Listed _ rb _ => is_Some (collect_active de_block bl_lifted_at bl_hash rb !! hash)
  end.

(** What is written where the block is. *)
Definition keeps_block (kind key : string) (record : json) : Prop :=
  (kind, key) <> (BLOCKS, hash)
  \/ exists a, record = ser_block a /\ in_i64 (bl_at a) = true /\ bl_lifted_at a = None /\ bl_hash a = hash.

Lemma persist_recorded kind key record :
  no_slash kind -> keeps_block kind key record ->
  stable (fun a : Api Bucket Sp => recorded (api_store a)) (on_store (persist kind key record)) (fun _ => True).
Proof.
  intros Hk Hb. apply (stable_zoom recorded api_store ModerationApi.set_store); [done|].
  intros b r b' H Hr. split; [|done].
  apply (persist_run (LS := bucket_lawful prefix)) in H as [Hother Hthis]; [|done].
  destruct (decide ((BLOCKS, hash) = (kind, key))) as [[= <- <-]|Hne].
  2: { destruct Hr as (raw & a & Hraw & Ha). exists raw, a. split; [|done]. rewrite <- Hraw. by apply Hother. }
  destruct Hthis as [[Hsame _]|Hnew]; cbn in *.
  - destruct Hr as (raw & a & Hraw & Ha). exists raw, a. split; [|done]. by rewrite Hsame.
  - destruct Hb as [?|(a & -> & Hi & Hl & Hh)]; [done|]. exists (serde_print (ser_block a)), a. split_and!; try done.
    by apply stored_block_reads.
Qed.

(** No action but the lift of this block touches its record. *)
Lemma action_recorded x headers t :
  clock_ok t -> spares hash x ->
  stable (fun a : Api Bucket Sp => recorded (api_store a)) (run_action http_get verifier policy x headers t) (fun _ => True).
Proof.
  intros Ht Hx.
  assert (stable (fun a : Api Bucket Sp => recorded (api_store a)) (require_operator http_get verifier policy headers t)
    (fun _ => True)) as Hop.
  { intros s r0 s' [[Hs _] _]%require_operator_run Hr. by rewrite Hs. }
  unfold run_action, suspend, lift_suspension, block, lift_block, block_catalog, lift_catalog_block.
  destruct x; cbv zeta; stable_steps ltac:(idtac; first [apply Hop
    | apply persist_recorded; [reflexivity|first [by left | left; intros [= E]; by eapply Hx | idtac]]]).
  destruct (decide (to_ascii_lowercase hash0 = hash)) as [<-|Hne]; [right|left; congruence].
  eexists. split_and!; [reflexivity|apply Ht|done|done].
Qed.

(** Nor its place in the view. *)
Lemma apply_block_in_view b v : in_view v -> (bl_lifted_at b = None \/ bl_hash b <> hash) -> in_view (apply_block b v).
Proof.
  unfold in_view, apply_block. cbn. intros Hv Hb. destruct (bl_lifted_at b).
  - rewrite lookup_delete_ne; [done|naive_solver].
  - destruct (decide (bl_hash b = hash)) as [->|]; [by rewrite lookup_insert_eq|by rewrite lookup_insert_ne].
Qed.

Lemma action_in_view x headers t (a : Api Bucket Sp) r a' :
  spares hash x -> run_action http_get verifier policy x headers t a = (r, a') -> in_view (view a) -> in_view (view a').
Proof.
  intros Hx H Hv. set (J := fun a : Api Bucket Sp => in_view (view a)).
  assert (stable J (require_operator http_get verifier policy headers t) (fun _ => True)) as Hop.
  { intros s r0 s' [[_ Hg] _]%require_operator_run Hs. unfold J, view. by rewrite Hg. }
  assert (forall E A (m : comp Bucket E A), stable J (on_store m) (fun _ => True)) as Hst.
  { intros E A m s r0 s' (b & _ & ->)%on_store_run Hs. by split. }
  destruct x as [s b|s|h b|h|s b|s]; cbn [run_action] in H.
  4: { apply fmap_state in H as (r0 & H & _). unfold lift_block in H.
       apply comp_bind_state in H as [(by_ & a1 & H1 & H)|(e & H1 & _)]; [|by destruct (Hop _ _ _ H1 Hv)].
       destruct (Hop _ _ _ H1 Hv) as [Hv1 _]. apply comp_bind_ok_get in H. cbv zeta in H.
       destruct (find _ _) as [found|] eqn:Ef; cbn [ok_or] in H; [|by injection H as <- <-].
       apply active_find in Ef. unfold lift in H. unfold mbind at 1, comp_bind at 1 in H.
       run_keeps H J; [|exact (proj1 (Hk _ _ _ H Hv1))].
       stable_steps ltac:(idtac; first [apply Hst | apply stable_modify; intros sv Hsv; refine (apply_block_in_view _ _ Hsv _)]).
       right. cbn. rewrite Ef. by apply Hx. }
  all: run_keeps H J; [|exact (proj1 (Hk _ _ _ H Hv))].
  all: unfold suspend, lift_suspension, block, block_catalog, lift_catalog_block; cbv zeta.
  all: stable_steps ltac:(idtac; first [apply Hop | apply Hst
    | apply stable_modify; intros sv Hsv; first [exact Hsv | refine (apply_block_in_view _ _ Hsv _); by left]]).
Qed.
(** ** Requests *)

Abbreviation serve := (serve_http http_get status_get prefix api).

(** A request that asks for an action is that action. *)
Lemma serve_action q x t info s :
  action_of api q = Some x ->
  exists r, moderated (json_response HTTP_OK) (run_action http_get verifier policy x (hq_headers q) t) s = (r, (serve q t info s).2)
    /\ (serve q t info s).1 = match r with Ok resp => resp | Err resp => resp end.
Proof.
  unfold action_of, serve_http. destruct (dispatch _ _ _) as [h caps| |]; [|done..].
  destruct (path_string caps) as [target|] eqn:Ep; [|done]. cbn [ok mbind option_bind].
  destruct h; try done; cbn [handle]; rewrite Ep; unfold lift, mbind, comp_bind;
    try (destruct (extract_json de_action_request q) as [body|]; [|done]; cbn [ok]);
    intros [= <-]; unfold moderated; (destruct (sv_gate s) as [g|]; [destruct (run_action _ _ _ _ _ _ _) as [r a]|]);
    by eexists.
Qed.

Lemma serve_aside q t info s :
  action_of api q = None ->
  bucket_stored prefix (sv_bucket (serve q t info s).2) BLOCKS hash = bucket_stored prefix (sv_bucket s) BLOCKS hash
  /\ (moderation <$> sv_gate (serve q t info s).2) = moderation <$> sv_gate s.
Proof.
  intros Hx. destruct (serve q t info s) as [resp s'] eqn:E. apply serve_effect in E as [Hw Hg]. cbn [snd]. split.
  - unfold bucket_stored. f_equal. apply (writes_frame prefix _ _ _ (Records BLOCKS) hash) in Hw; [done|reflexivity|].
    intros Hb. apply written_by_kind in Hb as [[x Hs]|[=]]; by rewrite Hs in Hx.
  - destruct Hg as [->|(g & g' & -> & -> & [(_ & Hm & _)|(_ & _ & [x Hs] & _)])]; [done|by cbn; rewrite Hm|by rewrite Hs in Hx].
Qed.

Lemma request_recorded q t info s :
  clock_ok t -> (forall x, action_of api q = Some x -> spares hash x) ->
  recorded (sv_bucket s) -> recorded (sv_bucket (serve q t info s).2).
Proof.
  intros Ht Hx Hr. destruct (action_of api q) as [x|] eqn:E.
  - destruct (serve_action q x t info s E) as (r & Hm & _). unfold moderated in Hm. destruct (sv_gate s) as [g|].
    2: { by injection Hm as _ <-. }
    destruct (run_action _ _ _ _ _ _ _) as [r0 a] eqn:Ea. injection Hm as _ <-.
    by destruct (action_recorded x (hq_headers q) t Ht (Hx x eq_refl) _ _ _ Ea Hr).
  - destruct Hr as (raw & a & Hraw & Ha). exists raw, a. split; [|done]. rewrite <- Hraw. by apply serve_aside.
Qed.

(** The view of a gated node shows the block. *)
Definition shown (s : Server Sp) : Prop := exists g, sv_gate s = Some g /\ in_view (moderation g).

Lemma request_shown q t info s :
  (forall x, action_of api q = Some x -> spares hash x) -> shown s -> shown (serve q t info s).2.
Proof.
  intros Hx (g & Hg & Hv). destruct (action_of api q) as [x|] eqn:E.
  - destruct (serve_action q x t info s E) as (r & Hm & _). unfold moderated in Hm. rewrite Hg in Hm.
    destruct (run_action _ _ _ _ _ _ _) as [r0 a] eqn:Ea. injection Hm as _ <-.
    exists (api_gate a). split; [done|]. by eapply (action_in_view x) in Ea; [|apply Hx|].
  - destruct (serve_aside q t info s E) as [_ Hm]. rewrite Hg in Hm. unfold shown.
    destruct (sv_gate (serve q t info s).2) as [g'|]; [|done]. injection Hm as Hm. exists g'. split; [done|].
    by rewrite Hm.
Qed.

(** ** Actions in flight *)

(** Neither the record nor the view of the block suffers from [c]. *)
Definition harmless (c : Commit) : Prop :=
  change_key (cm_change c) = cm_key c
  /\ forall b, cm_change c = CBlock b -> bl_hash b = hash -> in_i64 (bl_at b) = true /\ bl_lifted_at b = None.

Definition all_harmless (ts : gmap nat (Commit * Stage)) : Prop := forall i c stage, ts !! i = Some (c, stage) -> harmless c.

Lemma prepare_harmless x headers t (a : Api Bucket Sp) c a' :
  clock_ok t -> spares hash x -> prepare http_get verifier policy x headers t a = (Ok c, a') -> harmless c.
Proof.
  intros Ht Hx H. split; [by apply prepare_accountable in H as [[Hk _] _]|]. intros b Hc Hb.
  destruct x as [s q|s|h q|h|s q|s]; cbn [prepare] in H;
    unfold prepare_suspend, prepare_lift_suspension, prepare_block, prepare_lift_block, prepare_block_catalog,
      prepare_lift_catalog_block in H; cbv zeta in H; inv_run;
    repeat (split_if H; [by apply throw_ok in H|]); inv_run; simplify_eq; cbn in Hc; simplify_eq.
  - split; [apply Ht|done].
  - match goal with Hf : find _ _ = Some _ |- _ => apply active_find in Hf end. cbn in *. exfalso. by eapply Hx.
Qed.

Lemma harmless_keeps c : harmless c -> keeps_block (cm_kind c) (cm_key c) (cm_record c).
Proof.
  intros [<- Hb]. unfold keeps_block, cm_kind, cm_record. destruct (cm_change c) as [r|r|r]; [by left| |by left]. cbn.
  destruct (decide (bl_hash r = hash)) as [E|E]; [right|left; congruence].
  exists r. split; [done|]. destruct (Hb r eq_refl E). done.
Qed.

Lemma turn_recorded c stage (a : Api Bucket Sp) res a' :
  harmless c -> take_turn c stage a = (res, a') -> recorded (api_store a) -> recorded (api_store a').
Proof.
  intros Hc H. run_keeps H (fun a : Api Bucket Sp => recorded (api_store a)); [|intros Hr; exact (proj1 (Hk _ _ _ H Hr))].
  destruct stage; unfold take_turn, audit; stable_steps ltac:(idtac; apply persist_recorded).
  - reflexivity.
  - by left.
  - by apply change_kind_record.
  - by apply harmless_keeps.
Qed.

Lemma turn_in_view c stage (a : Api Bucket Sp) res a' :
  harmless c -> take_turn c stage a = (res, a') -> in_view (view a) -> in_view (view a').
Proof.
  intros [_ Hc] H Hv. destruct stage; cbn [take_turn] in H.
  1, 2: apply comp_bind_state in H as [([] & a1 & (b & _ & ->)%on_store_run & [= <- <-])|(e & (b & _ & ->)%on_store_run & ->)]; exact Hv.
  injection H as <- <-. destruct (cm_change c) as [r|r|r]; [exact Hv| |exact Hv].
  refine (apply_block_in_view _ _ Hv _). destruct (decide (bl_hash r = hash)) as [E|E]; [left; by apply Hc|by right].
Qed.

Lemma singleton_harmless i c stage : harmless c -> all_harmless {[ i := (c, stage) ]}.
Proof. intros Hc j c' stage' Hj. apply lookup_singleton_Some in Hj as [_ [= <- _]]. done. Qed.

Lemma after_harmless i c res ts : all_harmless ts -> harmless c -> all_harmless (after i c res ts).
Proof.
  intros Hts Hc j c' stage. destruct res as [[next|]|]; cbn [after]; [rewrite lookup_insert_Some|rewrite lookup_delete_Some..].
  - intros [[_ [= <- _]]|[_ Hj]]; [done|by eapply Hts].
  - intros [_ Hj]. by eapply Hts.
  - intros [_ Hj]. by eapply Hts.
Qed.

(** ** Steps *)

Abbreviation step := (world_step http_get status_get prefix api hash).

(** The block is recorded, and nothing in flight lifts it. *)
Definition standing (w : World Sp) : Prop := all_harmless (w_tasks w) /\ recorded (sv_bucket (w_server w)).

Lemma listing_effect kind next (w : World Sp) :
  w_tasks (listing prefix kind next w) = w_tasks w
  /\ sv_gate (w_server (listing prefix kind next w)) = sv_gate (w_server w)
  /\ bucket_stored prefix (sv_bucket (w_server (listing prefix kind next w))) BLOCKS hash
     = bucket_stored prefix (sv_bucket (w_server w)) BLOCKS hash.
Proof.
  unfold listing. destruct (list_records _ _) as [r b] eqn:E. split_and!; try done.
  exact (bucket_list_keeps prefix _ _ _ _ E BLOCKS hash).
Qed.

Lemma recorded_same b b' :
  bucket_stored prefix b' BLOCKS hash = bucket_stored prefix b BLOCKS hash -> recorded b -> recorded b'.
Proof. intros E (raw & a & Hraw & Ha). exists raw, a. by rewrite E. Qed.

Lemma listing_standing kind next w : standing w -> standing (listing prefix kind next w).
Proof.
  destruct (listing_effect kind next w) as (Ht & _ & Hb). intros [Hh Hr]. split; [by rewrite Ht|by eapply recorded_same].
Qed.

Lemma step_standing w w' : step w w' -> standing w -> standing w'.
Proof.
  destruct 1 as [w|q t info s r ts Ht Hq|i x headers t s g c a r ts Ht Hx Hi Hg Hp|i c stage res w w' Hturn
    |s g g' r ts Hg Hm|s b r ts E]; intros Hst.
  - unfold refresh_step. destruct (w_refresh w); [by apply listing_standing..|exact Hst].
  - destruct Hst as [Hh Hr]. split; [done|]. by apply request_recorded.
  - destruct Hst as [Hh Hr]. split.
    + intros j c' stage. cbn. rewrite lookup_insert_Some. intros [[_ [= <- _]]|[_ Hj]]; [by eapply prepare_harmless|by eapply Hh].
    + apply prepare_accountable in Hp as [_ [Hs _]]. cbn. by rewrite Hs.
  - destruct Hturn as [s g a r ts Hi Hg Ha], Hst as [Hh Hr]. pose proof (Hh _ _ _ Hi) as Hc.
    split; [by apply after_harmless|]. by apply (turn_recorded _ _ _ _ _ Hc Ha).
  - exact Hst.
  - destruct Hst as [Hh Hr]. split; [done|]. by eapply recorded_same.
Qed.

(** A re-read that lists the blocks now finds it. *)
Lemma step_listed w w' : step w w' -> standing w -> in_listing (w_refresh w) -> in_listing (w_refresh w').
Proof.
  destruct 1 as [w| | |i c stage res w w' [s g a r ts _ _ _]| |]; intros [_ Hr] Hl; try exact Hl.
  unfold refresh_step, listing. destruct (w_refresh w) as [|rs|rs rb|rs rb rc]; try (destruct (list_records _ _) as [[l|] b] eqn:El; exact Hl || exact I).
  2: exact I.
  destruct (list_records _ _) as [[l|] b] eqn:El; [|exact I]. cbn.
  destruct Hr as (raw & a & Hraw & Ha & Hla & <-). eapply collect_active_has; [|done|done].
  apply (bucket_list_exact prefix _ _ _ _ El). by exists (bl_hash a).
Qed.

(** Once it is in the view, too, it stays there. *)
Lemma step_shown w w' :
  step w w' -> standing w -> in_listing (w_refresh w) -> shown (w_server w) -> shown (w_server w').
Proof.
  destruct 1 as [w|q t info s r ts Ht Hq|i x headers t s g c a r ts Ht Hx Hi Hg Hp|i c stage res w w' Hturn
    |s g g' r ts Hg Hm|s b r ts E]; intros [Hh _] Hl Hs.
  - unfold refresh_step. destruct (w_refresh w) as [|rs|rs rb|rs rb rc];
      [unfold shown; match goal with |- context [listing prefix ?k ?n w] => by rewrite (proj1 (proj2 (listing_effect k n w))) end..|].
    destruct Hs as (g & Hg & _). unfold shown. cbn. rewrite Hg. eexists. split; [done|exact Hl].
  - by apply request_shown.
  - apply prepare_accountable in Hp as [_ [_ Hgate]]. destruct Hs as (g0 & Hg0 & Hv). exists g0. split; [|done]. cbn in Hg0 |- *. rewrite Hgate. cbn. congruence.
  - destruct Hturn as [s g a r ts Hi Hg Ha]. destruct Hs as (g0 & Hg0 & Hv). exists (api_gate a). split; [done|].
    refine (turn_in_view _ _ _ _ _ (Hh _ _ _ Hi) Ha _). cbn in Hg0. rewrite Hg in Hg0. injection Hg0 as ->. exact Hv.
  - destruct Hs as (g0 & Hg0 & Hv). exists g'. split; [done|]. rewrite Hm. cbn in Hg0. rewrite Hg in Hg0. by injection Hg0 as ->.
  - exact Hs.
Qed.

Lemma steps_standing w w' :
  rtc step w w' -> standing w ->
  standing w' /\ (in_listing (w_refresh w) -> in_listing (w_refresh w') /\ (shown (w_server w) -> shown (w_server w'))).
Proof.
  induction 1 as [w|w w1 w' Hs _ IH]; intros Hr; [done|].
  destruct (IH (step_standing _ _ Hs Hr)) as [Hr' Hv']. split; [done|]. intros Hl.
  destruct (Hv' (step_listed _ _ Hs Hr Hl)) as [? Hsh]. split; [done|]. intros Hv. by eapply Hsh, step_shown.
Qed.
End Blocks.

(** ** What a block does *)

Section Blocked.
Context {SJ : Serde} {HX : Hex} {B3 : Blake3} {SF : SealedFormat} {IR : Iroh}.

(** The hashes of which a request asks something. *)
Definition asked {BS : BaoServe} (request : Request) : list bytes :=
  match request with
  | Get hash (Some (0%Z, _)) => [hash]
  | GetMany hashes ranges => (wanted_many hashes ranges).*1
  | _ => []
  end.

Lemma check_all_blocked {S3 : S3Service} {TR : Transport} {BS : BaoServe} prefix view now i wanted hash (g : Serving) :
  hash ∈ wanted.*1 -> blocked view hash = true ->
  exists code g', check_all prefix view now i wanted g = (Err code, g').
Proof.
  intros Hin Hb. revert i g; induction wanted as [|[h r] wanted IH]; intros i g; [by apply elem_of_nil in Hin|].
  cbn [check_all]. cbn in Hin. apply elem_of_cons in Hin as [->|Hin]; [rewrite Hb; by eexists _, _|].
  destruct (blocked view h); [by eexists _, _|].
  unfold mbind at 1, comp_bind at 1. destruct (comp_map_err _ _ g) as [[sv|e] g1]; [|by eexists _, _].
  destruct (hidden _ _); [by eexists _, _|].
  unfold mbind, comp_bind. destruct (IH Hin (S i) g1) as (code & g' & ->). by eexists _, _.
Qed.

(** A request for a blocked hash, alone or among others, is sent nothing. *)
Lemma stream_blocked {S3 : S3Service} {TR : Transport} {BS : BaoServe} prefix view now request permits hash (g : Serving) :
  hash ∈ asked request -> blocked view hash = true ->
  exists code g', stream prefix view now request permits g = (ResetWith code, "", g').
Proof.
  intros Hin Hb. assert (forall wanted, hash ∈ wanted.*1 ->
    exists code g', Node.serve prefix view now wanted permits g = (ResetWith code, "", g')) as Hs.
  { intros wanted Hw. unfold Node.serve. destruct (permits =? 0)%nat; [by eexists _, _|].
    destruct (check_all_blocked prefix view now 0 wanted hash g Hw Hb) as (code & g' & ->). by eexists _, _. }
  destruct request as [h c|h [[offset ranges]|]|hs ranges| |]; cbn in Hin; try (by apply elem_of_nil in Hin).
  - destruct offset; [|by apply elem_of_nil in Hin..]. by apply Hs.
  - cbn [stream]. destruct (MAX_FETCH_HASHES <? length hs)%nat; [by eexists _, _|]. by apply Hs.
Qed.

(** Nor is a push of it accepted. *)
Lemma push_blocked ask t connection_id hash_hex (g : PublishGate) :
  is_blocked (moderation g) hash_hex = true -> exists e, (authorize_push ask t connection_id hash_hex g).1 = Err e.
Proof.
  intros Hb. assert (forall g' held endpoint, moderation g' = moderation g ->
    exists e, check_push g' held hash_hex endpoint = Err e) as Hc.
  { intros g' [subject chain] endpoint Hm. unfold check_push. rewrite Hm, Hb. destruct (is_suspended _ _); by eexists. }
  unfold authorize_push. destruct (connections g !! connection_id) as [endpoint|]; [|by eexists].
  destruct (held_session _ _ g) as [held|]; [by apply Hc|].
  destruct (begin_lookup endpoint (t_miss t) g) as [b g1] eqn:Eb.
  assert (moderation g1 = moderation g) as Hm1 by (by apply begin_lookup_frame in Eb as [n ->]).
  destruct b; [|by eexists].
  destruct (end_lookup _ _ _ _ _ g1) as [found g2] eqn:Ee. destruct found as [held|]; [|by eexists]. apply Hc. rewrite <- Hm1.
  unfold end_lookup in Ee. destruct (PublishGate.look_up _ _ _ _ _ _) as [f g3] eqn:El. injection Ee as -> <-.
  by apply look_up_frame in El as [ss ->].
Qed.
End Blocked.

(** ** Refusals are never answered as successes *)

(** Every error [m] ends with satisfies [Q]. *)
Definition raises {S E A} (m : comp S E A) (Q : E -> Prop) : Prop := forall s e s', m s = (Err e, s') -> Q e.

Section Raises.
Context {S E : Type} (Q : E -> Prop).

Lemma raises_bind {A B} (m : comp S E A) (f : A -> comp S E B) :
  raises m Q -> (forall a, raises (f a) Q) -> raises (m ≫= f) Q.
Proof.
  intros Hm Hf s e s' [(a & s1 & _ & H)|(e1 & H & [= ->])]%comp_bind_state; [by eapply Hf|by eapply Hm].
Qed.
Lemma raises_ret {A} (a : A) : raises (E := E) (mret (M := comp S E) a) Q.
Proof. by intros s e s'. Qed.
Lemma raises_get : raises (S := S) get Q.
Proof. by intros s e s'. Qed.
Lemma raises_modify f : raises (S := S) (modify f) Q.
Proof. by intros s e s'. Qed.
Lemma raises_throw {A} (e : E) : Q e -> raises (S := S) (A := A) (throw e) Q.
Proof. by intros He s e' s' [= <- _]. Qed.
Lemma raises_lift {A} (x : result E A) : (forall e, x = Err e -> Q e) -> raises (S := S) (lift x) Q.
Proof. intros Hx s e s' [= He _]. auto. Qed.
Lemma raises_map_err {F A} (f : F -> E) (m : comp S F A) : (forall e, Q (f e)) -> raises (comp_map_err f m) Q.
Proof.
  intros Hf s e s' H. unfold comp_map_err in H. destruct (m s) as [[a|e0] s0]; [done|]. injection H as <- <-. apply Hf.
Qed.
Lemma raises_zoom {T A} (proj : T -> S) put (m : comp S E A) : raises m Q -> raises (zoom proj put m) Q.
Proof.
  intros Hm t e t' H. unfold zoom in H. destruct (m (proj t)) as [r s] eqn:Em. injection H as -> _. by eapply Hm.
Qed.
End Raises.

Lemma ok_or_err {E A} (o : option A) (e e' : E) : ok_or o e = Err e' -> e' = e.
Proof. destruct o; by intros [= <-]. Qed.

Definition error_status (e : refusal) : Prop := (400 <= e.1)%Z.

Ltac raise_steps leaf :=
  repeat first
    [ apply raises_ret | apply raises_get | apply raises_modify | by apply raises_throw
    | apply raises_map_err; intros []; done
    | apply raises_lift; intros ? ?%ok_or_err; subst; done
    | apply raises_lift; unfold checked_reason, checked_report_id; intros ? ?; repeat case_match; simplify_eq; done
    | leaf
    | apply raises_bind; [|intros ?]
    | case_match ].

(** ** The theorem *)

Section UntilLifted.
Context {SJ : Serde} {RT : SerdeRoundTrip SJ}.
Context {B64 : Base64} {HX : Hex} {B3 : Blake3} {SH : Sha2} {CB : Ciborium} {CO : Coset} {EC : P256}.
Context {HC : HttpCrate} {OT : OpenTdf} {TC : TdfCrate} {ZC : ZipCrate} {BC : BaoCrate} {S3 : S3Service}.
Context {SF : SealedFormat} {IR : Iroh} {AX : Axum} {AL : AxumLaws}.
Context {Sp : Type} {P : DecisionProvider Sp}.
Context (http_get status_get : string -> http_answer) (prefix : string) (api : HttpApi).

#[local] Instance theorem_records : ModerationStore Bucket := s3_moderation_store prefix.
#[local] Instance theorem_tags : TagStore Bucket := s3_tag_store prefix.

Abbreviation verifier := (st_verifier (ha_state api)).
Abbreviation policy := (ha_policy api).
Abbreviation serve := (serve_http (Sp := Sp) http_get status_get prefix api).

Lemma block_raises h body headers t :
  raises (S := Api Bucket Sp) (run_action http_get verifier policy (ABlock h body) headers t) error_status.
Proof.
  unfold run_action, block, require_operator, operator, audit, persist, on_store. cbv zeta.
  raise_steps ltac:(idtac; apply raises_zoom).
Qed.

(** A block that was answered 200 is in the bucket and in the view. *)
Lemma block_made q h body t info s :
  action_of api q = Some (ABlock h body) -> clock_ok t -> rs_status (serve q t info s).1 = HTTP_OK ->
  valid_hash h = true
  /\ recorded prefix (to_ascii_lowercase h) (sv_bucket (serve q t info s).2)
  /\ shown (to_ascii_lowercase h) (serve q t info s).2.
Proof.
  intros Hx Ht Hst. destruct (serve_action http_get status_get prefix api q _ t info s Hx) as (r & Hm & Hr).
  rewrite Hr in Hst. unfold moderated in Hm. destruct (sv_gate s) as [g|].
  2: { injection Hm as <- _. pose proof unrouted as Hu. unfold client_error in Hu. rewrite Hst in Hu. unfold HTTP_OK in Hu. lia. }
  destruct (run_action _ _ _ _ _ _ _) as [[j|e] a'] eqn:Ea; injection Hm as <- <-.
  2: { apply block_raises in Ea. unfold error_status in Ea. cbn in Hst. rewrite Hst in Ea. unfold HTTP_OK in Ea. lia. }
  unfold run_action in Ea. apply comp_bind_ok in Ea as (b & a1 & Hb & [-> <-]%comp_ret_ok).
  unfold block in Hb. apply comp_bind_ok in Hb as (by_ & a2 & _ & Hb).
  destruct (valid_hash h); cbn [negb] in Hb; [|by apply throw_ok in Hb]. destruct (ar_hide_catalog body); [by apply throw_ok in Hb|].
  split; [done|].
  apply comp_bind_ok in Hb as (reason & ? & [_ ->]%lift_ok & Hb). apply comp_bind_ok in Hb as (report & ? & [_ ->]%lift_ok & Hb).
  set (record := {| bl_hash := _; bl_reason := _; bl_report_id := _; bl_by := _; bl_at := _; bl_lifted_by := _; bl_lifted_at := _ |}) in Hb.
  apply (commit_spec (LS := bucket_lawful prefix) "block" (CBlock record) t record ser_block) in Hb as [_ _ _ Hdone _]; [|reflexivity].
  destruct (Hdone _ eq_refl) as (_ & _ & Hraw & Hv). split.
  - exists (serde_print (ser_block record)), record. split_and!; try done. apply stored_block_reads; [apply Ht|done].
  - exists (api_gate a'). split; [done|]. unfold in_view. change (moderation (api_gate a')) with (view a'). rewrite Hv.
    cbn. rewrite lookup_insert_eq. by eexists.
Qed.

(** The block of [h] comes into force: the request for it was served whole and
    answered 200; or its handler ran in turns, its record was stored in the
    first of two turns and it was answered in the second, and in between
    anything happened. No lift of the block was in flight. [r] is where the
    refresh task was when the record was stored. *)
Inductive in_force (h : string) : Refresh -> World Sp -> Prop :=
| InForceWhole q body t info s r ts :
    action_of api q = Some (ABlock h body) -> clock_ok t -> rs_status (serve q t info s).1 = HTTP_OK ->
    all_harmless (to_ascii_lowercase h) ts ->
    in_force h r {| w_server := (serve q t info s).2; w_refresh := r; w_tasks := ts |}
| InForceTurns i q body t (a a' : Api Bucket Sp) c w w1 w2 w3 :
    action_of api q = Some (ABlock h body) -> clock_ok t ->
    prepare http_get verifier policy (ABlock h body) (hq_headers q) t a = (Ok c, a') ->
    all_harmless (to_ascii_lowercase h) (w_tasks w) ->
    turned prefix i c Persisting (Ok (Some Applying)) w w1 ->
    rtc (world_step http_get status_get prefix api (to_ascii_lowercase h)) w1 w2 ->
    turned prefix i c Applying (Ok None) w2 w3 ->
    in_force h (w_refresh w1) w3.

Lemma block_prepared h body headers t (a : Api Bucket Sp) c a' :
  clock_ok t -> prepare http_get verifier policy (ABlock h body) headers t a = (Ok c, a') ->
  valid_hash h = true /\ cm_key c = to_ascii_lowercase h
  /\ exists b, cm_change c = CBlock b /\ bl_hash b = to_ascii_lowercase h /\ bl_lifted_at b = None /\ in_i64 (bl_at b) = true.
Proof.
  intros Ht H. cbn [prepare] in H. unfold prepare_block in H. apply comp_bind_ok in H as (by_ & a1 & _ & H).
  destruct (valid_hash h); cbn [negb] in H; [|by apply throw_ok in H]. destruct (ar_hide_catalog body); [by apply throw_ok in H|].
  split; [done|]. cbv zeta in H. inv_run. simplify_eq. split; [done|]. eexists. split; [done|]. split_and!; try done; apply Ht.
Qed.

(** The turn that stores the record. *)
Lemma persisted_recorded i c b h (w w1 : World Sp) :
  turned prefix i c Persisting (Ok (Some Applying)) w w1 ->
  cm_change c = CBlock b -> cm_key c = h -> bl_hash b = h -> bl_lifted_at b = None -> in_i64 (bl_at b) = true ->
  recorded prefix h (sv_bucket (w_server w1)).
Proof.
  intros [s g a r ts _ _ Ha] Hc Hk Hh Hl Hi. cbn [take_turn] in Ha.
  apply comp_bind_state in Ha as [([] & a1 & H1 & [= <-])|(e & _ & [=])].
  apply on_store_run in H1 as (st & H1 & ->). unfold cm_kind, cm_record in H1. rewrite Hc, Hk in H1. cbn in H1.
  apply (persist_run (LS := bucket_lawful prefix)) in H1 as [_ [[_ Hno]|Hraw]]; [done| |reflexivity].
  exists (serde_print (ser_block b)), b. split_and!; try done. by apply stored_block_reads.
Qed.

(** The turn that answers. *)
Lemma applied_shown i c b h (w2 w3 : World Sp) :
  turned prefix i c Applying (Ok None) w2 w3 -> cm_change c = CBlock b -> bl_hash b = h -> bl_lifted_at b = None ->
  shown h (w_server w3).
Proof.
  intros [s g a r ts _ _ [= <-]] Hc Hh Hl. eexists. split; [done|]. unfold in_view. cbn. rewrite Hc. cbn. rewrite Hl.
  cbn. rewrite Hh, lookup_insert_eq. by eexists.
Qed.

(** A re-read in this state has yet to list the blocks. *)
Definition before_blocks (r : Refresh) : Prop := r = Resting \/ exists rs, r = ListedSuspensions rs.

Lemma before_blocks_listed hash r : before_blocks r -> in_listing hash r.
Proof. by intros [->|[rs ->]]. Qed.

Lemma in_force_stands h r w :
  in_force h r w ->
  valid_hash h = true /\ standing prefix (to_ascii_lowercase h) w /\ shown (to_ascii_lowercase h) (w_server w)
  /\ (before_blocks r -> in_listing (to_ascii_lowercase h) (w_refresh w)).
Proof.
  destruct 1 as [q body t info s r ts Hx Ht Hst Hh|i q body t a a' c w w1 w2 w3 Hx Ht Hp Hh Hw1 Hs Hw3].
  - destruct (block_made q h body t info s Hx Ht Hst) as (Hv & Hrec & Hshown).
    split_and!; try done. by apply before_blocks_listed.
  - destruct (block_prepared _ _ _ _ _ _ _ Ht Hp) as (Hv & Hk & b & Hc & Hb & Hl & Hi).
    set (hash := to_ascii_lowercase h) in *.
    assert (harmless hash c) as Hharm.
    { split; [by rewrite Hc, Hk|]. intros b' Hc'. rewrite Hc in Hc'. injection Hc' as <-. done. }
    assert (standing prefix hash w1) as H1.
    { split; [|by eapply persisted_recorded]. destruct Hw1. by apply after_harmless. }
    destruct (steps_standing _ _ _ _ _ _ _ Hs H1) as [H2 Hl2].
    assert (standing prefix hash w3 /\ w_refresh w3 = w_refresh w2) as [H3 Hr3].
    { split; [|by destruct Hw3]. by apply (step_standing http_get status_get prefix api hash w2); [eapply StepTurn|]. }
    split_and!; [done|done|by eapply applied_shown|]. rewrite Hr3. intros Hbb. by apply Hl2, before_blocks_listed.
Qed.

(** [q] reads [hash] over HTTP. *)
Definition reads_hash (q : HttpRequest) (hash : string) : Prop :=
  exists h caps, (h = Handler.get_blob \/ h = Handler.get_catalog_document)
    /\ dispatch (ha_routes api) (hq_method q) (hq_path q) = Handled h caps /\ path_string caps = Ok hash.

(** Nobody gets it: not over HTTP, not by a fetch, and no push of it is
    accepted. *)
Definition unavailable (hash : string) (s : Server Sp) : Prop :=
  exists g, sv_gate s = Some g
  /\ (forall q t info, reads_hash q hash -> rs_status (serve q t info s).1 = NOT_FOUND)
  /\ (forall (TR : Transport) (BS : BaoServe) now request permits h (serving : Serving),
        hex_encode h = hash -> h ∈ asked request ->
        exists code serving', stream prefix (Some (moderation g)) now request permits serving = (ResetWith code, "", serving'))
  /\ (forall ask t connection_id, exists e, (authorize_push ask t connection_id hash g).1 = Err e).

Lemma shown_unavailable h s :
  valid_hash h = true -> shown (to_ascii_lowercase h) s -> unavailable (to_ascii_lowercase h) s.
Proof.
  intros Hvalid (g & Hg & Hv). set (hash := to_ascii_lowercase h) in *.
  assert (is_blocked (moderation g) hash = true) as Hb.
  { unfold is_blocked, hash. rewrite to_ascii_lowercase_idemp. by apply bool_decide_eq_true. }
  exists g. split_and!; [done| | |].
  - intros q t info (hd & caps & Hhd & Hq & Hp). unfold serve_http. rewrite Hq.
    assert (tag_is_blocked (api_state api s) hash = true) as Ht by (unfold tag_is_blocked, api_state; cbn; by rewrite Hg).
    assert (is_lower_hex_hash hash = true) as Hl by (by apply valid_hash_lowercase).
    destruct Hhd as [->| ->]; cbn [handle]; rewrite Hp; unfold lift, mbind, comp_bind, tagged, route_blob, route_catalog_document;
      rewrite Hl, Ht; reflexivity.
  - intros TR BS now request permits hb serving Hh Hin. eapply stream_blocked; [exact Hin|]. cbn. by rewrite Hh.
  - intros ask t connection_id. by apply push_blocked.
Qed.

(** C8: A block holds until it is lifted. An operator's
    [PUT /moderation/blocks/{hash}] was answered 200, whether it was served
    whole or its handler waited for the audit event and the record while other
    handlers ran. Whatever then happens (requests of any kind, other operators'
    actions at any of their stages, pushes, writes of others to other records,
    re-reads of the records that fail or succeed, at any point) short of a lift
    of that block, its record stays in the bucket, so every later re-read, also
    after a restart, blocks it; and unless a re-read had already listed the
    blocks both when the record was stored and when the request was answered,
    nobody gets the content from this node at any moment: reads over HTTP are
    answered 404, fetches of it or of lists with it are sent nothing, and
    pushes of it are refused. *)
Theorem blocked_until_lifted h r w' w :
  in_force h r w' ->
  rtc (world_step http_get status_get prefix api (to_ascii_lowercase h)) w' w ->
  (forall view b', reload (sv_bucket (w_server w)) = (Ok view, b') -> is_blocked view h = true)
  /\ (before_blocks r \/ before_blocks (w_refresh w') -> unavailable (to_ascii_lowercase h) (w_server w)).
Proof.
  intros Hf Hsteps. destruct (in_force_stands _ _ _ Hf) as (Hvalid & Hst & Hshown & Hl).
  destruct (steps_standing _ _ _ _ _ _ _ Hsteps Hst) as [[_ Hrec] Hshown']. split.
  - intros view b' Hload. apply (shows_blocked _ _ _ (reload_shows _ _ _ _ Hload)).
    destruct Hrec as (raw & a & Hraw & Ha). exists a. by exists (to_ascii_lowercase h), raw.
  - intros Hr. apply shown_unavailable; [done|]. apply Hshown'; [|done].
    destruct Hr as [Hr|Hr]; [by apply Hl|by apply before_blocks_listed].
Qed.
End UntilLifted.

(** ** Witnesses *)

Module ModeratedSample.
#[local] Existing Instance bit_serde.
#[local] Existing Instance bit_serde_round_trip.
#[local] Existing Instance plain_hex.
#[local] Existing Instance plain_base64.
#[local] Existing Instance named_p256.
#[local] Existing Instance toy_blake3.
#[local] Existing Instance S3Sample.healthy.
#[local] Existing Instance GateSample.sealed.
#[local] Existing Instance ApiSample.headers_plain.
#[local] Existing Instance ApiSample.cbor_table.
#[local] Existing Instance ApiSample.cose_table.
#[local] Existing Instance ApiSample.no_provider.
#[local] Existing Instance ApiSample.iroh_any.
#[local] Existing Instance BundleSample.sha.
#[local] Existing Instance IngestSample.tdf.
#[local] Existing Instance PublishSample.no_policies.
#[local] Existing Instance PublishSample.zip.
#[local] Existing Instance PublishSample.bao.
#[local] Existing Instance HttpSample.axum.
#[local] Existing Instance HttpSample.axum_laws.
Import HttpSample.

(** The content is stored. *)
Definition stored_start : Server unit :=
  with_bucket {| objects := {[ blob_key "" content := written "archive" None ]}; s3_log := [] |} start.

Abbreviation refresh := (refresh_step (Sp := unit) "").
Abbreviation status q s := (rs_status (HttpSample.serve q s).1).

(** The block's handler waits for its record while the node re-reads: it is
    answered after that, and the records are read once more. *)
Definition body : ActionRequest := {| ar_reason := "spam"; ar_report_id := None; ar_hide_catalog := false |}.
Definition gate0 : PublishGate := default (gate_new moderation_default) (sv_gate stored_start).
Definition node0 : Api Bucket unit := api_of gate0 stored_start.
Definition prepared : result refusal Commit * Api Bucket unit :=
  prepare ApiSample.offline (st_verifier (ha_state api)) (ha_policy api) (ABlock content body) (hq_headers block_request)
    ApiSample.clocks node0.
Definition blocking : Commit := default TaskSample.nothing (ok prepared.1).
Abbreviation turn := (turn_of (Sp := unit) "" 0).

Definition world0 : World unit :=
  {| w_server := with_api prepared.2 stored_start; w_refresh := Resting; w_tasks := {[ 0%nat := (blocking, Auditing) ]} |}.
Definition audited_world : World unit := turn world0.
Definition recorded_world : World unit := turn audited_world.
Definition waiting : World unit := Nat.iter 4 refresh recorded_world.
Definition answered_world : World unit := turn waiting.
Definition reread : World unit := Nat.iter 4 refresh answered_world.

Definition gate_in (w : World unit) : PublishGate := default (gate_new moderation_default) (sv_gate (w_server w)).

Lemma turned_now c stage res w :
  w_tasks w !! 0%nat = Some (c, stage) -> sv_gate (w_server w) = Some (gate_in w) ->
  (take_turn (MS := s3_moderation_store "") c stage (api_of (gate_in w) (w_server w))).1 = res ->
  turned "" 0 c stage res w (turn w).
Proof. intros Hi Hg <-. by apply turn_of_turned. Qed.

Lemma refreshed hash n w : rtc (world_step ApiSample.offline ApiSample.offline "" api hash) w (Nat.iter n refresh w).
Proof. induction n as [|n IH]; [done|]. eapply rtc_r; [exact IH|apply StepRefresh]. Qed.

Ltac computed := vm_compute; reflexivity.

Lemma prepared_ok : prepared = (Ok blocking, prepared.2).
Proof. assert (prepared.1 = Ok blocking) as <- by computed. apply surjective_pairing. Qed.

Lemma blocking_in_force : in_force ApiSample.offline ApiSample.offline "" api content Resting answered_world.
Proof.
  apply (InForceTurns ApiSample.offline ApiSample.offline "" api content 0 block_request body ApiSample.clocks node0 prepared.2 blocking
    audited_world recorded_world waiting).
  - computed.
  - intros n. computed.
  - exact prepared_ok.
  - assert (w_tasks audited_world = {[ 0%nat := (blocking, Persisting) ]}) as -> by computed. apply singleton_harmless.
    refine (prepare_harmless _ _ _ _ _ _ _ _ _ _ _ prepared_ok); [intros n; computed|done].
  - apply turned_now; computed.
  - apply refreshed.
  - apply turned_now; computed.
Qed.

Lemma blocked_until_lifted_witness :
  status get_request stored_start = HTTP_OK /\ status get_request (w_server reread) = NOT_FOUND.
Proof.
  split; [computed|].
  destruct (blocked_until_lifted ApiSample.offline ApiSample.offline "" api content Resting answered_world reread
    blocking_in_force (refreshed _ 4 _)) as [_ H].
  destruct H as (g & _ & H & _); [left; by left|]. apply H.
  eexists Handler.get_blob, _. split; [by left|]. split; computed.
Defined.

(** A re-read that had listed the blocks before the operator's request was
    answered replaces the view with one that lacks the block: the content is
    served again until the next re-read. *)
Theorem refresh_forgets_block :
  let w := Nat.iter 2 refresh {| w_server := stored_start; w_refresh := Resting; w_tasks := ∅ |} in
  let w' := Nat.iter 2 refresh
    {| w_server := (HttpSample.serve block_request (w_server w)).2; w_refresh := w_refresh w; w_tasks := ∅ |} in
  status block_request (w_server w) = HTTP_OK
  /\ status get_request (HttpSample.serve block_request (w_server w)).2 = NOT_FOUND
  /\ status get_request (w_server w') = HTTP_OK
  /\ status get_request (w_server (Nat.iter 4 refresh w')) = NOT_FOUND.
Proof. vm_compute. split_and!; reflexivity. Qed.
End ModeratedSample.
