(* ===== verification/CatalogRoundTrip.v ===== *)
(** * A catalog from its publish to its readers

    [PUT /v2/catalogs/{sub}], then [GET /v2/catalogs/{sub}] and
    [GET /catalog-documents/{hash}], over the server of [HttpServer.v]. *)

From S2P Require Import Prelude Bytes Identifiers Json Extern Samples Net S3Store Auth Authz EntityChain PublishDecision Moderation PublishGate ModerationApi CatalogMetadata CreatorCatalog CatalogV2 Validation Config Secrets Routes Ingest CatalogsApi CatalogsV2Api CatalogPublish CatalogConcurrency S3Reader S3Serve Staging Node Startup PushTasks HttpServer ModeratedNode.

(** ** An index that was accepted has no fractions *)

Lemma object_fields_all fields acc l l' :
  object_fields fields true acc l = Ok l' -> NoDup acc.*1 -> l' = acc ++ l /\ NoDup l'.*1 /\ Forall (.∈ fields) l.*1.
Proof.
  revert acc; induction l as [|[k v] l IH]; intros acc H Hn; cbn in H.
  { injection H as <-. rewrite app_nil_r. split_and!; [done..|constructor]. }
  case_bool_decide; [|done]. destruct (assoc_get k acc) eqn:Ek; [done|].
  apply IH in H as (-> & Hn' & Hf).
  - split_and!; [by rewrite <- app_assoc|done|by constructor].
  - rewrite fmap_app. apply NoDup_app. split_and!; [done| |apply NoDup_singleton].
    intros x Hx Hk. apply list_elem_of_singleton in Hk as ->. by apply assoc_get_None in Ek.
Qed.

Lemma assoc_get_NoDup (l : list (string * json)) k v : NoDup l.*1 -> (k, v) ∈ l -> assoc_get k l = Some v.
Proof.
  induction l as [|[k' v'] l IH]; intros Hn Hin; [by apply elem_of_nil in Hin|]. cbn in *.
  apply NoDup_cons in Hn as [Hk Hn]. apply elem_of_cons in Hin as [[= -> ->]|Hin]; [by rewrite decide_True|].
  rewrite decide_False; [by apply IH|]. intros ->. apply Hk. apply list_elem_of_fmap. by exists (k', v).
Qed.

Lemma zip_keys {A} (ks : list string) (l : list A) : sublist (zip ks l).*1 ks.
Proof.
  revert l; induction ks as [|k ks IH]; intros [|x l]; cbn; [constructor|apply sublist_nil_l..|]. by apply sublist_skip.
Qed.

(** A struct all of whose members are floatless is. *)
Lemma struct_floatless fields j l :
  NoDup fields -> struct_fields fields true j = Ok l ->
  (forall k v, k ∈ fields -> assoc_get k l = Some v -> floatless v = true) -> floatless j = true.
Proof.
  intros Hf H Hl. destruct j as [| | | | |a|o]; cbn in H; try done; cbn.
  - case_bool_decide as Hlen; [|done]. injection H as <-. apply forallb_forall. intros v Hv%list_elem_of_In.
    apply list_elem_of_lookup in Hv as [i Hi]. destruct (lookup_lt_is_Some_2 fields i) as [k Hk].
    { apply lookup_lt_Some in Hi. lia. }
    apply (Hl k); [by eapply list_elem_of_lookup_2|]. apply assoc_get_NoDup.
    + exact (sublist_NoDup _ _ Hf (zip_keys fields a)).
    + apply list_elem_of_lookup. exists i. apply lookup_zip_with_Some. by exists k, v.
  - apply object_fields_all in H as (-> & Hn & Hk); [|constructor]. cbn in Hl, Hn. apply forallb_forall.
    intros [k v] Hv%list_elem_of_In. apply (Hl k); [|by apply assoc_get_NoDup].
    rewrite Forall_forall in Hk. apply Hk, list_elem_of_fmap. by exists (k, v).
Qed.

Lemma entry_floatless {SJ : Serde} raw e : entry raw = Ok e -> floatless raw = true.
Proof.
  unfold entry, de_entry. intros H. inv_run.
  match goal with H : struct_fields _ _ _ = Ok _ |- _ => apply struct_floatless in H; [done| |] end.
  { apply (bool_decide_unpack _). vm_compute. exact I. }
  unfold field in *. intros k v Hk Hg.
  repeat (apply elem_of_cons in Hk as [->|Hk]; [rewrite Hg in *; by destruct v|]). by apply elem_of_nil in Hk.
Qed.

Lemma index_floatless {SJ : Serde} index entries : parse_index index = Ok entries -> floatless index = true.
Proof.
  destruct index as [| | | | |raw|]; cbn; try done. destruct (_ <? _)%Z; [done|].
  generalize 0%nat, (∅ : gmap string nat). revert entries; induction raw as [|r raw IH]; intros entries i seen H; [done|].
  cbn in H. inv_run. cbn. erewrite entry_floatless by done. case_match; [done|]. inv_run. by eapply IH.
Qed.

(** ** What a publish leaves *)

Section Publish.
Context {SJ : Serde} {B64 : Base64} {HX : Hex} {B3 : Blake3} {SH : Sha2} {CB : Ciborium} {CO : Coset} {EC : P256}.
Context {HC : HttpCrate} {OT : OpenTdf} {TC : TdfCrate} {ZC : ZipCrate} {BC : BaoCrate} {S3 : S3Service}.
Context {Sp : Type} {P : DecisionProvider Sp}.
Context (http_get status_get : string -> http_answer) (prefix : string).

#[local] Instance publish_tags : TagStore Bucket := s3_tag_store prefix.

(** What its readers' checks ask of it. *)
Lemma prepared_publish state sub_ headers body t (v : V2 Bucket Sp) p v1 :
  prepare_publish http_get status_get state sub_ headers body t v = (Ok p, v1) ->
  publish_ok p /\ floatless (pb_index p) = true /\ valid_identifier sub_ MAX_OWNER_BYTES = true
  /\ is_lower_hex_hash (pb_hash p) = true.
Proof.
  intros [(claims & k & sp & req & vb & k' & _ & _ & _ & _ & _ & _ & _ & Hvb & Hpt & _ & Hh & _ & _ & _ & Hi & _) _]%(prepare_publish_ok _ _ _ prefix).
  apply verify_bundle_pointer in Hvb as (pb & Hd & Hp & Ho). rewrite <- Hpt in Hp, Ho.
  destruct (parse_pointer_ok _ _ Hp) as (_ & _ & _ & Hok). destruct Hok as [_ Hown _ Hhex _ _]. rewrite Ho in Hown. rewrite Hh in Hhex.
  split_and!; [by exists pb|by eapply index_floatless|done|done].
Qed.

Lemma put_context_done what key body owner b b' :
  context what (put_object key body owner Always) b = (Ok tt, b') -> objects b' = <[key := written body owner]> (objects b).
Proof. intros [[_ ?]|?]%put_context_effect; done. Qed.

Lemma store_publish_done sub_ p outboard expected b b' :
  store_publish sub_ p outboard expected b = (Ok tt, b') -> in_bucket prefix sub_ p (objects b').
Proof.
  unfold store_publish. cbv zeta. intros H.
  apply comp_bind_ok in H as ([] & b1 & H1%comp_map_err_ok & H). apply put_context_done in H1.
  apply comp_bind_ok in H as ([] & b2 & H2%comp_map_err_ok & H). apply put_context_done in H2.
  apply comp_bind_ok in H as ([] & b3 & H3%comp_map_err_ok & H). apply put_context_done in H3.
  apply comp_bind_ok in H as (w & b4 & H4%comp_map_err_ok & H). destruct w; cbn [negb] in H; [|by apply throw_ok in H].
  injection H as <-. cbn in H4. unfold put_catalog_pointer in H4.
  destruct (put_object _ _ _ _ b3) as [[[]|[]] b5] eqn:E; simplify_eq. apply put_object_ok in E as [_ E].
  rewrite H3, H2, H1 in E. rewrite E. apply stored_publish_has.
Qed.

Lemma put_catalog_done state sub_ headers body t (v : V2 Bucket Sp) j v' :
  put_catalog http_get status_get state sub_ headers body t v = (Ok j, v') ->
  exists p v1, prepare_publish http_get status_get state sub_ headers body t v = (Ok p, v1)
    /\ in_bucket prefix sub_ p (objects (v_store v'))
    /\ j = JObject [("owner", JString sub_); ("seq", JInt (pt_seq (pb_pointer p)));
                    ("hash", JString (pb_hash p)); ("size", JInt (len (pb_document p)))].
Proof.
  unfold put_catalog. intros (p & v1 & Hp & H)%comp_bind_ok. exists p, v1. split; [done|].
  apply comp_bind_ok in H as ([current live] & v2 & _ & H). apply comp_bind_ok in H as ([] & v3 & _ & H).
  apply comp_bind_ok in H as (outboard & v4 & _ & H). apply comp_bind_ok in H as ([] & v5 & Hs & [-> ->]%comp_ret_ok).
  apply zoom_ok in Hs as (b & Hs%store_publish_done & ->). by split.
Qed.

(** A publish that is refused is never answered as one that was made. *)
Lemma raises_attempt {S E F A} (m : comp S E A) (Q : F -> Prop) : raises (attempt (F := F) m) Q.
Proof. intros s e s' H. unfold attempt in H. by destruct (m s). Qed.

Lemma ask_raises d chain : raises (S := PolicyState) (ask_pdp d chain) error_status.
Proof. intros s e s' H. unfold ask_pdp in H. by destruct (ask d chain s.2). Qed.

Lemma lift_raises {S A} (x : result refusal A) : (forall e, x = Err e -> error_status e) -> raises (S := S) (lift x) error_status.
Proof. apply raises_lift. Qed.

(** A pure check: every error it has is a literal. *)
Ltac pure_raises := idtac; apply lift_raises; intros ? ?;
  unfold check_length, read_request, decode_document, check_base, local_answer in *;
  repeat (case_match; simplify_eq/=; try done); unfold map_err in *; repeat (case_match; simplify_eq/=; try done).

Lemma devices_raises verifier tokens sub_ now inst_ :
  raises (verified_devices http_get verifier tokens sub_ now inst_) error_status.
Proof.
  revert inst_; induction tokens as [|tok tokens IH]; intros inst_; cbn; [apply raises_ret|].
  unfold verified_device. raise_steps ltac:(idtac; apply IH).
Qed.

Lemma publisher_raises policy verifier m headers t :
  raises (S := PolicyState) (publisher http_get policy verifier m headers t) error_status.
Proof.
  unfold publisher, publisher_with_chain, policy_chain. cbv zeta.
  raise_steps ltac:(idtac; first [apply raises_attempt|apply ask_raises|apply raises_zoom|apply devices_raises|pure_raises]).
Qed.

Lemma result_map_err_raises {E A} (f : E -> refusal) (x : result E A) e :
  (forall y, error_status (f y)) -> map_err f x = Err e -> error_status e.
Proof. intros Hf. destruct x; cbn; [done|]. intros [= <-]. apply Hf. Qed.

Lemma look_up_raises {St A} (f : string -> comp St refusal A) found hs :
  (forall h, raises (f h) error_status) -> raises (look_up_loop f found hs) error_status.
Proof.
  intros Hf. revert found; induction hs as [|h hs IH]; intros found; cbn; [apply raises_ret|].
  apply raises_bind; [apply Hf|]. intros x. apply IH.
Qed.

Lemma check_payloads_raises api entries attribute : raises (check_payloads api entries attribute) error_status.
Proof.
  unfold check_payloads, look_up, size_lookup, manifest_lookup.
  raise_steps ltac:(idtac; apply look_up_raises; intros ?).
Qed.

Lemma read_request_raises body : raises (S := V2 Bucket Sp) (lift (read_request body)) error_status.
Proof.
  apply lift_raises. intros e H. unfold read_request, mbind, result_bind in H.
  destruct body as [b|]; [|by injection H as <-]. destruct (_ <? _)%Z; [by injection H as <-|].
  destruct (map_err invalid_request (serde_parse b)) eqn:E; [|injection H as <-; eapply result_map_err_raises; [|exact E]; by intros []].
  destruct (negb _); [by injection H as <-|]. eapply result_map_err_raises; [|exact H]; by intros [].
Qed.

Lemma put_catalog_raises state sub_ headers body t :
  raises (S := V2 Bucket Sp) (put_catalog http_get status_get state sub_ headers body t) error_status.
Proof.
  unfold put_catalog, prepare_publish, authorize_publisher, read_current, store_publish, v_on_store, v_on_keys. cbv zeta.
  raise_steps ltac:(idtac; first [apply publisher_raises | apply raises_zoom | apply read_request_raises | apply check_payloads_raises
    | apply lift_raises; intros ? Hx; eapply result_map_err_raises; [|exact Hx]; by intros []
    | pure_raises]).
Qed.
End Publish.

(** ** What readers are answered *)

Section Readers.
Context {SJ : Serde} {RT : SerdeRoundTrip SJ}.
Context {B64 : Base64} {HX : Hex} {B3 : Blake3} {SH : Sha2} {CB : Ciborium} {CO : Coset} {EC : P256}.
Context {HC : HttpCrate} {OT : OpenTdf} {TC : TdfCrate} {ZC : ZipCrate} {BC : BaoCrate} {S3 : S3Service}.
Context {Sp : Type} {P : DecisionProvider Sp}.
Context (http_get : string -> http_answer) (prefix : string) (Hhealthy : forall log o, s3_fault log o = Healthy).

#[local] Instance reader_tags : TagStore Bucket := s3_tag_store prefix.

Lemma healthy_or_absent what o key b x :
  objects b !! key = Some x -> exists b', or_absent what (read_object o key) b = (Ok (Some x), b') /\ objects b' = objects b.
Proof.
  intros Hx. destruct (or_absent_reads what o key b) as (r & b' & E & Ho & _ & Hh).
  exists b'. by rewrite E, (Hh Hhealthy x Hx).
Qed.

Definition document_headers (hash : string) : list (string * string) :=
  [("etag", dquote +:+ hash +:+ dquote); ("cache-control", CATALOG_DOCUMENT_CACHE_CONTROL);
   (HEADER_CONTENT_TYPE, "application/zip")].

Lemma document_served st hash headers b document owner :
  is_lower_hex_hash hash = true -> tag_is_blocked st hash = false -> owner_hidden st (Some owner) = false ->
  if_none_match headers (dquote +:+ hash +:+ dquote) = false ->
  objects b !! catalog_document_key prefix hash = Some (written document (Some owner)) ->
  exists b', route_catalog_document st hash headers b
             = (Ok {| rs_status := HTTP_OK; rs_headers := document_headers hash; rs_body := document |}, b').
Proof.
  intros Hl Hb Ho Hn Hd. unfold route_catalog_document. cbv zeta. rewrite Hl, Hb, Hn. cbn [negb].
  unfold ts_get_catalog_document, reader_tags, s3_tag_store, get_catalog_document, get_object.
  destruct (healthy_or_absent "Failed to GET catalog document from S3" (OpGet (catalog_document_key prefix hash))
    (catalog_document_key prefix hash) b _ Hd) as (b' & E & _).
  exists b'. unfold mbind, comp_bind, comp_map_err. rewrite E. cbn. by rewrite Ho.
Qed.

Lemma index_read_back r :
  floatless (ix_entries r) = true ->
  exists r', (j ← serde_parse (serde_print (ser_index_record r)); de_index_record j) = Ok r' /\ ix_attribute r' = ix_attribute r.
Proof.
  intros Hf. rewrite parse_print by (cbn; by rewrite Hf). cbn [mbind result_bind]. unfold de_index_record, ser_index_record.
  read_struct. eexists. split; [reflexivity|done].
Qed.

(** The catalog's attribute, remembered or from its index record. *)
Lemma attribute_known sub_ p (v : V2 Bucket Sp) :
  in_bucket prefix sub_ p (objects (v_store v)) -> floatless (pb_index p) = true ->
  (forall a, v_attributes v !! pb_hash p = Some a -> a = pb_attribute p) ->
  exists v', catalog_attribute (pb_hash p) v = (Ok (Some (pb_attribute p)), v')
             /\ v_keys v' = v_keys v /\ v_provider v' = v_provider v.
Proof.
  intros (_ & Hi & _) Hf Hc. unfold catalog_attribute, get, mbind, comp_bind.
  destruct (v_attributes v !! pb_hash p) as [a|] eqn:E; [rewrite (Hc a eq_refl); by exists v|].
  unfold v_on_store, zoom, comp_map_err, ts_get_catalog_index, reader_tags, s3_tag_store, get_catalog_index, get_object.
  destruct (healthy_or_absent "Failed to GET catalog index from S3" (OpGet (catalog_index_key prefix (pb_hash p)))
    (catalog_index_key prefix (pb_hash p)) (v_store v) _ Hi) as (b' & Eb & _).
  unfold mbind, comp_bind. rewrite Eb. cbn [mret comp_ret fmap option_fmap option_map obj_body written map_err].
  match goal with |- context [serde_print (ser_index_record ?r)] => destruct (index_read_back r Hf) as (r' & Er & Ha) end.
  unfold mbind in Er. rewrite Er. cbn. rewrite Ha. cbn. by eexists.
Qed.

(** A reader whose token is good and who is an operator or permitted. *)
Definition may_read (state : V2State) (headers : HeaderMap) (t : Clocks) (k : KeyCache) (provider : Sp)
    (hash attribute : string) : Prop :=
  exists claims k',
    authorize_catalog_reader http_get (st_verifier (v_api state)) headers t k = (Ok claims, k')
    /\ (is_operator (v_api state) claims = true
        \/ forall v : V2 Bucket Sp, v_keys v = k' -> v_provider v = provider ->
             exists v', decide_reader http_get state claims headers hash attribute t v = (Ok tt, v')).

Definition pointer_headers (seq : Z) : list (string * string) :=
  [(HEADER_CONTENT_TYPE, "application/json"); ("cache-control", CATALOG_POINTER_CACHE_CONTROL); ("etag", pointer_etag seq)].

Lemma pointer_read_back sub_ body b :
  objects b !! catalog_pointer_key prefix sub_ = Some (written body None) ->
  exists b' tag, ts_get_catalog_pointer sub_ b = (Ok (Some {| sp_body := body; sp_etag := tag |}), b') /\ objects b' = objects b.
Proof.
  intros Hptr. unfold ts_get_catalog_pointer, reader_tags, s3_tag_store, get_catalog_pointer, get_object.
  destruct (healthy_or_absent "Failed to GET catalog pointer from S3" (OpGet (catalog_pointer_key prefix sub_))
    (catalog_pointer_key prefix sub_) b _ Hptr) as (b' & Eb & Hob).
  exists b'. unfold mbind, comp_bind. rewrite Eb. by eexists.
Qed.

Lemma pointer_served state sub_ headers t p (v : V2 Bucket Sp) :
  in_bucket prefix sub_ p (objects (v_store v)) -> publish_ok p -> floatless (pb_index p) = true ->
  (forall a, v_attributes v !! pb_hash p = Some a -> a = pb_attribute p) ->
  valid_identifier sub_ MAX_OWNER_BYTES = true -> owner_hidden (v_api state) (Some sub_) = false ->
  tag_is_blocked (v_api state) (pb_hash p) = false ->
  may_read state headers t (v_keys v) (v_provider v) (pb_hash p) (pb_attribute p) ->
  exists v', get_pointer http_get state sub_ headers t v
    = (Ok {| rs_status := HTTP_OK; rs_headers := pointer_headers (pt_seq (pb_pointer p));
             rs_body := serde_print (ser_bundle (pb_bundle p)) |}, v').
Proof.
  intros Hin Hp Hf Hc Hv Hh Hb (claims & k' & Ha & Hd). pose proof Hin as (_ & _ & Hptr).
  unfold get_pointer. cbv zeta. unfold v_on_keys, zoom. unfold mbind at 1, comp_bind at 1. rewrite Ha, Hv, Hh. cbn [negb].
  destruct (pointer_read_back sub_ _ (v_store v) Hptr) as (b' & tag & Eb & Hob).
  assert (in_bucket prefix sub_ p (objects (v_store (set_v_store b' (set_v_keys k' v))))) as Hin' by (cbn; by rewrite Hob).
  destruct (attribute_known sub_ p _ Hin' Hf Hc) as (v1 & E1 & Hk1 & Hp1). cbn [v_keys v_provider set_v_store set_v_keys] in Hk1, Hp1.
  unfold v_on_store, zoom, comp_map_err, mbind, comp_bind, lift. cbn [v_store set_v_keys]. rewrite Eb.
  cbn [ok_or sp_body map_err].
  rewrite (stored_seq_bundle p Hp). cbn [map_err]. rewrite Hb, E1. cbn [ok_or].
  destruct Hd as [->|Hd]; cbn [negb]; [by eexists|].
  destruct (negb _); [|by eexists]. destruct (Hd v1 Hk1 Hp1) as [v2 ->]. by eexists.
Qed.
End Readers.

(** ** Between the two *)

Section Between.
Context {SJ : Serde} {RT : SerdeRoundTrip SJ}.
Context {B64 : Base64} {HX : Hex} {B3 : Blake3} {SH : Sha2} {CB : Ciborium} {CO : Coset} {EC : P256}.
Context {HC : HttpCrate} {OT : OpenTdf} {TC : TdfCrate} {ZC : ZipCrate} {BC : BaoCrate} {S3 : S3Service}.
Context {SF : SealedFormat} {IR : Iroh} {AX : Axum}.
Context {Sp : Type} {P : DecisionProvider Sp}.
Context (http_get status_get : string -> http_answer) (prefix : string) (api : HttpApi).
Context (sub_ : string) (p : Publish) (Hf : floatless (pb_index p) = true).

#[local] Instance between_tags : TagStore Bucket := s3_tag_store prefix.
#[local] Instance between_records : ModerationStore Bucket := s3_moderation_store prefix.

Abbreviation routed q := (dispatch (ha_routes api) (hq_method q) (hq_path q)).

(** The attribute cache has nothing else of the catalog. *)
Definition remembers (attributes : gmap string string) : Prop :=
  forall a, attributes !! pb_hash p = Some a -> a = pb_attribute p.

Definition held (m : gmap string object) (attributes : gmap string string) : Prop :=
  in_bucket prefix sub_ p m /\ remembers attributes.

Definition v_held (v : V2 Bucket Sp) : Prop := held (objects (v_store v)) (v_attributes v).

(** Whatever else a part of the state does. *)
Lemma held_aside {T E A} (proj : V2 Bucket Sp -> T) put (m : comp T E A) :
  (forall t v, v_store (put t v) = v_store v /\ v_attributes (put t v) = v_attributes v) ->
  stable v_held (zoom proj put m) (fun _ => True).
Proof.
  intros Hp v r v' H Hv. unfold zoom in H. destruct (m (proj v)) as [r0 t]. injection H as <- <-.
  unfold v_held. destruct (Hp t v) as [-> ->]. by split.
Qed.

Lemma held_attribute h : stable v_held (catalog_attribute h) (fun _ => True).
Proof.
  intros v r v' H Hv. split; [|done]. unfold catalog_attribute in H. apply comp_bind_ok_get in H.
  destruct (v_attributes v !! h) as [a|] eqn:Ea; [by injection H as <- <-|].
  unfold v_on_store in H. apply comp_bind_state in H as [(o & v1 & (b & Hb%comp_map_err_ok & ->)%zoom_ok & H)|(e & H & ->)].
  - apply get_catalog_index_ok in Hb as [Ho Hx]. destruct o as [body|].
    2: { injection H as <- <-. unfold v_held, set_v_store. cbn. by rewrite Ho. }
    unfold lift, mbind, comp_bind in H. destruct (map_err _ _) as [record|e] eqn:Er; injection H as <- <-.
    2: { unfold v_held, set_v_store. cbn. by rewrite Ho. }
    unfold v_held, held, set_v_store, set_v_attributes. cbn. rewrite Ho. destruct Hv as [Hin Hr]. split; [done|].
    intros a. destruct (decide (h = pb_hash p)) as [->|Hne].
    + rewrite lookup_insert_eq. intros [= <-]. destruct (Hx _ eq_refl) as (obj & Hobj & <-).
      destruct Hin as (_ & Hi & _). cbn in Hobj. rewrite Hi in Hobj. injection Hobj as <-. cbn in Er.
      match type of Er with context [ser_index_record ?x] => destruct (index_read_back x Hf) as (r' & Er' & Ha) end.
      unfold mbind in Er'. rewrite Er' in Er. injection Er as <-. done.
    + rewrite lookup_insert_ne by done. destruct (_ <=? _)%Z; [by rewrite lookup_empty|apply Hr].
  - unfold zoom, comp_map_err in H. destruct (ts_get_catalog_index h (v_store v)) as [r0 b] eqn:Eb. injection H as _ <-.
    unfold v_held, set_v_store. cbn. assert (objects b = objects (v_store v)) as ->; [|done].
    destruct (wrote_tag_reads prefix (fun _ _ => False) (objects (v_store v)) h) as (_ & _ & _ & _ & Hr & _).
    by apply (fun H => writes_nothing _ _ _ (proj1 (Hr _ _ _ Eb H))); constructor.
Qed.

(** A read of the store. *)
Lemma held_read {E A} (m : comp Bucket E A) :
  (forall W mo, stable (wrote prefix W mo) m (fun _ => True)) -> stable v_held (zoom v_store set_v_store m) (fun _ => True).
Proof.
  intros Hm v r v' H Hv. split; [|done]. unfold zoom in H. destruct (m (v_store v)) as [r0 b] eqn:Eb. injection H as <- <-.
  destruct (Hm (fun _ _ => False) (objects (v_store v)) _ _ _ Eb) as [Hw%writes_nothing _]; [constructor|].
  unfold v_held, set_v_store. cbn. by rewrite Hw.
Qed.

Ltac held_step := idtac; first
  [ apply held_attribute
  | apply held_read; intros ? ?; stable_steps tag_read
  | apply held_aside; done
  | eapply stable_attempt, held_aside; done ].

Lemma held_get state id headers t : stable v_held (get_pointer http_get state id headers t) (fun _ => True).
Proof. unfold get_pointer, decide_reader. cbv zeta. stable_steps held_step. Qed.

(** A publish does not use the attribute cache. *)
Definition same_attributes (a : gmap string string) (v : V2 Bucket Sp) : Prop := v_attributes v = a.

Lemma attributes_aside {T E A} a (proj : V2 Bucket Sp -> T) put (m : comp T E A) :
  (forall t v, v_attributes (put t v) = v_attributes v) -> stable (same_attributes a) (zoom proj put m) (fun _ => True).
Proof.
  intros Hp v r v' H Hv. unfold zoom in H. destruct (m (proj v)) as [r0 t]. injection H as <- <-.
  unfold same_attributes. rewrite Hp. by split.
Qed.

Lemma put_attributes a state id headers body t :
  stable (same_attributes a) (put_catalog http_get status_get state id headers body t) (fun _ => True).
Proof.
  unfold put_catalog, prepare_publish. cbv zeta. stable_steps ltac:(idtac; apply attributes_aside; done).
Qed.

(** A request that is not a publish of the subject, nor of the document. *)
Definition keeps_catalog (q : HttpRequest) (t : Clocks) (s : Server Sp) : Prop :=
  forall caps other p' v, routed q = Handled Handler.put_catalog caps -> path_string caps = Ok other ->
    prepare_publish http_get status_get (v2_config api s) other (hq_headers q) (hq_body q) t (v2_of s) = (Ok p', v) ->
    other <> sub_ /\ pb_hash p' <> pb_hash p.

Lemma catalog_not_written q t s :
  keeps_catalog q t s ->
  ~ written_by http_get status_get prefix api q t s CatalogDocuments (pb_hash p)
  /\ ~ written_by http_get status_get prefix api q t s CatalogIndexes (pb_hash p)
  /\ ~ written_by http_get status_get prefix api q t s CatalogPointers sub_.
Proof.
  intros Hq. assert (forall f id, written_by http_get status_get prefix api q t s f id ->
    f = CatalogDocuments \/ f = CatalogIndexes -> id <> pb_hash p) as H1.
  { intros f id Hw Hfam. destruct Hw as [caps other p' v f id Hr Hp Hpr Hw|g e f id _ _ [-> _]|g x f id _ _ _ Hw].
    - destruct (Hq _ _ _ _ Hr Hp Hpr) as [_ Hne]. destruct Hw as [[_ ->]|[-> _]]; [done|naive_solver].
    - naive_solver.
    - unfold action_writes in Hw. destruct x; cbn in Hw; naive_solver. }
  assert (forall f id, written_by http_get status_get prefix api q t s f id -> f = CatalogPointers -> id <> sub_) as H2.
  { intros f id Hw ->. remember CatalogPointers as f eqn:Ef.
    destruct Hw as [caps other p' v f id Hr Hp Hpr Hw|g e f id _ _ [Hx _]|g x f id _ _ _ Hw].
    - destruct (Hq _ _ _ _ Hr Hp Hpr) as [Hne _]. destruct Hw as [[? _]|[_ ->]]; [naive_solver|done].
    - naive_solver.
    - unfold action_writes in Hw. destruct x; cbn in Hw; naive_solver. }
  split_and!; intros Hw; [by apply (H1 _ _ Hw (or_introl eq_refl))|by apply (H1 _ _ Hw (or_intror eq_refl))|by apply (H2 _ _ Hw)].
Qed.

Definition s_held (s : Server Sp) : Prop := held (objects (sv_bucket s)) (sv_attributes s).

(** What the attribute cache is after a handler. *)
Definition attributes_kept (m : comp (Server Sp) Response Response) : Prop :=
  forall s r s', m s = (r, s') -> s_held s -> remembers (sv_attributes s').

Lemma kept_ret r : attributes_kept (mret r).
Proof. by intros s x s' [= <- <-] [_ H]. Qed.

Lemma kept_extract {A} (x : result Response A) m : (forall a, attributes_kept (m a)) -> attributes_kept (lift x ≫= m).
Proof.
  intros Hm s r s' H Hs. unfold lift, mbind, comp_bind in H. destruct x as [a|e]; [by eapply Hm|].
  injection H as <- <-. apply Hs.
Qed.

Lemma kept_moderated {A} (answer : A -> Response) m : attributes_kept (moderated answer m).
Proof.
  intros s r s' H [_ Hs]. unfold moderated in H. destruct (sv_gate s) as [g|]; [|by injection H as <- <-].
  destruct (m _) as [r0 a]. by injection H as <- <-.
Qed.

Lemma kept_tagged {A} (answer : A -> Response) m : attributes_kept (tagged api answer m).
Proof. intros s r s' H [_ Hs]. unfold tagged in H. destruct (m _ _) as [r0 b]. by injection H as <- <-. Qed.

Lemma kept_cataloged {A} (answer : A -> Response) m :
  (forall st, stable v_held (m st) (fun _ => True)) \/ (forall st a, stable (same_attributes a) (m st) (fun _ => True)) ->
  attributes_kept (cataloged api answer m).
Proof.
  intros Hm s r s' H Hs. unfold cataloged in H. destruct (m _ _) as [r0 v] eqn:E. injection H as <- <-. cbn.
  destruct Hm as [Hm|Hm]; [by apply (Hm _ _ _ _ E)|].
  destruct (Hm _ (sv_attributes s) _ _ _ E eq_refl) as [-> _]. apply Hs.
Qed.

Lemma serve_held q t info s resp s' :
  serve_http http_get status_get prefix api q t info s = (resp, s') -> keeps_catalog q t s -> s_held s -> s_held s'.
Proof.
  intros H Hq [Hin Hr]. pose proof (serve_effect http_get status_get prefix api q t info s resp s' H) as [Hw _].
  destruct (catalog_not_written _ _ _ Hq) as (H1 & H2 & H3). split.
  { destruct Hin as (E1 & E2 & E3). split_and!.
    - exact (eq_trans (writes_frame prefix _ _ _ CatalogDocuments (pb_hash p) I H1 Hw) E1).
    - exact (eq_trans (writes_frame prefix _ _ _ CatalogIndexes (pb_hash p) I H2 Hw) E2).
    - exact (eq_trans (writes_frame prefix _ _ _ CatalogPointers sub_ I H3 Hw) E3). }
  unfold serve_http in H. destruct (routed q) as [h caps| |]; [|by injection H as <- <-..].
  destruct (handle _ _ _ _ _ _ _ _ _ _) as [r s1] eqn:E. injection H as <- <-.
  assert (forall m, attributes_kept m -> m s = (r, s1) -> remembers (sv_attributes s1)) as Hk by (intros m Hm Em; by eapply Hm).
  eapply Hk; [|exact E]. destruct h; unfold handle; cbv zeta;
    repeat first [apply kept_ret | apply kept_moderated | apply kept_tagged | apply kept_extract; intros ?];
    apply kept_cataloged; [left; intros ?; apply held_get|right; intros ? ?; apply put_attributes].
Qed.

(** Requests in a row, none of which replaces the catalog. Beside them, what
    leaves the catalog's objects alone: the push tasks and the refresh of the
    moderation view. *)
Inductive meanwhile : Server Sp -> Server Sp -> Prop :=
| MeanNothing s : meanwhile s s
| MeanRequest s q t info resp s1 s2 :
    meanwhile s s1 -> keeps_catalog q t s1 -> serve_http http_get status_get prefix api q t info s1 = (resp, s2) -> meanwhile s s2
| MeanBeside s s1 s2 :
    meanwhile s s1 -> sv_attributes s2 = sv_attributes s1 ->
    (forall f id, f ∈ [CatalogDocuments; CatalogIndexes; CatalogPointers] ->
       objects (sv_bucket s2) !! family_key prefix f id = objects (sv_bucket s1) !! family_key prefix f id) ->
    meanwhile s s2.

Lemma meanwhile_held s s' : meanwhile s s' -> s_held s -> s_held s'.
Proof.
  induction 1 as [|s q t info resp s1 s2 _ IH Hq H|s s1 s2 _ IH Ha Ho]; intros Hs; [done|by eapply serve_held, IH|].
  destruct (IH Hs) as [(E1 & E2 & E3) Hr]. split; [|by rewrite Ha].
  split_and!; [rewrite <- E1; apply (Ho CatalogDocuments)|rewrite <- E2; apply (Ho CatalogIndexes)
    |rewrite <- E3; apply (Ho CatalogPointers)]; set_solver.
Qed.
End Between.

(** ** From the publish to the readers *)

Section RoundTrip.
Context {SJ : Serde} {RT : SerdeRoundTrip SJ}.
Context {B64 : Base64} {HX : Hex} {B3 : Blake3} {SH : Sha2} {CB : Ciborium} {CO : Coset} {EC : P256}.
Context {HC : HttpCrate} {OT : OpenTdf} {TC : TdfCrate} {ZC : ZipCrate} {BC : BaoCrate} {S3 : S3Service}.
Context {SF : SealedFormat} {IR : Iroh} {AX : Axum}.
Context {Sp : Type} {P : DecisionProvider Sp}.
Context (http_get status_get : string -> http_answer) (prefix : string) (api : HttpApi).

#[local] Instance trip_tags : TagStore Bucket := s3_tag_store prefix.
#[local] Instance trip_records : ModerationStore Bucket := s3_moderation_store prefix.

Abbreviation routed q := (dispatch (ha_routes api) (hq_method q) (hq_path q)).

(** A request [h] answers, for the path [target]. *)
Definition asks (q : HttpRequest) (h : Handler.handler) (target : string) : Prop :=
  exists caps, routed q = Handled h caps /\ path_string caps = Ok target.

(** What the request publishes. *)
Definition submits (q : HttpRequest) (p : Publish) : Prop :=
  exists req, read_request (hq_body q) = Ok req /\ decode_document (rq_document req) = Ok (pb_document p)
    /\ pb_bundle p = rq_bundle req /\ pb_index p = rq_index req.

(** The catalog is shown: nothing of it is hidden by the operators. *)
Definition visible (s : Server Sp) (sub_ hash : string) : Prop :=
  owner_hidden (api_state api s) (Some sub_) = false /\ tag_is_blocked (api_state api s) hash = false.

Lemma serve_asked q h target t info s :
  asks q h target -> exists caps, path_string caps = Ok target
    /\ serve_http http_get status_get prefix api q t info s
       = (let '(r, s') := handle http_get status_get prefix api h caps q t info s in
          (match r with Ok x => x | Err x => x end, s')).
Proof. intros (caps & Hr & Hp). exists caps. split; [done|]. unfold serve_http. by rewrite Hr. Qed.

(** A publish that was answered 200. *)
Lemma put_answered q sub_ t info s resp s1 :
  asks q Handler.put_catalog sub_ -> serve_http http_get status_get prefix api q t info s = (resp, s1) ->
  rs_status resp = HTTP_OK ->
  exists j v', put_catalog http_get status_get (v2_config api s) sub_ (hq_headers q) (hq_body q) t (v2_of s) = (Ok j, v')
    /\ resp = json_response HTTP_OK j /\ s1 = with_v2 v' s.
Proof.
  intros Hq H Hs. destruct (serve_asked q _ _ t info s Hq) as (caps & Hp & E). rewrite E in H. clear E.
  unfold handle in H. cbv zeta in H. unfold lift in H. unfold mbind at 1, comp_bind at 1 in H. rewrite Hp in H.
  unfold cataloged in H. destruct (put_catalog _ _ _ _ _ _ _ _) as [[j|e] v'] eqn:Ep; injection H as <- <-.
  - by exists j, v'.
  - exfalso. apply (put_catalog_raises http_get status_get prefix) in Ep. unfold error_status in Ep. cbn in Hs.
    rewrite Hs in Ep. done.
Qed.

(** C5: A published catalog is read back. Once [PUT /v2/catalogs/{sub}] is
    answered 200, the answer names the subject, the sequence number, the hash
    and the size of the document that was sent, and, whatever requests that do
    not replace it come between, [GET /catalog-documents/{hash}] answers the
    very document, with its hash as entity tag, and [GET /v2/catalogs/{sub}],
    to an operator or a reader the decision service permits, the very bundle
    that was sent, with its sequence number as entity tag; as long as the
    operators do not hide it and the store answers. *)
Theorem catalog_put_get q sub_ t info s resp s1 :
  (forall log o, s3_fault log o = Healthy) ->
  asks q Handler.put_catalog sub_ -> serve_http http_get status_get prefix api q t info s = (resp, s1) ->
  rs_status resp = HTTP_OK ->
  exists p, submits q p /\ pb_hash p = hex_encode (blake3_hash (pb_document p))
    /\ resp = json_response HTTP_OK (JObject [("owner", JString sub_); ("seq", JInt (pt_seq (pb_pointer p)));
                 ("hash", JString (pb_hash p)); ("size", JInt (len (pb_document p)))])
    /\ forall s2 q' t' info', remembers p (sv_attributes s) -> meanwhile http_get status_get prefix api sub_ p s1 s2 ->
         visible s2 sub_ (pb_hash p) ->
         (asks q' Handler.get_catalog_document (pb_hash p) ->
          if_none_match (hq_headers q') (dquote +:+ pb_hash p +:+ dquote) = false ->
          (serve_http http_get status_get prefix api q' t' info' s2).1
          = {| rs_status := HTTP_OK; rs_headers := document_headers (pb_hash p); rs_body := pb_document p |})
         /\ (asks q' Handler.get_pointer sub_ ->
             may_read http_get (v2_config api s2) (hq_headers q') t' (sv_keys s2) (sv_provider s2) (pb_hash p) (pb_attribute p) ->
             (serve_http http_get status_get prefix api q' t' info' s2).1
             = {| rs_status := HTTP_OK; rs_headers := pointer_headers (pt_seq (pb_pointer p));
                  rs_body := serde_print (ser_bundle (pb_bundle p)) |}).
Proof.
  intros Hh Hq H Hs. destruct (put_answered _ _ _ _ _ _ _ Hq H Hs) as (j & v' & Ep & -> & ->).
  destruct (put_catalog_done _ _ _ _ _ _ _ _ _ _ _ Ep) as (p & v1 & Hprep & Hin & ->).
  destruct (prepared_publish _ _ _ _ _ _ _ _ _ _ _ Hprep) as (Hp & Hf & Hv & Hl).
  destruct (prepare_publish_ok _ _ _ prefix _ _ _ _ _ _ _ Hprep)
    as [(cl & k & sp & req & vb & k' & _ & _ & _ & Hr0 & Hd0 & Hb0 & Hi0 & _ & _ & Hhash & _) _].
  exists p. split_and!; [by exists req|done|done|]. intros s2 q' t' info' Hr Hm [Hhid Hblk].
  assert (s_held prefix sub_ p (with_v2 v' s)) as Hheld.
  { split; [done|]. unfold with_v2. cbn. by destruct (put_attributes _ _ _ _ _ _ _ _ _ _ _ _ Ep eq_refl) as [-> _]. }
  apply (meanwhile_held _ _ _ _ _ _ Hf _ _ Hm) in Hheld as [Hin2 Hr2]. split; intros Ha.
  - intros Hn. destruct (serve_asked q' _ _ t' info' s2 Ha) as (caps & Hc & ->). unfold handle. cbv zeta.
    unfold lift. unfold mbind at 1, comp_bind at 1. rewrite Hc. unfold tagged. change (tag_store prefix) with (reader_tags prefix).
    destruct (document_served prefix Hh (api_state api s2) (pb_hash p) (hq_headers q') (sv_bucket s2) _ _ Hl Hblk Hhid Hn (proj1 Hin2))
      as [b' ->]. done.
  - intros Hmay. destruct (serve_asked q' _ _ t' info' s2 Ha) as (caps & Hc & ->). unfold handle. cbv zeta.
    unfold lift. unfold mbind at 1, comp_bind at 1. rewrite Hc. unfold cataloged. change (tag_store prefix) with (reader_tags prefix).
    destruct (pointer_served http_get prefix Hh (v2_config api s2) sub_ (hq_headers q') t' p (v2_of s2)) as [b' ->]; done.
Qed.
End RoundTrip.

(** ** Witness *)

Module TripSample.
(** An ungated node whose decision service permits what it is asked. *)
#[local] Existing Instance plain_base64.
#[local] Existing Instance plain_hex.
#[local] Existing Instance toy_blake3.
#[local] Existing Instance BundleSample.sha.
#[local] Existing Instance BundleSample.p256.
#[local] Existing Instance IngestSample.tdf.
#[local] Existing Instance PublishSample.serde.
#[local] Existing Instance PublishSample.cbor_table.
#[local] Existing Instance PublishSample.cose_table.
#[local] Existing Instance PublishSample.header_plain.
#[local] Existing Instance PublishSample.no_policies.
#[local] Existing Instance PublishSample.zip.
#[local] Existing Instance PublishSample.bao.
#[local] Existing Instance PublishSample.s3.
#[local] Existing Instance PublishSample.permits.
#[local] Existing Instance GateSample.sealed.
#[local] Existing Instance ApiSample.iroh_any.
#[local] Existing Instance HttpSample.axum.

#[local] Instance trip_serde : SerdeRoundTrip PublishSample.serde.
Proof. apply named_serde_round_trip. vm_compute. reflexivity. Qed.

Definition ungated : ApiState := {| st_verifier := AuthSample.verifier; st_publishing := None |}.
Definition trip_api : HttpApi :=
  {| ha_policy := tp_policy PublishSample.operators; ha_state := ungated;
     ha_v2 := v2_state ungated "identity.arkavo.net" "" {| rd_provider := true; rd_action := "read"; rd_environment := None |};
     ha_routes := node_routes false; ha_plain := (LOCALHOST, 8090%Z); ha_https := None |}.

Definition trip_start : Server unit :=
  {| sv_keys := PublishSample.keys; sv_gate := None; sv_bucket := PublishSample.empty_bucket; sv_provider := tt;
     sv_attributes := ∅ |}.

Definition trip_request (m : method) (path : string) (body : http_body) : HttpRequest :=
  {| hq_method := m; hq_path := path; hq_headers := PublishSample.headers; hq_body := body |}.
Definition put : HttpRequest := trip_request PUT ("/v2/catalogs/" +:+ PublishSample.me) PublishSample.body.
Definition get_bundle : HttpRequest := trip_request GET ("/v2/catalogs/" +:+ PublishSample.me) (Whole "").
Definition get_document : HttpRequest := trip_request GET ("/catalog-documents/" +:+ PublishSample.doc_hash) (Whole "").

Abbreviation serve q := (serve_http PublishSample.offline PublishSample.offline "" trip_api q PublishSample.clocks HttpSample.info).

Definition stored : Server unit := (serve put trip_start).2.

Lemma catalog_put_get_witness :
  rs_status (serve put trip_start).1 = HTTP_OK
  /\ rs_body (serve get_document stored).1 = "document"
  /\ rs_body (serve get_bundle stored).1 = serde_print (ser_bundle BundleSample.bundle).
Proof.
  assert (rs_status (serve put trip_start).1 = HTTP_OK) as Hs by (vm_compute; reflexivity). split; [exact Hs|].
  destruct (catalog_put_get PublishSample.offline PublishSample.offline "" trip_api put PublishSample.me PublishSample.clocks
    HttpSample.info trip_start (serve put trip_start).1 stored) as (p & (req & Hreq & Hdoc & Hb & _) & Hh & _ & H).
  { intros log o. reflexivity. }
  { eexists. split; vm_compute; reflexivity. }
  { apply surjective_pairing. }
  { exact Hs. }
  vm_compute in Hreq. injection Hreq as <-. 
  assert (Ok (E := refusal) (pb_document p) = Ok "document") as [= Hd] by (rewrite <- Hdoc; vm_compute; reflexivity).
  assert (pb_hash p = PublishSample.doc_hash) as Hhash by (rewrite Hh, Hd; vm_compute; reflexivity).
  assert (forall q', _) as H' by (intros q'; apply (H stored q' PublishSample.clocks HttpSample.info);
    [intros a; done|constructor|split; reflexivity]). clear H. rewrite Hhash in H'.
  split.
  - rewrite (proj1 (H' get_document)); [exact Hd|eexists; split; vm_compute; reflexivity|vm_compute; reflexivity].
  - rewrite (proj2 (H' get_bundle)); [cbn [rs_body]; rewrite Hb; reflexivity|eexists; split; vm_compute; reflexivity|].
    eexists _, _. split; [vm_compute; reflexivity|]. right. intros [k b pr a]. cbn [v_keys v_provider]. intros -> ->.
    eexists. vm_compute. reflexivity.
Defined.
End TripSample.
